(** * Footnote and citation extraction over annotated rich text

    A shallow embedding of [src/lib/footnotes.ts] and [src/lib/citations.ts]
    and the properties of the extraction engine proved about it.

    Conventions of the embedding:
    - a JavaScript string is the list of its UTF-16 code units ([jsstring]);
      [js "..."] writes an ASCII literal;
    - character positions and lengths are [nat] (the code only ever computes
      non-negative offsets; the two places that subtract past zero are
      guarded by [Math.max(0, _)] or by an overlap test);
    - [interfaces.ts] is not part of the sources, so the record types below
      are reconstructed from the field accesses of the two modules;
    - objects that the code mutates in place (blocks, rich-text arrays) are
      threaded explicitly: a function that mutates its [block] argument
      returns the updated block;
    - the object store with sharing, needed to talk about [cloneRichText]
      as a copy, is modelled separately in [Module Store]. *)

From stdpp Require Import gmap strings list.
From Stdlib Require Import NArith ZArith Lia Permutation Sorted DecimalString.
From Stdlib Require DecimalNat DecimalFacts.

Local Open Scope nat_scope.

(* ===================================================================== *)
(** * JavaScript strings *)
(* ===================================================================== *)

Abbreviation jsstring := (list N).

(** ASCII literal as a list of code units. *)
Definition js (s : string) : jsstring :=
  List.map Ascii.N_of_ascii (String.list_ascii_of_string s).

Definition jsstring_eqb (a b : jsstring) : bool := bool_decide (a = b).

(** [s.substring(a, b)]: the arguments are clamped to the length and swapped
    when [a > b]. *)
Definition substring (s : jsstring) (a b : nat) : jsstring :=
  take (Nat.max a b - Nat.min a b) (drop (Nat.min a b) s).

(** [s.substring(a)] *)
Definition substringFrom (s : jsstring) (a : nat) : jsstring := drop a s.

Definition in_range (lo hi c : N) : bool := (N.leb lo c && N.leb c hi)%bool.

(** [[a-zA-Z0-9_]], which is also [\w] (no [i]/[u] flag is used). *)
Definition isWordChar (c : N) : bool :=
  (in_range 97 122 c || in_range 65 90 c || in_range 48 57 c || N.eqb c 95)%bool.

(** [[a-zA-Z0-9_\-:]] *)
Definition isCiteKeyChar (c : N) : bool :=
  (isWordChar c || N.eqb c 45 || N.eqb c 58)%bool.

(** ECMAScript WhiteSpace and LineTerminator code points: what [\s]
    matches and what [trim], [trimStart], [trimEnd] strip. *)
Definition isWhiteSpace (c : N) : bool :=
  (in_range 9 13 c || N.eqb c 32 || N.eqb c 160 || N.eqb c 5760
   || in_range 8192 8202 c || N.eqb c 8232 || N.eqb c 8233
   || N.eqb c 8239 || N.eqb c 8287 || N.eqb c 12288 || N.eqb c 65279)%bool.

(** LineTerminator: where [^] matches under the [m] flag. *)
Definition isLineTerminator (c : N) : bool :=
  (N.eqb c 10 || N.eqb c 13 || N.eqb c 8232 || N.eqb c 8233)%bool.

Fixpoint trimStart (s : jsstring) : jsstring :=
  match s with
  | c :: s' => if isWhiteSpace c then trimStart s' else s
  | [] => []
  end.

Definition trimEnd (s : jsstring) : jsstring := rev (trimStart (rev s)).

Definition trim (s : jsstring) : jsstring := trimEnd (trimStart s).

(** [hay.startsWith(needle)] on code units. *)
Fixpoint startsWith (needle hay : jsstring) : bool :=
  match needle, hay with
  | [], _ => true
  | n :: needle', h :: hay' => (N.eqb n h && startsWith needle' hay')%bool
  | _ :: _, [] => false
  end.

(** [hay.includes(needle)] *)
Fixpoint includes (needle hay : jsstring) : bool :=
  (startsWith needle hay ||
   match hay with
   | [] => false
   | _ :: hay' => includes needle hay'
   end)%bool.

(** Decimal rendering of an array index inside a template literal. *)
Definition showNat (n : nat) : jsstring :=
  js (NilZero.string_of_uint (Nat.to_uint n)).

(* ===================================================================== *)
(** * Data model ([interfaces.ts], reconstructed from use) *)
(* ===================================================================== *)

(** Modelled from the spec: the type declarations of [interfaces.ts] are
    not among the sources. [Annotation] has the six required fields of the
    specification's data model, Color being kept as the string it is. *)
Record Annotation := mkAnnotation {
  Bold : bool;
  Italic : bool;
  Strikethrough : bool;
  Underline : bool;
  Code : bool;
  Color : jsstring
}.

Record Link := mkLink { Url : jsstring }.

Record Text := mkText {
  Content : jsstring;
  Link_ : option Link
}.

Record Equation := mkEquation { Expression : jsstring }.

Record InterlinkedContent := mkInterlinkedContent {
  PageId : jsstring;
  InterlinkedType : jsstring
}.

Record LinkMention := mkLinkMention {
  LM_Href : option jsstring;
  LM_Title : option jsstring;
  LM_IconUrl : option jsstring;
  LM_Description : option jsstring;
  LM_LinkAuthor : option jsstring;
  LM_ThumbnailUrl : option jsstring;
  LM_Height : option Z;
  LM_IframeUrl : option jsstring;
  LM_LinkProvider : option jsstring
}.

Record CustomEmoji := mkCustomEmoji {
  Emoji_Name : option jsstring;
  Emoji_Url : option jsstring
}.

(** Modelled from the spec: [Mention] of [interfaces.ts], with the payloads
    that [convertNotionRichTextToOurFormat] assigns (page reference, date
    string, link preview, custom emoji). *)
Record Mention := mkMention {
  MentionType : jsstring;
  Page : option InterlinkedContent;
  DateStr : option jsstring;
  LinkMention_ : option LinkMention;
  CustomEmoji_ : option CustomEmoji
}.

(** Modelled from the spec: [RichText] of [interfaces.ts]: [PlainText],
    the optional [Text], the [Annotation] record, the optional [Equation]
    and [Mention], and the two marker flags with their references; [Href]
    and [InternalHref] are the further fields the two modules touch. *)
Record RichText := mkRichText {
  Text_ : option Text;
  Annotation_ : Annotation;
  PlainText : jsstring;
  Href : option jsstring;
  Equation_ : option Equation;
  Mention_ : option Mention;
  InternalHref : option InterlinkedContent;
  IsFootnoteMarker : option bool;
  FootnoteRef : option jsstring;
  IsCitationMarker : option bool;
  CitationRef : option jsstring
}.

(** Field updates [rt.PlainText = s] and [rt.Text.Content = s]. *)
Definition setPlainText (s : jsstring) (rt : RichText) : RichText :=
  mkRichText (Text_ rt) (Annotation_ rt) s (Href rt) (Equation_ rt)
    (Mention_ rt) (InternalHref rt) (IsFootnoteMarker rt) (FootnoteRef rt)
    (IsCitationMarker rt) (CitationRef rt).

Definition setText (t : option Text) (rt : RichText) : RichText :=
  mkRichText t (Annotation_ rt) (PlainText rt) (Href rt) (Equation_ rt)
    (Mention_ rt) (InternalHref rt) (IsFootnoteMarker rt) (FootnoteRef rt)
    (IsCitationMarker rt) (CitationRef rt).

(** [if (rt.Text) rt.Text.Content = s] *)
Definition setTextContentIfPresent (s : jsstring) (rt : RichText) : RichText :=
  match Text_ rt with
  | Some t => setText (Some (mkText s (Link_ t))) rt
  | None => rt
  end.

Definition setFootnoteMarker (key : jsstring) (rt : RichText) : RichText :=
  mkRichText (Text_ rt) (Annotation_ rt) (PlainText rt) (Href rt) (Equation_ rt)
    (Mention_ rt) (InternalHref rt) (Some true) (Some key)
    (IsCitationMarker rt) (CitationRef rt).

(* ===================================================================== *)
(** * RichText helper utilities ([footnotes.ts]) *)
(* ===================================================================== *)

(** [richTexts.map((rt) => rt.PlainText).join("")] *)
Definition joinPlainText (richTexts : list RichText) : jsstring :=
  concat (List.map PlainText richTexts).

(** [cloneRichText] on values: the copy rebuilds the span and its [Text],
    [Text.Link], [Annotation], [Equation], [Mention] and [InternalHref]
    records field by field. Which objects the copy shares with its source is
    the subject of [Module Store]. *)
Definition cloneRichText (richText : RichText) : RichText :=
  {| Text_ := match Text_ richText with
              | Some t =>
                  Some {| Content := Content t;
                          Link_ := match Link_ t with
                                   | Some l => Some {| Url := Url l |}
                                   | None => None
                                   end |}
              | None => None
              end;
     Annotation_ := let a := Annotation_ richText in
                    {| Bold := Bold a; Italic := Italic a;
                       Strikethrough := Strikethrough a;
                       Underline := Underline a; Code := Code a;
                       Color := Color a |};
     PlainText := PlainText richText;
     Href := Href richText;
     Equation_ := match Equation_ richText with
                  | Some e => Some {| Expression := Expression e |}
                  | None => None
                  end;
     Mention_ := match Mention_ richText with
                 | Some m =>
                     Some {| MentionType := MentionType m; Page := Page m;
                             DateStr := DateStr m;
                             LinkMention_ := LinkMention_ m;
                             CustomEmoji_ := CustomEmoji_ m |}
                 | None => None
                 end;
     InternalHref := match InternalHref richText with
                     | Some h => Some {| PageId := PageId h;
                                         InterlinkedType := InterlinkedType h |}
                     | None => None
                     end;
     IsFootnoteMarker := IsFootnoteMarker richText;
     FootnoteRef := FootnoteRef richText;
     IsCitationMarker := IsCitationMarker richText;
     CitationRef := CitationRef richText |}.

(** One half of a span cut by a split: a clone whose [PlainText] (and
    [Text.Content], when there is a [Text]) is the given piece. *)
Definition pieceOf (richText : RichText) (piece : jsstring) : RichText :=
  setTextContentIfPresent piece (setPlainText piece (cloneRichText richText)).

(** The loop body of [splitRichTextsAtCharPosition], with [currentPos]
    threaded through the recursion. *)
Fixpoint splitLoop (richTexts : list RichText) (splitCharPos currentPos : nat)
  : list RichText * list RichText :=
  match richTexts with
  | [] => ([], [])
  | richText :: rest =>
      let length_ := length (PlainText richText) in
      let rtStart := currentPos in
      let rtEnd := currentPos + length_ in
      let '(before, after) := splitLoop rest splitCharPos (currentPos + length_) in
      if splitCharPos <=? rtStart then (before, richText :: after)
      else if rtEnd <=? splitCharPos then (richText :: before, after)
      else
        let splitOffset := splitCharPos - rtStart in
        let before' :=
          if 0 <? splitOffset
          then pieceOf richText (substring (PlainText richText) 0 splitOffset) :: before
          else before in
        let after' :=
          if splitOffset <? length_
          then pieceOf richText (substringFrom (PlainText richText) splitOffset) :: after
          else after in
        (before', after')
  end.

Definition splitRichTextsAtCharPosition (richTexts : list RichText) (splitCharPos : nat)
  : list RichText * list RichText :=
  splitLoop richTexts splitCharPos 0.

(* ===================================================================== *)
(** * Regular expressions of the two modules *)
(* ===================================================================== *)

(** Every pattern of the two modules has the shape
    [open-literal  (class+)  close-literal  tail], where the first character
    of the close literal is outside the class; the greedy [+] therefore takes
    the whole run of class characters and no backtracking can produce
    another match at the same position. A pattern is modelled by the
    function that matches it at the head of a suffix of the text.

    The footnote patterns interpolate the configured marker prefix into
    the pattern source; [findAllFootnoteMarkers] and
    [parseFootnoteDefinitionsFromRichText] do so without escaping it. The
    prefix is modelled as a literal, which is what the code computes when the
    prefix has no regular-expression metacharacter ([regexLiteral]). *)

Record RegExpMatch := mkMatch {
  index : nat;            (* match.index *)
  match0 : jsstring;      (* match[0] *)
  match1 : jsstring       (* match[1] *)
}.

(** Characters that [createContentPattern] escapes: [.*+?^${}()|[\]\\]. *)
Definition isRegexMeta (c : N) : bool :=
  bool_decide (c ∈ js ".*+?^${}()|[]\").

Definition regexLiteral (s : jsstring) : bool := forallb (fun c => negb (isRegexMeta c)) s.

(** Match a literal at the head of [s]; the rest of [s] on success. *)
Fixpoint stripLiteral (lit s : jsstring) : option jsstring :=
  match lit, s with
  | [], _ => Some s
  | l :: lit', c :: s' => if N.eqb l c then stripLiteral lit' s' else None
  | _ :: _, [] => None
  end.

(** Greedy run of class characters at the head of [s]. *)
Fixpoint spanClass (cls : N -> bool) (s : jsstring) : jsstring * jsstring :=
  match s with
  | c :: s' =>
      if cls c then let '(run, rest) := spanClass cls s' in (c :: run, rest)
      else ([], s)
  | [] => ([], [])
  end.

(** [open (cls+) close] at the head of [s]: the captured group and the rest. *)
Definition matchToken (open : jsstring) (cls : N -> bool) (close s : jsstring)
  : option (jsstring * jsstring) :=
  match stripLiteral open s with
  | Some s1 =>
      match spanClass cls s1 with
      | ([], _) => None
      | (key, s2) =>
          match stripLiteral close s2 with
          | Some s3 => Some (key, s3)
          | None => None
          end
      end
  | None => None
  end.

(** A pattern matched at one position: given the character before the
    position (for [^]) and the suffix starting there, the captured group and
    the length of [match[0]]. *)
Definition Matcher := option N -> jsstring -> option (jsstring * nat).

(** [/\[\^<prefix>([a-zA-Z0-9_]+)\](?!:)/] *)
Definition inlineMarkerPattern (markerPrefix : jsstring) : Matcher :=
  fun _ s =>
    match matchToken (js "[^" ++ markerPrefix) isWordChar (js "]") s with
    | Some (key, rest) =>
        match rest with
        | 58%N :: _ => None
        | _ => Some (key, length s - length rest)
        end
    | None => None
    end.

(** [/\n\n\[\^<prefix>([a-zA-Z0-9_]+)\]:\s*/] *)
Definition definitionPattern (markerPrefix : jsstring) : Matcher :=
  fun _ s =>
    match matchToken (10%N :: 10%N :: js "[^" ++ markerPrefix) isWordChar (js "]:") s with
    | Some (key, rest) => Some (key, length s - length (snd (spanClass isWhiteSpace rest)))
    | None => None
    end.

(** [createContentPattern]: [/^\[\^<escaped prefix>(\w+)\]:\s*/gm]. Under the
    [m] flag [^] matches at the start of the text and after each line
    terminator. The prefix is escaped here, so it is a literal for every
    prefix. *)
Definition createContentPattern (markerPrefix : jsstring) : Matcher :=
  fun prev s =>
    let atLineStart := match prev with
                       | None => true
                       | Some c => isLineTerminator c
                       end in
    if atLineStart then
      match matchToken (js "[^" ++ markerPrefix) isWordChar (js "]:") s with
      | Some (key, rest) => Some (key, length s - length (snd (spanClass isWhiteSpace rest)))
      | None => None
      end
    else None.

(** [/<open>([a-zA-Z0-9_\-:]+)<close>/]: the three citation patterns. *)
Definition citationPattern (open close : jsstring) : Matcher :=
  fun _ s =>
    match matchToken open isCiteKeyChar close s with
    | Some (key, rest) => Some (key, length s - length rest)
    | None => None
    end.

(** The loop [while ((match = pattern.exec(text)) !== null)] of a global
    pattern started with [lastIndex = 0]: all matches from left to right, each
    search resuming at the end of the previous match ([skip] counts the
    characters of the last match still to pass). No pattern here matches the
    empty string. *)
Fixpoint execLoop (p : Matcher) (prev : option N) (pos skip : nat) (s : jsstring)
  : list RegExpMatch :=
  match s with
  | [] => []
  | c :: s' =>
      match skip with
      | S k => execLoop p (Some c) (S pos) k s'
      | O =>
          match p prev s with
          | Some (key, len) =>
              mkMatch pos (take len s) key :: execLoop p (Some c) (S pos) (len - 1) s'
          | None => execLoop p (Some c) (S pos) 0 s'
          end
      end
  end.

Definition execAll (p : Matcher) (text : jsstring) : list RegExpMatch :=
  execLoop p None 0 0 text.

(** One [pattern.exec(text)] of a global pattern whose [lastIndex] is
    [lastIndex]: the first match at or after that position. The new
    [lastIndex] is the end of the match, or 0 when there is none. *)
Fixpoint execSearch (p : Matcher) (prev : option N) (pos : nat) (s : jsstring)
  : option RegExpMatch :=
  match s with
  | [] => None
  | c :: s' =>
      match p prev s with
      | Some (key, len) => Some (mkMatch pos (take len s) key)
      | None => execSearch p (Some c) (S pos) s'
      end
  end.

Definition exec (p : Matcher) (text : jsstring) (lastIndex : nat)
  : option RegExpMatch * nat :=
  let prev := match lastIndex with
              | O => None
              | S i => text !! i
              end in
  match execSearch p prev lastIndex (drop lastIndex text) with
  | Some m => (Some m, index m + length (match0 m))
  | None => (None, 0)
  end.

(** [text.match(/\n\n\[\^/)]: index of the first occurrence of the literal. *)
Fixpoint indexOfFrom (needle hay : jsstring) (pos : nat) : option nat :=
  if startsWith needle hay then Some pos
  else match hay with
       | [] => None
       | _ :: hay' => indexOfFrom needle hay' (S pos)
       end.

Definition firstDefinitionIndex (fullText : jsstring) : option nat :=
  indexOfFrom (10%N :: 10%N :: js "[^") fullText 0.

(* ===================================================================== *)
(** * Blocks and locations *)
(* ===================================================================== *)

(** Content of the text-bearing block kinds (Paragraph, Heading1-3,
    BulletedListItem, NumberedListItem, ToDo, Quote, Callout, Toggle): the
    two fields the modules read are [RichTexts] and [Children]. *)
Record TextBlock (B : Type) := mkTextBlock {
  RichTexts : list RichText;
  Children : option (list B)
}.
Arguments mkTextBlock {B}.
Arguments RichTexts {B}.
Arguments Children {B}.

Record CodeBlock := mkCodeBlock {
  Code_RichTexts : list RichText;
  Code_Caption : option (list RichText)
}.

(** Media, embed and bookmark kinds: only [Caption] is read. *)
Record Captioned := mkCaptioned { Caption : option (list RichText) }.

Record TableCell := mkTableCell { Cell_RichTexts : list RichText }.
Record TableRow := mkTableRow { Cells : list TableCell }.
Record TableT := mkTable { Rows : option (list TableRow) }.

Record SyncedBlockT (B : Type) := mkSyncedBlock { Synced_Children : option (list B) }.
Arguments mkSyncedBlock {B}.
Arguments Synced_Children {B}.

(** Modelled from the spec: [Block] of [interfaces.ts], an object with one
    optional field per block kind; the kinds kept are those the two modules
    read, each with the fields they read. *)
#[local] Set Warnings "-register-all".
Inductive Block := mkBlock {
  Id : jsstring;
  Paragraph : option (TextBlock Block);
  Heading1 : option (TextBlock Block);
  Heading2 : option (TextBlock Block);
  Heading3 : option (TextBlock Block);
  BulletedListItem : option (TextBlock Block);
  NumberedListItem : option (TextBlock Block);
  ToDo : option (TextBlock Block);
  Quote : option (TextBlock Block);
  Callout : option (TextBlock Block);
  Toggle : option (TextBlock Block);
  BCode : option CodeBlock;
  NImage : option Captioned;
  Video : option Captioned;
  NAudio : option Captioned;
  File : option Captioned;
  Embed : option Captioned;
  Bookmark : option Captioned;
  LinkPreview : option Captioned;
  Table : option TableT;
  SyncedBlock : option (SyncedBlockT Block)
}.

(** Replacing one field of a block (the assignments [block.X = ...]). *)
Definition withParagraph (v : option (TextBlock Block)) (b : Block) : Block :=
  mkBlock (Id b) v (Heading1 b) (Heading2 b) (Heading3 b)
    (BulletedListItem b) (NumberedListItem b) (ToDo b) (Quote b) (Callout b)
    (Toggle b) (BCode b) (NImage b) (Video b) (NAudio b) (File b) (Embed b)
    (Bookmark b) (LinkPreview b) (Table b) (SyncedBlock b).

Definition withHeading1 (v : option (TextBlock Block)) (b : Block) : Block :=
  mkBlock (Id b) (Paragraph b) v (Heading2 b) (Heading3 b)
    (BulletedListItem b) (NumberedListItem b) (ToDo b) (Quote b) (Callout b)
    (Toggle b) (BCode b) (NImage b) (Video b) (NAudio b) (File b) (Embed b)
    (Bookmark b) (LinkPreview b) (Table b) (SyncedBlock b).

Definition withHeading2 (v : option (TextBlock Block)) (b : Block) : Block :=
  mkBlock (Id b) (Paragraph b) (Heading1 b) v (Heading3 b)
    (BulletedListItem b) (NumberedListItem b) (ToDo b) (Quote b) (Callout b)
    (Toggle b) (BCode b) (NImage b) (Video b) (NAudio b) (File b) (Embed b)
    (Bookmark b) (LinkPreview b) (Table b) (SyncedBlock b).

Definition withHeading3 (v : option (TextBlock Block)) (b : Block) : Block :=
  mkBlock (Id b) (Paragraph b) (Heading1 b) (Heading2 b) v
    (BulletedListItem b) (NumberedListItem b) (ToDo b) (Quote b) (Callout b)
    (Toggle b) (BCode b) (NImage b) (Video b) (NAudio b) (File b) (Embed b)
    (Bookmark b) (LinkPreview b) (Table b) (SyncedBlock b).

Definition withBulletedListItem (v : option (TextBlock Block)) (b : Block) : Block :=
  mkBlock (Id b) (Paragraph b) (Heading1 b) (Heading2 b) (Heading3 b) v
    (NumberedListItem b) (ToDo b) (Quote b) (Callout b) (Toggle b) (BCode b)
    (NImage b) (Video b) (NAudio b) (File b) (Embed b) (Bookmark b)
    (LinkPreview b) (Table b) (SyncedBlock b).

Definition withNumberedListItem (v : option (TextBlock Block)) (b : Block) : Block :=
  mkBlock (Id b) (Paragraph b) (Heading1 b) (Heading2 b) (Heading3 b)
    (BulletedListItem b) v (ToDo b) (Quote b) (Callout b) (Toggle b)
    (BCode b) (NImage b) (Video b) (NAudio b) (File b) (Embed b) (Bookmark b)
    (LinkPreview b) (Table b) (SyncedBlock b).

Definition withToDo (v : option (TextBlock Block)) (b : Block) : Block :=
  mkBlock (Id b) (Paragraph b) (Heading1 b) (Heading2 b) (Heading3 b)
    (BulletedListItem b) (NumberedListItem b) v (Quote b) (Callout b)
    (Toggle b) (BCode b) (NImage b) (Video b) (NAudio b) (File b) (Embed b)
    (Bookmark b) (LinkPreview b) (Table b) (SyncedBlock b).

Definition withQuote (v : option (TextBlock Block)) (b : Block) : Block :=
  mkBlock (Id b) (Paragraph b) (Heading1 b) (Heading2 b) (Heading3 b)
    (BulletedListItem b) (NumberedListItem b) (ToDo b) v (Callout b)
    (Toggle b) (BCode b) (NImage b) (Video b) (NAudio b) (File b) (Embed b)
    (Bookmark b) (LinkPreview b) (Table b) (SyncedBlock b).

Definition withCallout (v : option (TextBlock Block)) (b : Block) : Block :=
  mkBlock (Id b) (Paragraph b) (Heading1 b) (Heading2 b) (Heading3 b)
    (BulletedListItem b) (NumberedListItem b) (ToDo b) (Quote b) v (Toggle b)
    (BCode b) (NImage b) (Video b) (NAudio b) (File b) (Embed b) (Bookmark b)
    (LinkPreview b) (Table b) (SyncedBlock b).

Definition withToggle (v : option (TextBlock Block)) (b : Block) : Block :=
  mkBlock (Id b) (Paragraph b) (Heading1 b) (Heading2 b) (Heading3 b)
    (BulletedListItem b) (NumberedListItem b) (ToDo b) (Quote b) (Callout b)
    v (BCode b) (NImage b) (Video b) (NAudio b) (File b) (Embed b)
    (Bookmark b) (LinkPreview b) (Table b) (SyncedBlock b).

Definition withBCode (v : option (CodeBlock)) (b : Block) : Block :=
  mkBlock (Id b) (Paragraph b) (Heading1 b) (Heading2 b) (Heading3 b)
    (BulletedListItem b) (NumberedListItem b) (ToDo b) (Quote b) (Callout b)
    (Toggle b) v (NImage b) (Video b) (NAudio b) (File b) (Embed b)
    (Bookmark b) (LinkPreview b) (Table b) (SyncedBlock b).

Definition withNImage (v : option (Captioned)) (b : Block) : Block :=
  mkBlock (Id b) (Paragraph b) (Heading1 b) (Heading2 b) (Heading3 b)
    (BulletedListItem b) (NumberedListItem b) (ToDo b) (Quote b) (Callout b)
    (Toggle b) (BCode b) v (Video b) (NAudio b) (File b) (Embed b)
    (Bookmark b) (LinkPreview b) (Table b) (SyncedBlock b).

Definition withVideo (v : option (Captioned)) (b : Block) : Block :=
  mkBlock (Id b) (Paragraph b) (Heading1 b) (Heading2 b) (Heading3 b)
    (BulletedListItem b) (NumberedListItem b) (ToDo b) (Quote b) (Callout b)
    (Toggle b) (BCode b) (NImage b) v (NAudio b) (File b) (Embed b)
    (Bookmark b) (LinkPreview b) (Table b) (SyncedBlock b).

Definition withNAudio (v : option (Captioned)) (b : Block) : Block :=
  mkBlock (Id b) (Paragraph b) (Heading1 b) (Heading2 b) (Heading3 b)
    (BulletedListItem b) (NumberedListItem b) (ToDo b) (Quote b) (Callout b)
    (Toggle b) (BCode b) (NImage b) (Video b) v (File b) (Embed b)
    (Bookmark b) (LinkPreview b) (Table b) (SyncedBlock b).

Definition withFile (v : option (Captioned)) (b : Block) : Block :=
  mkBlock (Id b) (Paragraph b) (Heading1 b) (Heading2 b) (Heading3 b)
    (BulletedListItem b) (NumberedListItem b) (ToDo b) (Quote b) (Callout b)
    (Toggle b) (BCode b) (NImage b) (Video b) (NAudio b) v (Embed b)
    (Bookmark b) (LinkPreview b) (Table b) (SyncedBlock b).

Definition withEmbed (v : option (Captioned)) (b : Block) : Block :=
  mkBlock (Id b) (Paragraph b) (Heading1 b) (Heading2 b) (Heading3 b)
    (BulletedListItem b) (NumberedListItem b) (ToDo b) (Quote b) (Callout b)
    (Toggle b) (BCode b) (NImage b) (Video b) (NAudio b) (File b) v
    (Bookmark b) (LinkPreview b) (Table b) (SyncedBlock b).

Definition withBookmark (v : option (Captioned)) (b : Block) : Block :=
  mkBlock (Id b) (Paragraph b) (Heading1 b) (Heading2 b) (Heading3 b)
    (BulletedListItem b) (NumberedListItem b) (ToDo b) (Quote b) (Callout b)
    (Toggle b) (BCode b) (NImage b) (Video b) (NAudio b) (File b) (Embed b) v
    (LinkPreview b) (Table b) (SyncedBlock b).

Definition withLinkPreview (v : option (Captioned)) (b : Block) : Block :=
  mkBlock (Id b) (Paragraph b) (Heading1 b) (Heading2 b) (Heading3 b)
    (BulletedListItem b) (NumberedListItem b) (ToDo b) (Quote b) (Callout b)
    (Toggle b) (BCode b) (NImage b) (Video b) (NAudio b) (File b) (Embed b)
    (Bookmark b) v (Table b) (SyncedBlock b).

Definition withTable (v : option (TableT)) (b : Block) : Block :=
  mkBlock (Id b) (Paragraph b) (Heading1 b) (Heading2 b) (Heading3 b)
    (BulletedListItem b) (NumberedListItem b) (ToDo b) (Quote b) (Callout b)
    (Toggle b) (BCode b) (NImage b) (Video b) (NAudio b) (File b) (Embed b)
    (Bookmark b) (LinkPreview b) v (SyncedBlock b).

Definition withSyncedBlock (v : option (SyncedBlockT Block)) (b : Block) : Block :=
  mkBlock (Id b) (Paragraph b) (Heading1 b) (Heading2 b) (Heading3 b)
    (BulletedListItem b) (NumberedListItem b) (ToDo b) (Quote b) (Callout b)
    (Toggle b) (BCode b) (NImage b) (Video b) (NAudio b) (File b) (Embed b)
    (Bookmark b) (LinkPreview b) (Table b) v.

(** The write-back closure of a location, named by the field it assigns. *)
Inductive ScalarPath :=
  | Paragraph_RichTexts | Heading1_RichTexts | Heading2_RichTexts
  | Heading3_RichTexts | BulletedListItem_RichTexts | NumberedListItem_RichTexts
  | ToDo_RichTexts | Quote_RichTexts | Callout_RichTexts | Toggle_RichTexts
  | BCode_Caption | NImage_Caption | Video_Caption | NAudio_Caption
  | File_Caption | Embed_Caption | Bookmark_Caption | LinkPreview_Caption.

Inductive Path :=
  | Scalar (p : ScalarPath)
  | Cell (rowIndex cellIndex : nat).

Record RichTextLocation := mkLocation {
  property : jsstring;
  richTexts : list RichText;
  setter : Path
}.

(** The scalar locations in the order [getAllRichTextLocations] tests them. *)
Definition scalarPaths : list ScalarPath :=
  [ Paragraph_RichTexts; Heading1_RichTexts; Heading2_RichTexts;
    Heading3_RichTexts; BulletedListItem_RichTexts; NumberedListItem_RichTexts;
    ToDo_RichTexts; Quote_RichTexts; Callout_RichTexts; Toggle_RichTexts;
    BCode_Caption; NImage_Caption; Video_Caption; NAudio_Caption;
    File_Caption; Embed_Caption; Bookmark_Caption; LinkPreview_Caption ].

Definition scalarName (p : ScalarPath) : jsstring :=
  match p with
  | Paragraph_RichTexts => js "Paragraph.RichTexts"
  | Heading1_RichTexts => js "Heading1.RichTexts"
  | Heading2_RichTexts => js "Heading2.RichTexts"
  | Heading3_RichTexts => js "Heading3.RichTexts"
  | BulletedListItem_RichTexts => js "BulletedListItem.RichTexts"
  | NumberedListItem_RichTexts => js "NumberedListItem.RichTexts"
  | ToDo_RichTexts => js "ToDo.RichTexts"
  | Quote_RichTexts => js "Quote.RichTexts"
  | Callout_RichTexts => js "Callout.RichTexts"
  | Toggle_RichTexts => js "Toggle.RichTexts"
  | BCode_Caption => js "Code.Caption"
  | NImage_Caption => js "NImage.Caption"
  | Video_Caption => js "Video.Caption"
  | NAudio_Caption => js "NAudio.Caption"
  | File_Caption => js "File.Caption"
  | Embed_Caption => js "Embed.Caption"
  | Bookmark_Caption => js "Bookmark.Caption"
  | LinkPreview_Caption => js "LinkPreview.Caption"
  end.

(** [`Table.Rows[${rowIndex}].Cells[${cellIndex}]`] *)
Definition cellName (rowIndex cellIndex : nat) : jsstring :=
  js "Table.Rows[" ++ showNat rowIndex ++ js "].Cells[" ++ showNat cellIndex ++ js "]".

(** The guard and the array each [if (block.X) addLocation(.., block.X.F, ..)]
    reads: [None] when the guard is falsy. *)
Definition readScalar (p : ScalarPath) (block : Block) : option (list RichText) :=
  match p with
  | Paragraph_RichTexts => RichTexts <$> Paragraph block
  | Heading1_RichTexts => RichTexts <$> Heading1 block
  | Heading2_RichTexts => RichTexts <$> Heading2 block
  | Heading3_RichTexts => RichTexts <$> Heading3 block
  | BulletedListItem_RichTexts => RichTexts <$> BulletedListItem block
  | NumberedListItem_RichTexts => RichTexts <$> NumberedListItem block
  | ToDo_RichTexts => RichTexts <$> ToDo block
  | Quote_RichTexts => RichTexts <$> Quote block
  | Callout_RichTexts => RichTexts <$> Callout block
  | Toggle_RichTexts => RichTexts <$> Toggle block
  | BCode_Caption => BCode block ≫= Code_Caption
  | NImage_Caption => NImage block ≫= Caption
  | Video_Caption => Video block ≫= Caption
  | NAudio_Caption => NAudio block ≫= Caption
  | File_Caption => File block ≫= Caption
  | Embed_Caption => Embed block ≫= Caption
  | Bookmark_Caption => Bookmark block ≫= Caption
  | LinkPreview_Caption => LinkPreview block ≫= Caption
  end.

Definition setRichTexts (rt : list RichText) (v : option (TextBlock Block))
  : option (TextBlock Block) :=
  (fun t => mkTextBlock rt (Children t)) <$> v.

Definition setCaption (rt : list RichText) (v : option Captioned) : option Captioned :=
  (fun _ => mkCaptioned (Some rt)) <$> v.

(** The assignment each setter closure performs. A setter only exists for a
    field that was present when the locations were listed. *)
Definition writeScalar (p : ScalarPath) (rt : list RichText) (block : Block) : Block :=
  match p with
  | Paragraph_RichTexts => withParagraph (setRichTexts rt (Paragraph block)) block
  | Heading1_RichTexts => withHeading1 (setRichTexts rt (Heading1 block)) block
  | Heading2_RichTexts => withHeading2 (setRichTexts rt (Heading2 block)) block
  | Heading3_RichTexts => withHeading3 (setRichTexts rt (Heading3 block)) block
  | BulletedListItem_RichTexts =>
      withBulletedListItem (setRichTexts rt (BulletedListItem block)) block
  | NumberedListItem_RichTexts =>
      withNumberedListItem (setRichTexts rt (NumberedListItem block)) block
  | ToDo_RichTexts => withToDo (setRichTexts rt (ToDo block)) block
  | Quote_RichTexts => withQuote (setRichTexts rt (Quote block)) block
  | Callout_RichTexts => withCallout (setRichTexts rt (Callout block)) block
  | Toggle_RichTexts => withToggle (setRichTexts rt (Toggle block)) block
  | BCode_Caption =>
      withBCode ((fun c => mkCodeBlock (Code_RichTexts c) (Some rt)) <$> BCode block) block
  | NImage_Caption => withNImage (setCaption rt (NImage block)) block
  | Video_Caption => withVideo (setCaption rt (Video block)) block
  | NAudio_Caption => withNAudio (setCaption rt (NAudio block)) block
  | File_Caption => withFile (setCaption rt (File block)) block
  | Embed_Caption => withEmbed (setCaption rt (Embed block)) block
  | Bookmark_Caption => withBookmark (setCaption rt (Bookmark block)) block
  | LinkPreview_Caption => withLinkPreview (setCaption rt (LinkPreview block)) block
  end.

(** [block.Table!.Rows![rowIndex].Cells[cellIndex].RichTexts = rt] *)
Definition writeCell (rowIndex cellIndex : nat) (rt : list RichText) (block : Block)
  : Block :=
  withTable
    ((fun t =>
        mkTable ((fun rows =>
                    alter (fun row =>
                             mkTableRow (alter (fun _ => mkTableCell rt)
                                           cellIndex (Cells row)))
                      rowIndex rows) <$> Rows t)) <$> Table block)
    block.

(** [location.setter(newRichTexts)] *)
Definition runSetter (s : Path) (newRichTexts : list RichText) (block : Block) : Block :=
  match s with
  | Scalar p => writeScalar p newRichTexts block
  | Cell r c => writeCell r c newRichTexts block
  end.

(** The [addLocation] helper: a location is listed only for a non-empty array. *)
Definition addLocation (property : jsstring) (richTexts : list RichText) (setter : Path)
  : list RichTextLocation :=
  if 0 <? length richTexts then [mkLocation property richTexts setter] else [].

Definition scalarLocation (block : Block) (p : ScalarPath) : list RichTextLocation :=
  match readScalar p block with
  | Some richTexts => addLocation (scalarName p) richTexts (Scalar p)
  | None => []
  end.

Definition rowLocations (rowIndex : nat) (row : TableRow) : list RichTextLocation :=
  concat (imap (fun cellIndex cell =>
                  addLocation (cellName rowIndex cellIndex) (Cell_RichTexts cell)
                    (Cell rowIndex cellIndex))
            (Cells row)).

Definition tableLocations (block : Block) : list RichTextLocation :=
  match Table block ≫= Rows with
  | Some rows => concat (imap rowLocations rows)
  | None => []
  end.

(** [getAllRichTextLocations]: the scalar fields in source order, then every
    table cell, row by row. Child blocks are not entered. *)
Definition getAllRichTextLocations (block : Block) : list RichTextLocation :=
  concat (List.map (scalarLocation block) scalarPaths) ++ tableLocations block.

(** [Array.prototype.sort(compareFn)] with a consistent comparator: the
    language requires the sort to be stable (ECMAScript 2019), so the result
    is the stable sorted arrangement, computed here by insertion. *)
Fixpoint sortInsert {A} (compareFn : A -> A -> Z) (x : A) (l : list A) : list A :=
  match l with
  | [] => [x]
  | y :: l' =>
      if (compareFn x y <=? 0)%Z then x :: y :: l'
      else y :: sortInsert compareFn x l'
  end.

Fixpoint Array_sort {A} (compareFn : A -> A -> Z) (l : list A) : list A :=
  match l with
  | [] => []
  | x :: l' => sortInsert compareFn x (Array_sort compareFn l')
  end.

(* ===================================================================== *)
(** * Footnotes ([footnotes.ts]) *)
(* ===================================================================== *)

Record MarkerLocation := mkMarkerLocation {
  BlockProperty : jsstring;
  RichTextIndex : nat;
  CharStart : nat;
  CharEnd : nat
}.

Record FootnoteMarkerInfo := mkMarkerInfo {
  Marker : jsstring;
  FullMarker : jsstring;
  Location : MarkerLocation
}.

Record CommentAttachment := mkCommentAttachment {
  Category : option jsstring;
  Attachment_Url : jsstring;
  OptimizedUrl : jsstring;
  Attachment_Name : jsstring;
  ExpiryTime : option jsstring
}.

Inductive FootnoteContent :=
  | rich_text (RichTexts : list RichText)
  | blocks (Blocks : list Block)
  | comment (RichTexts : list RichText)
            (CommentAttachments : option (list CommentAttachment)).

Inductive SourceLocationKind := content | caption | table | comment_source.

(** Modelled from the spec: [Footnote] of [interfaces.ts]: the key, the
    rendered marker, the content variant and the source location. *)
Record Footnote := mkFootnote {
  Footnote_Marker : jsstring;
  Footnote_FullMarker : jsstring;
  Footnote_Content : FootnoteContent;
  SourceLocation : SourceLocationKind
}.

Record FootnoteExtractionResult := mkFootnoteResult {
  footnotes : list Footnote;
  hasProcessedRichTexts : bool;
  hasProcessedChildren : bool
}.

(** Modelled from the spec: [FootnotesConfig] of [interfaces.ts], the part
    [config["in-page-footnotes-settings"]] with its three source flags and
    the marker prefix. *)
Record FootnotesConfig := mkFootnotesConfig {
  source_end_of_block : bool;
  source_start_of_child_blocks : bool;
  source_block_comments : bool;
  marker_prefix : jsstring
}.

Inductive ActiveSource := end_of_block | start_of_child_blocks | block_comments.

#[global] Instance ActiveSource_eq_dec : EqDecision ActiveSource.
Proof. solve_decision. Defined.

(** [getActiveSource] *)
Definition getActiveSource (config : FootnotesConfig) : option ActiveSource :=
  if source_end_of_block config then Some end_of_block
  else if source_start_of_child_blocks config then Some start_of_child_blocks
  else if source_block_comments config then Some block_comments
  else None.

Definition updateFirst {A} (f : A -> A) (l : list A) : list A :=
  match l with
  | x :: l' => f x :: l'
  | [] => []
  end.

Definition updateLast {A} (f : A -> A) (l : list A) : list A :=
  rev (updateFirst f (rev l)).

(** [if (rt.Text) rt.Text.Content = f(rt.Text.Content)] *)
Definition mapTextContent (f : jsstring -> jsstring) (rt : RichText) : RichText :=
  match Text_ rt with
  | Some t => setText (Some (mkText (f (Content t)) (Link_ t))) rt
  | None => rt
  end.

Definition trimSpan (f : jsstring -> jsstring) (rt : RichText) : RichText :=
  mapTextContent f (setPlainText (f (PlainText rt)) rt).

(** The loop of [extractRichTextRange]. *)
Fixpoint extractLoop (richTexts : list RichText) (startChar endChar currentPos : nat)
  : list RichText :=
  match richTexts with
  | [] => []
  | richText :: rest =>
      let length_ := length (PlainText richText) in
      let rtStart := currentPos in
      let rtEnd := currentPos + length_ in
      let tail := extractLoop rest startChar endChar (currentPos + length_) in
      if (startChar <? rtEnd) && (rtStart <? endChar) then
        let sliceStart := Nat.max 0 (startChar - rtStart) in
        let sliceEnd := Nat.min length_ (endChar - rtStart) in
        let slicedText := substring (PlainText richText) sliceStart sliceEnd in
        if 0 <? length slicedText then pieceOf richText slicedText :: tail
        else tail
      else tail
  end.

(** [extractRichTextRange]: the pieces inside [[startChar, endChar)], then
    [trimStart] on the first piece and [trimEnd] on the last one (the same
    object when there is only one). *)
Definition extractRichTextRange (richTexts : list RichText) (startChar endChar : nat)
  : list RichText :=
  let result := extractLoop richTexts startChar endChar 0 in
  updateLast (trimSpan trimEnd) (updateFirst (trimSpan trimStart) result).

(** The walk that maps a match start to its run: the index of the first run
    with [currentPos <= charStart < currentPos + len] and its Code flag. *)
Fixpoint findRun (richTexts : list RichText) (charStart currentPos i : nat)
  : option (nat * bool) :=
  match richTexts with
  | [] => None
  | rt :: rest =>
      let len := length (PlainText rt) in
      if (currentPos <=? charStart) && (charStart <? currentPos + len)
      then Some (i, Code (Annotation_ rt))
      else findRun rest charStart (currentPos + len) (S i)
  end.

(** The body of the [while] loop of [findAllFootnoteMarkers] for one match. *)
Definition markerOfMatch (location : RichTextLocation) (m : RegExpMatch)
  : list FootnoteMarkerInfo :=
  let charStart := index m in
  let charEnd := charStart + length (match0 m) in
  match findRun (richTexts location) charStart 0 0 with
  | Some (richTextIndex, inCode) =>
      if inCode then []
      else [mkMarkerInfo (match1 m) (match0 m)
              (mkMarkerLocation (property location) richTextIndex charStart charEnd)]
  | None => []
  end.

Definition findMarkersInLocation (markerPrefix : jsstring) (location : RichTextLocation)
  : list FootnoteMarkerInfo :=
  let fullText := joinPlainText (richTexts location) in
  concat (List.map (markerOfMatch location)
            (execAll (inlineMarkerPattern markerPrefix) fullText)).

Definition findAllFootnoteMarkers (locations : list RichTextLocation)
  (markerPrefix : jsstring) : list FootnoteMarkerInfo :=
  concat (List.map (findMarkersInLocation markerPrefix) locations).

(** One iteration of the right-to-left loop of [splitRichTextWithMarkers]. *)
Definition splitAtMarker (result : list RichText) (marker : FootnoteMarkerInfo)
  : list RichText :=
  let '(before, after) :=
    splitRichTextsAtCharPosition result (CharStart (Location marker)) in
  let '(markerPart, afterMarker) :=
    splitRichTextsAtCharPosition after (length (FullMarker marker)) in
  before ++ updateFirst (setFootnoteMarker (Marker marker)) markerPart ++ afterMarker.

Definition splitRichTextWithMarkers (location : RichTextLocation)
  (markers : list FootnoteMarkerInfo) : list RichText :=
  let locationMarkers :=
    Array_sort (fun a b => Z.of_nat (CharStart (Location b))
                           - Z.of_nat (CharStart (Location a)))%Z
      (List.filter (fun m => jsstring_eqb (BlockProperty (Location m)) (property location))
         markers) in
  match locationMarkers with
  | [] => richTexts location
  | _ => fold_left splitAtMarker locationMarkers (richTexts location)
  end.

(** [Map.prototype.set] on an insertion-ordered map: an existing key keeps
    its place and takes the new value. *)
Fixpoint mapSet {V} (k : jsstring) (v : V) (m : list (jsstring * V))
  : list (jsstring * V) :=
  match m with
  | [] => [(k, v)]
  | (k', v') :: m' =>
      if jsstring_eqb k' k then (k, v) :: m' else (k', v') :: mapSet k v m'
  end.

Record DefinitionMatch := mkDefinitionMatch {
  def_marker : jsstring;
  def_start : nat;
  def_end : nat;
  def_matchIndex : nat
}.

(** The second loop of [parseFootnoteDefinitionsFromRichText]: each match
    ends where the next one begins, the last at the end of the text. *)
Fixpoint setEnds (matches : list RegExpMatch) (textLength : nat) : list DefinitionMatch :=
  match matches with
  | [] => []
  | m :: rest =>
      let end_ := match rest with
                  | next :: _ => index next
                  | [] => textLength
                  end in
      mkDefinitionMatch (match1 m) (index m + length (match0 m)) end_ (index m)
        :: setEnds rest textLength
  end.

Definition parseFootnoteDefinitionsFromRichText (definitionsRichTexts : list RichText)
  (markerPrefix definitionsText : jsstring) : list (jsstring * list RichText) :=
  let matches :=
    setEnds (execAll (definitionPattern markerPrefix) definitionsText)
      (length definitionsText) in
  fold_left
    (fun definitions m =>
       let contentRichTexts :=
         extractRichTextRange definitionsRichTexts (def_start m) (def_end m) in
       if (length contentRichTexts =? 0)
          || jsstring_eqb (trim (joinPlainText contentRichTexts)) []
       then definitions
       else mapSet (def_marker m) contentRichTexts definitions)
    matches [].

(** [extractFootnoteDefinitionsFromRichText]; [cachedFullText || join(..)]
    falls back to the join when the cached text is absent or empty. *)
Definition extractFootnoteDefinitionsFromRichText (richTexts : list RichText)
  (markerPrefix : jsstring) (cachedFullText : option jsstring)
  : list RichText * list (jsstring * list RichText) :=
  let fullText := match cachedFullText with
                  | Some (c :: t) => c :: t
                  | _ => joinPlainText richTexts
                  end in
  match firstDefinitionIndex fullText with
  | None => (richTexts, [])
  | Some splitPoint =>
      let '(mainContent, definitionsSection) :=
        splitRichTextsAtCharPosition richTexts splitPoint in
      let definitionsText := substringFrom fullText splitPoint in
      (mainContent,
       parseFootnoteDefinitionsFromRichText definitionsSection markerPrefix
         definitionsText)
  end.

Definition noFootnotes : FootnoteExtractionResult := mkFootnoteResult [] false false.

Definition sourceLocationOf (property : jsstring) : SourceLocationKind :=
  if includes (js "Caption") property then caption
  else if includes (js "Table") property then table
  else content.

(** The body of [locations.forEach] in [extractEndOfBlockFootnotes]; the
    state is the block being rewritten and the footnotes pushed so far. The
    text cached under the location's property is its own joined text, the
    property paths of a block being distinct. *)
Definition endOfBlockStep (markerPrefix : jsstring) (markers : list FootnoteMarkerInfo)
  (st : Block * list Footnote) (location : RichTextLocation) : Block * list Footnote :=
  let '(block, footnotes) := st in
  let cachedText := joinPlainText (richTexts location) in
  let '(cleanedRichTexts, footnoteDefinitions) :=
    extractFootnoteDefinitionsFromRichText (richTexts location) markerPrefix
      (Some cachedText) in
  let new :=
    List.map (fun '(marker, contentRichTexts) =>
                mkFootnote marker (js "[^" ++ markerPrefix ++ marker ++ js "]")
                  (rich_text contentRichTexts)
                  (sourceLocationOf (property location)))
      (List.filter (fun '(marker, _) =>
                      existsb (fun m => jsstring_eqb (Marker m) marker) markers)
         footnoteDefinitions) in
  let block1 := runSetter (setter location) cleanedRichTexts block in
  let splitRichTexts :=
    splitRichTextWithMarkers
      (mkLocation (property location) cleanedRichTexts (setter location)) markers in
  (runSetter (setter location) splitRichTexts block1, footnotes ++ new).

Definition extractEndOfBlockFootnotes (block : Block) (config : FootnotesConfig)
  : Block * FootnoteExtractionResult :=
  let locations := getAllRichTextLocations block in
  let markerPrefix := marker_prefix config in
  let markers := findAllFootnoteMarkers locations markerPrefix in
  if length markers =? 0 then (block, noFootnotes)
  else
    let '(block', footnotes) :=
      fold_left (endOfBlockStep markerPrefix markers) locations (block, []) in
    (block', mkFootnoteResult footnotes true false).

(** [getChildrenFromBlock]: the first kind, in this order, whose [Children]
    is set. *)
Definition getChildrenFromBlock (block : Block) : option (list Block) :=
  let children (v : option (TextBlock Block)) := v ≫= Children in
  match children (Paragraph block) with Some c => Some c | None =>
  match children (Heading1 block) with Some c => Some c | None =>
  match children (Heading2 block) with Some c => Some c | None =>
  match children (Heading3 block) with Some c => Some c | None =>
  match children (Quote block) with Some c => Some c | None =>
  match children (Callout block) with Some c => Some c | None =>
  match children (Toggle block) with Some c => Some c | None =>
  match children (BulletedListItem block) with Some c => Some c | None =>
  match children (NumberedListItem block) with Some c => Some c | None =>
  match children (ToDo block) with Some c => Some c | None =>
  match SyncedBlock block ≫= Synced_Children with Some c => Some c | None =>
  None
  end end end end end end end end end end end.

(** [setChildrenInBlock]: assigns [Children] of the first kind, in this
    order, that the block has. *)
Definition setChildrenInBlock (block : Block) (children : list Block) : Block :=
  let set (t : TextBlock Block) := Some (mkTextBlock (RichTexts t) (Some children)) in
  match Paragraph block with Some t => withParagraph (set t) block | None =>
  match Heading1 block with Some t => withHeading1 (set t) block | None =>
  match Heading2 block with Some t => withHeading2 (set t) block | None =>
  match Heading3 block with Some t => withHeading3 (set t) block | None =>
  match Quote block with Some t => withQuote (set t) block | None =>
  match Callout block with Some t => withCallout (set t) block | None =>
  match Toggle block with Some t => withToggle (set t) block | None =>
  match BulletedListItem block with Some t => withBulletedListItem (set t) block | None =>
  match NumberedListItem block with Some t => withNumberedListItem (set t) block | None =>
  match ToDo block with Some t => withToDo (set t) block | None =>
  match SyncedBlock block with
  | Some _ => withSyncedBlock (Some (mkSyncedBlock (Some children))) block
  | None => block
  end end end end end end end end end end end.

(** The loop of [removeMarkerPrefix]: whole spans are spliced out while
    they fit in [remaining], then the next span is truncated. *)
Fixpoint removeMarkerPrefixLoop (result : list RichText) (remaining : nat)
  : list RichText :=
  match result with
  | [] => []
  | richText :: rest =>
      if 0 <? remaining then
        let length_ := length (PlainText richText) in
        if length_ <=? remaining then removeMarkerPrefixLoop rest (remaining - length_)
        else
          setPlainText (substringFrom (PlainText richText) remaining)
            (mapTextContent (fun c => substringFrom c remaining)
               (cloneRichText richText)) :: rest
      else result
  end.

Definition removeMarkerPrefix (richTexts : list RichText) (prefixLength : nat)
  : list RichText :=
  if (length richTexts =? 0) || (prefixLength =? 0) then richTexts
  else removeMarkerPrefixLoop richTexts prefixLength.

(** State of the [childrenToCheck.forEach] loop: the children as the loop
    leaves them (a consumed child is rewritten in place), the footnotes, the
    indices of the consumed children and the children kept so far. *)
Record ChildScan := mkChildScan {
  scannedChildren : list Block;
  scanFootnotes : list Footnote;
  footnoteBlockIndices : list nat;
  remainingChildren : list Block
}.

Definition scanChild (markerPrefix : jsstring) (st : ChildScan) (child : Block)
  : ChildScan :=
  let index_ := length (scannedChildren st) in
  let keep := mkChildScan (scannedChildren st ++ [child]) (scanFootnotes st)
                (footnoteBlockIndices st) (remainingChildren st ++ [child]) in
  match getAllRichTextLocations child with
  | [] => keep
  | location0 :: _ =>
      let blockText := joinPlainText (richTexts location0) in
      match fst (exec (createContentPattern markerPrefix) blockText 0) with
      | None => keep
      | Some m =>
          let marker := match1 m in
          let cleanedRichTexts :=
            removeMarkerPrefix (richTexts location0) (length (match0 m)) in
          let child' := runSetter (setter location0) cleanedRichTexts child in
          mkChildScan (scannedChildren st ++ [child'])
            (scanFootnotes st ++
               [mkFootnote marker (js "[^" ++ markerPrefix ++ marker ++ js "]")
                  (blocks [child']) content])
            (footnoteBlockIndices st ++ [index_])
            (remainingChildren st)
      end
  end.

Definition extractStartOfChildBlocksFootnotes (block : Block) (config : FootnotesConfig)
  : Block * FootnoteExtractionResult :=
  let locations := getAllRichTextLocations block in
  let markerPrefix := marker_prefix config in
  let markers := findAllFootnoteMarkers locations markerPrefix in
  if length markers =? 0 then (block, noFootnotes)
  else
    let markerCount := length markers in
    let children := getChildrenFromBlock block in
    let childrenToCheck :=
      match children with
      | Some c => take (Nat.max markerCount (length c)) c
      | None => []
      end in
    let scan := fold_left (scanChild markerPrefix) childrenToCheck
                  (mkChildScan [] [] [] []) in
    (* the children array still holds every child; the consumed ones are the
       rewritten objects *)
    let childrenAfter :=
      match children with
      | Some c => scannedChildren scan ++ drop (length childrenToCheck) c
      | None => []
      end in
    let remaining :=
      match children with
      | Some c =>
          if markerCount <? length c
          then remainingChildren scan ++ drop markerCount childrenAfter
          else remainingChildren scan
      | None => remainingChildren scan
      end in
    let block1 := setChildrenInBlock block remaining in
    let block2 :=
      fold_left (fun b location =>
                   runSetter (setter location)
                     (splitRichTextWithMarkers location markers) b)
        locations block1 in
    (block2, mkFootnoteResult (scanFootnotes scan) true true).

(* ===================================================================== *)
(** * Citations ([citations.ts]) *)
(* ===================================================================== *)

Module Citations.

(** [citations.ts] carries its own copy of [splitRichTextsAtCharPosition]. *)
Fixpoint splitLoop (richTexts : list RichText) (splitCharPos currentPos : nat)
  : list RichText * list RichText :=
  match richTexts with
  | [] => ([], [])
  | richText :: rest =>
      let length_ := length (PlainText richText) in
      let rtStart := currentPos in
      let rtEnd := currentPos + length_ in
      let '(before, after) := splitLoop rest splitCharPos (currentPos + length_) in
      if splitCharPos <=? rtStart then (before, richText :: after)
      else if rtEnd <=? splitCharPos then (richText :: before, after)
      else
        let splitOffset := splitCharPos - rtStart in
        let before' :=
          if 0 <? splitOffset
          then pieceOf richText (substring (PlainText richText) 0 splitOffset) :: before
          else before in
        let after' :=
          if splitOffset <? length_
          then pieceOf richText (substringFrom (PlainText richText) splitOffset) :: after
          else after in
        (before', after')
  end.

Definition splitRichTextsAtCharPosition (richTexts : list RichText) (splitCharPos : nat)
  : list RichText * list RichText :=
  splitLoop richTexts splitCharPos 0.

(** Modelled from the spec: [ParsedCitationEntry] and [Citation] of
    [interfaces.ts], with the fields of the specification's data model. *)
Record ParsedCitationEntry := mkEntry {
  key : jsstring;
  authors : jsstring;
  year : jsstring;
  ieee_formatted : jsstring;
  apa_formatted : jsstring
}.

Record Citation := mkCitation {
  Key : jsstring;
  FormattedEntry : jsstring;
  Authors : jsstring;
  Year : jsstring;
  Index : option Z;
  SourceBlockIds : list jsstring
}.

Inductive BibliographyStyle := apa | simplified_ieee.

(** Modelled from the spec: [CitationsConfig] of [interfaces.ts], the part
    [config["extract-and-process-bibtex-citations"]]: the in-text token
    format and the simplified-ieee flag of the bibliography format. *)
Record CitationsConfig := mkCitationsConfig {
  in_text_citation_format : jsstring;
  bibliography_format_simplified_ieee : bool
}.

Record CitationExtractionResult := mkCitationResult {
  citations : list Citation;
  processedRichTexts : bool
}.

Record FormattedCitation := mkFormatted {
  inText : jsstring;
  bibliography : jsstring;
  formatted_authors : jsstring;
  formatted_year : jsstring
}.

Definition formatCitation (entry : ParsedCitationEntry) (style : BibliographyStyle)
  : FormattedCitation :=
  let bibliography := match style with
                      | apa => apa_formatted entry
                      | simplified_ieee => ieee_formatted entry
                      end in
  let inText := match style with
                | apa => authors entry ++ js ", " ++ year entry
                | simplified_ieee => js "[?]"
                end in
  mkFormatted inText bibliography (authors entry) (year entry).

Record CitationMatch := mkCitationMatch {
  match_key : jsstring;
  match_start : nat;
  match_end : nat;
  fullMatch : jsstring
}.

(** The pattern selected by the configured in-text format; [None] for an
    unknown format. *)
Definition citationPatternOf (citationFormat : jsstring) : option Matcher :=
  if jsstring_eqb citationFormat (js "[@key]")
  then Some (citationPattern (js "[@") (js "]"))
  else if jsstring_eqb citationFormat (js "\cite{key}")
  then Some (citationPattern (js "\cite{") (js "}"))
  else if jsstring_eqb citationFormat (js "#cite(key)")
  then Some (citationPattern (js "#cite(") (js ")"))
  else None.

(** The inner walk of the match loop: is the run holding [charStart]
    code-annotated? *)
Fixpoint inCodeRun (richTexts : list RichText) (charStart currentPos : nat) : bool :=
  match richTexts with
  | [] => false
  | richText :: rest =>
      let rtEnd := currentPos + length (PlainText richText) in
      if (currentPos <=? charStart) && (charStart <? rtEnd)
      then Code (Annotation_ richText)
      else inCodeRun rest charStart rtEnd
  end.

(** The [matches] array of one location: every pattern match that does not
    start in a code run, in text order. *)
Definition findCitationMatches (pattern : Matcher) (richTexts : list RichText)
  : list CitationMatch :=
  let fullText := joinPlainText richTexts in
  List.map (fun m => mkCitationMatch (match1 m) (index m)
                       (index m + length (match0 m)) (match0 m))
    (List.filter (fun m => negb (inCodeRun richTexts (index m) 0))
       (execAll pattern fullText)).

Definition defaultAnnotation : Annotation :=
  mkAnnotation false false false false false (js "default").

Definition markerText (m : CitationMatch) : RichText :=
  {| Text_ := Some {| Content := fullMatch m; Link_ := None |};
     Annotation_ := defaultAnnotation;
     PlainText := fullMatch m;
     Href := None; Equation_ := None; Mention_ := None; InternalHref := None;
     IsFootnoteMarker := None; FootnoteRef := None;
     IsCitationMarker := Some true;
     CitationRef := Some (match_key m) |}.

(** The [Citation] object pushed for a resolved match. *)
Definition newCitation (style : BibliographyStyle) (m : CitationMatch)
  (entry : ParsedCitationEntry) : Citation :=
  let formatted := formatCitation entry style in
  mkCitation (match_key m) (bibliography formatted) (formatted_authors formatted)
    (formatted_year formatted) None [].

(** One iteration of the replacement loop; the state is [newRichTexts] and
    the citations pushed so far. *)
Definition replaceMatch (bibEntries : gmap jsstring ParsedCitationEntry)
  (style : BibliographyStyle) (st : list RichText * list Citation) (m : CitationMatch)
  : list RichText * list Citation :=
  let '(newRichTexts, citations) := st in
  match bibEntries !! match_key m with
  | None => st
  | Some entry =>
      let citation := newCitation style m entry in
      let '(before, after) := splitRichTextsAtCharPosition newRichTexts (match_start m) in
      let '(markerBefore, afterMarker) :=
        splitRichTextsAtCharPosition after (match_end m - match_start m) in
      (before ++ [markerText m] ++ afterMarker, citations ++ [citation])
  end.

(** The replacement loop over the reversed [matches] array. *)
Definition replaceMatches (bibEntries : gmap jsstring ParsedCitationEntry)
  (style : BibliographyStyle) (matches : list CitationMatch)
  (richTexts : list RichText) (citations : list Citation)
  : list RichText * list Citation :=
  fold_left (replaceMatch bibEntries style) (rev matches) (richTexts, citations).

(** The body of [for (const location of locations)]; the state is the block,
    the citations and [processedAny]. *)
Definition citationStep (pattern : Matcher)
  (bibEntries : gmap jsstring ParsedCitationEntry) (style : BibliographyStyle)
  (st : Block * list Citation * bool) (location : RichTextLocation)
  : Block * list Citation * bool :=
  let '(block, citations, processedAny) := st in
  let matches := findCitationMatches pattern (richTexts location) in
  match matches with
  | [] => st
  | _ =>
      let '(newRichTexts, citations') :=
        replaceMatches bibEntries style matches (richTexts location) citations in
      (runSetter (setter location) newRichTexts block, citations', true)
  end.

Definition extractCitationsFromBlock (block : Block) (config : CitationsConfig)
  (bibEntries : gmap jsstring ParsedCitationEntry) : Block * CitationExtractionResult :=
  let locations := getAllRichTextLocations block in
  if length locations =? 0 then (block, mkCitationResult [] false)
  else
    let citationFormat := in_text_citation_format config in
    let bibliographyStyle :=
      if bibliography_format_simplified_ieee config then simplified_ieee else apa in
    match citationPatternOf citationFormat with
    | None => (block, mkCitationResult [] false)
    | Some pattern =>
        let '(block', citations, processedAny) :=
          fold_left (citationStep pattern bibEntries bibliographyStyle) locations
            (block, [], false) in
        (block', mkCitationResult citations processedAny)
    end.

Section Bibliography.

(** [String.prototype.localeCompare] is the host's locale-sensitive
    collation; it is taken as given. *)
Variable localeCompare : jsstring -> jsstring -> Z.

(** [a.Index || 0] *)
Definition indexOrZero (c : Citation) : Z :=
  match Index c with
  | Some i => i
  | None => 0%Z
  end.

Definition compareCitations (style : BibliographyStyle) (a b : Citation) : Z :=
  match style with
  | simplified_ieee => (indexOrZero a - indexOrZero b)%Z
  | apa => localeCompare (Authors a) (Authors b)
  end.

(** [prepareBibliography]: a sorted copy; the argument is left as it is. *)
Definition prepareBibliography (citations : list Citation) (style : BibliographyStyle)
  : list Citation :=
  Array_sort (compareCitations style) citations.

End Bibliography.

End Citations.

(* ===================================================================== *)
(** * Bibliography source links ([citations.ts]) *)
(* ===================================================================== *)

Module Bib.

(** [BibSourceInfo], as the object literals of [get_bib_source_info] build
    it; [null] is [None]. *)
Record BibSourceInfo := mkBibSourceInfo {
  source : jsstring;
  download_url : jsstring;
  updated_url : option jsstring;
  updated_instructions : option jsstring
}.

(** [[^\/]] *)
Definition notSlash (c : N) : bool := negb (N.eqb c 47).

(** [[a-f0-9]] *)
Definition isLowerHex (c : N) : bool := (in_range 97 102 c || in_range 48 57 c)%bool.

(** [.] without the [s] flag: any code unit that is not a line terminator. *)
Definition notLineTerminator (c : N) : bool := negb (isLineTerminator c).

(** [/gist\.github\.com\/([^\/]+)\/([a-f0-9]+)/] at the head of [s]. *)
Definition gistPattern (s : jsstring) : option (jsstring * jsstring) :=
  match matchToken (js "gist.github.com/") notSlash (js "/") s with
  | Some (username, rest) =>
      match spanClass isLowerHex rest with
      | ([], _) => None
      | (gistId, _) => Some (username, gistId)
      end
  | None => None
  end.

(** [/github\.com\/([^\/]+)\/([^\/]+)\/blob\/([^\/]+)\/(.+)/] at the head of [s]. *)
Definition repoPattern (s : jsstring)
  : option (jsstring * jsstring * jsstring * jsstring) :=
  match matchToken (js "github.com/") notSlash (js "/") s with
  | Some (owner, s1) =>
      match matchToken [] notSlash (js "/blob/") s1 with
      | Some (repo, s2) =>
          match matchToken [] notSlash (js "/") s2 with
          | Some (branch, s3) =>
              match spanClass notLineTerminator s3 with
              | ([], _) => None
              | (filePath, _) => Some (owner, repo, branch, filePath)
              end
          | None => None
          end
      | None => None
      end
  | None => None
  end.

(** [/drive\.google\.com\/file\/d\/([^\/]+)/] at the head of [s]. *)
Definition drivePattern (s : jsstring) : option jsstring :=
  match matchToken (js "drive.google.com/file/d/") notSlash [] s with
  | Some (fileId, _) => Some fileId
  | None => None
  end.

(** [url.match(pattern)] for a pattern without the [g] flag: the match at
    the leftmost position that has one. *)
Fixpoint matchFirst {A} (p : jsstring -> option A) (s : jsstring) : option A :=
  match p s with
  | Some a => Some a
  | None =>
      match s with
      | [] => None
      | _ :: s' => matchFirst p s'
      end
  end.

(** [s.replace(pat, rep)] with a string pattern: the first occurrence only. *)
Fixpoint replaceFirst (pat rep s : jsstring) : jsstring :=
  match stripLiteral pat s with
  | Some rest => rep ++ rest
  | None =>
      match s with
      | [] => []
      | c :: s' => c :: replaceFirst pat rep s'
      end
  end.

(** [get_bib_source_info] *)
Definition get_bib_source_info (url : jsstring) : BibSourceInfo :=
  match matchFirst gistPattern url with
  | Some (username, gistId) =>
      mkBibSourceInfo (js "github-gist")
        (js "https://gist.githubusercontent.com/" ++ username ++ js "/" ++ gistId
           ++ js "/raw")
        (Some (js "https://api.github.com/gists/" ++ gistId))
        (Some (js "curl -s <updated_url> | jq '.updated_at'"))
  | None =>
      match matchFirst repoPattern url with
      | Some (owner, repo, branch, filePath) =>
          mkBibSourceInfo (js "github-repo")
            (js "https://raw.githubusercontent.com/" ++ owner ++ js "/" ++ repo
               ++ js "/" ++ branch ++ js "/" ++ filePath)
            (Some (js "https://api.github.com/repos/" ++ owner ++ js "/" ++ repo
                     ++ js "/commits?path=" ++ filePath))
            (Some (js "curl -s <updated_url> | jq '.[0].commit.committer.date'"))
      | None =>
          if includes (js "dropbox.com") url then
            mkBibSourceInfo (js "dropbox")
              (replaceFirst (js "dl=0") (js "dl=1") url) None
              (Some (js "Dropbox shared links do not expose public timestamps"))
          else
            match matchFirst drivePattern url with
            | Some fileId =>
                mkBibSourceInfo (js "google-drive")
                  (js "https://drive.google.com/uc?export=download&id=" ++ fileId) None
                  (Some (js "Google Drive shared links do not expose public timestamps"))
            | None => mkBibSourceInfo (js "unknown") url None None
            end
      end
  end.

End Bib.

(* ===================================================================== *)
(** * Block comments ([footnotes.ts]) *)
(* ===================================================================== *)

(** ** The provider's wire format (all fields as the code probes them) *)

Record NotionAnnotations := mkNotionAnnotations {
  bold : option bool;
  italic : option bool;
  strikethrough : option bool;
  underline : option bool;
  code : option bool;
  color : option jsstring
}.

Record NotionText := mkNotionText {
  content_ : option jsstring;
  link : option jsstring            (* text.link.url *)
}.

Record NotionDate := mkNotionDate {
  date_start : option jsstring;
  date_end : option jsstring
}.

Record NotionMention := mkNotionMention {
  mention_type : jsstring;
  mention_page : option jsstring;   (* mention.page.id *)
  mention_date : option NotionDate;
  link_mention : option LinkMention;
  custom_emoji : option CustomEmoji
}.

Inductive NotionRichTextType := type_text | type_equation | type_mention | type_other.

Record NotionRichText := mkNotionRichText {
  annotations : option NotionAnnotations;
  plain_text : option jsstring;
  href : option jsstring;
  type_ : NotionRichTextType;
  text : option NotionText;
  equation : option (option jsstring);   (* equation.expression *)
  mention : option NotionMention
}.

Record NotionAttachment := mkNotionAttachment {
  file_url : option jsstring;            (* attachment.file?.url *)
  file_expiry_time : option jsstring;
  category : option jsstring
}.

Record NotionComment := mkNotionComment {
  rich_text_ : option (list NotionRichText);
  attachments : option (list NotionAttachment)
}.

Record CommentsResponse := mkCommentsResponse {
  results : option (list NotionComment)
}.

Record Error := mkError {
  status : option Z;
  error_code : option jsstring
}.

(** ** Requests to the collaborators

    An asynchronous computation is the tree of the requests it makes: it
    returns, throws, or issues a request and continues with the outcome. *)

Inductive Outcome (R : Type) :=
  | Resolved (r : R)
  | Rejected (e : Error).
Arguments Resolved {R}.
Arguments Rejected {R}.

Inductive Eff (A : Type) :=
  | Ret (a : A)
  | Throw (e : Error)
  | CommentsList (block_id : jsstring) (k : Outcome CommentsResponse -> Eff A)
  | DownloadFile (url : jsstring) (isImage : bool) (k : Outcome unit -> Eff A).
Arguments Ret {A}.
Arguments Throw {A}.
Arguments CommentsList {A}.
Arguments DownloadFile {A}.

Fixpoint bind {A B} (m : Eff A) (f : A -> Eff B) : Eff B :=
  match m with
  | Ret a => f a
  | Throw e => Throw e
  | CommentsList id k => CommentsList id (fun o => bind (k o) f)
  | DownloadFile u i k => DownloadFile u i (fun o => bind (k o) f)
  end.

(** [try { m } catch (error) { h(error) }] *)
Fixpoint catch {A} (m : Eff A) (h : Error -> Eff A) : Eff A :=
  match m with
  | Ret a => Ret a
  | Throw e => h e
  | CommentsList id k => CommentsList id (fun o => catch (k o) h)
  | DownloadFile u i k => DownloadFile u i (fun o => catch (k o) h)
  end.

Definition settle {R} (o : Outcome R) : Eff R :=
  match o with
  | Resolved r => Ret r
  | Rejected e => Throw e
  end.

(** [await notionClient.comments.list({ block_id })] *)
Definition awaitCommentsList (block_id : jsstring) : Eff CommentsResponse :=
  CommentsList block_id settle.

(** [await downloadFile(url, isImage)] *)
Definition awaitDownloadFile (url : jsstring) (isImage : bool) : Eff unit :=
  DownloadFile url isImage settle.

#[global] Instance Eff_ret : MRet Eff := @Ret.
#[global] Instance Eff_bind : MBind Eff := fun A B f m => bind m f.

(** The number of requests made to the comments provider along the run in
    which every request is answered by [answer] / [downloaded]. *)
Fixpoint commentsRequests {A} (answer : jsstring -> Outcome CommentsResponse)
  (downloaded : jsstring -> Outcome unit) (m : Eff A) : nat :=
  match m with
  | Ret _ | Throw _ => 0
  | CommentsList id k => S (commentsRequests answer downloaded (k (answer id)))
  | DownloadFile u _ k => commentsRequests answer downloaded (k (downloaded u))
  end.

(** [x || d] on an optional boolean / string. *)
Definition orFalse (b : option bool) : bool := default false b.
Definition truthyString (s : option jsstring) : option jsstring :=
  match s with
  | Some (c :: t) => Some (c :: t)
  | _ => None
  end.
Definition orString (d : jsstring) (s : option jsstring) : jsstring :=
  default d (truthyString s).

Definition convertMention (m : NotionMention) : Mention :=
  let base := mkMention (mention_type m) None None None None in
  if jsstring_eqb (mention_type m) (js "page") && bool_decide (is_Some (mention_page m))
  then mkMention (mention_type m)
         ((fun id => mkInterlinkedContent id (mention_type m)) <$> mention_page m)
         None None None
  else if jsstring_eqb (mention_type m) (js "date")
  then
    let start := orString (js "Invalid Date") (mention_date m ≫= date_start) in
    let formatted_date :=
      match truthyString (mention_date m ≫= date_end) with
      | Some e => start ++ js " to " ++ e
      | None => start
      end in
    mkMention (mention_type m) None (Some formatted_date) None None
  else if jsstring_eqb (mention_type m) (js "link_mention")
          && bool_decide (is_Some (link_mention m))
  then mkMention (mention_type m) None None (link_mention m) None
  else if jsstring_eqb (mention_type m) (js "custom_emoji")
          && bool_decide (is_Some (custom_emoji m))
  then mkMention (mention_type m) None None None (custom_emoji m)
  else base.

(** [convertNotionRichTextToOurFormat], one element. *)
Definition convertOne (nrt : NotionRichText) : RichText :=
  let ann := annotations nrt in
  {| Annotation_ :=
       {| Bold := orFalse (ann ≫= bold);
          Italic := orFalse (ann ≫= italic);
          Strikethrough := orFalse (ann ≫= strikethrough);
          Underline := orFalse (ann ≫= underline);
          Code := orFalse (ann ≫= code);
          Color := orString (js "default") (ann ≫= color) |};
     PlainText := orString [] (plain_text nrt);
     Href := href nrt;
     Text_ := match type_ nrt, text nrt with
              | type_text, Some t =>
                  Some {| Content := orString [] (content_ t);
                          Link_ := mkLink <$> link t |}
              | _, _ => None
              end;
     Equation_ := match type_ nrt, equation nrt with
                  | type_equation, Some e => Some {| Expression := orString [] e |}
                  | _, _ => None
                  end;
     Mention_ := match type_ nrt, mention nrt with
                 | type_mention, Some m => Some (convertMention m)
                 | _, _ => None
                 end;
     InternalHref := None;
     IsFootnoteMarker := None; FootnoteRef := None;
     IsCitationMarker := None; CitationRef := None |}.

Definition convertNotionRichTextToOurFormat (notionRichTexts : list NotionRichText)
  : list RichText :=
  List.map convertOne notionRichTexts.

(** [s.lastIndexOf(".")] as the length of the prefix before the last dot;
    [None] when there is no dot. *)
Fixpoint lastIndexOfDot (s : jsstring) : option nat :=
  match s with
  | [] => None
  | c :: s' =>
      match lastIndexOfDot s' with
      | Some i => Some (S i)
      | None => if N.eqb c 46 then Some 0 else None
      end
  end.

(** [pathname.split("/").pop()] *)
Fixpoint lastSegment (s : jsstring) : jsstring :=
  match s with
  | [] => []
  | c :: s' => if bool_decide (47%N ∈ s') then lastSegment s'
               else if N.eqb c 47 then s' else c :: s'
  end.

Section BlockComments.

(** Collaborators outside the two modules: [new URL(u).pathname] ([None]
    when the constructor throws), [isConvImageType] of [notion/client] and
    the [OPTIMIZE_IMAGES] constant. *)
Variable urlPathname : jsstring -> option jsstring.
Variable isConvImageType : jsstring -> bool.
Variable OPTIMIZE_IMAGES : bool.

Definition invalidUrl : Error := mkError None (Some (js "ERR_INVALID_URL")).

(** The attachment loop of one comment. *)
Fixpoint collectAttachments (atts : list NotionAttachment)
  (acc : list CommentAttachment) : Eff (list CommentAttachment) :=
  match atts with
  | [] => Ret acc
  | attachment :: rest =>
      match truthyString (file_url attachment) with
      | None => collectAttachments rest acc
      | Some originalUrl =>
          let isImage :=
            bool_decide (category attachment = Some (js "image")) in
          match urlPathname originalUrl with
          | None => Throw invalidUrl
          | Some pathname =>
              _ ← awaitDownloadFile originalUrl isImage;
              let optimizedUrl :=
                if isImage && isConvImageType originalUrl && OPTIMIZE_IMAGES
                then match lastIndexOfDot originalUrl with
                     | Some i => substring originalUrl 0 i ++ js ".webp"
                     | None => js ".webp"
                     end
                else originalUrl in
              let fileName :=
                match lastSegment pathname with
                | [] => js "download"
                | n => n
                end in
              collectAttachments rest
                (acc ++ [mkCommentAttachment (category attachment) originalUrl
                           optimizedUrl fileName (file_expiry_time attachment)])
          end
      end
  end.

(** The comment loop; [lastIndex] is the state of the shared global
    content pattern, which the loop never resets. *)
Fixpoint processComments (markerPrefix : jsstring) (comments : list NotionComment)
  (lastIndex : nat) (footnotes : list Footnote) : Eff (list Footnote) :=
  match comments with
  | [] => Ret footnotes
  | comment_ :: rest =>
      let richTextArray := default [] (rich_text_ comment_) in
      match richTextArray with
      | [] => processComments markerPrefix rest lastIndex footnotes
      | first :: _ =>
          let firstText := orString [] (plain_text first) in
          match exec (createContentPattern markerPrefix) firstText lastIndex with
          | (None, lastIndex') =>
              processComments markerPrefix rest lastIndex' footnotes
          | (Some m, lastIndex') =>
              let marker := match1 m in
              let contentRichTexts := convertNotionRichTextToOurFormat richTextArray in
              let cleanedRichTexts :=
                removeMarkerPrefix contentRichTexts (length (match0 m)) in
              atts ← collectAttachments (default [] (attachments comment_)) [];
              processComments markerPrefix rest lastIndex'
                (footnotes ++
                   [mkFootnote marker (js "[^" ++ markerPrefix ++ marker ++ js "]")
                      (comment cleanedRichTexts
                         (if 0 <? length atts then Some atts else None))
                      comment_source])
          end
      end
  end.

(** [extractBlockCommentsFootnotes]; [hasCommentsClient] is the test
    [notionClient && notionClient.comments]. *)
Definition extractBlockCommentsFootnotes (block : Block) (config : FootnotesConfig)
  (hasCommentsClient : bool) : Eff (Block * FootnoteExtractionResult) :=
  let locations := getAllRichTextLocations block in
  let markerPrefix := marker_prefix config in
  let markers := findAllFootnoteMarkers locations markerPrefix in
  if length markers =? 0 then Ret (block, noFootnotes)
  else if negb hasCommentsClient then Ret (block, noFootnotes)
  else
    catch
      (response ← awaitCommentsList (Id block);
       footnotes ← processComments markerPrefix (default [] (results response)) 0 [];
       let block' :=
         fold_left (fun b location =>
                      runSetter (setter location)
                        (splitRichTextWithMarkers location markers) b)
           locations block in
       Ret (block', mkFootnoteResult footnotes true false))
      (fun _ => Ret (block, noFootnotes)).

(** [extractFootnotesFromBlock]: the entry point. *)
Definition extractFootnotesFromBlock (block : Block) (config : FootnotesConfig)
  (hasCommentsClient : bool) : Eff (Block * FootnoteExtractionResult) :=
  match getActiveSource config with
  | Some end_of_block => Ret (extractEndOfBlockFootnotes block config)
  | Some start_of_child_blocks => Ret (extractStartOfChildBlocksFootnotes block config)
  | Some block_comments => extractBlockCommentsFootnotes block config hasCommentsClient
  | None => Ret (block, noFootnotes)
  end.

End BlockComments.

(* ===================================================================== *)
(** * The object store: [cloneRichText] as a copy *)
(* ===================================================================== *)

(** Spans are JavaScript objects: a field of object type holds a reference,
    and two spans can reach the same nested object. The store is the list of
    allocated objects, an address is an index into it, and an object maps
    property names to values. *)
Module Store.

Inductive value :=
  | VUndefined
  | VString (s : jsstring)
  | VBool (b : bool)
  | VNumber (z : Z)
  | VRef (address : nat).

Abbreviation object := (gmap string value).
Abbreviation store := (list (gmap string value)).

(** [o.f] *)
Definition field (o : object) (f : string) : value := default VUndefined (o !! f).

(** The object a value refers to; a value that is not a reference has no
    own properties to spread. *)
Definition deref (h : store) (v : value) : object :=
  match v with
  | VRef a => default ∅ (h !! a)
  | _ => ∅
  end.

(** [x.f] for a value [x] *)
Definition get (h : store) (x : value) (f : string) : value := field (deref h x) f.

(** [x.f = v] *)
Definition set (x : value) (f : string) (v : value) (h : store) : store :=
  match x with
  | VRef a => alter (fun o => <[f := v]> o) a h
  | _ => h
  end.

(** Evaluating an object literal allocates a fresh object. *)
Definition alloc (o : object) (h : store) : value * store :=
  (VRef (length h), h ++ [o]).

Definition truthy (v : value) : bool :=
  match v with
  | VUndefined => false
  | VString s => negb (bool_decide (s = []))
  | VBool b => b
  | VNumber z => negb (Z.eqb z 0)
  | VRef _ => true
  end.

(** [x ? { ...x } : undefined] *)
Definition spreadIfPresent (x : value) (h : store) : value * store :=
  if truthy x then alloc (deref h x) h else (VUndefined, h).

(** [cloneRichText]: the literal's members in evaluation order. *)
Definition cloneRichText (richText : value) (h : store) : value * store :=
  let Text := get h richText "Text" in
  let '(Text', h1) :=
    if truthy Text then
      let '(Link', h') := spreadIfPresent (get h Text "Link") h in
      alloc (<["Link" := Link']> (deref h' Text)) h'
    else (VUndefined, h) in
  let '(Annotation', h2) := alloc (deref h1 (get h1 richText "Annotation")) h1 in
  let '(Equation', h3) := spreadIfPresent (get h2 richText "Equation") h2 in
  let '(Mention', h4) := spreadIfPresent (get h3 richText "Mention") h3 in
  let '(InternalHref', h5) := spreadIfPresent (get h4 richText "InternalHref") h4 in
  alloc (<["InternalHref" := InternalHref']>
           (<["Mention" := Mention']>
              (<["Equation" := Equation']>
                 (<["Annotation" := Annotation']>
                    (<["Text" := Text']> (deref h5 richText))))))
    h5.

(** ** Laying a span value out in the store: one object per record. *)

Definition optString (s : option jsstring) : value :=
  match s with
  | Some s => VString s
  | None => VUndefined
  end.

Definition optBool (b : option bool) : value :=
  match b with
  | Some b => VBool b
  | None => VUndefined
  end.

Definition allocOpt {A} (lay : A -> store -> value * store) (x : option A) (h : store)
  : value * store :=
  match x with
  | Some a => lay a h
  | None => (VUndefined, h)
  end.

Definition layLink (l : Link) (h : store) : value * store :=
  alloc {[ "Url" := VString (Url l) ]} h.

Definition layText (t : Text) (h : store) : value * store :=
  let '(l, h1) := allocOpt layLink (Link_ t) h in
  alloc (<["Content" := VString (Content t)]> {[ "Link" := l ]}) h1.

Definition layAnnotation (a : Annotation) (h : store) : value * store :=
  alloc (<["Bold" := VBool (Bold a)]>
           (<["Italic" := VBool (Italic a)]>
              (<["Strikethrough" := VBool (Strikethrough a)]>
                 (<["Underline" := VBool (Underline a)]>
                    (<["Code" := VBool (Code a)]>
                       {[ "Color" := VString (Color a) ]}))))) h.

Definition layEquation (e : Equation) (h : store) : value * store :=
  alloc {[ "Expression" := VString (Expression e) ]} h.

Definition layInterlinked (p : InterlinkedContent) (h : store) : value * store :=
  alloc (<["PageId" := VString (PageId p)]>
           {[ "Type" := VString (InterlinkedType p) ]}) h.

Definition layLinkMention (l : LinkMention) (h : store) : value * store :=
  alloc (<["Href" := optString (LM_Href l)]>
           (<["Title" := optString (LM_Title l)]>
              (<["IconUrl" := optString (LM_IconUrl l)]>
                 (<["Description" := optString (LM_Description l)]>
                    (<["LinkAuthor" := optString (LM_LinkAuthor l)]>
                       (<["ThumbnailUrl" := optString (LM_ThumbnailUrl l)]>
                          (<["Height" := match LM_Height l with
                                         | Some z => VNumber z
                                         | None => VUndefined
                                         end]>
                             (<["IframeUrl" := optString (LM_IframeUrl l)]>
                                {[ "LinkProvider" :=
                                     optString (LM_LinkProvider l) ]})))))))) h.

Definition layCustomEmoji (e : CustomEmoji) (h : store) : value * store :=
  alloc (<["Name" := optString (Emoji_Name e)]>
           {[ "Url" := optString (Emoji_Url e) ]}) h.

Definition layMention (m : Mention) (h : store) : value * store :=
  let '(p, h1) := allocOpt layInterlinked (Page m) h in
  let '(l, h2) := allocOpt layLinkMention (LinkMention_ m) h1 in
  let '(e, h3) := allocOpt layCustomEmoji (CustomEmoji_ m) h2 in
  alloc (<["Type" := VString (MentionType m)]>
           (<["Page" := p]>
              (<["DateStr" := optString (DateStr m)]>
                 (<["LinkMention" := l]> {[ "CustomEmoji" := e ]})))) h3.

Definition laySpan (s : RichText) (h : store) : value * store :=
  let '(t, h1) := allocOpt layText (Text_ s) h in
  let '(a, h2) := layAnnotation (Annotation_ s) h1 in
  let '(e, h3) := allocOpt layEquation (Equation_ s) h2 in
  let '(m, h4) := allocOpt layMention (Mention_ s) h3 in
  let '(i, h5) := allocOpt layInterlinked (InternalHref s) h4 in
  alloc (<["Text" := t]>
           (<["Annotation" := a]>
              (<["PlainText" := VString (PlainText s)]>
                 (<["Href" := optString (Href s)]>
                    (<["Equation" := e]>
                       (<["Mention" := m]>
                          (<["InternalHref" := i]>
                             (<["IsFootnoteMarker" := optBool (IsFootnoteMarker s)]>
                                (<["FootnoteRef" := optString (FootnoteRef s)]>
                                   (<["IsCitationMarker" :=
                                        optBool (IsCitationMarker s)]>
                                      {[ "CitationRef" :=
                                           optString (CitationRef s) ]}))))))))))
    h5.

(** ** Reading a span value back: following the references. *)

Definition readString (v : value) : option jsstring :=
  match v with
  | VString s => Some s
  | _ => None
  end.

Definition readBool (v : value) : option bool :=
  match v with
  | VBool b => Some b
  | _ => None
  end.

Definition readInterlinked (h : store) (v : value) : option InterlinkedContent :=
  if truthy v then
    Some (mkInterlinkedContent (default [] (readString (get h v "PageId")))
            (default [] (readString (get h v "Type"))))
  else None.

Definition readLinkMention (h : store) (v : value) : option LinkMention :=
  if truthy v then
    Some (mkLinkMention (readString (get h v "Href")) (readString (get h v "Title"))
            (readString (get h v "IconUrl")) (readString (get h v "Description"))
            (readString (get h v "LinkAuthor")) (readString (get h v "ThumbnailUrl"))
            (match get h v "Height" with VNumber z => Some z | _ => None end)
            (readString (get h v "IframeUrl")) (readString (get h v "LinkProvider")))
  else None.

Definition readCustomEmoji (h : store) (v : value) : option CustomEmoji :=
  if truthy v then
    Some (mkCustomEmoji (readString (get h v "Name")) (readString (get h v "Url")))
  else None.

Definition readMention (h : store) (v : value) : option Mention :=
  if truthy v then
    Some (mkMention (default [] (readString (get h v "Type")))
            (readInterlinked h (get h v "Page"))
            (readString (get h v "DateStr"))
            (readLinkMention h (get h v "LinkMention"))
            (readCustomEmoji h (get h v "CustomEmoji")))
  else None.

Definition readText (h : store) (v : value) : option Text :=
  if truthy v then
    Some (mkText (default [] (readString (get h v "Content")))
            (let l := get h v "Link" in
             if truthy l then Some (mkLink (default [] (readString (get h l "Url"))))
             else None))
  else None.

Definition readAnnotation (h : store) (v : value) : Annotation :=
  let flag f := default false (readBool (get h v f)) in
  mkAnnotation (flag "Bold") (flag "Italic") (flag "Strikethrough")
    (flag "Underline") (flag "Code") (default [] (readString (get h v "Color"))).

Definition readSpan (h : store) (v : value) : RichText :=
  {| Text_ := readText h (get h v "Text");
     Annotation_ := readAnnotation h (get h v "Annotation");
     PlainText := default [] (readString (get h v "PlainText"));
     Href := readString (get h v "Href");
     Equation_ :=
       (let e := get h v "Equation" in
        if truthy e
        then Some (mkEquation (default [] (readString (get h e "Expression"))))
        else None);
     Mention_ := readMention h (get h v "Mention");
     InternalHref := readInterlinked h (get h v "InternalHref");
     IsFootnoteMarker := readBool (get h v "IsFootnoteMarker");
     FootnoteRef := readString (get h v "FootnoteRef");
     IsCitationMarker := readBool (get h v "IsCitationMarker");
     CitationRef := readString (get h v "CitationRef") |}.

End Store.

(* ===================================================================== *)
(** * Vocabulary of the properties *)
(* ===================================================================== *)

(** Setters are compared by decidable equality. *)
#[global] Instance ScalarPath_eq_dec : EqDecision ScalarPath.
Proof. solve_decision. Defined.

#[global] Instance Path_eq_dec : EqDecision Path.
Proof. solve_decision. Defined.

(** A match lies inside [text], and [match0] is the text it covers. *)
Definition matchInText (text : jsstring) (m : RegExpMatch) : Prop :=
  index m < length text
  /\ match0 m = take (length (match0 m)) (drop (index m) text).

(** Matches come out left to right and do not overlap. *)
Definition matchBefore (a b : RegExpMatch) : Prop :=
  index a + length (match0 a) <= index b.

(** [s] is [orig] itself or a piece cut from it: every field but [PlainText]
    and [Text.Content] is that of [orig]. *)
Definition fragmentOf (orig s : RichText) : Prop :=
  s = orig \/ exists piece, s = pieceOf orig piece.

(** A citation match of the text [T]: it ends the length of the token after
    its start, lies inside [T], and [fullMatch] is the text it covers. *)
Definition wfMatch (T : jsstring) (m : Citations.CitationMatch) : Prop :=
  Citations.match_end m = Citations.match_start m + length (Citations.fullMatch m)
  /\ Citations.match_end m <= length T
  /\ Citations.fullMatch m
     = take (length (Citations.fullMatch m)) (drop (Citations.match_start m) T).

(** [a] ends before [b] starts. *)
Definition citeBefore (a b : Citations.CitationMatch) : Prop :=
  Citations.match_end a <= Citations.match_start b.

(** The marker span of [m] sits in [out] exactly where the token began. *)
Definition placed (out : list RichText) (m : Citations.CitationMatch) : Prop :=
  exists pre post,
    out = pre ++ Citations.markerText m :: post
    /\ length (joinPlainText pre) = Citations.match_start m.

(** The [Citation] objects a list of matches gives rise to, in order. *)
Section ResolvedCitations.

Variable bibEntries : gmap jsstring Citations.ParsedCitationEntry.
Variable style : Citations.BibliographyStyle.

Definition resolvedCitations (ms : list Citations.CitationMatch) : list Citations.Citation :=
  List.flat_map (fun m => match bibEntries !! Citations.match_key m with
                          | Some entry => [Citations.newCitation style m entry]
                          | None => []
                          end) ms.

End ResolvedCitations.

(** The location list after the location written through [path] took the
    value [v]. *)
Definition relocate (path : Path) (v : list RichText) (l : RichTextLocation)
  : RichTextLocation :=
  if decide (setter l = path) then mkLocation (property l) v path else l.

(** Table cells, listed from a given row / column offset. *)
Definition cellsFrom (R k : nat) (cells : list TableCell) : list RichTextLocation :=
  concat (imap (fun i cell =>
                  addLocation (cellName R (k + i)) (Cell_RichTexts cell) (Cell R (k + i)))
            cells).

Definition rowsFrom (k : nat) (rows : list TableRow) : list RichTextLocation :=
  concat (imap (fun i row => cellsFrom (k + i) 0 (Cells row)) rows).

(** A pass over the locations that writes [g l] back into location [l],
    when there is one. *)
Section WriteBack.

Variable g : RichTextLocation -> option (list RichText).

Definition writeBack (b : Block) (l : RichTextLocation) : Block :=
  match g l with
  | Some v => runSetter (setter l) v b
  | None => b
  end.

Definition rewritten (l : RichTextLocation) : RichTextLocation :=
  match g l with
  | Some v => mkLocation (property l) v (setter l)
  | None => l
  end.

End WriteBack.

Section CitationRewrite.

Variable pattern : Matcher.
Variable bibEntries : gmap jsstring Citations.ParsedCitationEntry.
Variable style : Citations.BibliographyStyle.

(** What the citation pass writes into a location, if anything. *)
Definition citationRewrite (l : RichTextLocation) : option (list RichText) :=
  match Citations.findCitationMatches pattern (richTexts l) with
  | [] => None
  | ms => Some (fst (Citations.replaceMatches bibEntries style ms (richTexts l) []))
  end.

End CitationRewrite.

(** The style [extractCitationsFromBlock] reads from the configuration. *)
Definition styleOf (config : Citations.CitationsConfig) : Citations.BibliographyStyle :=
  if Citations.bibliography_format_simplified_ieee config
  then Citations.simplified_ieee else Citations.apa.

(** A location as its property path and its joined text. *)
Definition locationText (l : RichTextLocation) : jsstring * jsstring :=
  (property l, joinPlainText (richTexts l)).

(** [rt] is the run of [richTexts] that holds character position [pos] of
    the joined text. *)
Definition runAt (richTexts : list RichText) (pos : nat) (rt : RichText) : Prop :=
  exists pre post,
    richTexts = pre ++ rt :: post
    /\ length (joinPlainText pre) <= pos
    /\ pos < length (joinPlainText pre) + length (PlainText rt).

(** What the loop emits: non-empty pieces of the input spans. *)
Definition isPiece (s : RichText) : Prop :=
  PlainText s <> [] /\ exists o, s = pieceOf o (PlainText s).

(** Content that passes the empty-definition test of the parser. *)
Definition nonEmptyContent (c : list RichText) : Prop :=
  c <> [] /\ trim (joinPlainText c) <> [].

(** The footnotes one location adds. *)
Definition footnotesOfLocation (markerPrefix : jsstring)
  (markers : list FootnoteMarkerInfo) (location : RichTextLocation) : list Footnote :=
  List.map (fun '(marker, contentRichTexts) =>
              mkFootnote marker (js "[^" ++ markerPrefix ++ marker ++ js "]")
                (rich_text contentRichTexts) (sourceLocationOf (property location)))
    (List.filter (fun '(marker, _) =>
                    existsb (fun m => jsstring_eqb (Marker m) marker) markers)
       (snd (extractFootnoteDefinitionsFromRichText (richTexts location) markerPrefix
               (Some (joinPlainText (richTexts location)))))).

(** ** Formatting, paths and markers *)

(** [s] differs from [o] at most in its text: every field but [PlainText]
    and [Text.Content] is that of [o]. *)
Definition sameFormatting (o s : RichText) : Prop :=
  Annotation_ s = Annotation_ o /\ Href s = Href o /\ Equation_ s = Equation_ o
  /\ Mention_ s = Mention_ o /\ InternalHref s = InternalHref o
  /\ IsFootnoteMarker s = IsFootnoteMarker o /\ FootnoteRef s = FootnoteRef o
  /\ IsCitationMarker s = IsCitationMarker o /\ CitationRef s = CitationRef o
  /\ (Link_ <$> Text_ s) = (Link_ <$> Text_ o).

(** The block kinds [setChildrenInBlock] can store children in. *)
Definition childBearing (b : Block) : bool :=
  bool_decide (is_Some (Paragraph b)) || bool_decide (is_Some (Heading1 b))
  || bool_decide (is_Some (Heading2 b)) || bool_decide (is_Some (Heading3 b))
  || bool_decide (is_Some (Quote b)) || bool_decide (is_Some (Callout b))
  || bool_decide (is_Some (Toggle b)) || bool_decide (is_Some (BulletedListItem b))
  || bool_decide (is_Some (NumberedListItem b)) || bool_decide (is_Some (ToDo b))
  || bool_decide (is_Some (SyncedBlock b)).

(** [s] has the formatting of [o], as it is or flagged as the reference of
    one of the markers [ms]. *)
Definition likeOrFlagged (ms : list FootnoteMarkerInfo) (o s : RichText) : Prop :=
  sameFormatting o s
  \/ exists m, In m ms /\ sameFormatting (setFootnoteMarker (Marker m) o) s.

(** The property path a setter writes to. *)
Definition pathName (p : Path) : jsstring :=
  match p with
  | Scalar q => scalarName q
  | Cell r c => cellName r c
  end.

(** What a setter's target holds: the array the closure would overwrite. *)
Definition readPath (p : Path) (b : Block) : option (list RichText) :=
  match p with
  | Scalar q => readScalar q b
  | Cell r c =>
      rows ← Table b ≫= Rows;
      row ← rows !! r;
      cell ← Cells row !! c;
      Some (Cell_RichTexts cell)
  end.

(** A decimal digit. *)
Definition isDigit (c : N) : bool := in_range 48 57 c.

(** A marker of the text [T]: it lies inside [T] and [FullMarker] is the
    non-empty text it covers. *)
Definition wfMarker (T : jsstring) (m : FootnoteMarkerInfo) : Prop :=
  CharStart (Location m) + length (FullMarker m) <= length T
  /\ FullMarker m = take (length (FullMarker m)) (drop (CharStart (Location m)) T)
  /\ FullMarker m <> [].

(** [a] ends before [b] starts. *)
Definition markerBefore (a b : FootnoteMarkerInfo) : Prop :=
  CharStart (Location a) + length (FullMarker a) <= CharStart (Location b).

(** The span that starts where marker [m] starts is flagged as its
    reference and holds the beginning of the marker text. *)
Definition flaggedAt (out : list RichText) (m : FootnoteMarkerInfo) : Prop :=
  exists pre s post,
    out = pre ++ s :: post
    /\ length (joinPlainText pre) = CharStart (Location m)
    /\ IsFootnoteMarker s = Some true
    /\ FootnoteRef s = Some (Marker m)
    /\ exists rest, FullMarker m = PlainText s ++ rest.

(** The delimiter that opens the definitions section: a blank line, then
    the opening of a marker. *)
Definition definitionsDelimiter : jsstring := 10%N :: 10%N :: js "[^".

(** What the child scan looks at: the first location of the child and the
    definition prefix matched in its text, if any. *)
Definition definitionOfChild (markerPrefix : jsstring) (child : Block)
  : option (RichTextLocation * RegExpMatch) :=
  match getAllRichTextLocations child with
  | [] => None
  | location0 :: _ =>
      match fst (exec (createContentPattern markerPrefix)
                   (joinPlainText (richTexts location0)) 0) with
      | Some m => Some (location0, m)
      | None => None
      end
  end.

(** The child starts a footnote definition. *)
Definition isDefinitionChild (markerPrefix : jsstring) (child : Block) : bool :=
  bool_decide (is_Some (definitionOfChild markerPrefix child)).

(** A child after the scan: a definition child has lost its prefix. *)
Definition strippedChild (markerPrefix : jsstring) (child : Block) : Block :=
  match definitionOfChild markerPrefix child with
  | Some (location0, m) =>
      runSetter (setter location0)
        (removeMarkerPrefix (richTexts location0) (length (match0 m))) child
  | None => child
  end.

(** The footnote a definition child becomes. *)
Definition footnoteOfChild (markerPrefix : jsstring) (child : Block) : list Footnote :=
  match definitionOfChild markerPrefix child with
  | Some (_, m) =>
      [mkFootnote (match1 m) (js "[^" ++ markerPrefix ++ match1 m ++ js "]")
         (blocks [strippedChild markerPrefix child]) content]
  | None => []
  end.

(** What end-of-block extraction leaves in a location: the part before the
    definitions, with its inline markers flagged. *)
Definition endOfBlockRichTexts (markerPrefix : jsstring) (markers : list FootnoteMarkerInfo)
  (location : RichTextLocation) : list RichText :=
  let cleanedRichTexts :=
    fst (extractFootnoteDefinitionsFromRichText (richTexts location) markerPrefix
           (Some (joinPlainText (richTexts location)))) in
  splitRichTextWithMarkers
    (mkLocation (property location) cleanedRichTexts (setter location)) markers.

(** No match of [p] begins strictly inside another match of [p]. *)
Definition selfAvoiding (p : Matcher) : Prop :=
  forall prev prev' s key len k,
    p prev s = Some (key, len) -> 0 < k -> k < len -> p prev' (drop k s) = None.

(** [p] does not look at the character before the match ([^] is not used). *)
Definition unanchored (p : Matcher) : Prop :=
  forall prev prev' s, p prev s = p prev' s.

(** The opening and closing literal of the configured citation token. *)
Definition citationDelimiters (citationFormat : jsstring) : option (jsstring * jsstring) :=
  if jsstring_eqb citationFormat (js "[@key]") then Some (js "[@", js "]")
  else if jsstring_eqb citationFormat (js "\cite{key}") then Some (js "\cite{", js "}")
  else if jsstring_eqb citationFormat (js "#cite(key)") then Some (js "#cite(", js ")")
  else None.

(** ** Runs of a computation that talks to the collaborators *)

(** Every run of [m], whatever the collaborators answer, returns normally
    with a result that satisfies [P]. *)
Fixpoint always {A} (P : A -> Prop) (m : Eff A) : Prop :=
  match m with
  | Ret a => P a
  | Throw _ => False
  | CommentsList _ k => forall o, always P (k o)
  | DownloadFile _ _ k => forall o, always P (k o)
  end.

(** Every run of [m] that returns normally does so with a result that
    satisfies [P]. *)
Fixpoint whenReturns {A} (P : A -> Prop) (m : Eff A) : Prop :=
  match m with
  | Ret a => P a
  | Throw _ => True
  | CommentsList _ k => forall o, whenReturns P (k o)
  | DownloadFile _ _ k => forall o, whenReturns P (k o)
  end.

(** [m] never asks for the comments of a block. *)
Fixpoint noCommentsRequest {A} (m : Eff A) : Prop :=
  match m with
  | Ret _ | Throw _ => True
  | CommentsList _ _ => False
  | DownloadFile _ _ k => forall o, noCommentsRequest (k o)
  end.

(** The pass that flags the inline markers of every location. *)
Definition flagMarkers (markers : list FootnoteMarkerInfo) (locations : list RichTextLocation)
  (block : Block) : Block :=
  fold_left (fun b location =>
               runSetter (setter location) (splitRichTextWithMarkers location markers) b)
    locations block.

(** Position [i] of [out] is held by a fragment of the run of [richTexts]
    that held it: the text there was at most cut, never turned into a marker
    span. *)
Definition heldByFragment (richTexts out : list RichText) (i : nat) : Prop :=
  forall s, runAt out i s -> exists o, runAt richTexts i o /\ fragmentOf o s.

(* ===================================================================== *)
(** * Example data *)
(* ===================================================================== *)

Definition plainAnnotation : Annotation :=
  mkAnnotation false false false false false (js "default").

Definition boldAnnotation : Annotation :=
  mkAnnotation true false false false false (js "default").

Definition codeAnnotation : Annotation :=
  mkAnnotation false false false false true (js "default").

(** A text span with the given annotation and no link. *)
Definition textSpan (a : Annotation) (s : jsstring) : RichText :=
  mkRichText (Some (mkText s None)) a s None None None None None None None None.

Definition emptyBlock (id : jsstring) : Block :=
  mkBlock id None None None None None None None None None None None None None
    None None None None None None None.

Definition paragraphBlock (id : jsstring) (richTexts : list RichText)
  (children : option (list Block)) : Block :=
  withParagraph (Some (mkTextBlock richTexts children)) (emptyBlock id).

Definition newline : jsstring := [10%N].

(** A paragraph citing one key that the bibliography has and one that it
    lacks; the resolved token is set in bold. *)
Definition smithEntry : Citations.ParsedCitationEntry :=
  Citations.mkEntry (js "smith2020") (js "Smith") (js "2020")
    (js "[1] Smith, 2020.") (js "Smith (2020).").

Definition exampleBibliography : gmap jsstring Citations.ParsedCitationEntry :=
  {[ js "smith2020" := smithEntry ]}.

Definition pandocConfig : Citations.CitationsConfig :=
  Citations.mkCitationsConfig (js "[@key]") false.

Definition pandocPattern : Matcher := citationPattern (js "[@") (js "]").

Definition citingBlock : Block :=
  paragraphBlock (js "block-1")
    [ textSpan plainAnnotation (js "Prior work ");
      textSpan boldAnnotation (js "[@smith2020]");
      textSpan plainAnnotation (js " shows [@doe2019] and ");
      textSpan codeAnnotation (js "[@smith2020]") ]
    None.

Definition citingLocation : RichTextLocation :=
  mkLocation (js "Paragraph.RichTexts")
    [ textSpan plainAnnotation (js "Prior work ");
      textSpan boldAnnotation (js "[@smith2020]");
      textSpan plainAnnotation (js " shows [@doe2019] and ");
      textSpan codeAnnotation (js "[@smith2020]") ]
    (Scalar Paragraph_RichTexts).

Definition footnotesConfig (source : ActiveSource) : FootnotesConfig :=
  mkFootnotesConfig
    (bool_decide (source = end_of_block))
    (bool_decide (source = start_of_child_blocks))
    (bool_decide (source = block_comments))
    (js "ft_").

(** A paragraph whose only marker sits in a code run. *)
Definition codeOnlyBlock : Block :=
  paragraphBlock (js "block-2")
    [ textSpan plainAnnotation (js "Write ");
      textSpan codeAnnotation (js "[^ft_a]");
      textSpan plainAnnotation (js " to add a note.") ]
    (Some [paragraphBlock (js "child") [textSpan plainAnnotation (js "[^ft_a]: x")] None]).

(** Comparison of strings by code units: one consistent comparator that
    [localeCompare] can be (the "C" collation). *)
Fixpoint codeUnitCompare (a b : jsstring) : Z :=
  match a, b with
  | [], [] => 0
  | [], _ :: _ => -1
  | _ :: _, [] => 1
  | x :: a', y :: b' =>
      match N.compare x y with
      | Eq => codeUnitCompare a' b'
      | Lt => -1
      | Gt => 1
      end
  end.

Definition citationOf (key authors : jsstring) (index : option Z) : Citations.Citation :=
  Citations.mkCitation key (js "") authors (js "2020") index [].

Definition unsortedCitations : list Citations.Citation :=
  [ citationOf (js "k1") (js "Smith") (Some 2%Z);
    citationOf (js "k2") (js "Doe") (Some 1%Z);
    citationOf (js "k3") (js "Smith") (Some 1%Z);
    citationOf (js "k4") (js "Adams") None ].

(** A span that mentions a page. *)
Definition pageMention : Mention :=
  mkMention (js "page") (Some (mkInterlinkedContent (js "p1") (js "page")))
    None None None.

Definition mentionSpan : RichText :=
  mkRichText None plainAnnotation (js "@Home") None None (Some pageMention) None
    None None None None.

(** A block with two inline markers and three children: a note for [a]
    (with a child of its own), plain text, a note for [b]. *)
Definition grandChild : Block :=
  paragraphBlock (js "grandchild") [textSpan plainAnnotation (js "more on a")] None.

Definition noteChildA : Block :=
  paragraphBlock (js "child-0") [textSpan plainAnnotation (js "[^ft_a]: first note")]
    (Some [grandChild]).

Definition plainChild : Block :=
  paragraphBlock (js "child-1") [textSpan plainAnnotation (js "plain text")] None.

Definition noteChildB : Block :=
  paragraphBlock (js "child-2") [textSpan plainAnnotation (js "[^ft_b]: second note")]
    None.

Definition twoMarkersBlock : Block :=
  paragraphBlock (js "parent")
    [textSpan plainAnnotation (js "One[^ft_a] and two[^ft_b].")]
    (Some [noteChildA; plainChild; noteChildB]).

(** The two note children once their definition prefix is removed. *)
Definition strippedChildA : Block :=
  paragraphBlock (js "child-0") [textSpan plainAnnotation (js "first note")]
    (Some [grandChild]).

Definition strippedChildB : Block :=
  paragraphBlock (js "child-2") [textSpan plainAnnotation (js "second note")] None.

(** The end-of-block example: a body with one inline reference, then the
    definitions of [a] and of [b]. *)
Definition endOfBlockText : jsstring :=
  js "See it here[^ft_a]" ++ newline ++ newline ++ js "[^ft_a]: first note"
    ++ newline ++ newline ++ js "[^ft_b]: second note".

Definition endOfBlockExample : Block :=
  paragraphBlock (js "block-3") [textSpan boldAnnotation endOfBlockText] None.

(** The location of [twoMarkersBlock] and its first marker. *)
Definition twoMarkersLocation : RichTextLocation :=
  mkLocation (js "Paragraph.RichTexts")
    [textSpan plainAnnotation (js "One[^ft_a] and two[^ft_b].")]
    (Scalar Paragraph_RichTexts).

Definition markerA : FootnoteMarkerInfo :=
  mkMarkerInfo (js "a") (js "[^ft_a]")
    (mkMarkerLocation (js "Paragraph.RichTexts") 0 3 10).

(** The location of [endOfBlockExample]. *)
Definition endOfBlockLocation : RichTextLocation :=
  mkLocation (js "Paragraph.RichTexts") [textSpan boldAnnotation endOfBlockText]
    (Scalar Paragraph_RichTexts).

(** A comment of one text run, as the provider returns it. *)
Definition noteComment (text : jsstring) : NotionComment :=
  mkNotionComment
    (Some [mkNotionRichText None (Some text) None type_text
             (Some (mkNotionText (Some text) None)) None None])
    None.

(** The first location of [noteChildA]. *)
Definition noteChildALocation : RichTextLocation :=
  mkLocation (js "Paragraph.RichTexts")
    [textSpan plainAnnotation (js "[^ft_a]: first note")]
    (Scalar Paragraph_RichTexts).

(** The third token of [citingLocation], the one set in code. *)
Definition codeTokenMatch : RegExpMatch := mkMatch 45 (js "[@smith2020]") (js "smith2020").

(** An empty definition followed by another one: the body cites [b] and
    [c]; the definition of [b] is empty, the definition of [c] reads
    "gamma". *)
Definition emptyDefinitionText : jsstring :=
  js "See[^ft_b] and[^ft_c]" ++ newline ++ newline ++ js "[^ft_b]: "
    ++ newline ++ newline ++ js "[^ft_c]: gamma".

Definition emptyDefinitionExample : Block :=
  paragraphBlock (js "block-4") [textSpan plainAnnotation emptyDefinitionText] None.

(* ===================================================================== *)
(** * Properties *)
(* ===================================================================== *)

(** ** Joining and splitting *)

Lemma joinPlainText_nil : joinPlainText [] = [].
Proof. reflexivity. Qed.

Lemma joinPlainText_cons rt rts :
  joinPlainText (rt :: rts) = PlainText rt ++ joinPlainText rts.
Proof. reflexivity. Qed.

Lemma joinPlainText_app a b :
  joinPlainText (a ++ b) = joinPlainText a ++ joinPlainText b.
Proof.
  unfold joinPlainText. now rewrite List.map_app, concat_app.
Qed.

Lemma PlainText_setTextContentIfPresent s rt :
  PlainText (setTextContentIfPresent s rt) = PlainText rt.
Proof. unfold setTextContentIfPresent. now destruct (Text_ rt). Qed.

Lemma PlainText_pieceOf rt s : PlainText (pieceOf rt s) = s.
Proof. unfold pieceOf. now rewrite PlainText_setTextContentIfPresent. Qed.

Lemma cloneRichText_id rt : cloneRichText rt = rt.
Proof.
  destruct rt as [t a p h e m i f fr c cr]; unfold cloneRichText; simpl.
  f_equal.
  - destruct t as [[ct [[u]|]]|]; reflexivity.
  - now destruct a.
  - destruct e as [[x]|]; reflexivity.
  - destruct m as [[]|]; reflexivity.
  - destruct i as [[]|]; reflexivity.
Qed.

Lemma substring_0 (s : jsstring) n : substring s 0 n = take n s.
Proof. unfold substring. now rewrite Nat.max_0_l, Nat.min_0_l, Nat.sub_0_r. Qed.

(** The two halves are exactly the first [k] characters and the rest. *)
Lemma splitLoop_join richTexts splitCharPos currentPos :
  joinPlainText (fst (splitLoop richTexts splitCharPos currentPos))
    = take (splitCharPos - currentPos) (joinPlainText richTexts)
  /\ joinPlainText (snd (splitLoop richTexts splitCharPos currentPos))
    = drop (splitCharPos - currentPos) (joinPlainText richTexts).
Proof.
  revert currentPos.
  induction richTexts as [|rt rest IH]; intros pos; simpl.
  - destruct (splitCharPos - pos); split; reflexivity.
  - specialize (IH (pos + length (PlainText rt))).
    destruct (splitLoop rest splitCharPos (pos + length (PlainText rt)))
      as [before after] eqn:E.
    simpl in IH. destruct IH as [IHb IHa].
    rewrite joinPlainText_cons, take_app, drop_app.
    destruct (Nat.leb_spec splitCharPos pos) as [Hle|Hgt]; simpl.
    + replace (splitCharPos - pos) with 0 in * by lia.
      replace (splitCharPos - (pos + length (PlainText rt))) with 0 in * by lia.
      rewrite IHb, joinPlainText_cons, IHa. simpl.
      now rewrite !take_0, !drop_0.
    + destruct (Nat.leb_spec (pos + length (PlainText rt)) splitCharPos) as [Hle'|Hgt'];
        simpl.
      * rewrite joinPlainText_cons, IHb, IHa.
        rewrite (take_ge (PlainText rt)), (drop_ge (PlainText rt)) by lia.
        replace (splitCharPos - (pos + length (PlainText rt)))
          with (splitCharPos - pos - length (PlainText rt)) by lia.
        easy.
      * replace (splitCharPos - (pos + length (PlainText rt))) with 0 in * by lia.
        replace (splitCharPos - pos - length (PlainText rt)) with 0 by lia.
        rewrite take_0, drop_0 in *.
        destruct (Nat.ltb_spec 0 (splitCharPos - pos)); [|lia].
        destruct (Nat.ltb_spec (splitCharPos - pos) (length (PlainText rt))); [|lia].
        rewrite !joinPlainText_cons, !PlainText_pieceOf, IHb, IHa, substring_0.
        unfold substringFrom. now rewrite app_nil_r.
Qed.

Lemma split_join_take richTexts k :
  joinPlainText (fst (splitRichTextsAtCharPosition richTexts k))
    = take k (joinPlainText richTexts).
Proof.
  unfold splitRichTextsAtCharPosition.
  rewrite (proj1 (splitLoop_join richTexts k 0)). now rewrite Nat.sub_0_r.
Qed.

Lemma split_join_drop richTexts k :
  joinPlainText (snd (splitRichTextsAtCharPosition richTexts k))
    = drop k (joinPlainText richTexts).
Proof.
  unfold splitRichTextsAtCharPosition.
  rewrite (proj2 (splitLoop_join richTexts k 0)). now rewrite Nat.sub_0_r.
Qed.

(** The copy in [citations.ts] is the same function. *)
Lemma Citations_split_same :
  Citations.splitRichTextsAtCharPosition = splitRichTextsAtCharPosition.
Proof. reflexivity. Qed.

(** C1. Splitting a rich-text sequence at a character position loses and
    duplicates nothing: the joined text of the part before the cut followed
    by the joined text of the part after it is the joined text of the whole.
    This holds for the splitter of [footnotes.ts] and for its copy in
    [citations.ts], at every position [k] from 0 to the length of the joined
    text. *)
Theorem split_join_roundtrip (S : list RichText) (k : nat) :
  k <= length (joinPlainText S) ->
  (let '(before, after) := splitRichTextsAtCharPosition S k in
   joinPlainText before ++ joinPlainText after = joinPlainText S)
  /\ (let '(before, after) := Citations.splitRichTextsAtCharPosition S k in
      joinPlainText before ++ joinPlainText after = joinPlainText S).
Proof.
  intros _. rewrite Citations_split_same.
  pose proof (split_join_take S k) as Ht.
  pose proof (split_join_drop S k) as Hd.
  destruct (splitRichTextsAtCharPosition S k) as [before after]; simpl in *.
  rewrite Ht, Hd. split; apply take_drop.
Qed.

Lemma split_length_take richTexts k :
  k <= length (joinPlainText richTexts) ->
  length (joinPlainText (fst (splitRichTextsAtCharPosition richTexts k))) = k.
Proof. intros H. rewrite split_join_take, length_take. lia. Qed.

(** ** The match loop *)

Lemma take_length_take (s : jsstring) n : take (length (take n s)) s = take n s.
Proof.
  rewrite length_take.
  destruct (Nat.le_ge_cases n (length s)).
  - now rewrite Nat.min_l.
  - rewrite Nat.min_r by easy. now rewrite !take_ge.
Qed.

Lemma execLoop_spec p prev pos skip s m :
  In m (execLoop p prev pos skip s) ->
  pos + skip <= index m /\ index m < pos + length s
  /\ match0 m = take (length (match0 m)) (drop (index m - pos) s).
Proof.
  revert prev pos skip.
  induction s as [|c s IH]; intros prev pos skip Hin; simpl in Hin; [easy|].
  assert (Htail : forall k, In m (execLoop p (Some c) (S pos) k s) ->
            S pos + k <= index m /\ index m < pos + length (c :: s)
            /\ match0 m = take (length (match0 m)) (drop (index m - pos) (c :: s))).
  { intros k Hk. apply IH in Hk as (H1 & H2 & H3).
    repeat split; simpl; try lia.
    replace (index m - pos) with (S (index m - S pos)) by lia. exact H3. }
  destruct skip as [|k].
  - destruct (p prev (c :: s)) as [[key len]|].
    + destruct Hin as [<-|Hin].
      * simpl. rewrite Nat.sub_diag. simpl drop.
        repeat split; try lia. now rewrite take_length_take.
      * apply Htail in Hin. lia || (destruct Hin as (? & ? & ?); repeat split; (lia || easy)).
    + apply Htail in Hin. destruct Hin as (? & ? & ?); repeat split; (lia || easy).
  - apply Htail in Hin. destruct Hin as (? & ? & ?); repeat split; (lia || easy).
Qed.

Lemma execAll_in_text p text m : In m (execAll p text) -> matchInText text m.
Proof.
  intros H. apply execLoop_spec in H as (_ & H2 & H3).
  rewrite Nat.sub_0_r in H3. split; [lia | exact H3].
Qed.

Lemma execLoop_sorted p prev pos skip s :
  StronglySorted matchBefore (execLoop p prev pos skip s).
Proof.
  revert prev pos skip.
  induction s as [|c s IH]; intros prev pos skip; simpl; [constructor|].
  destruct skip as [|k]; [|apply IH].
  destruct (p prev (c :: s)) as [[key len]|]; [|apply IH].
  constructor; [apply IH|].
  apply List.Forall_forall. intros m Hm.
  apply execLoop_spec in Hm as (H1 & _ & _).
  unfold matchBefore; simpl index; simpl match0.
  pose proof (length_take (c :: s) len). lia.
Qed.

Lemma StronglySorted_filter {A} (R : A -> A -> Prop) (f : A -> bool) l :
  StronglySorted R l -> StronglySorted R (List.filter f l).
Proof.
  induction 1 as [|x l Hs IH Hf]; simpl; [constructor|].
  destruct (f x); [|exact IH].
  constructor; [exact IH|].
  rewrite List.Forall_forall in *. intros y Hy.
  apply List.filter_In in Hy as [Hy _]. now apply Hf.
Qed.

Lemma StronglySorted_map {A B} (R : A -> A -> Prop) (Q : B -> B -> Prop) (f : A -> B) l :
  (forall a b, R a b -> Q (f a) (f b)) ->
  StronglySorted R l -> StronglySorted Q (List.map f l).
Proof.
  intros HRQ. induction 1 as [|x l Hs IH Hf]; simpl; constructor; [exact IH|].
  rewrite List.Forall_forall in *. intros y Hy.
  apply List.in_map_iff in Hy as (a & <- & Ha). now apply HRQ, Hf.
Qed.

(** ** How a split treats a concatenation *)

Lemma splitLoop_app a b k pos :
  splitLoop (a ++ b) k pos =
    (fst (splitLoop a k pos) ++ fst (splitLoop b k (pos + length (joinPlainText a))),
     snd (splitLoop a k pos) ++ snd (splitLoop b k (pos + length (joinPlainText a)))).
Proof.
  revert pos. induction a as [|rt a IH]; intros pos.
  - simpl. rewrite Nat.add_0_r. now destruct (splitLoop b k pos).
  - simpl app. simpl splitLoop. rewrite IH.
    rewrite joinPlainText_cons, length_app.
    replace (pos + (length (PlainText rt) + length (joinPlainText a)))
      with (pos + length (PlainText rt) + length (joinPlainText a)) by lia.
    destruct (splitLoop a k (pos + length (PlainText rt))) as [ba aa].
    destruct (splitLoop b k (pos + length (PlainText rt) + length (joinPlainText a)))
      as [bb ab].
    simpl.
    destruct (k <=? pos); [reflexivity|].
    destruct (pos + length (PlainText rt) <=? k); [reflexivity|].
    destruct (0 <? k - pos), (k - pos <? length (PlainText rt)); reflexivity.
Qed.

Lemma splitLoop_all_after l k pos : k <= pos -> splitLoop l k pos = ([], l).
Proof.
  revert pos. induction l as [|rt l IH]; intros pos H; [reflexivity|].
  simpl. rewrite IH by lia.
  destruct (Nat.leb_spec k pos); [reflexivity|lia].
Qed.

(** Cutting inside the left part leaves the right part whole, at the end of
    the second half. *)
Lemma split_app_left a b k :
  k <= length (joinPlainText a) ->
  splitRichTextsAtCharPosition (a ++ b) k =
    (fst (splitRichTextsAtCharPosition a k),
     snd (splitRichTextsAtCharPosition a k) ++ b).
Proof.
  intros H. unfold splitRichTextsAtCharPosition.
  rewrite splitLoop_app, (splitLoop_all_after b) by (simpl; lia).
  simpl. now rewrite app_nil_r.
Qed.

(** ** Fragments: what a split can make of a span *)

Lemma pieceOf_pieceOf o p q : pieceOf (pieceOf o p) q = pieceOf o q.
Proof.
  unfold pieceOf. rewrite !cloneRichText_id.
  unfold setTextContentIfPresent, setPlainText, setText; simpl.
  destruct (Text_ o); reflexivity.
Qed.

Lemma fragmentOf_refl o : fragmentOf o o.
Proof. now left. Qed.

Lemma fragmentOf_trans a b c : fragmentOf a b -> fragmentOf b c -> fragmentOf a c.
Proof.
  intros [->|[p ->]] [->|[q ->]]; try (now left); right.
  - now exists q.
  - now exists p.
  - exists q. apply pieceOf_pieceOf.
Qed.

Lemma splitLoop_fragments l k pos s :
  In s (fst (splitLoop l k pos)) \/ In s (snd (splitLoop l k pos)) ->
  exists o, In o l /\ fragmentOf o s.
Proof.
  revert pos. induction l as [|rt l IH]; intros pos; simpl.
  - intros [[]|[]].
  - specialize (IH (pos + length (PlainText rt))).
    destruct (splitLoop l k (pos + length (PlainText rt))) as [b a]. simpl in IH.
    assert (Hrt : exists o, (rt = o \/ In o l) /\ fragmentOf o rt)
      by (exists rt; split; [now left | apply fragmentOf_refl]).
    assert (Hp : forall piece, exists o, (rt = o \/ In o l) /\ fragmentOf o (pieceOf rt piece))
      by (intros piece; exists rt; split; [now left | right; now exists piece]).
    assert (Hl : In s b \/ In s a -> exists o, (rt = o \/ In o l) /\ fragmentOf o s).
    { intros H. destruct (IH H) as (o & Ho & Hf). exists o. split; [now right | easy]. }
    destruct (k <=? pos); simpl.
    { intros [H|[<-|H]]; auto. }
    destruct (pos + length (PlainText rt) <=? k); simpl.
    { intros [[<-|H]|H]; auto. }
    destruct (0 <? k - pos), (k - pos <? length (PlainText rt)); simpl;
      intros H; repeat (destruct H as [H|H]; try subst s); auto.
Qed.

Lemma split_fragments l k s :
  In s (fst (splitRichTextsAtCharPosition l k))
  \/ In s (snd (splitRichTextsAtCharPosition l k)) ->
  exists o, In o l /\ fragmentOf o s.
Proof. apply splitLoop_fragments. Qed.

(** ** Citation matches of one location *)

Lemma findCitationMatches_inv pattern richTexts m :
  In m (Citations.findCitationMatches pattern richTexts) ->
  exists r, In r (execAll pattern (joinPlainText richTexts))
    /\ Citations.inCodeRun richTexts (index r) 0 = false
    /\ m = Citations.mkCitationMatch (match1 r) (index r)
             (index r + length (match0 r)) (match0 r).
Proof.
  unfold Citations.findCitationMatches. intros H.
  apply List.in_map_iff in H as (r & <- & Hr).
  apply List.filter_In in Hr as [Hr Hc].
  exists r. repeat split; [easy|]. now destruct (Citations.inCodeRun _ _ _).
Qed.

Lemma findCitationMatches_wf pattern richTexts m :
  In m (Citations.findCitationMatches pattern richTexts) ->
  wfMatch (joinPlainText richTexts) m.
Proof.
  intros H. apply findCitationMatches_inv in H as (r & Hr & _ & ->).
  apply execAll_in_text in Hr as [Hlt Hm]. unfold wfMatch; simpl.
  repeat split; [|exact Hm].
  rewrite Hm, length_take, length_drop. lia.
Qed.

Lemma findCitationMatches_sorted pattern richTexts :
  StronglySorted citeBefore (Citations.findCitationMatches pattern richTexts).
Proof.
  unfold Citations.findCitationMatches.
  apply StronglySorted_map with (R := matchBefore); [now intros a b|].
  apply StronglySorted_filter, execLoop_sorted.
Qed.

Lemma StronglySorted_snoc {A} (R : A -> A -> Prop) l x :
  StronglySorted R l -> List.Forall (fun y => R y x) l -> StronglySorted R (l ++ [x]).
Proof.
  induction 1 as [|y l Hs IH Hf]; intros Hx; simpl.
  - constructor; constructor.
  - inversion Hx; subst. constructor; [now apply IH|].
    apply List.Forall_app. split; [easy|]. now constructor.
Qed.

Lemma StronglySorted_rev {A} (R : A -> A -> Prop) l :
  StronglySorted R l -> StronglySorted (fun a b => R b a) (rev l).
Proof.
  induction 1 as [|x l Hs IH Hf]; simpl; [constructor|].
  apply StronglySorted_snoc; [exact IH|].
  rewrite List.Forall_forall in *. intros y Hy. apply Hf. now apply List.in_rev.
Qed.

(** ** The replacement loop of one location *)

Section ReplaceMatches.

Variable bibEntries : gmap jsstring Citations.ParsedCitationEntry.
Variable style : Citations.BibliographyStyle.

Let step := Citations.replaceMatch bibEntries style.

Lemma replaceMatch_unresolved rts cits m :
  bibEntries !! Citations.match_key m = None -> step (rts, cits) m = (rts, cits).
Proof. intros H. unfold step, Citations.replaceMatch. now rewrite H. Qed.

Lemma replaceMatch_resolved rts cits m entry :
  bibEntries !! Citations.match_key m = Some entry ->
  step (rts, cits) m =
    (fst (splitRichTextsAtCharPosition rts (Citations.match_start m))
       ++ [Citations.markerText m]
       ++ snd (splitRichTextsAtCharPosition
                 (snd (splitRichTextsAtCharPosition rts (Citations.match_start m)))
                 (Citations.match_end m - Citations.match_start m)),
     cits ++ [Citations.newCitation style m entry]).
Proof.
  intros H. unfold step, Citations.replaceMatch. rewrite H, Citations_split_same.
  destruct (splitRichTextsAtCharPosition rts (Citations.match_start m)) as [b a].
  simpl. now destruct (splitRichTextsAtCharPosition a _).
Qed.

Lemma replaceMatch_join rts cits m :
  wfMatch (joinPlainText rts) m ->
  joinPlainText (fst (step (rts, cits) m)) = joinPlainText rts.
Proof.
  intros (He & Hle & Hm).
  destruct (bibEntries !! Citations.match_key m) as [entry|] eqn:E.
  - rewrite (replaceMatch_resolved _ _ _ _ E). simpl fst.
    rewrite joinPlainText_app, joinPlainText_cons, split_join_take, !split_join_drop.
    simpl PlainText.
    replace (Citations.match_end m - Citations.match_start m)
      with (length (Citations.fullMatch m)) by lia.
    rewrite Hm at 1.
    rewrite (take_drop (length (Citations.fullMatch m))).
    apply take_drop.
  - now rewrite replaceMatch_unresolved.
Qed.

Lemma replaceMatch_places rts cits m entry :
  wfMatch (joinPlainText rts) m ->
  bibEntries !! Citations.match_key m = Some entry ->
  placed (fst (step (rts, cits) m)) m.
Proof.
  intros (He & Hle & Hm) E. rewrite (replaceMatch_resolved _ _ _ _ E). simpl.
  eexists _, _. split; [reflexivity|].
  apply split_length_take. lia.
Qed.

Lemma replaceMatch_keeps rts cits m m0 :
  wfMatch (joinPlainText rts) m ->
  Citations.match_end m <= Citations.match_start m0 ->
  placed rts m0 -> placed (fst (step (rts, cits) m)) m0.
Proof.
  intros (He & Hle & Hm) Hlt (pre & post & -> & Hpre).
  destruct (bibEntries !! Citations.match_key m) as [entry|] eqn:E.
  2:{ rewrite replaceMatch_unresolved by easy. now exists pre, post. }
  rewrite (replaceMatch_resolved _ _ _ _ E). simpl fst.
  rewrite (split_app_left pre) by lia. simpl fst. simpl snd.
  rewrite split_app_left by (rewrite split_join_drop, length_drop; lia).
  simpl snd.
  set (B := fst (splitRichTextsAtCharPosition pre (Citations.match_start m))).
  set (A := snd (splitRichTextsAtCharPosition
                   (snd (splitRichTextsAtCharPosition pre (Citations.match_start m)))
                   (Citations.match_end m - Citations.match_start m))).
  exists (B ++ Citations.markerText m :: A), post. split.
  - now rewrite <- app_assoc.
  - subst A B.
    rewrite joinPlainText_app, joinPlainText_cons, !length_app, split_join_take,
      !split_join_drop, length_take, !length_drop.
    simpl PlainText. lia.
Qed.

Lemma replaceMatch_fragments rts cits m s :
  In s (fst (step (rts, cits) m)) ->
  (s = Citations.markerText m /\ is_Some (bibEntries !! Citations.match_key m))
  \/ exists o, In o rts /\ fragmentOf o s.
Proof.
  destruct (bibEntries !! Citations.match_key m) as [entry|] eqn:E.
  2:{ rewrite replaceMatch_unresolved by easy. simpl. intros H. right.
      exists s. split; [easy|apply fragmentOf_refl]. }
  rewrite (replaceMatch_resolved _ _ _ _ E). simpl fst.
  rewrite in_app_iff. intros [H|[<-|H]].
  - right. eapply split_fragments. left. eassumption.
  - left. split; [reflexivity|now exists entry].
  - right.
    destruct (split_fragments _ _ s (or_intror H)) as (o & Ho & Hf).
    destruct (split_fragments _ _ o (or_intror Ho)) as (o' & Ho' & Hf').
    exists o'. split; [easy|]. eapply fragmentOf_trans; eassumption.
Qed.

Lemma fold_replace_citations ms rts cits :
  snd (fold_left step ms (rts, cits)) = cits ++ resolvedCitations bibEntries style ms.
Proof.
  revert rts cits. induction ms as [|m ms IH]; intros rts cits; cbn [fold_left].
  - simpl. now rewrite app_nil_r.
  - unfold resolvedCitations; cbn [List.flat_map]; fold (resolvedCitations bibEntries style ms).
    destruct (bibEntries !! Citations.match_key m) as [entry|] eqn:E.
    + rewrite (replaceMatch_resolved _ _ _ _ E), IH. now rewrite <- app_assoc.
    + rewrite replaceMatch_unresolved by easy. apply IH.
Qed.

Lemma fold_replace_richTexts_indep ms rts cits cits' :
  fst (fold_left step ms (rts, cits)) = fst (fold_left step ms (rts, cits')).
Proof.
  revert rts cits cits'. induction ms as [|m ms IH]; intros rts cits cits'; [easy|].
  cbn [fold_left]. destruct (bibEntries !! Citations.match_key m) as [entry|] eqn:E.
  - rewrite !(replaceMatch_resolved _ _ _ _ E). apply IH.
  - rewrite !replaceMatch_unresolved by easy. apply IH.
Qed.

(** Invariant of the right-to-left loop: the text is unchanged, each
    resolved token handled so far has its marker span in place, spans
    placed earlier (further right) stay where they are, and nothing else
    than fragments of the input and marker spans is ever produced. *)
Lemma fold_replace_inv ms rts cits :
  (forall m, In m ms -> wfMatch (joinPlainText rts) m) ->
  StronglySorted (fun a b => citeBefore b a) ms ->
  let out := fst (fold_left step ms (rts, cits)) in
  joinPlainText out = joinPlainText rts
  /\ (forall m, In m ms -> is_Some (bibEntries !! Citations.match_key m) ->
        placed out m)
  /\ (forall m0, placed rts m0 ->
        (forall m, In m ms -> citeBefore m m0) -> placed out m0)
  /\ (forall s, In s out ->
        (exists m, In m ms /\ is_Some (bibEntries !! Citations.match_key m)
                   /\ fragmentOf (Citations.markerText m) s)
        \/ exists o, In o rts /\ fragmentOf o s).
Proof.
  revert rts cits. induction ms as [|m ms IH]; intros rts cits Hwf Hs;
    cbn [fold_left]; cbv zeta.
  - simpl. repeat split; try easy.
    intros s Hs'. right. exists s. split; [easy|apply fragmentOf_refl].
  - inversion Hs as [|? ? Hs' Hall]; subst.
    rewrite List.Forall_forall in Hall.
    destruct (step (rts, cits) m) as [rts1 cits1] eqn:E.
    assert (Hj : joinPlainText rts1 = joinPlainText rts).
    { change rts1 with (fst (rts1, cits1)). rewrite <- E.
      apply replaceMatch_join, Hwf. now left. }
    destruct (IH rts1 cits1) as (I1 & I2 & I3 & I4); [|exact Hs'|].
    { intros m' Hm'. rewrite Hj. apply Hwf. now right. }
    repeat split.
    + now rewrite I1.
    + intros m' [<-|Hm'] Hres; [|now apply I2].
      apply I3; [|intros m' Hm'; now apply Hall].
      destruct Hres as [entry Hres].
      change rts1 with (fst (rts1, cits1)). rewrite <- E.
      eapply replaceMatch_places; [apply Hwf; now left|eassumption].
    + intros m0 Hp Hb. apply I3; [|intros m' Hm'; apply Hb; now right].
      change rts1 with (fst (rts1, cits1)). rewrite <- E.
      apply replaceMatch_keeps; [apply Hwf; now left | apply Hb; now left | easy].
    + intros s Hin. destruct (I4 s Hin) as [(m' & Hm' & Hr & Hf)|(o & Ho & Hf)].
      * left. exists m'. split; [now right|easy].
      * change rts1 with (fst (rts1, cits1)) in Ho. rewrite <- E in Ho.
        apply replaceMatch_fragments in Ho as [[-> Hr]|(o' & Ho' & Hf')].
        -- left. exists m. split; [now left|easy].
        -- right. exists o'. split; [easy|]. eapply fragmentOf_trans; eassumption.
Qed.

End ReplaceMatches.

(** ** Writing a location back into its block *)

Lemma readScalar_writeScalar_same p v b :
  is_Some (readScalar p b) -> readScalar p (writeScalar p v b) = Some v.
Proof.
  intros [x Hx]. destruct b; destruct p; simpl in *;
    match goal with
    | H : _ <$> ?o = Some _ |- _ => destruct o; [reflexivity|discriminate]
    | H : ?o ≫= _ = Some _ |- _ => destruct o; [reflexivity|discriminate]
    end.
Qed.

Lemma readScalar_writeScalar_other p q v b :
  p <> q -> readScalar q (writeScalar p v b) = readScalar q b.
Proof. intros H. destruct b; destruct p, q; try congruence; reflexivity. Qed.

Lemma Table_writeScalar p v b : Table (writeScalar p v b) = Table b.
Proof. destruct b; destruct p; reflexivity. Qed.

Lemma readScalar_writeCell r c v q b :
  readScalar q (writeCell r c v b) = readScalar q b.
Proof. destruct b; destruct q; reflexivity. Qed.

Lemma Table_writeCell r c v b :
  Table b ≫= Rows = Some (default [] (Table b ≫= Rows)) ->
  Table (writeCell r c v b) ≫= Rows =
    Some (alter (fun row => mkTableRow (alter (fun _ => mkTableCell v) c (Cells row)))
            r (default [] (Table b ≫= Rows))).
Proof.
  unfold writeCell. destruct b; simpl.
  match goal with
  | |- ?t ≫= Rows = _ -> _ => destruct t as [[[rows|]]|]; simpl; try discriminate
  end.
  reflexivity.
Qed.

Lemma addLocation_inv name rts path l :
  In l (addLocation name rts path) -> l = mkLocation name rts path /\ rts <> [].
Proof.
  unfold addLocation. destruct rts; simpl; [easy|]. intros [<-|[]]. easy.
Qed.

Lemma addLocation_nonempty name rts path :
  rts <> [] -> addLocation name rts path = [mkLocation name rts path].
Proof. unfold addLocation. now destruct rts. Qed.

Lemma scalarLocation_inv b q l :
  In l (scalarLocation b q) ->
  exists rts, readScalar q b = Some rts /\ rts <> []
              /\ l = mkLocation (scalarName q) rts (Scalar q).
Proof.
  unfold scalarLocation. destruct (readScalar q b) as [rts|]; [|easy].
  intros H. apply addLocation_inv in H as [-> H]. now exists rts.
Qed.

Lemma map_relocate_id path v ls :
  (forall l, In l ls -> setter l <> path) -> List.map (relocate path v) ls = ls.
Proof.
  intros H. rewrite <- (List.map_id ls) at 2. apply List.map_ext_in.
  intros l Hl. unfold relocate. destruct (decide (setter l = path)); [|easy].
  now apply H in Hl.
Qed.

Lemma rowLocations_setter rowIndex row l :
  In l (rowLocations rowIndex row) -> exists c, setter l = Cell rowIndex c.
Proof.
  unfold rowLocations. intros H. apply in_concat in H as (ls & Hls & Hl).
  apply list_elem_of_In, elem_of_lookup_imap in Hls as (c & cell & -> & _).
  apply addLocation_inv in Hl as [-> _]. now exists c.
Qed.

Lemma tableLocations_setter b l :
  In l (tableLocations b) -> exists r c, setter l = Cell r c.
Proof.
  unfold tableLocations. destruct (Table b ≫= Rows) as [rows|]; [|easy].
  intros H. apply in_concat in H as (ls & Hls & Hl).
  apply list_elem_of_In, elem_of_lookup_imap in Hls as (r & row & -> & _).
  apply rowLocations_setter in Hl as [c Hc]. now exists r, c.
Qed.

Lemma scalarLocation_writeScalar p v b q :
  v <> [] -> scalarLocation b p <> [] ->
  scalarLocation (writeScalar p v b) q
    = List.map (relocate (Scalar p) v) (scalarLocation b q).
Proof.
  intros Hv Hp. destruct (decide (p = q)) as [<-|Hne].
  - destruct (scalarLocation b p) as [|l ls] eqn:E; [easy|].
    assert (Hl : In l (scalarLocation b p)) by (rewrite E; now left).
    apply scalarLocation_inv in Hl as (rts & Hr & Hne & ->).
    unfold scalarLocation in *. rewrite Hr in E.
    rewrite readScalar_writeScalar_same by (now exists rts).
    rewrite addLocation_nonempty in * by easy.
    injection E as <-. simpl. unfold relocate; simpl.
    now rewrite decide_True.
  - rewrite map_relocate_id.
    + unfold scalarLocation. now rewrite readScalar_writeScalar_other.
    + intros l Hl. apply scalarLocation_inv in Hl as (rts & _ & _ & ->). simpl.
      congruence.
Qed.

Lemma getAll_writeScalar p v b :
  v <> [] -> scalarLocation b p <> [] ->
  getAllRichTextLocations (writeScalar p v b)
    = List.map (relocate (Scalar p) v) (getAllRichTextLocations b).
Proof.
  intros Hv Hp. unfold getAllRichTextLocations.
  rewrite List.map_app, List.concat_map, List.map_map. f_equal.
  - f_equal. apply List.map_ext. intros q. now apply scalarLocation_writeScalar.
  - rewrite map_relocate_id.
    + unfold tableLocations. now rewrite Table_writeScalar.
    + intros l Hl. apply tableLocations_setter in Hl as (r & c & ->). easy.
Qed.

Lemma cellsFrom_cons R k cell cells :
  cellsFrom R k (cell :: cells)
    = addLocation (cellName R k) (Cell_RichTexts cell) (Cell R k)
        ++ cellsFrom R (S k) cells.
Proof.
  unfold cellsFrom. simpl. rewrite Nat.add_0_r. f_equal. f_equal.
  apply imap_ext. intros i x _. simpl. now rewrite Nat.add_succ_r.
Qed.

Lemma rowsFrom_cons k row rows :
  rowsFrom k (row :: rows) = cellsFrom k 0 (Cells row) ++ rowsFrom (S k) rows.
Proof.
  unfold rowsFrom. simpl. rewrite Nat.add_0_r. f_equal. f_equal.
  apply imap_ext. intros i x _. simpl. now rewrite Nat.add_succ_r.
Qed.

Lemma tableLocations_rowsFrom b :
  tableLocations b = rowsFrom 0 (default [] (Table b ≫= Rows)).
Proof. unfold tableLocations. now destruct (Table b ≫= Rows). Qed.

Lemma cellsFrom_setter R k cells l :
  In l (cellsFrom R k cells) -> exists c, setter l = Cell R c /\ k <= c.
Proof.
  revert k. induction cells as [|cell cells IH]; intros k; [easy|].
  rewrite cellsFrom_cons, in_app_iff. intros [H|H].
  - apply addLocation_inv in H as [-> _]. exists k. easy.
  - apply IH in H as (c & Hc & Hle). exists c. split; [easy|lia].
Qed.

Lemma rowsFrom_setter k rows l :
  In l (rowsFrom k rows) -> exists r c, setter l = Cell r c /\ k <= r.
Proof.
  revert k. induction rows as [|row rows IH]; intros k; [easy|].
  rewrite rowsFrom_cons, in_app_iff. intros [H|H].
  - apply cellsFrom_setter in H as (c & Hc & _). exists k, c. easy.
  - apply IH in H as (r & c & Hc & Hle). exists r, c. split; [easy|lia].
Qed.

Section WriteCell.

Variable v : list RichText.
Hypothesis v_nonempty : v <> [].

Lemma cellsFrom_alter R k c cells :
  (exists l, In l (cellsFrom R k cells) /\ setter l = Cell R (k + c)) ->
  cellsFrom R k (alter (fun _ => mkTableCell v) c cells)
    = List.map (relocate (Cell R (k + c)) v) (cellsFrom R k cells).
Proof.
  revert k c. induction cells as [|cell cells IH]; intros k c (l & Hl & Hs); [easy|].
  rewrite cellsFrom_cons in Hl. apply in_app_iff in Hl.
  destruct c as [|c]; simpl alter; rewrite !cellsFrom_cons, List.map_app.
  - rewrite Nat.add_0_r in *. destruct Hl as [Hl|Hl].
    2:{ apply cellsFrom_setter in Hl as (c' & Hc' & Hle). rewrite Hs in Hc'.
        injection Hc' as <-. lia. }
    apply addLocation_inv in Hl as [_ Hne].
    rewrite !addLocation_nonempty by easy. simpl.
    unfold relocate at 1; simpl. rewrite decide_True by easy.
    f_equal. symmetry. apply map_relocate_id.
    intros l' Hl'. apply cellsFrom_setter in Hl' as (c' & -> & Hle).
    intros [=]. lia.
  - rewrite map_relocate_id.
    2:{ intros l' Hl'. apply addLocation_inv in Hl' as [-> _]. simpl.
        intros [=]. lia. }
    f_equal. rewrite <- Nat.add_succ_comm. apply IH.
    destruct Hl as [Hl|Hl].
    + apply addLocation_inv in Hl as [-> _]. simpl in Hs. injection Hs. lia.
    + exists l. split; [easy|]. now rewrite Nat.add_succ_comm.
Qed.

Lemma rowsFrom_alter k r c rows :
  (exists l, In l (rowsFrom k rows) /\ setter l = Cell (k + r) c) ->
  rowsFrom k (alter (fun row => mkTableRow (alter (fun _ => mkTableCell v) c (Cells row)))
                r rows)
    = List.map (relocate (Cell (k + r) c) v) (rowsFrom k rows).
Proof.
  revert k r. induction rows as [|row rows IH]; intros k r (l & Hl & Hs); [easy|].
  rewrite rowsFrom_cons in Hl. apply in_app_iff in Hl.
  destruct r as [|r]; simpl alter; rewrite !rowsFrom_cons, List.map_app.
  - rewrite Nat.add_0_r in *. destruct Hl as [Hl|Hl].
    2:{ apply rowsFrom_setter in Hl as (r' & c' & Hc' & Hle). rewrite Hs in Hc'.
        injection Hc' as <- <-. lia. }
    simpl Cells. rewrite (cellsFrom_alter k 0 c) by (exists l; easy).
    f_equal. symmetry. apply map_relocate_id.
    intros l' Hl'. apply rowsFrom_setter in Hl' as (r' & c' & -> & Hle).
    intros [=]. lia.
  - rewrite map_relocate_id.
    2:{ intros l' Hl'. apply cellsFrom_setter in Hl' as (c' & -> & _).
        intros [=]. lia. }
    f_equal. rewrite <- Nat.add_succ_comm. apply IH.
    destruct Hl as [Hl|Hl].
    + apply cellsFrom_setter in Hl as (c' & Hc' & _). rewrite Hs in Hc'.
      injection Hc'. lia.
    + exists l. split; [easy|]. now rewrite Nat.add_succ_comm.
Qed.

Lemma getAll_writeCell r c b l :
  In l (getAllRichTextLocations b) -> setter l = Cell r c ->
  getAllRichTextLocations (writeCell r c v b)
    = List.map (relocate (Cell r c) v) (getAllRichTextLocations b).
Proof.
  intros Hl Hs. unfold getAllRichTextLocations in *.
  rewrite List.map_app. apply in_app_iff in Hl as [Hl|Hl].
  { apply in_concat in Hl as (ls & Hls & Hl).
    apply List.in_map_iff in Hls as (q & <- & _).
    apply scalarLocation_inv in Hl as (? & _ & _ & ->). discriminate. }
  f_equal.
  - rewrite map_relocate_id.
    + apply (f_equal (@concat _)), List.map_ext. intros q. unfold scalarLocation.
      now rewrite readScalar_writeCell.
    + intros l' Hl'. apply in_concat in Hl' as (ls & Hls & Hl').
      apply List.in_map_iff in Hls as (q & <- & _).
      apply scalarLocation_inv in Hl' as (? & _ & _ & ->). discriminate.
  - rewrite !tableLocations_rowsFrom in *.
    assert (HT : Table b ≫= Rows = Some (default [] (Table b ≫= Rows))).
    { destruct (Table b ≫= Rows); [reflexivity|easy]. }
    rewrite (Table_writeCell _ _ _ _ HT). simpl default.
    apply (rowsFrom_alter 0 r c). now exists l.
Qed.

End WriteCell.

Lemma getAll_runSetter path v b l :
  In l (getAllRichTextLocations b) -> setter l = path -> v <> [] ->
  getAllRichTextLocations (runSetter path v b)
    = List.map (relocate path v) (getAllRichTextLocations b).
Proof.
  intros Hl Hs Hv. destruct path as [p|r c]; simpl.
  - apply getAll_writeScalar; [easy|].
    unfold getAllRichTextLocations in Hl. apply in_app_iff in Hl as [Hl|Hl].
    + apply in_concat in Hl as (ls & Hls & Hl).
      apply List.in_map_iff in Hls as (q & <- & _).
      pose proof Hl as Hl'.
      apply scalarLocation_inv in Hl' as (? & _ & _ & ->). simpl in Hs.
      injection Hs as ->. intros E. now rewrite E in Hl.
    + apply tableLocations_setter in Hl as (r & c & Hc). congruence.
  - now apply getAll_writeCell with (l := l).
Qed.

(** Every location of a block has its own setter. *)
Lemma cellsFrom_NoDup R k cells : NoDup (List.map setter (cellsFrom R k cells)).
Proof.
  revert k. induction cells as [|cell cells IH]; intros k; [constructor|].
  rewrite cellsFrom_cons, List.map_app. apply NoDup_app. repeat split.
  - unfold addLocation. destruct (0 <? _); simpl; repeat constructor. set_solver.
  - intros p Hp Hq. apply list_elem_of_In, List.in_map_iff in Hp as (l & <- & Hl).
    apply list_elem_of_In, List.in_map_iff in Hq as (l' & Heq & Hl').
    apply addLocation_inv in Hl as [-> _].
    apply cellsFrom_setter in Hl' as (c' & Hc' & Hle). simpl in Heq.
    rewrite Hc' in Heq. injection Heq. lia.
  - apply IH.
Qed.

Lemma rowsFrom_NoDup k rows : NoDup (List.map setter (rowsFrom k rows)).
Proof.
  revert k. induction rows as [|row rows IH]; intros k; [constructor|].
  rewrite rowsFrom_cons, List.map_app. apply NoDup_app. repeat split.
  - apply cellsFrom_NoDup.
  - intros p Hp Hq. apply list_elem_of_In, List.in_map_iff in Hp as (l & <- & Hl).
    apply list_elem_of_In, List.in_map_iff in Hq as (l' & Heq & Hl').
    apply cellsFrom_setter in Hl as (c & Hc & _).
    apply rowsFrom_setter in Hl' as (r' & c' & Hc' & Hle).
    rewrite Hc, Hc' in Heq. injection Heq. lia.
  - apply IH.
Qed.

Lemma scalarLocations_NoDup b qs :
  NoDup qs -> NoDup (List.map setter (concat (List.map (scalarLocation b) qs))).
Proof.
  induction 1 as [|q qs Hq Hnd IH]; simpl; [constructor|].
  rewrite List.map_app. apply NoDup_app. repeat split.
  - unfold scalarLocation, addLocation.
    destruct (readScalar q b); [|constructor].
    destruct (0 <? _); simpl; repeat constructor. set_solver.
  - intros p Hp Hq'. apply list_elem_of_In, List.in_map_iff in Hp as (l & <- & Hl).
    apply list_elem_of_In, List.in_map_iff in Hq' as (l' & Heq & Hl').
    apply scalarLocation_inv in Hl as (? & _ & _ & ->).
    apply in_concat in Hl' as (ls & Hls & Hl').
    apply List.in_map_iff in Hls as (q' & <- & Hq').
    apply scalarLocation_inv in Hl' as (? & _ & _ & ->). simpl in Heq.
    injection Heq as ->. apply Hq. now apply list_elem_of_In.
  - exact IH.
Qed.

Lemma scalarPaths_NoDup : NoDup scalarPaths.
Proof. compute_done. Qed.

Lemma getAll_setters_NoDup b : NoDup (List.map setter (getAllRichTextLocations b)).
Proof.
  unfold getAllRichTextLocations. rewrite List.map_app. apply NoDup_app. repeat split.
  - apply scalarLocations_NoDup, scalarPaths_NoDup.
  - intros p Hp Hq. apply list_elem_of_In, List.in_map_iff in Hp as (l & <- & Hl).
    apply list_elem_of_In, List.in_map_iff in Hq as (l' & Heq & Hl').
    apply in_concat in Hl as (ls & Hls & Hl).
    apply List.in_map_iff in Hls as (q & <- & _).
    apply scalarLocation_inv in Hl as (? & _ & _ & ->).
    apply tableLocations_setter in Hl' as (r & c & Hc). simpl in Heq. congruence.
  - rewrite tableLocations_rowsFrom. apply rowsFrom_NoDup.
Qed.

(** ** Rewriting every location of a block

    A pass that visits the locations listed at the start and writes some of
    them back leaves a block whose locations are the same ones, in the same
    order, with the written values. *)

Section RewriteLocations.

Variable g : RichTextLocation -> option (list RichText).
Hypothesis g_nonempty : forall l v, g l = Some v -> v <> [].

Lemma setter_rewritten l : setter (rewritten g l) = setter l.
Proof. unfold rewritten. now destruct (g l). Qed.

Lemma writeBack_fold done todo b :
  getAllRichTextLocations b = List.map (rewritten g) done ++ todo ->
  NoDup (List.map setter (done ++ todo)) ->
  getAllRichTextLocations (fold_left (writeBack g) todo b)
    = List.map (rewritten g) (done ++ todo).
Proof.
  revert done b. induction todo as [|l todo IH]; intros done b Hb Hnd.
  - simpl. now rewrite app_nil_r in *.
  - cbn [fold_left].
    replace (done ++ l :: todo) with ((done ++ [l]) ++ todo) in *
      by now rewrite <- app_assoc.
    apply IH; [|exact Hnd].
    rewrite List.map_app. simpl List.map. rewrite <- app_assoc. simpl.
    unfold writeBack, rewritten at 2.
    destruct (g l) as [v|] eqn:E; [|exact Hb].
    rewrite (getAll_runSetter _ _ _ l); [| rewrite Hb; apply in_app_iff; right; now left
                                         | reflexivity | eauto].
    rewrite Hb, List.map_app. simpl List.map.
    rewrite !List.map_app, <- app_assoc in Hnd. simpl in Hnd.
    apply NoDup_app in Hnd as (_ & Hd & Hnd). apply NoDup_cons in Hnd as [Ht _].
    f_equal; [|f_equal].
    + apply map_relocate_id. intros l' Hl'.
      apply List.in_map_iff in Hl' as (x & <- & Hx). rewrite setter_rewritten.
      intros Heq. apply (Hd (setter x)).
      * apply list_elem_of_In, List.in_map_iff. now exists x.
      * rewrite Heq. set_solver.
    + unfold relocate. now rewrite decide_True.
    + apply map_relocate_id. intros l' Hl' Heq. apply Ht.
      apply list_elem_of_In, List.in_map_iff. now exists l'.
Qed.

Lemma writeBack_all b :
  getAllRichTextLocations (fold_left (writeBack g) (getAllRichTextLocations b) b)
    = List.map (rewritten g) (getAllRichTextLocations b).
Proof.
  apply (writeBack_fold [] _ b); [reflexivity|apply getAll_setters_NoDup].
Qed.

End RewriteLocations.

(** ** Citation extraction over a block *)

Section CitationBlock.

Variable pattern : Matcher.
Variable bibEntries : gmap jsstring Citations.ParsedCitationEntry.
Variable style : Citations.BibliographyStyle.

Lemma replaceMatches_inv rts cits :
  let ms := Citations.findCitationMatches pattern rts in
  let out := fst (Citations.replaceMatches bibEntries style ms rts cits) in
  joinPlainText out = joinPlainText rts
  /\ (forall m, In m ms -> is_Some (bibEntries !! Citations.match_key m) ->
        placed out m)
  /\ (forall s, In s out ->
        (exists m, In m ms /\ is_Some (bibEntries !! Citations.match_key m)
                   /\ fragmentOf (Citations.markerText m) s)
        \/ exists o, In o rts /\ fragmentOf o s).
Proof.
  intros ms out.
  destruct (fold_replace_inv bibEntries style (rev ms) rts cits) as (I1 & I2 & _ & I4).
  - intros m Hm. apply List.in_rev in Hm. now apply findCitationMatches_wf in Hm.
  - apply (StronglySorted_rev citeBefore), findCitationMatches_sorted.
  - repeat split.
    + exact I1.
    + intros m Hm. apply I2. now apply List.in_rev in Hm.
    + intros s Hs. destruct (I4 s Hs) as [(m & Hm & H)|H]; [left|now right].
      exists m. split; [|easy]. now apply List.in_rev.
Qed.

Lemma citationRewrite_nonempty l v : citationRewrite pattern bibEntries style l = Some v -> v <> [].
Proof.
  unfold citationRewrite.
  destruct (Citations.findCitationMatches pattern (richTexts l)) as [|m ms] eqn:E;
    [easy|].
  intros [= <-]. rewrite <- E.
  destruct (replaceMatches_inv (richTexts l) []) as (Hj & _).
  assert (Hm : In m (Citations.findCitationMatches pattern (richTexts l)))
    by (rewrite E; now left).
  apply findCitationMatches_inv in Hm as (r & Hr & _).
  apply execAll_in_text in Hr as [Hlt _].
  intros Hnil. rewrite Hnil in Hj. rewrite <- Hj in Hlt. simpl in Hlt. lia.
Qed.

Lemma citationStep_eq b cits pa l :
  Citations.citationStep pattern bibEntries style (b, cits, pa) l
  = match citationRewrite pattern bibEntries style l with
    | None => (b, cits, pa)
    | Some v =>
        (runSetter (setter l) v b,
         cits ++ resolvedCitations bibEntries style
                   (rev (Citations.findCitationMatches pattern (richTexts l))),
         true)
    end.
Proof.
  unfold Citations.citationStep, citationRewrite.
  destruct (Citations.findCitationMatches pattern (richTexts l)) as [|m ms]; [easy|].
  unfold Citations.replaceMatches.
  pose proof (fold_replace_citations bibEntries style (rev (m :: ms))
                (richTexts l) cits) as Hc.
  pose proof (fold_replace_richTexts_indep bibEntries style (rev (m :: ms))
                (richTexts l) cits []) as Hi.
  destruct (fold_left (Citations.replaceMatch bibEntries style) (rev (m :: ms))
              (richTexts l, cits)) as [out cits'].
  cbn [fst snd] in Hc, Hi. now subst out cits'.
Qed.

Lemma citationStep_fold locs b cits pa :
  let st := fold_left (Citations.citationStep pattern bibEntries style) locs
              (b, cits, pa) in
  fst (fst st) = fold_left (writeBack (citationRewrite pattern bibEntries style)) locs b
  /\ snd (fst st)
     = cits ++ List.flat_map
                 (fun l => resolvedCitations bibEntries style
                             (rev (Citations.findCitationMatches pattern (richTexts l))))
                 locs.
Proof.
  revert b cits pa. induction locs as [|l locs IH]; intros b cits pa.
  - simpl. now rewrite app_nil_r.
  - cbn [fold_left List.flat_map]. rewrite citationStep_eq.
    unfold writeBack at 2.
    destruct (citationRewrite pattern bibEntries style l) as [v|] eqn:E.
    + destruct (IH (runSetter (setter l) v b)
                  (cits ++ resolvedCitations bibEntries style
                     (rev (Citations.findCitationMatches pattern (richTexts l)))) true)
        as [IH1 IH2].
      split; [exact IH1|]. rewrite IH2. now rewrite <- app_assoc.
    + destruct (IH b cits pa) as [IH1 IH2]. split; [exact IH1|]. rewrite IH2.
      unfold citationRewrite in E.
      destruct (Citations.findCitationMatches pattern (richTexts l)); easy.
Qed.

(** The locations of the block after the pass: the same locations, each with
    what the pass wrote. *)
Lemma citation_locations b cits pa :
  getAllRichTextLocations
    (fst (fst (fold_left (Citations.citationStep pattern bibEntries style)
                 (getAllRichTextLocations b) (b, cits, pa))))
  = List.map (rewritten (citationRewrite pattern bibEntries style)) (getAllRichTextLocations b).
Proof.
  rewrite (proj1 (citationStep_fold _ _ _ _)).
  apply writeBack_all. apply citationRewrite_nonempty.
Qed.

Lemma rewritten_richTexts l :
  richTexts (rewritten (citationRewrite pattern bibEntries style) l)
  = fst (Citations.replaceMatches bibEntries style
           (Citations.findCitationMatches pattern (richTexts l)) (richTexts l) []).
Proof.
  unfold rewritten, citationRewrite.
  now destruct (Citations.findCitationMatches pattern (richTexts l)).
Qed.

Lemma rewritten_property l : property (rewritten (citationRewrite pattern bibEntries style) l) = property l.
Proof. unfold rewritten. now destruct (citationRewrite pattern bibEntries style l). Qed.

End CitationBlock.

(** The whole pass, location by location. *)
Lemma extractCitations_spec block config bibEntries pattern :
  Citations.citationPatternOf (Citations.in_text_citation_format config) = Some pattern ->
  let result := Citations.extractCitationsFromBlock block config bibEntries in
  getAllRichTextLocations (fst result)
    = List.map (rewritten (citationRewrite pattern bibEntries (styleOf config)))
        (getAllRichTextLocations block)
  /\ Citations.citations (snd result)
     = List.flat_map
         (fun l => resolvedCitations bibEntries (styleOf config)
                     (rev (Citations.findCitationMatches pattern (richTexts l))))
         (getAllRichTextLocations block).
Proof.
  intros Hp. unfold Citations.extractCitationsFromBlock. rewrite Hp.
  destruct (getAllRichTextLocations block) as [|l0 locs] eqn:E; [now simpl|].
  rewrite <- E. replace (length (getAllRichTextLocations block) =? 0) with false
    by (rewrite E; reflexivity).
  fold (styleOf config).
  pose proof (citation_locations pattern bibEntries (styleOf config) block [] false) as HL.
  destruct (citationStep_fold pattern bibEntries (styleOf config)
              (getAllRichTextLocations block) block [] false) as [_ HC].
  destruct (fold_left _ _ _) as [[b' cits] pa]. simpl in *. easy.
Qed.

Lemma Forall2_map_right {A B} (R : A -> B -> Prop) (f : A -> B) l :
  (forall x, In x l -> R x (f x)) -> List.Forall2 R l (List.map f l).
Proof.
  induction l as [|x l IH]; intros H; simpl; constructor.
  - apply H. now left.
  - apply IH. intros y Hy. apply H. now right.
Qed.

(** C9. Citation extraction preserves the joined plain text of every
    location: for every block, configuration and bibliography map, the
    block after [extractCitationsFromBlock] has the same locations, in the
    same order and under the same property paths, and the concatenated
    [PlainText] of each one is what it was before the extraction. *)
Theorem extractCitations_preserves_text block config bibEntries :
  List.map locationText
    (getAllRichTextLocations
       (fst (Citations.extractCitationsFromBlock block config bibEntries)))
  = List.map locationText (getAllRichTextLocations block).
Proof.
  destruct (Citations.citationPatternOf (Citations.in_text_citation_format config))
    as [pattern|] eqn:Hp.
  - rewrite (proj1 (extractCitations_spec block config bibEntries pattern Hp)).
    rewrite List.map_map. apply List.map_ext. intros l. unfold locationText.
    rewrite rewritten_property, rewritten_richTexts.
    now rewrite (proj1 (replaceMatches_inv pattern bibEntries (styleOf config)
                          (richTexts l) [])).
  - unfold Citations.extractCitationsFromBlock. rewrite Hp.
    now destruct (length (getAllRichTextLocations block) =? 0).
Qed.

Lemma split_join_roundtrip_witness :
  let S := [textSpan boldAnnotation (js "Hello "); textSpan plainAnnotation (js "world")] in
  3 <= length (joinPlainText S)
  /\ (let '(before, after) := splitRichTextsAtCharPosition S 3 in
      joinPlainText before ++ joinPlainText after = joinPlainText S)
  /\ (let '(before, after) := Citations.splitRichTextsAtCharPosition S 3 in
      joinPlainText before ++ joinPlainText after = joinPlainText S).
Proof.
  intros S. split; [vm_compute; lia|].
  apply (split_join_roundtrip S 3). vm_compute; lia.
Defined.

Lemma resolvedCitations_In bibEntries style ms c :
  In c (resolvedCitations bibEntries style ms) <->
  exists m entry, In m ms /\ bibEntries !! Citations.match_key m = Some entry
                  /\ c = Citations.newCitation style m entry.
Proof.
  unfold resolvedCitations. rewrite List.in_flat_map. split.
  - intros (m & Hm & Hc).
    destruct (bibEntries !! Citations.match_key m) as [entry|] eqn:E; [|easy].
    destruct Hc as [<-|[]]. now exists m, entry.
  - intros (m & entry & Hm & E & ->). exists m. split; [easy|]. rewrite E. now left.
Qed.

Lemma wfMatch_substring T m :
  wfMatch T m ->
  substring T (Citations.match_start m) (Citations.match_end m) = Citations.fullMatch m.
Proof.
  intros (He & _ & Hm). unfold substring.
  rewrite Nat.max_r, Nat.min_l by lia.
  replace (Citations.match_end m - Citations.match_start m)
    with (length (Citations.fullMatch m)) by lia.
  now symmetry.
Qed.

(** C4. Citation extraction with a recognised token format, location by
    location. The text of every location is unchanged, so the literal text
    of every matched token, resolved or not, is still where it was. A token
    whose key is absent from the bibliography map gets no Citation record,
    and no span is made for it: every span of the output is a fragment of a
    span of the input or the marker of a token whose key is present. Every
    token of the same location whose key is present is replaced (its marker
    span sits where the token began) and recorded. *)
Theorem unresolved_citation_key_is_skipped block config bibEntries pattern :
  Citations.citationPatternOf (Citations.in_text_citation_format config) = Some pattern ->
  let result := Citations.extractCitationsFromBlock block config bibEntries in
  List.Forall2
    (fun l l' =>
       let ms := Citations.findCitationMatches pattern (richTexts l) in
       property l' = property l
       /\ joinPlainText (richTexts l') = joinPlainText (richTexts l)
       /\ (forall m, In m ms ->
             substring (joinPlainText (richTexts l'))
               (Citations.match_start m) (Citations.match_end m)
             = Citations.fullMatch m)
       /\ (forall m, In m ms -> bibEntries !! Citations.match_key m = None ->
             forall c, In c (Citations.citations (snd result)) ->
                       Citations.Key c <> Citations.match_key m)
       /\ (forall m entry, In m ms ->
             bibEntries !! Citations.match_key m = Some entry ->
             placed (richTexts l') m
             /\ In (Citations.newCitation (styleOf config) m entry)
                  (Citations.citations (snd result)))
       /\ (forall s, In s (richTexts l') ->
             (exists o, In o (richTexts l) /\ fragmentOf o s)
             \/ (exists m, In m ms /\ is_Some (bibEntries !! Citations.match_key m)
                           /\ fragmentOf (Citations.markerText m) s)))
    (getAllRichTextLocations block) (getAllRichTextLocations (fst result)).
Proof.
  intros Hp result.
  destruct (extractCitations_spec block config bibEntries pattern Hp) as [HL HC].
  fold result in HL, HC. rewrite HL. apply Forall2_map_right. intros l Hl. cbv zeta.
  rewrite rewritten_property, rewritten_richTexts.
  destruct (replaceMatches_inv pattern bibEntries (styleOf config) (richTexts l) [])
    as (Hj & Hplaced & Hfrag).
  split; [reflexivity|]. split; [exact Hj|].
  split; [|split; [|split]].
  - intros m Hm. rewrite Hj. now apply wfMatch_substring, findCitationMatches_wf with pattern.
  - intros m Hm Hnone c Hc Hkey. rewrite HC in Hc.
    apply List.in_flat_map in Hc as (l0 & _ & Hc).
    apply resolvedCitations_In in Hc as (m' & entry & _ & E & ->).
    simpl in Hkey. rewrite Hkey in E. congruence.
  - intros m entry Hm Hentry. split.
    + apply Hplaced; [easy|now exists entry].
    + rewrite HC. apply List.in_flat_map. exists l. split; [easy|].
      apply resolvedCitations_In. exists m, entry. split; [|easy].
      now apply List.in_rev in Hm.
  - intros s Hs. destruct (Hfrag s Hs) as [H|H]; [now right|now left].
Qed.

Lemma fragmentOf_Annotation o s : fragmentOf o s -> Annotation_ s = Annotation_ o.
Proof.
  intros [->|[piece ->]]; [reflexivity|].
  unfold pieceOf. rewrite cloneRichText_id. unfold setTextContentIfPresent; simpl.
  now destruct (Text_ o).
Qed.

Lemma fragmentOf_citation_flags o s :
  fragmentOf o s ->
  IsCitationMarker s = IsCitationMarker o /\ CitationRef s = CitationRef o.
Proof.
  intros [->|[piece ->]]; [easy|].
  unfold pieceOf. rewrite cloneRichText_id. unfold setTextContentIfPresent; simpl.
  now destruct (Text_ o).
Qed.

(** C10. With a recognised token format, every resolved citation token is
    replaced by one marker span that sits where the token began, shows the
    token text, is flagged as a citation marker for the key, and carries the
    fixed default annotation record: Bold, Italic, Strikethrough, Underline
    and Code all false and Color "default", whatever the annotations of the
    runs the token occupied. Every span of the output that is not a fragment
    of an input span is such a marker span with the default annotation. *)
Theorem citation_marker_has_default_annotation block config bibEntries pattern :
  Citations.citationPatternOf (Citations.in_text_citation_format config) = Some pattern ->
  let result := Citations.extractCitationsFromBlock block config bibEntries in
  List.Forall2
    (fun l l' =>
       let ms := Citations.findCitationMatches pattern (richTexts l) in
       (forall m, In m ms -> is_Some (bibEntries !! Citations.match_key m) ->
          exists pre s post,
            richTexts l' = pre ++ s :: post
            /\ length (joinPlainText pre) = Citations.match_start m
            /\ PlainText s = Citations.fullMatch m
            /\ IsCitationMarker s = Some true
            /\ CitationRef s = Some (Citations.match_key m)
            /\ Annotation_ s = mkAnnotation false false false false false (js "default"))
       /\ (forall s, In s (richTexts l') ->
             (exists o, In o (richTexts l) /\ fragmentOf o s)
             \/ (IsCitationMarker s = Some true
                 /\ Annotation_ s
                    = mkAnnotation false false false false false (js "default"))))
    (getAllRichTextLocations block) (getAllRichTextLocations (fst result)).
Proof.
  intros Hp result.
  destruct (extractCitations_spec block config bibEntries pattern Hp) as [HL _].
  fold result in HL. rewrite HL. apply Forall2_map_right. intros l Hl. cbv zeta.
  rewrite rewritten_richTexts.
  destruct (replaceMatches_inv pattern bibEntries (styleOf config) (richTexts l) [])
    as (_ & Hplaced & Hfrag).
  split.
  - intros m Hm Hres. destruct (Hplaced m Hm Hres) as (pre & post & Hout & Hlen).
    exists pre, (Citations.markerText m), post. repeat split; easy.
  - intros s Hs. destruct (Hfrag s Hs) as [(m & _ & _ & Hf)|H]; [right|now left].
    rewrite (fragmentOf_Annotation _ _ Hf).
    destruct (fragmentOf_citation_flags _ _ Hf) as [-> _]. easy.
Qed.

Lemma pandocPattern_selected :
  Citations.citationPatternOf (Citations.in_text_citation_format pandocConfig)
  = Some pandocPattern.
Proof. reflexivity. Qed.

Lemma unresolved_citation_key_is_skipped_witness :
  Citations.citationPatternOf (Citations.in_text_citation_format pandocConfig)
  = Some pandocPattern
  /\ List.Forall2
       (fun l l' =>
          joinPlainText (richTexts l') = joinPlainText (richTexts l)
          /\ forall m,
               In m (Citations.findCitationMatches pandocPattern (richTexts l)) ->
               exampleBibliography !! Citations.match_key m = None ->
               forall c,
                 In c (Citations.citations
                         (snd (Citations.extractCitationsFromBlock citingBlock
                                 pandocConfig exampleBibliography))) ->
                 Citations.Key c <> Citations.match_key m)
       (getAllRichTextLocations citingBlock)
       (getAllRichTextLocations
          (fst (Citations.extractCitationsFromBlock citingBlock pandocConfig
                  exampleBibliography))).
Proof.
  split; [reflexivity|].
  eapply List.Forall2_impl;
    [|apply (unresolved_citation_key_is_skipped citingBlock pandocConfig
               exampleBibliography pandocPattern); reflexivity].
  intros l l' (_ & Hj & _ & Hnone & _). split; [exact Hj|exact Hnone].
Defined.

(** The example of the specification: the token of the unknown key keeps its
    literal text, the token of the known key becomes a marker span, and one
    record is emitted. The last run is code-annotated and is left alone. *)
Example citingBlock_extracted :
  let result :=
    Citations.extractCitationsFromBlock citingBlock pandocConfig exampleBibliography in
  List.map (fun l => List.map (fun s => (PlainText s, CitationRef s)) (richTexts l))
    (getAllRichTextLocations (fst result))
  = [[(js "Prior work ", None);
      (js "[@smith2020]", Some (js "smith2020"));
      (js " shows [@doe2019] and ", None);
      (js "[@smith2020]", None)]]
  /\ List.map Citations.Key (Citations.citations (snd result)) = [js "smith2020"].
Proof. vm_compute. split; reflexivity. Qed.

Lemma citation_marker_has_default_annotation_witness :
  Citations.citationPatternOf (Citations.in_text_citation_format pandocConfig)
  = Some pandocPattern
  /\ List.Forall2
       (fun l l' =>
          forall s, In s (richTexts l') ->
            (exists o, In o (richTexts l) /\ fragmentOf o s)
            \/ (IsCitationMarker s = Some true
                /\ Annotation_ s
                   = mkAnnotation false false false false false (js "default")))
       (getAllRichTextLocations citingBlock)
       (getAllRichTextLocations
          (fst (Citations.extractCitationsFromBlock citingBlock pandocConfig
                  exampleBibliography))).
Proof.
  split; [reflexivity|].
  eapply List.Forall2_impl;
    [|apply (citation_marker_has_default_annotation citingBlock pandocConfig
               exampleBibliography pandocPattern); reflexivity].
  intros l l' [_ H]. exact H.
Defined.

(** The bold token of the example loses its formatting. *)
Example bold_token_loses_formatting :
  let result :=
    Citations.extractCitationsFromBlock citingBlock pandocConfig exampleBibliography in
  List.map (fun l => List.map (fun s => (PlainText s, Bold (Annotation_ s)))
                       (richTexts l))
    (getAllRichTextLocations citingBlock)
  = [[(js "Prior work ", false); (js "[@smith2020]", true);
      (js " shows [@doe2019] and ", false); (js "[@smith2020]", false)]]
  /\ List.map (fun l => List.map (fun s => (PlainText s, Bold (Annotation_ s)))
                          (richTexts l))
       (getAllRichTextLocations (fst result))
     = [[(js "Prior work ", false); (js "[@smith2020]", false);
         (js " shows [@doe2019] and ", false); (js "[@smith2020]", false)]].
Proof. vm_compute. split; reflexivity. Qed.

(** ** The run that owns a character position *)

Lemma findRun_complete pre rt post pos cur i :
  cur + length (joinPlainText pre) <= pos ->
  pos < cur + length (joinPlainText pre) + length (PlainText rt) ->
  findRun (pre ++ rt :: post) pos cur i
    = Some (i + length pre, Code (Annotation_ rt)).
Proof.
  revert cur i. induction pre as [|x pre IH]; intros cur i Hlo Hhi; simpl in *.
  - rewrite Nat.add_0_r in *.
    destruct (Nat.leb_spec cur pos); [|lia].
    destruct (Nat.ltb_spec pos (cur + length (PlainText rt))); [|lia].
    reflexivity.
  - rewrite joinPlainText_cons, length_app in *.
    destruct (Nat.leb_spec cur pos); [|lia].
    destruct (Nat.ltb_spec pos (cur + length (PlainText x))); [lia|].
    simpl. rewrite IH by lia. f_equal. f_equal. lia.
Qed.

Lemma findRun_sound richTexts pos cur i j c :
  findRun richTexts pos cur i = Some (j, c) ->
  exists pre rt post,
    richTexts = pre ++ rt :: post
    /\ cur + length (joinPlainText pre) <= pos
    /\ pos < cur + length (joinPlainText pre) + length (PlainText rt)
    /\ j = i + length pre /\ c = Code (Annotation_ rt).
Proof.
  revert cur i. induction richTexts as [|x rts IH]; intros cur i; simpl; [easy|].
  destruct (Nat.leb_spec cur pos) as [Hle|Hgt];
    destruct (Nat.ltb_spec pos (cur + length (PlainText x))) as [Hlt|Hge]; simpl.
  - intros [= <- <-]. exists [], x, rts. simpl. repeat split; lia.
  - intros H. apply IH in H as (pre & rt & post & -> & Hlo & Hhi & -> & ->).
    exists (x :: pre), rt, post. rewrite joinPlainText_cons, length_app. simpl.
    repeat split; lia.
  - intros H. apply IH in H as (pre & rt & post & -> & Hlo & Hhi & -> & ->). lia.
  - intros H. apply IH in H as (pre & rt & post & -> & Hlo & Hhi & -> & ->).
    exists (x :: pre), rt, post. rewrite joinPlainText_cons, length_app. simpl.
    repeat split; lia.
Qed.

Lemma inCodeRun_complete pre rt post pos cur :
  cur + length (joinPlainText pre) <= pos ->
  pos < cur + length (joinPlainText pre) + length (PlainText rt) ->
  Citations.inCodeRun (pre ++ rt :: post) pos cur = Code (Annotation_ rt).
Proof.
  revert cur. induction pre as [|x pre IH]; intros cur Hlo Hhi; simpl in *.
  - rewrite Nat.add_0_r in *.
    destruct (Nat.leb_spec cur pos); [|lia].
    now destruct (Nat.ltb_spec pos (cur + length (PlainText rt))); [|lia].
  - rewrite joinPlainText_cons, length_app in *.
    destruct (Nat.leb_spec cur pos); [|lia].
    destruct (Nat.ltb_spec pos (cur + length (PlainText x))); [lia|].
    simpl. apply IH; lia.
Qed.

Lemma findRun_runAt richTexts pos rt :
  runAt richTexts pos rt ->
  exists i, findRun richTexts pos 0 0 = Some (i, Code (Annotation_ rt)).
Proof.
  intros (pre & post & -> & Hlo & Hhi). exists (length pre).
  now rewrite findRun_complete by (simpl; lia).
Qed.

Lemma inCodeRun_runAt richTexts pos rt :
  runAt richTexts pos rt ->
  Citations.inCodeRun richTexts pos 0 = Code (Annotation_ rt).
Proof.
  intros (pre & post & -> & Hlo & Hhi). apply inCodeRun_complete; simpl; lia.
Qed.

(** Every position of the joined text has its run. *)
Lemma runAt_exists richTexts pos :
  pos < length (joinPlainText richTexts) -> exists rt, runAt richTexts pos rt.
Proof.
  induction richTexts as [|x rts IH] using rev_ind; simpl; [lia|].
  rewrite joinPlainText_app, length_app, joinPlainText_cons, length_app. simpl.
  rewrite Nat.add_0_r. intros H.
  destruct (Nat.lt_ge_cases pos (length (joinPlainText rts))) as [Hlt|Hge].
  - destruct (IH Hlt) as (rt & pre & post & -> & Hlo & Hhi).
    exists rt, pre, (post ++ [x]). split; [now rewrite <- app_assoc|lia].
  - exists x, rts, []. split; [reflexivity|lia].
Qed.

(** ** Markers and code runs *)

Lemma markerOfMatch_inv location r m :
  In m (markerOfMatch location r) ->
  exists i rt,
    runAt (richTexts location) (index r) rt
    /\ Code (Annotation_ rt) = false
    /\ m = mkMarkerInfo (match1 r) (match0 r)
             (mkMarkerLocation (property location) i (index r)
                (index r + length (match0 r))).
Proof.
  unfold markerOfMatch.
  destruct (findRun (richTexts location) (index r) 0 0) as [[i c]|] eqn:E; [|easy].
  apply findRun_sound in E as (pre & rt & post & Hrts & Hlo & Hhi & -> & ->).
  destruct (Code (Annotation_ rt)) eqn:Hc; [easy|]. intros [<-|[]].
  exists (0 + length pre), rt. repeat split; [|easy].
  exists pre, post. repeat split; [easy|lia|lia].
Qed.

Lemma findAllFootnoteMarkers_inv locations markerPrefix m :
  In m (findAllFootnoteMarkers locations markerPrefix) ->
  exists location r,
    In location locations
    /\ In r (execAll (inlineMarkerPattern markerPrefix)
               (joinPlainText (richTexts location)))
    /\ In m (markerOfMatch location r).
Proof.
  unfold findAllFootnoteMarkers, findMarkersInLocation. intros H.
  apply in_concat in H as (ms & Hms & Hm).
  apply List.in_map_iff in Hms as (location & <- & Hl).
  apply in_concat in Hm as (ms & Hms & Hm).
  apply List.in_map_iff in Hms as (r & <- & Hr).
  now exists location, r.
Qed.

Lemma runAt_unique richTexts pos rt rt' :
  runAt richTexts pos rt -> runAt richTexts pos rt' ->
  Code (Annotation_ rt) = Code (Annotation_ rt').
Proof.
  intros H H'. apply inCodeRun_runAt in H, H'. congruence.
Qed.

(** Every marker the finder returns starts in a run that is not code. *)
Lemma findAllFootnoteMarkers_not_code locations markerPrefix m :
  In m (findAllFootnoteMarkers locations markerPrefix) ->
  exists location rt,
    In location locations
    /\ BlockProperty (Location m) = property location
    /\ runAt (richTexts location) (CharStart (Location m)) rt
    /\ Code (Annotation_ rt) = false.
Proof.
  intros H. apply findAllFootnoteMarkers_inv in H as (location & r & Hl & _ & Hm).
  apply markerOfMatch_inv in Hm as (i & rt & Hrun & Hc & ->).
  now exists location, rt.
Qed.

Lemma findCitationMatches_not_code pattern richTexts m :
  In m (Citations.findCitationMatches pattern richTexts) ->
  exists rt, runAt richTexts (Citations.match_start m) rt
             /\ Code (Annotation_ rt) = false.
Proof.
  intros H. apply findCitationMatches_inv in H as (r & Hr & Hc & ->). simpl.
  apply execAll_in_text in Hr as [Hlt _].
  destruct (runAt_exists richTexts (index r) Hlt) as [rt Hrt].
  exists rt. split; [easy|]. now rewrite <- (inCodeRun_runAt _ _ _ Hrt).
Qed.

Lemma all_in_code_no_markers locations markerPrefix :
  (forall l r, In l locations ->
     In r (execAll (inlineMarkerPattern markerPrefix) (joinPlainText (richTexts l))) ->
     exists rt, runAt (richTexts l) (index r) rt /\ Code (Annotation_ rt) = true) ->
  findAllFootnoteMarkers locations markerPrefix = [].
Proof.
  intros H. destruct (findAllFootnoteMarkers locations markerPrefix) as [|m ms] eqn:E;
    [reflexivity|].
  assert (Hm : In m (findAllFootnoteMarkers locations markerPrefix))
    by (rewrite E; now left).
  apply findAllFootnoteMarkers_inv in Hm as (l & r & Hl & Hr & Hm).
  apply markerOfMatch_inv in Hm as (i & rt & Hrun & Hc & _).
  destruct (H l r Hl Hr) as (rt' & Hrun' & Hc').
  rewrite (runAt_unique _ _ _ _ Hrun Hrun') in Hc. congruence.
Qed.

Lemma all_in_code_no_citation_matches pattern richTexts :
  (forall r, In r (execAll pattern (joinPlainText richTexts)) ->
     exists rt, runAt richTexts (index r) rt /\ Code (Annotation_ rt) = true) ->
  Citations.findCitationMatches pattern richTexts = [].
Proof.
  intros H.
  destruct (Citations.findCitationMatches pattern richTexts) as [|m ms] eqn:E;
    [reflexivity|].
  assert (Hm : In m (Citations.findCitationMatches pattern richTexts))
    by (rewrite E; now left).
  apply findCitationMatches_inv in Hm as (r & Hr & Hc & _).
  destruct (H r Hr) as (rt & Hrun & Hc').
  rewrite (inCodeRun_runAt _ _ _ Hrun) in Hc. congruence.
Qed.

Lemma citationStep_no_matches pattern bibEntries style locs st :
  (forall l, In l locs -> Citations.findCitationMatches pattern (richTexts l) = []) ->
  fold_left (Citations.citationStep pattern bibEntries style) locs st = st.
Proof.
  revert st. induction locs as [|l locs IH]; intros st H; [reflexivity|].
  cbn [fold_left]. destruct st as [[b cits] pa].
  unfold Citations.citationStep at 2. rewrite (H l) by now left.
  apply IH. intros l' Hl'. apply H. now right.
Qed.

(** ** Blocks without inline markers *)

(** C6. When the marker finder finds no inline footnote marker in a block
    (markers in code runs do not count), footnote extraction returns the
    block as it was, with no footnote and both "processed" flags false, under
    each of the three sources and under the entry point; in block-comments
    mode the computation returns at once, so no request reaches the
    comments provider, whatever it would have answered. The marker prefix
    is taken without regular expression metacharacters. *)
Theorem no_markers_block_unmodified
  (urlPathname : jsstring -> option jsstring) (isConvImageType : jsstring -> bool)
  (OPTIMIZE_IMAGES : bool) block config hasCommentsClient :
  regexLiteral (marker_prefix config) = true ->
  findAllFootnoteMarkers (getAllRichTextLocations block) (marker_prefix config) = [] ->
  extractEndOfBlockFootnotes block config = (block, mkFootnoteResult [] false false)
  /\ extractStartOfChildBlocksFootnotes block config
     = (block, mkFootnoteResult [] false false)
  /\ extractBlockCommentsFootnotes urlPathname isConvImageType OPTIMIZE_IMAGES
       block config hasCommentsClient
     = Ret (block, mkFootnoteResult [] false false)
  /\ extractFootnotesFromBlock urlPathname isConvImageType OPTIMIZE_IMAGES
       block config hasCommentsClient
     = Ret (block, mkFootnoteResult [] false false)
  /\ (forall answer downloaded,
        commentsRequests answer downloaded
          (extractFootnotesFromBlock urlPathname isConvImageType OPTIMIZE_IMAGES
             block config hasCommentsClient) = 0).
Proof.
  intros _ H.
  assert (H1 : extractEndOfBlockFootnotes block config
               = (block, mkFootnoteResult [] false false))
    by (unfold extractEndOfBlockFootnotes; now rewrite H).
  assert (H2 : extractStartOfChildBlocksFootnotes block config
               = (block, mkFootnoteResult [] false false))
    by (unfold extractStartOfChildBlocksFootnotes; now rewrite H).
  assert (H3 : extractBlockCommentsFootnotes urlPathname isConvImageType
                 OPTIMIZE_IMAGES block config hasCommentsClient
               = Ret (block, mkFootnoteResult [] false false))
    by (unfold extractBlockCommentsFootnotes; now rewrite H).
  assert (H4 : extractFootnotesFromBlock urlPathname isConvImageType OPTIMIZE_IMAGES
                 block config hasCommentsClient
               = Ret (block, mkFootnoteResult [] false false)).
  { unfold extractFootnotesFromBlock.
    destruct (getActiveSource config) as [[]|]; now rewrite ?H1, ?H2, ?H3. }
  repeat split; try assumption.
  intros answer downloaded. now rewrite H4.
Qed.

Lemma no_markers_block_unmodified_witness :
  let config := footnotesConfig block_comments in
  regexLiteral (marker_prefix config) = true
  /\ findAllFootnoteMarkers (getAllRichTextLocations codeOnlyBlock)
       (marker_prefix config) = []
  /\ extractFootnotesFromBlock (fun _ => None) (fun _ => false) false
       codeOnlyBlock config true
     = Ret (codeOnlyBlock, mkFootnoteResult [] false false).
Proof.
  intros config. split; [reflexivity|]. split; [reflexivity|].
  apply (no_markers_block_unmodified (fun _ => None) (fun _ => false) false
           codeOnlyBlock config true); reflexivity.
Defined.

(** ** Sorting *)

Section SortProperties.

Context {A : Type}.
Variable compareFn : A -> A -> Z.

(** A consistent comparator: swapping the arguments flips the sign, and
    "not after" is transitive. *)
Hypothesis compare_antisym : forall a b, Z.sgn (compareFn a b) = (- Z.sgn (compareFn b a))%Z.
Hypothesis compare_trans :
  forall a b c, (compareFn a b <= 0)%Z -> (compareFn b c <= 0)%Z -> (compareFn a c <= 0)%Z.

Let notAfter (a b : A) : Prop := (compareFn a b <= 0)%Z.

Lemma sortInsert_Permutation x l : Permutation (sortInsert compareFn x l) (x :: l).
Proof.
  induction l as [|y l IH]; simpl; [reflexivity|].
  destruct (compareFn x y <=? 0)%Z; [reflexivity|].
  rewrite IH. apply perm_swap.
Qed.

Lemma Array_sort_Permutation l : Permutation (Array_sort compareFn l) l.
Proof.
  induction l as [|x l IH]; simpl; [reflexivity|].
  rewrite sortInsert_Permutation. now constructor.
Qed.

Lemma sortInsert_sorted x l :
  StronglySorted notAfter l -> StronglySorted notAfter (sortInsert compareFn x l).
Proof.
  induction 1 as [|y l Hs IH Hf]; simpl.
  - repeat constructor.
  - destruct (Z.leb_spec (compareFn x y) 0) as [Hle|Hgt].
    + constructor; [now constructor|]. constructor; [exact Hle|].
      rewrite List.Forall_forall in *. intros z Hz.
      apply compare_trans with y; [exact Hle|now apply Hf].
    + constructor; [exact IH|].
      rewrite List.Forall_forall in *. intros z Hz.
      apply (Permutation_in _ (sortInsert_Permutation x l)) in Hz as [<-|Hz].
      * unfold notAfter. pose proof (compare_antisym x y) as Ha.
        destruct (compareFn x y) eqn:E1, (compareFn y x) eqn:E2; simpl in Ha; lia.
      * now apply Hf.
Qed.

Lemma Array_sort_sorted l : StronglySorted notAfter (Array_sort compareFn l).
Proof.
  induction l as [|x l IH]; simpl; [constructor|]. now apply sortInsert_sorted.
Qed.

(** Stability: the elements that compare equal to any given one keep their
    order. *)
Lemma sortInsert_stable e x l :
  List.filter (fun y => (compareFn e y =? 0)%Z) (sortInsert compareFn x l)
  = List.filter (fun y => (compareFn e y =? 0)%Z) (x :: l).
Proof.
  induction l as [|y l IH]; [reflexivity|]. simpl sortInsert.
  destruct (Z.leb_spec (compareFn x y) 0) as [Hle|Hgt]; [reflexivity|].
  cbn [List.filter] in *. rewrite IH.
  destruct (Z.eqb_spec (compareFn e x) 0) as [Hx|Hx];
    destruct (Z.eqb_spec (compareFn e y) 0) as [Hy|Hy]; try reflexivity.
  exfalso. assert (Hxe : (compareFn x e <= 0)%Z).
  { pose proof (compare_antisym x e) as Ha. rewrite Hx in Ha. simpl in Ha.
    destruct (compareFn x e); simpl in Ha; lia. }
  pose proof (compare_trans x e y Hxe) as Ht. lia.
Qed.

Lemma Array_sort_stable e l :
  List.filter (fun y => (compareFn e y =? 0)%Z) (Array_sort compareFn l)
  = List.filter (fun y => (compareFn e y =? 0)%Z) l.
Proof.
  induction l as [|x l IH]; [reflexivity|]. simpl Array_sort.
  rewrite sortInsert_stable. cbn [List.filter]. now rewrite IH.
Qed.

End SortProperties.

Section PrepareBibliography.

Variable localeCompare : jsstring -> jsstring -> Z.

(** [localeCompare] is the host's collation; as for any comparator handed to
    [sort], it is taken to be consistent. *)
Hypothesis localeCompare_antisym :
  forall a b, Z.sgn (localeCompare a b) = (- Z.sgn (localeCompare b a))%Z.
Hypothesis localeCompare_trans :
  forall a b c, (localeCompare a b <= 0)%Z -> (localeCompare b c <= 0)%Z ->
                (localeCompare a c <= 0)%Z.

Lemma compareCitations_antisym style a b :
  Z.sgn (Citations.compareCitations localeCompare style a b)
  = (- Z.sgn (Citations.compareCitations localeCompare style b a))%Z.
Proof.
  destruct style; simpl; [apply localeCompare_antisym|].
  rewrite <- Z.sgn_opp. f_equal. lia.
Qed.

Lemma compareCitations_trans style a b c :
  (Citations.compareCitations localeCompare style a b <= 0)%Z ->
  (Citations.compareCitations localeCompare style b c <= 0)%Z ->
  (Citations.compareCitations localeCompare style a c <= 0)%Z.
Proof.
  destruct style; simpl; [apply localeCompare_trans|lia].
Qed.

(** C8. [prepareBibliography] returns a permutation of its input. Under
    the simplified-ieee style the result is in non-decreasing [Index] order
    (an absent index counts as 0, as [a.Index || 0] has it); under the apa
    style it is in non-decreasing [Authors] order, the order being that of
    [localeCompare]. In both styles the sort is stable: the citations that
    compare equal to any given citation appear in the result in the order
    they had in the input. The function is total, and the input list is left
    as it is. *)
Theorem prepareBibliography_sorted_stable citations style :
  let sorted := Citations.prepareBibliography localeCompare citations style in
  Permutation sorted citations
  /\ match style with
     | Citations.simplified_ieee =>
         StronglySorted
           (fun a b => (Citations.indexOrZero a <= Citations.indexOrZero b)%Z) sorted
     | Citations.apa =>
         StronglySorted
           (fun a b => (localeCompare (Citations.Authors a) (Citations.Authors b) <= 0)%Z)
           sorted
     end
  /\ (forall c,
        List.filter
          (fun x => (Citations.compareCitations localeCompare style c x =? 0)%Z) sorted
        = List.filter
            (fun x => (Citations.compareCitations localeCompare style c x =? 0)%Z)
            citations).
Proof.
  intros sorted. subst sorted. unfold Citations.prepareBibliography. repeat split.
  - apply Array_sort_Permutation.
  - pose proof (Array_sort_sorted (Citations.compareCitations localeCompare style)
                  (compareCitations_antisym style) (compareCitations_trans style)
                  citations) as Hs.
    destruct style; simpl in *.
    + exact Hs.
    + rewrite <- (List.map_id (Array_sort _ citations)).
      eapply StronglySorted_map; [|exact Hs].
      intros a b H. simpl in H. lia.
  - intros c. apply Array_sort_stable.
    + apply compareCitations_antisym.
    + apply compareCitations_trans.
Qed.

End PrepareBibliography.

Lemma codeUnitCompare_antisym a b :
  Z.sgn (codeUnitCompare a b) = (- Z.sgn (codeUnitCompare b a))%Z.
Proof.
  revert b. induction a as [|x a IH]; intros [|y b]; simpl; try reflexivity.
  rewrite (N.compare_antisym x y). destruct (N.compare x y); simpl; auto.
Qed.

Lemma codeUnitCompare_trans a b c :
  (codeUnitCompare a b <= 0)%Z -> (codeUnitCompare b c <= 0)%Z ->
  (codeUnitCompare a c <= 0)%Z.
Proof.
  revert b c. induction a as [|x a IH]; intros [|y b] [|z c]; simpl; try lia.
  destruct (N.compare_spec x y), (N.compare_spec y z), (N.compare_spec x z);
    try lia; subst; try lia.
  apply IH.
Qed.

Lemma prepareBibliography_sorted_stable_witness :
  (forall a b, Z.sgn (codeUnitCompare a b) = (- Z.sgn (codeUnitCompare b a))%Z)
  /\ (forall a b c, (codeUnitCompare a b <= 0)%Z -> (codeUnitCompare b c <= 0)%Z ->
                    (codeUnitCompare a c <= 0)%Z)
  /\ Permutation
       (Citations.prepareBibliography codeUnitCompare unsortedCitations Citations.apa)
       unsortedCitations.
Proof.
  split; [exact codeUnitCompare_antisym|]. split; [exact codeUnitCompare_trans|].
  apply (prepareBibliography_sorted_stable codeUnitCompare codeUnitCompare_antisym
           codeUnitCompare_trans unsortedCitations Citations.apa).
Defined.

(** The two orders on an example; the two citations of Smith, and the two of
    index 1, keep their input order. *)
Example prepareBibliography_example :
  List.map Citations.Key
    (Citations.prepareBibliography codeUnitCompare unsortedCitations
       Citations.simplified_ieee)
  = [js "k4"; js "k2"; js "k3"; js "k1"]
  /\ List.map Citations.Key
       (Citations.prepareBibliography codeUnitCompare unsortedCitations Citations.apa)
     = [js "k4"; js "k2"; js "k1"; js "k3"].
Proof. vm_compute. split; reflexivity. Qed.

(** ** [cloneRichText] and sharing *)

(** C3. [cloneRichText] at a span that mentions a page. The copy reads
    back equal to the source, and the span object, its [Annotation] and its
    [Mention] object are fresh; but the copy of [Mention] is one level deep,
    so [Mention.Page] of the copy is the very object of the source, and
    assigning [copy.Mention.Page.PageId] changes what the source reads. The
    copy is therefore not independent of the source. *)
Theorem clone_shares_mention_page :
  let '(source, h0) := Store.laySpan mentionSpan [] in
  let '(copy, h1) := Store.cloneRichText source h0 in
  let page x := Store.get h1 (Store.get h1 x "Mention") "Page" in
  let h2 := Store.set (page copy) "PageId" (Store.VString (js "p2")) h1 in
  Store.readSpan h1 source = mentionSpan
  /\ Store.readSpan h1 copy = mentionSpan
  /\ copy <> source
  /\ Store.get h1 copy "Annotation" <> Store.get h1 source "Annotation"
  /\ Store.get h1 copy "Mention" <> Store.get h1 source "Mention"
  /\ page copy = page source
  /\ Store.readSpan h2 copy
     = mkRichText None plainAnnotation (js "@Home") None None
         (Some (mkMention (js "page")
                  (Some (mkInterlinkedContent (js "p2") (js "page"))) None None None))
         None None None None None
  /\ Store.readSpan h2 source = Store.readSpan h2 copy
  /\ Store.readSpan h2 source <> mentionSpan.
Proof.
  vm_compute. repeat split; try reflexivity; discriminate.
Qed.

(** The same for every span with a page mention: the two [Mention] objects
    are distinct and hold the same [Page] reference, so a write to a field of
    the copy's page is read back through the source. *)
Lemma clone_shares_every_mention_page (s : RichText) (m : Mention)
  (p : InterlinkedContent) (v : Store.value) :
  Mention_ s = Some m -> Page m = Some p ->
  let '(source, h0) := Store.laySpan s [] in
  let '(copy, h1) := Store.cloneRichText source h0 in
  let page x := Store.get h1 (Store.get h1 x "Mention") "Page" in
  let h2 := Store.set (page copy) "PageId" v h1 in
  Store.get h1 copy "Mention" <> Store.get h1 source "Mention"
  /\ page copy = page source
  /\ Store.get h2 (Store.get h2 (Store.get h2 source "Mention") "Page") "PageId" = v.
Proof.
  destruct s as [t a pt h e mo i f fr c cr]. simpl. intros -> Hp.
  destruct m as [mt pg ds lm ce]. simpl in Hp. subst pg.
  destruct t as [[ct [l|]]|], e as [e|], lm as [lm|], ce as [ce|], i as [i|];
    vm_compute; repeat split; try reflexivity; discriminate.
Qed.

(** What the copy does separate, for every span: the span object and each
    object one level down ([Text], [Annotation], [Equation], [Mention],
    [InternalHref]), and [Text.Link], are fresh in the copy. *)
Lemma clone_copies_first_level (s : RichText) :
  let '(source, h0) := Store.laySpan s [] in
  let '(copy, h1) := Store.cloneRichText source h0 in
  let fresh x y := Store.truthy x = true -> y <> x in
  copy <> source
  /\ fresh (Store.get h1 source "Text") (Store.get h1 copy "Text")
  /\ fresh (Store.get h1 source "Annotation") (Store.get h1 copy "Annotation")
  /\ fresh (Store.get h1 source "Equation") (Store.get h1 copy "Equation")
  /\ fresh (Store.get h1 source "Mention") (Store.get h1 copy "Mention")
  /\ fresh (Store.get h1 source "InternalHref") (Store.get h1 copy "InternalHref")
  /\ fresh (Store.get h1 (Store.get h1 source "Text") "Link")
        (Store.get h1 (Store.get h1 copy "Text") "Link").
Proof.
  destruct s as [t a pt h e mo i fm fr c cr].
  destruct t as [[ct [l|]]|], e as [e|], mo as [[mt [pg|] ds [lm|] [ce|]]|], i as [i|];
    vm_compute; repeat split; intros; discriminate.
Qed.

(** ** Start-of-child-blocks extraction *)

(** C2. Start-of-child-blocks extraction on a block with the two inline
    markers [[^ft_a]] and [[^ft_b]] and three children (a note for [a] with
    a child of its own, plain text, a note for [b]). Two footnotes come
    out, whose content is child 0 and child 2, each with its prefix removed
    and its descendants kept. But two children remain, not one: the scan
    covers [Math.max(markerCount, children.length)] = 3 children, and because
    there are more children than markers, [children.slice(markerCount)] is
    appended to the kept children afterwards; so child 2, already consumed
    as the content of footnote [b], is also left in the children list. *)
Theorem consumed_child_also_remains :
  let '(block', result) :=
    extractStartOfChildBlocksFootnotes twoMarkersBlock
      (footnotesConfig start_of_child_blocks) in
  length (findAllFootnoteMarkers (getAllRichTextLocations twoMarkersBlock) (js "ft_")) = 2
  /\ footnotes result
     = [ mkFootnote (js "a") (js "[^ft_a]") (blocks [strippedChildA]) content;
         mkFootnote (js "b") (js "[^ft_b]") (blocks [strippedChildB]) content ]
  /\ getChildrenFromBlock block' = Some [plainChild; strippedChildB]
  /\ getChildrenFromBlock block' <> Some [plainChild].
Proof.
  vm_compute. repeat split; try reflexivity; discriminate.
Qed.

(** ** Extracting a character range *)

Lemma extractLoop_join S a b cur :
  a <= b ->
  joinPlainText (extractLoop S a b cur)
    = take ((b - cur) - (a - cur)) (drop (a - cur) (joinPlainText S)).
Proof.
  intros Hab. revert cur. induction S as [|rt S IH]; intros cur; simpl extractLoop.
  - change (joinPlainText []) with (@nil N). now rewrite drop_nil, take_nil.
  - rewrite joinPlainText_cons, drop_app, take_app, length_drop.
    specialize (IH (cur + length (PlainText rt))).
    destruct (Nat.ltb_spec a (cur + length (PlainText rt))) as [Ha|Ha];
      destruct (Nat.ltb_spec cur b) as [Hb|Hb]; simpl andb; cbv iota.
    + set (sl := substring (PlainText rt) (a - cur)
                   (Nat.min (length (PlainText rt)) (b - cur))).
      assert (Hj : joinPlainText
                     (if 0 <? length sl
                      then pieceOf rt sl
                             :: extractLoop S a b (cur + length (PlainText rt))
                      else extractLoop S a b (cur + length (PlainText rt)))
                   = sl ++ joinPlainText
                             (extractLoop S a b (cur + length (PlainText rt)))).
      { destruct (Nat.ltb_spec 0 (length sl)) as [Hl|Hl].
        - now rewrite joinPlainText_cons, PlainText_pieceOf.
        - destruct sl; [reflexivity|simpl in Hl; lia]. }
      rewrite Hj, IH. f_equal.
      * subst sl. unfold substring.
        destruct (Nat.le_ge_cases (length (PlainText rt)) (b - cur)).
        -- rewrite (Nat.min_l (length (PlainText rt)) (b - cur)) by lia.
           rewrite (Nat.max_r (a - cur)), (Nat.min_l (a - cur)) by lia.
           rewrite !take_ge by (rewrite length_drop; lia). reflexivity.
        -- rewrite (Nat.min_r (length (PlainText rt)) (b - cur)) by lia.
           rewrite (Nat.max_r (a - cur)), (Nat.min_l (a - cur)) by lia.
           reflexivity.
      * replace (a - (cur + length (PlainText rt))) with 0 by lia.
        replace (a - cur - length (PlainText rt)) with 0 by lia.
        rewrite !drop_0. f_equal. lia.
    + rewrite IH.
      replace (b - cur - (a - cur)) with 0 by lia.
      replace (b - (cur + length (PlainText rt)) - (a - (cur + length (PlainText rt))))
        with 0 by lia.
      now rewrite !take_0.
    + rewrite IH. rewrite (drop_ge (PlainText rt)) by lia. simpl.
      replace (length (PlainText rt) - (a - cur)) with 0 by lia.
      rewrite Nat.sub_0_r.
      replace (a - (cur + length (PlainText rt))) with (a - cur - length (PlainText rt))
        by lia.
      rewrite take_nil. simpl. f_equal. lia.
    + rewrite IH.
      replace (b - cur - (a - cur)) with 0 by lia.
      replace (b - (cur + length (PlainText rt)) - (a - (cur + length (PlainText rt))))
        with 0 by lia.
      now rewrite !take_0.
Qed.

Lemma extractLoop_pieces S a b cur s : In s (extractLoop S a b cur) -> isPiece s.
Proof.
  revert cur. induction S as [|rt S IH]; intros cur; simpl; [easy|].
  destruct ((a <? cur + length (PlainText rt)) && (cur <? b)); [|apply IH].
  match goal with
  | |- context [0 <? length ?x] => destruct (Nat.ltb_spec 0 (length x)) as [Hl|Hl]
  end; [|apply IH].
  intros [<-|H]; [|now apply IH in H].
  split.
  - rewrite PlainText_pieceOf. intros E. rewrite E in Hl. simpl in Hl. lia.
  - exists rt. now rewrite PlainText_pieceOf.
Qed.

Lemma trimSpan_pieceOf f o x : trimSpan f (pieceOf o x) = pieceOf o (f x).
Proof.
  unfold trimSpan, pieceOf. rewrite cloneRichText_id.
  destruct o as [[t|] an pt h e m i fm fr cm cr]; reflexivity.
Qed.

Lemma trimStart_id c x : isWhiteSpace c = false -> trimStart (c :: x) = c :: x.
Proof. intros H. simpl. now rewrite H. Qed.

Lemma trimEnd_id c x : isWhiteSpace c = false -> trimEnd (x ++ [c]) = x ++ [c].
Proof.
  intros H. unfold trimEnd. rewrite rev_app_distr. simpl. rewrite H. simpl.
  now rewrite rev_involutive.
Qed.

Lemma updateFirst_no_trim l c T :
  (forall s, In s l -> isPiece s) ->
  joinPlainText l = c :: T -> isWhiteSpace c = false ->
  updateFirst (trimSpan trimStart) l = l.
Proof.
  intros Hp Hj Hc. destruct l as [|s l]; [reflexivity|]. simpl. f_equal.
  destruct (Hp s (or_introl eq_refl)) as [Hne [o Ho]].
  rewrite joinPlainText_cons in Hj.
  destruct (PlainText s) as [|c' x] eqn:E; [easy|].
  simpl in Hj. injection Hj as -> _.
  rewrite Ho. now rewrite trimSpan_pieceOf, trimStart_id.
Qed.

Lemma updateLast_no_trim l c T :
  (forall s, In s l -> isPiece s) ->
  joinPlainText l = T ++ [c] -> isWhiteSpace c = false ->
  updateLast (trimSpan trimEnd) l = l.
Proof.
  intros Hp Hj Hc. unfold updateLast.
  destruct l as [|s l _] using rev_ind; [reflexivity|].
  rewrite rev_app_distr. simpl. rewrite rev_involutive. f_equal. f_equal.
  destruct (Hp s) as [Hne [o Ho]]; [apply in_app_iff; right; now left|].
  rewrite joinPlainText_app, joinPlainText_cons in Hj. simpl in Hj.
  rewrite app_nil_r in Hj.
  destruct (PlainText s) as [|c' x _] eqn:E using rev_ind; [easy|].
  rewrite app_assoc in Hj. apply app_inj_tail in Hj as [_ ->].
  rewrite Ho. now rewrite trimSpan_pieceOf, trimEnd_id.
Qed.

(** When the range begins and ends with a character that is not white
    space, the trim changes nothing and the range comes out exactly. *)
Lemma extractRichTextRange_exact S a b c T c' :
  a <= b ->
  take (b - a) (drop a (joinPlainText S)) = c :: T ->
  take (b - a) (drop a (joinPlainText S)) = removelast (c :: T) ++ [c'] ->
  isWhiteSpace c = false -> isWhiteSpace c' = false ->
  joinPlainText (extractRichTextRange S a b) = c :: T.
Proof.
  intros Hab HT HT' Hc Hc'. unfold extractRichTextRange.
  pose proof (extractLoop_join S a b 0 Hab) as Hj. rewrite !Nat.sub_0_r in Hj.
  rewrite (updateFirst_no_trim _ c T); [| apply extractLoop_pieces | congruence | easy].
  rewrite (updateLast_no_trim _ c' (removelast (c :: T)));
    [| apply extractLoop_pieces | congruence | easy].
  congruence.
Qed.

(** ** End-of-block extraction *)

Lemma mapSet_In {V} k (v : V) m k' v' :
  In (k', v') (mapSet k v m) -> (k', v') = (k, v) \/ In (k', v') m.
Proof.
  induction m as [|[k0 v0] m IH]; simpl.
  - intros [H|[]]. now left.
  - destruct (jsstring_eqb k0 k).
    + intros [H|H]; [now left|right; now right].
    + intros [H|H]; [right; now left|].
      destruct (IH H) as [H'|H']; [now left|right; now right].
Qed.

Lemma parseFootnoteDefinitions_values definitionsRichTexts markerPrefix text k c :
  In (k, c) (parseFootnoteDefinitionsFromRichText definitionsRichTexts markerPrefix text) ->
  nonEmptyContent c.
Proof.
  unfold parseFootnoteDefinitionsFromRichText.
  generalize (setEnds (execAll (definitionPattern markerPrefix) text) (length text)).
  intros ms.
  assert (H : forall acc : list (jsstring * list RichText),
             (forall k c, In (k, c) acc -> nonEmptyContent c) ->
             forall k c,
               In (k, c)
                 (fold_left
                    (fun definitions m =>
                       let contentRichTexts :=
                         extractRichTextRange definitionsRichTexts (def_start m)
                           (def_end m) in
                       if (length contentRichTexts =? 0)
                          || jsstring_eqb (trim (joinPlainText contentRichTexts)) []
                       then definitions
                       else mapSet (def_marker m) contentRichTexts definitions)
                    ms acc) ->
               nonEmptyContent c).
  { induction ms as [|m ms IH]; intros acc Hacc k' c'; simpl; [apply Hacc|].
    apply IH. intros k0 c0.
    destruct (Nat.eqb_spec
                (length (extractRichTextRange definitionsRichTexts (def_start m)
                           (def_end m))) 0) as [Hl|Hl]; simpl; [apply Hacc|].
    unfold jsstring_eqb. case_bool_decide as Ht; [apply Hacc|].
    intros Hin. apply mapSet_In in Hin as [[= -> ->]|Hin]; [|now apply Hacc in Hin].
    split; [|exact Ht]. intros E. now rewrite E in Hl. }
  apply H. intros ? ? [].
Qed.

Lemma extractFootnoteDefinitions_values richTexts markerPrefix cached k c :
  In (k, c)
    (snd (extractFootnoteDefinitionsFromRichText richTexts markerPrefix cached)) ->
  nonEmptyContent c.
Proof.
  unfold extractFootnoteDefinitionsFromRichText.
  destruct (firstDefinitionIndex _) as [splitPoint|]; [|easy].
  destruct (splitRichTextsAtCharPosition richTexts splitPoint) as [main defs]. simpl.
  apply parseFootnoteDefinitions_values.
Qed.

Lemma endOfBlockStep_footnotes markerPrefix markers block fs location :
  snd (endOfBlockStep markerPrefix markers (block, fs) location)
  = fs ++ footnotesOfLocation markerPrefix markers location.
Proof.
  unfold endOfBlockStep, footnotesOfLocation.
  now destruct (extractFootnoteDefinitionsFromRichText _ _ _).
Qed.

Lemma endOfBlock_fold_footnotes markerPrefix markers locations block fs :
  snd (fold_left (endOfBlockStep markerPrefix markers) locations (block, fs))
  = fs ++ List.flat_map (footnotesOfLocation markerPrefix markers) locations.
Proof.
  revert block fs. induction locations as [|l locations IH]; intros block fs.
  - simpl. now rewrite app_nil_r.
  - cbn [fold_left List.flat_map].
    pose proof (endOfBlockStep_footnotes markerPrefix markers block fs l) as E.
    destruct (endOfBlockStep markerPrefix markers (block, fs) l) as [b' fs'].
    simpl in E. subst fs'. rewrite IH. now rewrite <- app_assoc.
Qed.

Lemma extractEndOfBlock_footnotes block config :
  let markers :=
    findAllFootnoteMarkers (getAllRichTextLocations block) (marker_prefix config) in
  footnotes (snd (extractEndOfBlockFootnotes block config))
  = match markers with
    | [] => []
    | _ => List.flat_map (footnotesOfLocation (marker_prefix config) markers)
             (getAllRichTextLocations block)
    end.
Proof.
  intros markers. unfold extractEndOfBlockFootnotes. fold markers.
  destruct markers as [|m ms] eqn:E; [reflexivity|]. cbn [length Nat.eqb].
  pose proof (endOfBlock_fold_footnotes (marker_prefix config) (m :: ms)
                (getAllRichTextLocations block) block []) as H.
  destruct (fold_left _ _ _) as [b' fs]. simpl in *. now subst fs.
Qed.

(** Every footnote that end-of-block extraction produces has a non-empty
    trimmed content and a key with an inline marker in the block. *)
Lemma extractEndOfBlock_footnotes_inv block config f :
  In f (footnotes (snd (extractEndOfBlockFootnotes block config))) ->
  (exists m,
     In m (findAllFootnoteMarkers (getAllRichTextLocations block) (marker_prefix config))
     /\ Marker m = Footnote_Marker f)
  /\ exists c, Footnote_Content f = rich_text c /\ nonEmptyContent c.
Proof.
  rewrite extractEndOfBlock_footnotes.
  destruct (findAllFootnoteMarkers _ _) as [|m0 ms] eqn:E; [easy|].
  intros H. apply List.in_flat_map in H as (l & _ & H).
  unfold footnotesOfLocation in H.
  apply List.in_map_iff in H as ([k c] & <- & H).
  apply List.filter_In in H as [Hin Hex]. simpl. split.
  - apply List.existsb_exists in Hex as (m & Hm & Heq).
    exists m. split; [easy|]. unfold jsstring_eqb in Heq.
    now apply bool_decide_eq_true in Heq.
  - exists c. split; [reflexivity|].
    now apply extractFootnoteDefinitions_values in Hin.
Qed.

Lemma extractFootnoteDefinitions_cached richTexts markerPrefix :
  extractFootnoteDefinitionsFromRichText richTexts markerPrefix
    (Some (joinPlainText richTexts))
  = match firstDefinitionIndex (joinPlainText richTexts) with
    | None => (richTexts, [])
    | Some splitPoint =>
        (fst (splitRichTextsAtCharPosition richTexts splitPoint),
         parseFootnoteDefinitionsFromRichText
           (snd (splitRichTextsAtCharPosition richTexts splitPoint)) markerPrefix
           (substringFrom (joinPlainText richTexts) splitPoint))
    end.
Proof.
  unfold extractFootnoteDefinitionsFromRichText.
  assert (E : match Some (joinPlainText richTexts) with
              | Some (c :: t) => c :: t
              | _ => joinPlainText richTexts
              end = joinPlainText richTexts)
    by now destruct (joinPlainText richTexts).
  rewrite E. destruct (firstDefinitionIndex _) as [sp|]; [|reflexivity].
  now destruct (splitRichTextsAtCharPosition richTexts sp).
Qed.

Lemma keep_definition c T :
  joinPlainText c = T -> trim T <> [] ->
  (length c =? 0) || jsstring_eqb (trim (joinPlainText c)) [] = false.
Proof.
  intros Hj Ht. rewrite Hj. unfold jsstring_eqb. rewrite bool_decide_eq_false_2 by easy.
  destruct c; [|reflexivity]. simpl in Hj. subst T. now destruct Ht.
Qed.

(** The definitions section of the example, whatever runs carry it. *)
Lemma endOfBlockText_definitions richTexts :
  joinPlainText richTexts = endOfBlockText ->
  exists c1 c2,
    snd (extractFootnoteDefinitionsFromRichText richTexts (js "ft_")
           (Some (joinPlainText richTexts)))
    = [(js "a", c1); (js "b", c2)]
    /\ joinPlainText c1 = js "first note"
    /\ joinPlainText c2 = js "second note".
Proof.
  intros Hj. rewrite extractFootnoteDefinitions_cached, Hj.
  replace (firstDefinitionIndex endOfBlockText) with (Some 18) by (vm_compute; reflexivity).
  cbn [snd].
  set (defs := snd (splitRichTextsAtCharPosition richTexts 18)).
  assert (Hd : joinPlainText defs = drop 18 endOfBlockText)
    by (subst defs; now rewrite split_join_drop, Hj).
  unfold parseFootnoteDefinitionsFromRichText.
  replace (setEnds (execAll (definitionPattern (js "ft_")) (substringFrom endOfBlockText 18))
             (length (substringFrom endOfBlockText 18)))
    with [mkDefinitionMatch (js "a") 11 21 0; mkDefinitionMatch (js "b") 32 43 21]
    by (vm_compute; reflexivity).
  cbn [fold_left def_start def_end def_marker].
  assert (H1 : joinPlainText (extractRichTextRange defs 11 21) = js "first note").
  { apply extractRichTextRange_exact with (c' := 101%N);
      try lia; try reflexivity; rewrite Hd; vm_compute; reflexivity. }
  assert (H2 : joinPlainText (extractRichTextRange defs 32 43) = js "second note").
  { apply extractRichTextRange_exact with (c' := 101%N);
      try lia; try reflexivity; rewrite Hd; vm_compute; reflexivity. }
  rewrite (keep_definition _ _ H1) by (vm_compute; discriminate).
  cbn [mapSet].
  rewrite (keep_definition _ _ H2) by (vm_compute; discriminate).
  exists (extractRichTextRange defs 11 21), (extractRichTextRange defs 32 43).
  split; [|easy]. unfold mapSet.
  replace (jsstring_eqb (js "a") (js "b")) with false by reflexivity. reflexivity.
Qed.

Lemma endOfBlockText_markers location rt :
  joinPlainText (richTexts location) = endOfBlockText ->
  runAt (richTexts location) 11 rt -> Code (Annotation_ rt) = false ->
  exists i,
    findAllFootnoteMarkers [location] (js "ft_")
    = [mkMarkerInfo (js "a") (js "[^ft_a]")
         (mkMarkerLocation (property location) i 11 18)].
Proof.
  intros Hj Hrun Hc. destruct (findRun_runAt _ _ _ Hrun) as [i Hi]. exists i.
  unfold findAllFootnoteMarkers, findMarkersInLocation. cbn [List.map concat].
  rewrite Hj.
  replace (execAll (inlineMarkerPattern (js "ft_")) endOfBlockText)
    with [mkMatch 11 (js "[^ft_a]") (js "a")] by (vm_compute; reflexivity).
  cbn [List.map concat]. unfold markerOfMatch. cbn [index match0 match1].
  rewrite Hi, Hc. reflexivity.
Qed.

(** The example of the end-of-block format. With the marker prefix "ft_",
    a block whose single location reads
    "See it here[^ft_a]\n\n[^ft_a]: first note\n\n[^ft_b]: second note",
    in whatever runs, the inline reference lying in a run that is not code:
    exactly one footnote comes out, with key "a", full marker "[^ft_a]" and
    rich-text content whose text is "first note"; the definition of "b",
    which has no inline marker, yields nothing. And every footnote that
    end-of-block extraction produces has a key with an inline marker in the
    block and a content that is not empty once trimmed (the marker prefix
    being taken without regular expression metacharacters). *)
Theorem end_of_block_example block location rt :
  getAllRichTextLocations block = [location] ->
  joinPlainText (richTexts location) = endOfBlockText ->
  runAt (richTexts location) 11 rt ->
  Code (Annotation_ rt) = false ->
  (exists contentRichTexts,
     footnotes (snd (extractEndOfBlockFootnotes block (footnotesConfig end_of_block)))
     = [mkFootnote (js "a") (js "[^ft_a]") (rich_text contentRichTexts)
          (sourceLocationOf (property location))]
     /\ joinPlainText contentRichTexts = js "first note")
  /\ (forall block' config f,
        regexLiteral (marker_prefix config) = true ->
        In f (footnotes (snd (extractEndOfBlockFootnotes block' config))) ->
        (exists m,
           In m (findAllFootnoteMarkers (getAllRichTextLocations block')
                   (marker_prefix config))
           /\ Marker m = Footnote_Marker f)
        /\ exists c, Footnote_Content f = rich_text c
                     /\ c <> [] /\ trim (joinPlainText c) <> []).
Proof.
  intros Hlocs Hj Hrun Hc. split.
  - destruct (endOfBlockText_definitions _ Hj) as (c1 & c2 & Hdefs & H1 & H2).
    destruct (endOfBlockText_markers _ _ Hj Hrun Hc) as [i Hm].
    exists c1. split; [|exact H1].
    rewrite extractEndOfBlock_footnotes, Hlocs.
    change (marker_prefix (footnotesConfig end_of_block)) with (js "ft_").
    rewrite Hm. cbn [List.flat_map]. rewrite app_nil_r.
    unfold footnotesOfLocation. rewrite Hdefs. reflexivity.
  - intros block' config f _ Hf. now apply extractEndOfBlock_footnotes_inv.
Qed.

Lemma end_of_block_example_witness :
  let location :=
    mkLocation (js "Paragraph.RichTexts") [textSpan boldAnnotation endOfBlockText]
      (Scalar Paragraph_RichTexts) in
  getAllRichTextLocations endOfBlockExample = [location]
  /\ joinPlainText (richTexts location) = endOfBlockText
  /\ runAt (richTexts location) 11 (textSpan boldAnnotation endOfBlockText)
  /\ Code (Annotation_ (textSpan boldAnnotation endOfBlockText)) = false
  /\ exists contentRichTexts,
       footnotes (snd (extractEndOfBlockFootnotes endOfBlockExample
                         (footnotesConfig end_of_block)))
       = [mkFootnote (js "a") (js "[^ft_a]") (rich_text contentRichTexts)
            (sourceLocationOf (property location))]
       /\ joinPlainText contentRichTexts = js "first note".
Proof.
  intros location.
  assert (Hrun : runAt (richTexts location) 11 (textSpan boldAnnotation endOfBlockText)).
  { exists [], []. split; [reflexivity|]. vm_compute. lia. }
  assert (Hj : joinPlainText (richTexts location) = endOfBlockText)
    by (vm_compute; reflexivity).
  split; [reflexivity|]. split; [exact Hj|]. split; [exact Hrun|].
  split; [reflexivity|].
  exact (proj1 (end_of_block_example endOfBlockExample location
                  (textSpan boldAnnotation endOfBlockText) eq_refl Hj Hrun eq_refl)).
Defined.

(** The example evaluated: one footnote, and the location rewritten to the
    body followed by the marker span. *)
Example end_of_block_example_evaluated :
  let '(block', result) :=
    extractEndOfBlockFootnotes endOfBlockExample (footnotesConfig end_of_block) in
  footnotes result
  = [mkFootnote (js "a") (js "[^ft_a]")
       (rich_text [textSpan boldAnnotation (js "first note")]) content]
  /\ List.map (fun l => List.map (fun s => (PlainText s, FootnoteRef s)) (richTexts l))
       (getAllRichTextLocations block')
     = [[(js "See it here", None); (js "[^ft_a]", Some (js "a"))]].
Proof. vm_compute. split; reflexivity. Qed.

(** C7. An empty definition is not always skipped. The body cites [b] and
    [c]; the definitions read "[^ft_b]: " (empty) and, after a blank line,
    "[^ft_c]: gamma". The definition pattern ends in [\s*], which runs over
    the blank line that should introduce the next definition, so the loop
    finds the single definition [b], whose range then reaches to the end of
    the text: the footnote of [b] comes out with the content
    "[^ft_c]: gamma", and [c], which has an inline marker and a definition
    that is not empty, gets no footnote. (An empty definition at the very end
    of the text, and a definition whose key has no inline marker, are
    skipped: this is what [end_of_block_example] shows.) *)
Theorem empty_definition_takes_the_next_one :
  let '(block', result) :=
    extractEndOfBlockFootnotes emptyDefinitionExample (footnotesConfig end_of_block) in
  List.map Marker
    (findAllFootnoteMarkers (getAllRichTextLocations emptyDefinitionExample) (js "ft_"))
  = [js "b"; js "c"]
  /\ List.map match1
       (execAll (definitionPattern (js "ft_"))
          (newline ++ newline ++ js "[^ft_b]: " ++ newline ++ newline
             ++ js "[^ft_c]: gamma"))
     = [js "b"]
  /\ footnotes result
     = [mkFootnote (js "b") (js "[^ft_b]")
          (rich_text [textSpan plainAnnotation (js "[^ft_c]: gamma")]) content]
  /\ List.map locationText (getAllRichTextLocations block')
     = [(js "Paragraph.RichTexts", js "See[^ft_b] and[^ft_c]")].
Proof.
  vm_compute. repeat split; reflexivity.
Qed.

(** ** Formatting through splits *)

Lemma sameFormatting_refl o : sameFormatting o o.
Proof. repeat split. Qed.

Lemma sameFormatting_pieceOf o piece : sameFormatting o (pieceOf o piece).
Proof.
  unfold pieceOf. rewrite cloneRichText_id.
  destruct o as [[t|] an pt h e m i fm fr cm cr]; repeat split.
Qed.

Lemma fragmentOf_sameFormatting o s : fragmentOf o s -> sameFormatting o s.
Proof.
  intros [->|[piece ->]]; [apply sameFormatting_refl | apply sameFormatting_pieceOf].
Qed.

Lemma sameFormatting_trans a b c :
  sameFormatting a b -> sameFormatting b c -> sameFormatting a c.
Proof.
  unfold sameFormatting. intros H1 H2.
  destruct H1 as (?&?&?&?&?&?&?&?&?&?), H2 as (?&?&?&?&?&?&?&?&?&?).
  repeat split; congruence.
Qed.

Lemma splitLoop_length l k pos :
  length l <= length (fst (splitLoop l k pos)) + length (snd (splitLoop l k pos))
  /\ length (fst (splitLoop l k pos)) + length (snd (splitLoop l k pos)) <= length l + 1.
Proof.
  revert pos. induction l as [|rt l IH]; intros pos; simpl; [lia|].
  specialize (IH (pos + length (PlainText rt))).
  destruct (Nat.leb_spec k pos) as [H1|H1].
  - destruct (splitLoop l k (pos + length (PlainText rt))) as [b a]; simpl in *. lia.
  - destruct (Nat.leb_spec (pos + length (PlainText rt)) k) as [H2|H2].
    + destruct (splitLoop l k (pos + length (PlainText rt))) as [b a]; simpl in *. lia.
    + rewrite splitLoop_all_after by lia.
      destruct (Nat.ltb_spec 0 (k - pos)), (Nat.ltb_spec (k - pos) (length (PlainText rt)));
        simpl; lia.
Qed.

(** X1. [splitRichTextsAtCharPosition] cuts exactly at the position: the
    part before holds the first [k] characters of the joined text and the
    part after holds the rest; a position past the end puts everything
    before. No span is dropped, at most one span is cut in two, and every
    output span has the formatting of an input span. *)
Theorem split_cuts_at_position (S : list RichText) (k : nat) :
  let '(before, after) := splitRichTextsAtCharPosition S k in
  joinPlainText before = take k (joinPlainText S)
  /\ joinPlainText after = drop k (joinPlainText S)
  /\ length (joinPlainText before) = Nat.min k (length (joinPlainText S))
  /\ (forall s, In s (before ++ after) -> exists o, In o S /\ sameFormatting o s)
  /\ length S <= length before + length after
  /\ length before + length after <= length S + 1.
Proof.
  pose proof (split_join_take S k) as Ht.
  pose proof (split_join_drop S k) as Hd.
  pose proof (split_fragments S k) as Hf.
  pose proof (splitLoop_length S k 0) as Hl.
  unfold splitRichTextsAtCharPosition in *.
  destruct (splitLoop S k 0) as [before after]; simpl in *.
  split; [exact Ht|]. split; [exact Hd|].
  split; [rewrite Ht; apply length_take|].
  split; [|exact Hl].
  intros s Hs. apply in_app_iff in Hs.
  destruct (Hf s Hs) as (o & Ho & Hfr).
  exists o. split; [exact Ho|]. now apply fragmentOf_sameFormatting.
Qed.

(** ** Removing a definition prefix *)

Lemma removeMarkerPrefixLoop_join l n :
  joinPlainText (removeMarkerPrefixLoop l n) = drop n (joinPlainText l).
Proof.
  revert n. induction l as [|rt l IH]; intros n; simpl.
  - change (joinPlainText []) with (@nil N). now rewrite drop_nil.
  - destruct (Nat.ltb_spec 0 n) as [Hn|Hn].
    + rewrite joinPlainText_cons, drop_app.
      destruct (Nat.leb_spec (length (PlainText rt)) n) as [Hl|Hl].
      * rewrite IH, (drop_ge (PlainText rt)) by lia. reflexivity.
      * rewrite joinPlainText_cons.
        replace (n - length (PlainText rt)) with 0 by lia. rewrite drop_0.
        f_equal.
    + replace n with 0 by lia. now rewrite drop_0.
Qed.

Lemma removeMarkerPrefixLoop_formatting l n s :
  In s (removeMarkerPrefixLoop l n) -> exists o, In o l /\ sameFormatting o s.
Proof.
  revert n. induction l as [|rt l IH]; intros n; simpl; [easy|].
  destruct (0 <? n).
  - destruct (length (PlainText rt) <=? n).
    + intros H. destruct (IH _ H) as (o & Ho & Hs). exists o. auto.
    + intros [<-|H].
      * exists rt. split; [now left|]. rewrite cloneRichText_id.
        destruct rt as [[t|] an pt h e m i fm fr cm cr]; repeat split.
      * exists s. split; [now right | apply sameFormatting_refl].
  - intros H. exists s. split; [exact H | apply sameFormatting_refl].
Qed.

(** X2. [removeMarkerPrefix] removes exactly the first [prefixLength]
    characters of the joined text (everything, when the text is shorter) and
    every span it returns has the formatting of an input span. *)
Theorem removeMarkerPrefix_drops_prefix (richTexts : list RichText) (prefixLength : nat) :
  joinPlainText (removeMarkerPrefix richTexts prefixLength)
  = drop prefixLength (joinPlainText richTexts)
  /\ (forall s, In s (removeMarkerPrefix richTexts prefixLength) ->
        exists o, In o richTexts /\ sameFormatting o s).
Proof.
  unfold removeMarkerPrefix.
  destruct richTexts as [|rt l].
  - simpl. split; [now destruct prefixLength | easy].
  - destruct prefixLength as [|n].
    + simpl. split; [reflexivity|].
      intros s Hs. exists s. split; [exact Hs | apply sameFormatting_refl].
    + change ((length (rt :: l) =? 0) || (S n =? 0)) with false. cbv iota.
      split; [apply removeMarkerPrefixLoop_join|].
      intros s. apply removeMarkerPrefixLoop_formatting.
Qed.

(** ** Flagging the markers of a location *)

Lemma joinPlainText_updateFirst_flag key l :
  joinPlainText (updateFirst (setFootnoteMarker key) l) = joinPlainText l.
Proof. now destruct l. Qed.

Lemma splitAtMarker_join result marker :
  joinPlainText (splitAtMarker result marker) = joinPlainText result.
Proof.
  unfold splitAtMarker.
  pose proof (split_join_take result (CharStart (Location marker))) as H1.
  pose proof (split_join_drop result (CharStart (Location marker))) as H2.
  destruct (splitRichTextsAtCharPosition result (CharStart (Location marker)))
    as [before after]; simpl in *.
  pose proof (split_join_take after (length (FullMarker marker))) as H3.
  pose proof (split_join_drop after (length (FullMarker marker))) as H4.
  destruct (splitRichTextsAtCharPosition after (length (FullMarker marker)))
    as [markerPart afterMarker]; simpl in *.
  rewrite !joinPlainText_app, joinPlainText_updateFirst_flag, H1, H3, H4, take_drop.
  rewrite H2. apply take_drop.
Qed.

Lemma fold_splitAtMarker_join ms result :
  joinPlainText (fold_left splitAtMarker ms result) = joinPlainText result.
Proof.
  revert result. induction ms as [|m ms IH]; intros result; simpl; [reflexivity|].
  now rewrite IH, splitAtMarker_join.
Qed.

Lemma splitAtMarker_formatting result marker s :
  In s (splitAtMarker result marker) ->
  exists o, In o result
    /\ (sameFormatting o s \/ sameFormatting (setFootnoteMarker (Marker marker) o) s).
Proof.
  unfold splitAtMarker.
  pose proof (split_fragments result (CharStart (Location marker))) as H1.
  destruct (splitRichTextsAtCharPosition result (CharStart (Location marker)))
    as [before after]; simpl in *.
  pose proof (split_fragments after (length (FullMarker marker))) as H2.
  destruct (splitRichTextsAtCharPosition after (length (FullMarker marker)))
    as [markerPart afterMarker]; simpl in *.
  assert (Hafter : forall x, In x markerPart \/ In x afterMarker ->
            exists o, In o result /\ sameFormatting o x).
  { intros x Hx. destruct (H2 x Hx) as (o & Ho & Hf).
    destruct (H1 o (or_intror Ho)) as (o' & Ho' & Hf').
    exists o'. split; [exact Ho'|].
    eapply sameFormatting_trans; apply fragmentOf_sameFormatting; eassumption. }
  intros Hs. apply in_app_iff in Hs as [Hs|Hs].
  - destruct (H1 s (or_introl Hs)) as (o & Ho & Hf).
    exists o. split; [exact Ho|]. left. now apply fragmentOf_sameFormatting.
  - apply in_app_iff in Hs as [Hs|Hs].
    + destruct markerPart as [|p rest]; [easy|]. simpl in Hs.
      destruct Hs as [<-|Hs].
      * destruct (Hafter p (or_introl (or_introl eq_refl))) as (o & Ho & Hf).
        exists o. split; [exact Ho|]. right.
        unfold sameFormatting in *. destruct Hf as (?&?&?&?&?&?&?&?&?&?).
        simpl. repeat split; assumption.
      * destruct (Hafter s (or_introl (or_intror Hs))) as (o & Ho & Hf).
        exists o. auto.
    + destruct (Hafter s (or_intror Hs)) as (o & Ho & Hf). exists o. auto.
Qed.

Lemma sameFormatting_flag k o s :
  sameFormatting o s \/ (exists k', sameFormatting (setFootnoteMarker k' o) s) ->
  sameFormatting (setFootnoteMarker k o) (setFootnoteMarker k s).
Proof.
  unfold sameFormatting.
  intros [H|[k' H]]; destruct H as (?&?&?&?&?&?&?&?&?&?); simpl in *; repeat split; assumption.
Qed.

Lemma fold_splitAtMarker_formatting ms all result s :
  (forall m, In m ms -> In m all) ->
  In s (fold_left splitAtMarker ms result) ->
  exists o, In o result /\ likeOrFlagged all o s.
Proof.
  revert result. induction ms as [|m ms IH]; intros result Hall; simpl.
  - intros H. exists s. split; [exact H | left; apply sameFormatting_refl].
  - intros H. apply IH in H as (o' & Ho' & Hl); [|intros; apply Hall; now right].
    apply splitAtMarker_formatting in Ho' as (o & Ho & Hf).
    exists o. split; [exact Ho|].
    unfold likeOrFlagged in *.
    destruct Hl as [Hl|(m' & Hm' & Hl)].
    + destruct Hf as [Hf|Hf].
      * left. eapply sameFormatting_trans; eassumption.
      * right. exists m. split; [apply Hall; now left|].
        eapply sameFormatting_trans; eassumption.
    + right. exists m'. split; [exact Hm'|].
      eapply sameFormatting_trans; [|exact Hl].
      unfold sameFormatting in *.
      destruct Hf as [Hf|Hf]; destruct Hf as (?&?&?&?&?&?&?&?&?&?);
        simpl in *; repeat split; assumption.
Qed.

Lemma splitAtMarker_length result marker :
  length result <= length (splitAtMarker result marker).
Proof.
  unfold splitAtMarker, splitRichTextsAtCharPosition.
  pose proof (splitLoop_length result (CharStart (Location marker)) 0) as [H1 _].
  destruct (splitLoop result (CharStart (Location marker)) 0) as [before after];
    simpl in *.
  pose proof (splitLoop_length after (length (FullMarker marker)) 0) as [H2 _].
  destruct (splitLoop after (length (FullMarker marker)) 0) as [markerPart afterMarker];
    simpl in *.
  rewrite !length_app.
  assert (length (updateFirst (setFootnoteMarker (Marker marker)) markerPart)
          = length markerPart) as -> by now destruct markerPart.
  lia.
Qed.

Lemma fold_splitAtMarker_length ms result :
  length result <= length (fold_left splitAtMarker ms result).
Proof.
  revert result. induction ms as [|m ms IH]; intros result; simpl; [lia|].
  etransitivity; [apply splitAtMarker_length | apply IH].
Qed.

Lemma splitRichTextWithMarkers_fold location markers :
  splitRichTextWithMarkers location markers
  = fold_left splitAtMarker
      (Array_sort (fun a b => Z.of_nat (CharStart (Location b))
                              - Z.of_nat (CharStart (Location a)))%Z
         (List.filter (fun m => jsstring_eqb (BlockProperty (Location m)) (property location))
            markers))
      (richTexts location).
Proof.
  unfold splitRichTextWithMarkers.
  now destruct (Array_sort _ _).
Qed.

(** X3. [splitRichTextWithMarkers] never changes the text of a location:
    the joined text of its result is the joined text of the location, no span
    is lost, and every output span has the formatting of an input span,
    either as it was or flagged as the reference of a marker of this
    location. *)
Theorem splitRichTextWithMarkers_keeps_text_and_formatting
  (location : RichTextLocation) (markers : list FootnoteMarkerInfo) :
  let out := splitRichTextWithMarkers location markers in
  joinPlainText out = joinPlainText (richTexts location)
  /\ length (richTexts location) <= length out
  /\ (forall s, In s out ->
        exists o, In o (richTexts location)
          /\ (sameFormatting o s
              \/ exists m, In m markers
                   /\ BlockProperty (Location m) = property location
                   /\ sameFormatting (setFootnoteMarker (Marker m) o) s)).
Proof.
  cbv zeta. rewrite splitRichTextWithMarkers_fold.
  set (ms := Array_sort _ _).
  assert (Hms : forall m, In m ms ->
            In m markers /\ BlockProperty (Location m) = property location).
  { intros m Hm. subst ms.
    apply (Permutation_in _ (Array_sort_Permutation _ _)) in Hm.
    apply List.filter_In in Hm as [Hm Hp]. split; [exact Hm|].
    unfold jsstring_eqb in Hp. now apply bool_decide_eq_true in Hp. }
  split; [apply fold_splitAtMarker_join|].
  split; [apply fold_splitAtMarker_length|].
  intros s Hs.
  destruct (fold_splitAtMarker_formatting ms ms _ s (fun m H => H) Hs) as (o & Ho & Hl).
  exists o. split; [exact Ho|].
  destruct Hl as [Hl|(m & Hm & Hl)]; [now left|].
  right. exists m. destruct (Hms m Hm). auto.
Qed.

(** ** Trimming and the extracted range *)

Lemma trimStart_app_trimStart x y : trimStart (trimStart x ++ y) = trimStart (x ++ y).
Proof.
  induction x as [|c x IH]; [reflexivity|].
  simpl. destruct (isWhiteSpace c) eqn:E; [exact IH|].
  simpl. now rewrite E.
Qed.

Lemma trimEnd_app_trimEnd x y : trimEnd (x ++ trimEnd y) = trimEnd (x ++ y).
Proof.
  unfold trimEnd. rewrite !rev_app_distr, rev_involutive.
  now rewrite trimStart_app_trimStart.
Qed.

Lemma trimStart_snoc x c :
  trimStart (x ++ [c])
  = match trimStart x with
    | [] => if isWhiteSpace c then [] else [c]
    | t => t ++ [c]
    end.
Proof.
  induction x as [|d x IH]; simpl.
  - now destruct (isWhiteSpace c).
  - destruct (isWhiteSpace d); [exact IH | reflexivity].
Qed.

Lemma trimEnd_cons c s :
  trimEnd (c :: s)
  = match trimEnd s with
    | [] => if isWhiteSpace c then [] else [c]
    | t => c :: t
    end.
Proof.
  unfold trimEnd. simpl rev. rewrite trimStart_snoc.
  destruct (trimStart (rev s)) as [|d t] eqn:E.
  - simpl. now destruct (isWhiteSpace c).
  - rewrite rev_app_distr. simpl.
    destruct (rev t ++ [d]) eqn:E'; [now destruct (rev t)|reflexivity].
Qed.

Lemma trim_commute s : trimStart (trimEnd s) = trimEnd (trimStart s).
Proof.
  induction s as [|c s IH]; [reflexivity|].
  rewrite trimEnd_cons.
  destruct (isWhiteSpace c) eqn:E.
  - replace (trimStart (c :: s)) with (trimStart s) by (simpl; now rewrite E).
    rewrite <- IH. destruct (trimEnd s) as [|d t]; [reflexivity|].
    simpl. now rewrite E.
  - replace (trimStart (c :: s)) with (c :: s) by (simpl; now rewrite E).
    rewrite trimEnd_cons, E.
    destruct (trimEnd s) as [|d t]; simpl; now rewrite E.
Qed.

Lemma PlainText_trimSpan f rt : PlainText (trimSpan f rt) = f (PlainText rt).
Proof. unfold trimSpan, mapTextContent. simpl. now destruct (Text_ rt). Qed.

Lemma trim_updateFirst l :
  trim (joinPlainText (updateFirst (trimSpan trimStart) l)) = trim (joinPlainText l).
Proof.
  destruct l as [|p rest]; [reflexivity|].
  simpl updateFirst. rewrite !joinPlainText_cons, PlainText_trimSpan.
  unfold trim. now rewrite trimStart_app_trimStart.
Qed.

Lemma trim_updateLast l :
  trim (joinPlainText (updateLast (trimSpan trimEnd) l)) = trim (joinPlainText l).
Proof.
  unfold updateLast.
  destruct l as [|p init _] using rev_ind; [reflexivity|].
  rewrite rev_app_distr. simpl. rewrite rev_involutive.
  rewrite !joinPlainText_app, !joinPlainText_cons, PlainText_trimSpan.
  change (joinPlainText []) with (@nil N). rewrite !app_nil_r.
  unfold trim. rewrite <- !trim_commute. now rewrite trimEnd_app_trimEnd.
Qed.

Lemma extractLoop_fragments S a b cur s :
  In s (extractLoop S a b cur) -> exists o, In o S /\ fragmentOf o s.
Proof.
  revert cur. induction S as [|rt S IH]; intros cur; simpl; [easy|].
  assert (Ht : In s (extractLoop S a b (cur + length (PlainText rt))) ->
               exists o, (rt = o \/ In o S) /\ fragmentOf o s).
  { intros H. apply IH in H as (o & Ho & Hf). exists o. auto. }
  destruct ((a <? cur + length (PlainText rt)) && (cur <? b)); [|exact Ht].
  match goal with
  | |- context [0 <? length ?x] => destruct (0 <? length x)
  end; [|exact Ht].
  intros [<-|H]; [|now apply Ht].
  exists rt. split; [now left|]. right. eauto.
Qed.

Lemma sameFormatting_trimSpan f s : sameFormatting s (trimSpan f s).
Proof.
  unfold trimSpan, mapTextContent.
  destruct s as [[t|] an pt h e m i fm fr cm cr]; repeat split.
Qed.

Lemma updateFirst_In {A} (f : A -> A) l s :
  In s (updateFirst f l) -> exists o, In o l /\ (s = o \/ s = f o).
Proof.
  destruct l as [|x l]; simpl; [easy|].
  intros [<-|H]; [exists x | exists s]; auto.
Qed.

Lemma updateLast_In {A} (f : A -> A) l s :
  In s (updateLast f l) -> exists o, In o l /\ (s = o \/ s = f o).
Proof.
  unfold updateLast. intros H. apply List.in_rev in H.
  apply updateFirst_In in H as (o & Ho & H). apply List.in_rev in Ho.
  exists o. auto.
Qed.

Lemma extractRichTextRange_formatting S a b s :
  In s (extractRichTextRange S a b) -> exists o, In o S /\ sameFormatting o s.
Proof.
  unfold extractRichTextRange. intros Hs.
  apply updateLast_In in Hs as (s1 & Hs1 & E1).
  apply updateFirst_In in Hs1 as (s0 & Hs0 & E0).
  apply extractLoop_fragments in Hs0 as (o & Ho & Hf).
  exists o. split; [exact Ho|].
  apply fragmentOf_sameFormatting in Hf.
  assert (H1 : sameFormatting o s1).
  { destruct E0 as [->| ->]; [exact Hf|].
    eapply sameFormatting_trans; [exact Hf | apply sameFormatting_trimSpan]. }
  destruct E1 as [->| ->]; [exact H1|].
  eapply sameFormatting_trans; [exact H1 | apply sameFormatting_trimSpan].
Qed.

(** X4. For [a <= b], the text [extractRichTextRange] returns is the
    character range [a, b) of the joined text up to surrounding white space:
    trimming both gives the same string. (Only the first and the last span
    are trimmed, so a range that is all white space can come back as
    non-empty white space.) Every returned span has the formatting of an
    input span. *)
Theorem extractRichTextRange_trimmed_range (S : list RichText) (a b : nat) :
  a <= b ->
  trim (joinPlainText (extractRichTextRange S a b))
  = trim (substring (joinPlainText S) a b)
  /\ (forall s, In s (extractRichTextRange S a b) ->
        exists o, In o S /\ sameFormatting o s).
Proof.
  intros Hab. split; [|intros s; apply extractRichTextRange_formatting].
  unfold extractRichTextRange.
  rewrite trim_updateLast, trim_updateFirst, (extractLoop_join S a b 0 Hab).
  unfold substring.
  rewrite !Nat.sub_0_r, Nat.max_r, Nat.min_l by lia. reflexivity.
Qed.

Lemma extractRichTextRange_trimmed_range_witness :
  let S := [textSpan boldAnnotation (js "  a "); textSpan plainAnnotation (js "b  c")] in
  1 <= 7
  /\ trim (joinPlainText (extractRichTextRange S 1 7))
     = trim (substring (joinPlainText S) 1 7).
Proof.
  split; [lia|].
  exact (proj1 (extractRichTextRange_trimmed_range
                  [textSpan boldAnnotation (js "  a "); textSpan plainAnnotation (js "b  c")]
                  1 7 ltac:(lia))).
Defined.

(** X5. [setChildrenInBlock] followed by [getChildrenFromBlock] gives the
    children back on the eleven block kinds that hold children; on every
    other block the write is silently dropped and the block is unchanged. In
    both cases the rich-text locations and the id of the block stay as they
    were. *)
Theorem setChildrenInBlock_roundtrip (block : Block) (children : list Block) :
  (if childBearing block
   then getChildrenFromBlock (setChildrenInBlock block children) = Some children
   else setChildrenInBlock block children = block)
  /\ getAllRichTextLocations (setChildrenInBlock block children)
     = getAllRichTextLocations block
  /\ Id (setChildrenInBlock block children) = Id block.
Proof.
  destruct block as [id p h1 h2 h3 bl nl td q c tg bc im vd au fl em bm lp tb sb].
  unfold childBearing, setChildrenInBlock, getChildrenFromBlock; simpl.
  destruct p as [?|]; [repeat split|].
  destruct h1 as [?|]; [repeat split|].
  destruct h2 as [?|]; [repeat split|].
  destruct h3 as [?|]; [repeat split|].
  destruct q as [?|]; [repeat split|].
  destruct c as [?|]; [repeat split|].
  destruct tg as [?|]; [repeat split|].
  destruct bl as [?|]; [repeat split|].
  destruct nl as [?|]; [repeat split|].
  destruct td as [?|]; [repeat split|].
  destruct sb as [?|]; repeat split.
Qed.

(** ** Property paths: the decimal rendering of indices *)

Lemma js_inj a b : js a = js b -> a = b.
Proof.
  unfold js. intros H.
  assert (Hl : String.list_ascii_of_string a = String.list_ascii_of_string b).
  { revert H. generalize (String.list_ascii_of_string a) as x,
                        (String.list_ascii_of_string b) as y.
    induction x as [|c x IH]; intros [|d y]; simpl; try easy.
    intros H. injection H as Hc Ht. f_equal; [|now apply IH].
    rewrite <- (Ascii.ascii_N_embedding c), <- (Ascii.ascii_N_embedding d).
    now rewrite Hc. }
  rewrite <- (String.string_of_list_ascii_of_string a),
          <- (String.string_of_list_ascii_of_string b).
  now rewrite Hl.
Qed.

Lemma to_uint_nonnil n : Nat.to_uint n <> Decimal.Nil.
Proof.
  pose proof (DecimalNat.Unsigned.to_of (Nat.to_uint n)) as H.
  rewrite DecimalNat.Unsigned.of_to in H. rewrite H.
  apply DecimalFacts.unorm_nonnil.
Qed.

Lemma showNat_inj n m : showNat n = showNat m -> n = m.
Proof.
  unfold showNat. intros H. apply js_inj in H.
  apply DecimalNat.Unsigned.to_uint_inj.
  pose proof (NilZero.usu _ (to_uint_nonnil n)) as H1.
  pose proof (NilZero.usu _ (to_uint_nonnil m)) as H2.
  rewrite H in H1. rewrite H1 in H2. now injection H2.
Qed.

Lemma raw_string_of_uint_digits d :
  forallb isDigit (js (NilEmpty.string_of_uint d)) = true.
Proof. induction d; simpl; try reflexivity; exact IHd. Qed.

Lemma showNat_digits n : forallb isDigit (showNat n) = true.
Proof.
  unfold showNat, NilZero.string_of_uint.
  destruct (Nat.to_uint n); try reflexivity; apply raw_string_of_uint_digits.
Qed.

Lemma digits_until_bracket (d1 d2 t1 t2 : jsstring) :
  forallb isDigit d1 = true -> forallb isDigit d2 = true ->
  d1 ++ 93%N :: t1 = d2 ++ 93%N :: t2 -> d1 = d2 /\ t1 = t2.
Proof.
  revert d2. induction d1 as [|c d1 IH]; intros [|c' d2] H1 H2 E; simpl in *.
  - now injection E.
  - injection E as <- _. apply andb_prop in H2 as [H2 _]. discriminate H2.
  - injection E as -> _. apply andb_prop in H1 as [H1 _]. discriminate H1.
  - injection E as <- E. apply andb_prop in H1 as [_ H1]. apply andb_prop in H2 as [_ H2].
    destruct (IH d2 H1 H2 E) as [-> ->]. easy.
Qed.

Lemma cellName_inj r c r' c' : cellName r c = cellName r' c' -> r = r' /\ c = c'.
Proof.
  unfold cellName. intros E.
  apply app_inv_head in E.
  change (js "].Cells[") with (93%N :: js ".Cells[") in E.
  rewrite <- !app_comm_cons in E.
  apply digits_until_bracket in E as [Er E]; try apply showNat_digits.
  apply app_inv_head in E.
  change (js "]") with [93%N] in E.
  apply digits_until_bracket in E as [Ec _]; try apply showNat_digits.
  split; now apply showNat_inj.
Qed.

Lemma scalarName_inj p q : scalarName p = scalarName q -> p = q.
Proof.
  destruct p, q; intros E; try reflexivity; vm_compute in E; discriminate E.
Qed.

Lemma scalarName_not_cellName p r c : scalarName p <> cellName r c.
Proof.
  unfold cellName. intros E. destruct p; cbn in E; discriminate E.
Qed.

#[local] Instance pathName_inj : Inj (=) (=) pathName.
Proof.
  intros [p|r c] [q|r' c'] E; simpl in E.
  - f_equal. now apply scalarName_inj.
  - now apply scalarName_not_cellName in E.
  - symmetry in E. now apply scalarName_not_cellName in E.
  - apply cellName_inj in E as [-> ->]. reflexivity.
Qed.

Lemma cellsFrom_property R k cells l :
  In l (cellsFrom R k cells) -> property l = pathName (setter l).
Proof.
  revert k. induction cells as [|cell cells IH]; intros k; [easy|].
  rewrite cellsFrom_cons, in_app_iff. intros [H|H]; [|now apply IH in H].
  apply addLocation_inv in H as [-> _]. reflexivity.
Qed.

Lemma rowsFrom_property k rows l :
  In l (rowsFrom k rows) -> property l = pathName (setter l).
Proof.
  revert k. induction rows as [|row rows IH]; intros k; [easy|].
  rewrite rowsFrom_cons, in_app_iff. intros [H|H]; [|now apply IH in H].
  now apply cellsFrom_property in H.
Qed.

Lemma location_property b l :
  In l (getAllRichTextLocations b) -> property l = pathName (setter l).
Proof.
  unfold getAllRichTextLocations. rewrite in_app_iff. intros [H|H].
  - apply in_concat in H as (ls & Hls & Hl).
    apply List.in_map_iff in Hls as (q & <- & _).
    apply scalarLocation_inv in Hl as (rts & _ & _ & ->). reflexivity.
  - rewrite tableLocations_rowsFrom in H. now apply rowsFrom_property in H.
Qed.

Lemma location_properties_NoDup block :
  NoDup (List.map property (getAllRichTextLocations block)).
Proof.
  assert (Hmap : List.map property (getAllRichTextLocations block)
                 = List.map pathName (List.map setter (getAllRichTextLocations block))).
  { rewrite List.map_map. apply List.map_ext_in. intros l Hl.
    now apply (location_property block). }
  rewrite Hmap.
  change (NoDup (pathName <$> List.map setter (getAllRichTextLocations block))).
  apply (NoDup_fmap_2 pathName), getAll_setters_NoDup.
Qed.

(** X6. The property paths that [getAllRichTextLocations] reports for one
    block are pairwise distinct, so a marker's [BlockProperty] names one
    location of its block only. *)
Theorem location_properties_distinct (block : Block) :
  NoDup (List.map property (getAllRichTextLocations block))
  /\ (forall l l', In l (getAllRichTextLocations block) ->
        In l' (getAllRichTextLocations block) ->
        property l = property l' -> l = l').
Proof.
  pose proof (location_properties_NoDup block) as Hnd.
  split; [exact Hnd|].
  intros l l' Hl Hl' E.
  apply list_elem_of_In, list_elem_of_lookup in Hl as [i Hi].
  apply list_elem_of_In, list_elem_of_lookup in Hl' as [j Hj].
  assert (i = j).
  { change (NoDup (property <$> getAllRichTextLocations block)) in Hnd.
    eapply NoDup_lookup; [exact Hnd| |].
    - rewrite list_lookup_fmap, Hi. reflexivity.
    - rewrite list_lookup_fmap, Hj. simpl. now rewrite E. }
  subst j. congruence.
Qed.

(** ** Reading what a setter writes *)

Lemma Rows_writeCell r c v b :
  Table (writeCell r c v b) ≫= Rows
  = alter (fun row => mkTableRow (alter (fun _ => mkTableCell v) c (Cells row))) r
      <$> (Table b ≫= Rows).
Proof. destruct b as [? ? ? ? ? ? ? ? ? ? ? ? ? ? ? ? ? ? ? [[[rows|]]|] ?]; reflexivity. Qed.

Lemma readPath_runSetter_same p v b :
  is_Some (readPath p b) -> readPath p (runSetter p v b) = Some v.
Proof.
  destruct p as [q|r c]; cbn [readPath runSetter].
  - apply readScalar_writeScalar_same.
  - rewrite Rows_writeCell.
    destruct (Table b ≫= Rows) as [rows|]; [|now intros [? ?]].
    cbn [fmap option_fmap option_map mbind option_bind].
    rewrite list_lookup_alter_eq.
    destruct (rows !! r) as [row|]; [|now intros [? ?]].
    cbn [fmap option_fmap option_map mbind option_bind Cells].
    rewrite list_lookup_alter_eq.
    destruct (Cells row !! c) as [cell|]; [easy|now intros [? ?]].
Qed.

Lemma readPath_runSetter_other p q v b :
  p <> q -> readPath q (runSetter p v b) = readPath q b.
Proof.
  intros Hne. destruct p as [p|r c], q as [q|r' c']; cbn [readPath runSetter].
  - apply readScalar_writeScalar_other. congruence.
  - now rewrite Table_writeScalar.
  - apply readScalar_writeCell.
  - rewrite Rows_writeCell.
    destruct (Table b ≫= Rows) as [rows|]; [|reflexivity].
    cbn [fmap option_fmap option_map mbind option_bind].
    destruct (decide (r = r')) as [<-|Hr].
    + rewrite list_lookup_alter_eq.
      destruct (rows !! r) as [row|]; [|reflexivity].
      cbn [fmap option_fmap option_map mbind option_bind Cells].
      rewrite list_lookup_alter_ne by congruence. reflexivity.
    + now rewrite list_lookup_alter_ne.
Qed.

Lemma alter_fixed {A} (f : A -> A) i (l : list A) x :
  l !! i = Some x -> f x = x -> alter f i l = l.
Proof.
  revert i. induction l as [|y l IH]; intros [|i]; simpl; try easy.
  - intros [= ->] ->. reflexivity.
  - intros H Hf. f_equal. now apply IH.
Qed.

Lemma runSetter_own p v b : readPath p b = Some v -> runSetter p v b = b.
Proof.
  destruct p as [q|r c]; simpl.
  - destruct b as [id p h1 h2 h3 bl nl td qu ca tg bc im vd au fl em bm lp tb sb].
    destruct q; simpl;
      repeat match goal with
             | |- context [fmap _ ?x] => is_var x; destruct x as [[]|]; simpl
             | |- context [mbind _ ?x] => is_var x; destruct x as [[]|]; simpl
             end; intros E; simplify_eq; reflexivity.
  - intros E. unfold writeCell.
    destruct b as [id p h1 h2 h3 bl nl td qu ca tg bc im vd au fl em bm lp tb sb].
    simpl in *. destruct tb as [[[rows|]]|]; simpl in *; try discriminate E.
    destruct (rows !! r) as [row|] eqn:Er; simpl in E; [|discriminate E].
    destruct (Cells row !! c) as [cell|] eqn:Ec; simpl in E; [|discriminate E].
    injection E as <-.
    rewrite (alter_fixed _ r rows row Er); [reflexivity|].
    rewrite (alter_fixed _ c (Cells row) cell Ec); [now destruct row | now destruct cell].
Qed.

Lemma cellsFrom_lookup R k cells l :
  In l (cellsFrom R k cells) ->
  exists i cell, cells !! i = Some cell
    /\ l = mkLocation (cellName R (k + i)) (Cell_RichTexts cell) (Cell R (k + i)).
Proof.
  revert k. induction cells as [|cell cells IH]; intros k; [easy|].
  rewrite cellsFrom_cons, in_app_iff. intros [H|H].
  - apply addLocation_inv in H as [-> _]. exists 0, cell.
    rewrite Nat.add_0_r. easy.
  - apply IH in H as (i & cell' & Hi & ->). exists (S i), cell'.
    replace (k + S i) with (S k + i) by lia. easy.
Qed.

Lemma rowsFrom_lookup k rows l :
  In l (rowsFrom k rows) ->
  exists i c row cell, rows !! i = Some row /\ Cells row !! c = Some cell
    /\ l = mkLocation (cellName (k + i) c) (Cell_RichTexts cell) (Cell (k + i) c).
Proof.
  revert k. induction rows as [|row rows IH]; intros k; [easy|].
  rewrite rowsFrom_cons, in_app_iff. intros [H|H].
  - apply cellsFrom_lookup in H as (c & cell & Hc & ->). exists 0, c, row, cell.
    rewrite Nat.add_0_r. easy.
  - apply IH in H as (i & c & row' & cell & Hi & Hc & ->). exists (S i), c, row', cell.
    replace (k + S i) with (S k + i) by lia. easy.
Qed.

Lemma readPath_location b l :
  In l (getAllRichTextLocations b) -> readPath (setter l) b = Some (richTexts l).
Proof.
  unfold getAllRichTextLocations. rewrite in_app_iff. intros [H|H].
  - apply in_concat in H as (ls & Hls & Hl).
    apply List.in_map_iff in Hls as (q & <- & _).
    apply scalarLocation_inv in Hl as (rts & Hr & _ & ->). exact Hr.
  - rewrite tableLocations_rowsFrom in H.
    apply rowsFrom_lookup in H as (i & c & row & cell & Hi & Hc & ->). simpl.
    destruct (Table b ≫= Rows) as [rows|]; simpl in *; [|easy].
    now rewrite Hi; simpl; rewrite Hc.
Qed.

(** X7. The setter of a location reported by [getAllRichTextLocations]
    writes where the location was read from: writing back the rich texts of
    the location changes nothing, what is written is what is then read at
    that path, every other path keeps its content, and after writing a
    non-empty array the block reports the same locations with that one
    replaced. *)
Theorem location_setter_laws (block : Block) (l : RichTextLocation) :
  In l (getAllRichTextLocations block) ->
  readPath (setter l) block = Some (richTexts l)
  /\ runSetter (setter l) (richTexts l) block = block
  /\ (forall v, readPath (setter l) (runSetter (setter l) v block) = Some v)
  /\ (forall v q, q <> setter l ->
        readPath q (runSetter (setter l) v block) = readPath q block)
  /\ (forall v, v <> [] ->
        getAllRichTextLocations (runSetter (setter l) v block)
        = List.map (relocate (setter l) v) (getAllRichTextLocations block)).
Proof.
  intros Hl. pose proof (readPath_location block l Hl) as Hr.
  split; [exact Hr|].
  split; [now apply runSetter_own|].
  split; [intros v; apply readPath_runSetter_same; now rewrite Hr|].
  split; [intros v q Hq; apply readPath_runSetter_other; congruence|].
  intros v Hv. now apply (getAll_runSetter _ _ _ l).
Qed.

Lemma location_setter_laws_witness :
  In citingLocation (getAllRichTextLocations citingBlock)
  /\ runSetter (setter citingLocation) (richTexts citingLocation) citingBlock
     = citingBlock.
Proof.
  assert (H : In citingLocation (getAllRichTextLocations citingBlock))
    by (vm_compute; left; reflexivity).
  split; [exact H|].
  exact (proj1 (proj2 (location_setter_laws citingBlock citingLocation H))).
Defined.

(** ** What a pattern match says about the text *)

Lemma stripLiteral_Some lit s r : stripLiteral lit s = Some r -> s = lit ++ r.
Proof.
  revert s. induction lit as [|l lit IH]; intros [|c s]; simpl; try easy.
  - now intros [= ->].
  - now intros [= ->].
  - destruct (N.eqb_spec l c) as [->|]; [|easy].
    intros H. apply IH in H. now subst.
Qed.

Lemma spanClass_spec cls s :
  s = fst (spanClass cls s) ++ snd (spanClass cls s)
  /\ forallb cls (fst (spanClass cls s)) = true
  /\ match snd (spanClass cls s) with
     | c :: _ => cls c = false
     | [] => True
     end.
Proof.
  induction s as [|c s IH]; simpl; [easy|].
  destruct (cls c) eqn:E.
  - destruct (spanClass cls s) as [run rest]; simpl in *.
    destruct IH as (H1 & H2 & H3). rewrite E, H2. repeat split; [|exact H3].
    now f_equal.
  - simpl. easy.
Qed.

Lemma matchToken_spec open cls close s key rest :
  matchToken open cls close s = Some (key, rest) ->
  s = open ++ key ++ close ++ rest /\ key <> [] /\ forallb cls key = true.
Proof.
  unfold matchToken.
  destruct (stripLiteral open s) as [s1|] eqn:E1; [|easy].
  apply stripLiteral_Some in E1 as ->.
  pose proof (spanClass_spec cls s1) as (H1 & H2 & _).
  destruct (spanClass cls s1) as [[|k run] s2]; [easy|]. simpl in H1, H2.
  destruct (stripLiteral close s2) as [s3|] eqn:E3; [|easy].
  apply stripLiteral_Some in E3 as ->.
  intros [= <- <-]. split; [|split; [easy | exact H2]].
  now rewrite H1 at 1.
Qed.

Lemma inlineMarkerPattern_spec markerPrefix prev s key len :
  inlineMarkerPattern markerPrefix prev s = Some (key, len) ->
  take len s = js "[^" ++ markerPrefix ++ key ++ js "]"
  /\ len = length (js "[^" ++ markerPrefix ++ key ++ js "]")
  /\ key <> [] /\ forallb isWordChar key = true
  /\ s !! len <> Some 58%N.
Proof.
  unfold inlineMarkerPattern.
  destruct (matchToken _ _ _ s) as [[k rest]|] eqn:E; [|easy].
  apply matchToken_spec in E as (Hs & Hk & Hw).
  set (F := js "[^" ++ markerPrefix ++ k ++ js "]").
  assert (Hs' : s = F ++ rest) by (rewrite Hs; subst F; now rewrite <- !app_assoc).
  clear Hs.
  assert (Hlen : length s - length rest = length F) by (rewrite Hs', length_app; lia).
  rewrite Hlen. intros H.
  assert (Hcase : rest !! 0 <> Some 58%N /\ Some (k, length F) = Some (key, len)).
  { destruct rest as [|c rest']; [easy|].
    destruct (N.eqb_spec c 58) as [->|Hc]; [easy|].
    split; [simpl; congruence|].
    destruct c as [|p]; [exact H|].
    repeat (destruct p as [p|p|]; try exact H). now contradiction Hc. }
  destruct Hcase as [Hr [= <- <-]].
  rewrite Hs'. repeat split; try easy.
  - change (take (length F) (F ++ rest) = F). now rewrite take_app_length.
  - change ((F ++ rest) !! length F <> Some 58%N).
    rewrite lookup_app_r by lia. now rewrite Nat.sub_diag.
Qed.

(** A reported match is a success of the pattern at its index. *)
Lemma execLoop_matched p prev pos skip s m :
  In m (execLoop p prev pos skip s) ->
  exists prev' len,
    p prev' (drop (index m - pos) s) = Some (match1 m, len)
    /\ match0 m = take len (drop (index m - pos) s)
    /\ pos <= index m.
Proof.
  revert prev pos skip.
  induction s as [|c s IH]; intros prev pos skip Hin; simpl in Hin; [easy|].
  assert (Htail : forall k, In m (execLoop p (Some c) (S pos) k s) ->
            exists prev' len,
              p prev' (drop (index m - pos) (c :: s)) = Some (match1 m, len)
              /\ match0 m = take len (drop (index m - pos) (c :: s))
              /\ pos <= index m).
  { intros k Hk. apply IH in Hk as (prev' & len & H1 & H2 & H3).
    exists prev', len.
    replace (index m - pos) with (S (index m - S pos)) by lia.
    repeat split; [exact H1 | exact H2 | lia]. }
  destruct skip as [|k]; [|now apply Htail in Hin].
  destruct (p prev (c :: s)) as [[key len]|] eqn:E; [|now apply Htail in Hin].
  destruct Hin as [<-|Hin]; [|now apply Htail in Hin].
  exists prev, len. simpl. rewrite Nat.sub_diag. simpl. easy.
Qed.

Lemma findRun_lookup richTexts pos cur i j c :
  findRun richTexts pos cur i = Some (j, c) ->
  exists rt, richTexts !! (j - i) = Some rt /\ i <= j.
Proof.
  intros H. apply findRun_sound in H as (pre & rt & post & -> & _ & _ & -> & _).
  exists rt. split; [|lia].
  replace (i + length pre - i) with (length pre) by lia.
  now rewrite list_lookup_middle.
Qed.

Lemma substring_take_drop (s : jsstring) a n : substring s a (a + n) = take n (drop a s).
Proof.
  unfold substring. rewrite Nat.max_r, Nat.min_l by lia. f_equal. lia.
Qed.

Lemma inline_match_located markerPrefix T r :
  In r (execAll (inlineMarkerPattern markerPrefix) T) ->
  match0 r = js "[^" ++ markerPrefix ++ match1 r ++ js "]"
  /\ match1 r <> [] /\ forallb isWordChar (match1 r) = true
  /\ index r + length (match0 r) <= length T
  /\ match0 r = take (length (match0 r)) (drop (index r) T)
  /\ T !! (index r + length (match0 r)) <> Some 58%N.
Proof.
  intros Hr.
  pose proof (execLoop_matched _ _ _ _ _ _ Hr) as (prev & len & Hp & H0 & _).
  rewrite Nat.sub_0_r in Hp, H0.
  apply inlineMarkerPattern_spec in Hp as (Ht & Hlen & Hk & Hw & Hnext).
  set (F := js "[^" ++ markerPrefix ++ match1 r ++ js "]") in *.
  assert (H0' : match0 r = F) by congruence.
  assert (Hl0 : length (match0 r) = len) by (rewrite H0'; lia).
  pose proof (f_equal length Ht) as Hl. rewrite length_take, length_drop in Hl.
  apply execAll_in_text in Hr as [Hlt _].
  rewrite lookup_drop in Hnext. rewrite Hl0.
  repeat split; try easy. lia.
Qed.

(** X8. What [findAllFootnoteMarkers] reports is really in the text (for a
    prefix without regular-expression metacharacters): each marker belongs to
    one of the given locations, its [FullMarker] is ["[^" + prefix + key +
    "]"] with a non-empty key of word characters, the text of the location
    between [CharStart] and [CharEnd] is that [FullMarker], the marker is not
    followed by a colon, and [RichTextIndex] is the index of the run that
    holds [CharStart], which is not code. *)
Theorem footnote_markers_are_located
  (locations : list RichTextLocation) (markerPrefix : jsstring) (m : FootnoteMarkerInfo) :
  regexLiteral markerPrefix = true ->
  In m (findAllFootnoteMarkers locations markerPrefix) ->
  exists location rt,
    In location locations
    /\ BlockProperty (Location m) = property location
    /\ FullMarker m = js "[^" ++ markerPrefix ++ Marker m ++ js "]"
    /\ Marker m <> [] /\ forallb isWordChar (Marker m) = true
    /\ CharEnd (Location m) = CharStart (Location m) + length (FullMarker m)
    /\ CharEnd (Location m) <= length (joinPlainText (richTexts location))
    /\ substring (joinPlainText (richTexts location))
         (CharStart (Location m)) (CharEnd (Location m)) = FullMarker m
    /\ joinPlainText (richTexts location) !! CharEnd (Location m) <> Some 58%N
    /\ richTexts location !! RichTextIndex (Location m) = Some rt
    /\ runAt (richTexts location) (CharStart (Location m)) rt
    /\ Code (Annotation_ rt) = false.
Proof.
  intros _ Hm.
  apply findAllFootnoteMarkers_inv in Hm as (location & r & Hloc & Hr & Hm).
  apply inline_match_located in Hr as (HF & Hk & Hw & Hle & Ht & Hnext).
  unfold markerOfMatch in Hm.
  destruct (findRun (richTexts location) (index r) 0 0) as [[i inCode]|] eqn:Ef; [|easy].
  destruct inCode eqn:Ec; [easy|].
  destruct Hm as [<-|[]]. simpl.
  pose proof (findRun_sound _ _ _ _ _ _ Ef) as (pre & rt & post & Hsplit & H1 & H2 & Hi & Hcode).
  exists location, rt.
  repeat split; try easy.
  - rewrite substring_take_drop. congruence.
  - rewrite Hsplit, Hi. simpl. now rewrite list_lookup_middle.
  - exists pre, post. simpl in H1, H2. repeat split; [exact Hsplit | lia | lia].
Qed.

Lemma footnote_markers_are_located_witness :
  regexLiteral (js "ft_") = true
  /\ In markerA (findAllFootnoteMarkers (getAllRichTextLocations twoMarkersBlock) (js "ft_"))
  /\ exists location rt,
       In location (getAllRichTextLocations twoMarkersBlock)
       /\ BlockProperty (Location markerA) = property location
       /\ FullMarker markerA = js "[^" ++ js "ft_" ++ Marker markerA ++ js "]"
       /\ Marker markerA <> [] /\ forallb isWordChar (Marker markerA) = true
       /\ CharEnd (Location markerA)
          = CharStart (Location markerA) + length (FullMarker markerA)
       /\ CharEnd (Location markerA) <= length (joinPlainText (richTexts location))
       /\ substring (joinPlainText (richTexts location))
            (CharStart (Location markerA)) (CharEnd (Location markerA))
          = FullMarker markerA
       /\ joinPlainText (richTexts location) !! CharEnd (Location markerA) <> Some 58%N
       /\ richTexts location !! RichTextIndex (Location markerA) = Some rt
       /\ runAt (richTexts location) (CharStart (Location markerA)) rt
       /\ Code (Annotation_ rt) = false.
Proof.
  assert (H : In markerA (findAllFootnoteMarkers (getAllRichTextLocations twoMarkersBlock)
                            (js "ft_")))
    by (vm_compute; left; reflexivity).
  split; [reflexivity|]. split; [exact H|].
  exact (footnote_markers_are_located (getAllRichTextLocations twoMarkersBlock)
           (js "ft_") markerA eq_refl H).
Defined.

(** ** The reference span of every marker *)

Lemma markerOfMatch_cases location r :
  markerOfMatch location r = []
  \/ markerOfMatch location r
     = [mkMarkerInfo (match1 r) (match0 r)
          (mkMarkerLocation (property location)
             (default 0 (fst <$> findRun (richTexts location) (index r) 0 0))
             (index r) (index r + length (match0 r)))].
Proof.
  unfold markerOfMatch.
  destruct (findRun _ _ _ _) as [[i [|]]|]; auto.
Qed.

Lemma findMarkersInLocation_inv markerPrefix location m :
  In m (findMarkersInLocation markerPrefix location) ->
  exists r, In r (execAll (inlineMarkerPattern markerPrefix)
                    (joinPlainText (richTexts location)))
    /\ Marker m = match1 r /\ FullMarker m = match0 r
    /\ BlockProperty (Location m) = property location
    /\ CharStart (Location m) = index r.
Proof.
  unfold findMarkersInLocation. intros Hm.
  apply in_concat in Hm as (ms & Hms & Hm).
  apply List.in_map_iff in Hms as (r & <- & Hr).
  exists r. split; [exact Hr|].
  destruct (markerOfMatch_cases location r) as [E|E]; rewrite E in Hm; [easy|].
  destruct Hm as [<-|[]]. easy.
Qed.

Lemma findMarkersInLocation_wf markerPrefix location m :
  In m (findMarkersInLocation markerPrefix location) ->
  BlockProperty (Location m) = property location
  /\ wfMarker (joinPlainText (richTexts location)) m.
Proof.
  intros Hm.
  apply findMarkersInLocation_inv in Hm as (r & Hr & Hk & Hf & Hp & Hs).
  apply inline_match_located in Hr as (HF & _ & _ & Hle & Ht & _).
  split; [exact Hp|]. unfold wfMarker. rewrite Hf, Hs.
  repeat split; [exact Hle | exact Ht |].
  rewrite HF. easy.
Qed.

Lemma markers_sorted location rs :
  (forall r, In r rs -> match0 r <> []) ->
  StronglySorted matchBefore rs ->
  StronglySorted (fun a b => CharStart (Location a) < CharStart (Location b)
                             /\ markerBefore a b)
    (concat (List.map (markerOfMatch location) rs)).
Proof.
  intros Hne Hs. induction Hs as [|r rs Hs IH Hall]; simpl; [constructor|].
  specialize (IH (fun r' H => Hne r' (or_intror H))).
  destruct (markerOfMatch_cases location r) as [E|E]; rewrite E; simpl; [exact IH|].
  constructor; [exact IH|].
  rewrite List.Forall_forall in *. intros m Hm.
  apply in_concat in Hm as (ms & Hms & Hm).
  apply List.in_map_iff in Hms as (r' & <- & Hr').
  destruct (markerOfMatch_cases location r') as [E'|E']; rewrite E' in Hm; [easy|].
  destruct Hm as [<-|[]]. unfold markerBefore. simpl.
  specialize (Hall r' Hr'). unfold matchBefore in Hall.
  assert (0 < length (match0 r)).
  { specialize (Hne r (or_introl eq_refl)). destruct (match0 r); [easy|simpl; lia]. }
  lia.
Qed.

Lemma findMarkersInLocation_sorted markerPrefix location :
  StronglySorted (fun a b => CharStart (Location a) < CharStart (Location b)
                             /\ markerBefore a b)
    (findMarkersInLocation markerPrefix location).
Proof.
  unfold findMarkersInLocation. apply markers_sorted; [|apply execLoop_sorted].
  intros r Hr. apply inline_match_located in Hr as (HF & _). rewrite HF. easy.
Qed.

Lemma filter_none {A} (f : A -> bool) l :
  (forall x, In x l -> f x = false) -> List.filter f l = [].
Proof.
  induction l as [|x l IH]; intros H; simpl; [reflexivity|].
  rewrite (H x (or_introl eq_refl)). apply IH. intros y Hy. apply H. now right.
Qed.

Lemma filter_all {A} (f : A -> bool) l :
  (forall x, In x l -> f x = true) -> List.filter f l = l.
Proof.
  induction l as [|x l IH]; intros H; simpl; [reflexivity|].
  rewrite (H x (or_introl eq_refl)). f_equal. apply IH. intros y Hy. apply H. now right.
Qed.

(** The markers of a block that carry the property path of one of its
    locations are the markers found in that location. *)
Lemma filter_markers_nil markerPrefix name locations :
  (forall l, In l locations -> property l <> name) ->
  List.filter (fun m => jsstring_eqb (BlockProperty (Location m)) name)
    (findAllFootnoteMarkers locations markerPrefix) = [].
Proof.
  intros Hne. apply filter_none. intros m Hm.
  apply findAllFootnoteMarkers_inv in Hm as (l & r & Hl & _ & Hm).
  destruct (markerOfMatch_cases l r) as [E|E]; rewrite E in Hm; [easy|].
  destruct Hm as [<-|[]]. simpl. unfold jsstring_eqb.
  apply bool_decide_eq_false. now apply Hne.
Qed.

Lemma filter_markers_all markerPrefix location :
  List.filter (fun m => jsstring_eqb (BlockProperty (Location m)) (property location))
    (findMarkersInLocation markerPrefix location)
  = findMarkersInLocation markerPrefix location.
Proof.
  apply filter_all. intros m Hm.
  apply findMarkersInLocation_wf in Hm as [Hp _].
  unfold jsstring_eqb. now apply bool_decide_eq_true.
Qed.

Lemma markers_of_location markerPrefix locations l :
  NoDup (List.map property locations) -> In l locations ->
  List.filter (fun m => jsstring_eqb (BlockProperty (Location m)) (property l))
    (findAllFootnoteMarkers locations markerPrefix)
  = findMarkersInLocation markerPrefix l.
Proof.
  induction locations as [|l0 ls IH]; [easy|].
  intros Hnd Hl. apply NoDup_cons in Hnd as [Hnot Hnd].
  change (findAllFootnoteMarkers (l0 :: ls) markerPrefix)
    with (findMarkersInLocation markerPrefix l0 ++ findAllFootnoteMarkers ls markerPrefix).
  rewrite List.filter_app.
  destruct Hl as [->|Hl].
  - rewrite filter_markers_all, filter_markers_nil; [now rewrite app_nil_r|].
    intros l' Hl' E. apply Hnot. apply list_elem_of_In, List.in_map_iff. eauto.
  - rewrite IH by assumption.
    assert (Hne : property l0 <> property l).
    { intros E. apply Hnot. apply list_elem_of_In, List.in_map_iff. eauto. }
    assert (Hnil : List.filter
                     (fun m => jsstring_eqb (BlockProperty (Location m)) (property l))
                     (findMarkersInLocation markerPrefix l0) = []).
    { apply filter_none. intros m Hm.
      apply findMarkersInLocation_wf in Hm as [Hp _].
      unfold jsstring_eqb. apply bool_decide_eq_false. congruence. }
    now rewrite Hnil.
Qed.

(** Sorting a left-to-right list of markers by descending start reverses it. *)
Lemma sortInsert_last {A} (cmp : A -> A -> Z) x l :
  (forall y, In y l -> (0 < cmp x y)%Z) -> sortInsert cmp x l = l ++ [x].
Proof.
  induction l as [|y l IH]; intros H; simpl; [reflexivity|].
  destruct (Z.leb_spec (cmp x y) 0) as [Hle|Hgt].
  - specialize (H y (or_introl eq_refl)). lia.
  - f_equal. apply IH. intros z Hz. apply H. now right.
Qed.

Lemma Array_sort_descending ms :
  StronglySorted (fun a b => CharStart (Location a) < CharStart (Location b)
                             /\ markerBefore a b) ms ->
  Array_sort (fun a b => Z.of_nat (CharStart (Location b))
                         - Z.of_nat (CharStart (Location a)))%Z ms
  = rev ms.
Proof.
  induction 1 as [|m ms Hs IH Hall]; [reflexivity|].
  simpl. rewrite IH. apply sortInsert_last.
  rewrite List.Forall_forall in Hall. intros y Hy. apply List.in_rev in Hy.
  destruct (Hall y Hy). lia.
Qed.

(** ** One iteration of the right-to-left marker loop *)

Lemma splitAtMarker_eq result marker :
  splitAtMarker result marker
  = fst (splitRichTextsAtCharPosition result (CharStart (Location marker)))
    ++ updateFirst (setFootnoteMarker (Marker marker))
         (fst (splitRichTextsAtCharPosition
                 (snd (splitRichTextsAtCharPosition result (CharStart (Location marker))))
                 (length (FullMarker marker))))
    ++ snd (splitRichTextsAtCharPosition
              (snd (splitRichTextsAtCharPosition result (CharStart (Location marker))))
              (length (FullMarker marker))).
Proof.
  unfold splitAtMarker.
  destruct (splitRichTextsAtCharPosition result _) as [before after]. simpl.
  now destruct (splitRichTextsAtCharPosition after _).
Qed.

Lemma wfMarker_join T T' m : T = T' -> wfMarker T m -> wfMarker T' m.
Proof. now intros ->. Qed.

Lemma splitAtMarker_places rts m :
  wfMarker (joinPlainText rts) m -> flaggedAt (splitAtMarker rts m) m.
Proof.
  intros (Hle & Hm & Hne). rewrite splitAtMarker_eq.
  set (before := fst (splitRichTextsAtCharPosition rts (CharStart (Location m)))).
  set (after := snd (splitRichTextsAtCharPosition rts (CharStart (Location m)))).
  set (markerPart := fst (splitRichTextsAtCharPosition after (length (FullMarker m)))).
  set (afterMarker := snd (splitRichTextsAtCharPosition after (length (FullMarker m)))).
  assert (Hmp : joinPlainText markerPart = FullMarker m).
  { subst markerPart after. now rewrite split_join_take, split_join_drop, <- Hm. }
  destruct markerPart as [|p rest] eqn:E.
  { change (joinPlainText []) with (@nil N) in Hmp. congruence. }
  exists before, (setFootnoteMarker (Marker m) p), (rest ++ afterMarker).
  split; [reflexivity|].
  split; [subst before; apply split_length_take; lia|].
  repeat split. exists (joinPlainText rest). now rewrite <- Hmp.
Qed.

Lemma splitAtMarker_keeps rts m m0 :
  wfMarker (joinPlainText rts) m -> markerBefore m m0 ->
  flaggedAt rts m0 -> flaggedAt (splitAtMarker rts m) m0.
Proof.
  intros (Hle & Hm & Hne) Hlt (pre & s & post & -> & Hpre & Hflag).
  unfold markerBefore in Hlt.
  rewrite splitAtMarker_eq.
  rewrite (split_app_left pre) by lia. simpl fst. simpl snd.
  rewrite split_app_left by (rewrite split_join_drop, length_drop; lia).
  simpl fst. simpl snd.
  set (B := fst (splitRichTextsAtCharPosition pre (CharStart (Location m)))).
  set (M := updateFirst (setFootnoteMarker (Marker m))
              (fst (splitRichTextsAtCharPosition
                      (snd (splitRichTextsAtCharPosition pre (CharStart (Location m))))
                      (length (FullMarker m))))).
  set (A := snd (splitRichTextsAtCharPosition
                   (snd (splitRichTextsAtCharPosition pre (CharStart (Location m))))
                   (length (FullMarker m)))).
  exists (B ++ M ++ A), s, post. split; [now rewrite <- !app_assoc|].
  split; [|exact Hflag].
  subst A B M.
  rewrite !joinPlainText_app, joinPlainText_updateFirst_flag, !length_app,
    !split_join_take, !split_join_drop, !length_take, !length_drop.
  lia.
Qed.

Lemma splitLoop_nonempty l k pos s :
  (forall o, In o l -> PlainText o <> []) ->
  In s (fst (splitLoop l k pos)) \/ In s (snd (splitLoop l k pos)) ->
  PlainText s <> [].
Proof.
  revert pos. induction l as [|rt l IH]; intros pos Hne; simpl; [now intros [[]|[]]|].
  specialize (IH (pos + length (PlainText rt)) (fun o H => Hne o (or_intror H))).
  destruct (splitLoop l k (pos + length (PlainText rt))) as [b a]. simpl in IH.
  pose proof (Hne rt (or_introl eq_refl)) as Hrt.
  destruct (Nat.leb_spec k pos) as [Hk|Hk]; simpl.
  { intros [H|[<-|H]]; auto. }
  destruct (Nat.leb_spec (pos + length (PlainText rt)) k) as [Hk'|Hk']; simpl.
  { intros [[<-|H]|H]; auto. }
  assert (Hb : PlainText (pieceOf rt (substring (PlainText rt) 0 (k - pos))) <> []).
  { rewrite PlainText_pieceOf, substring_0. intros E.
    apply (f_equal length) in E. rewrite length_take in E. simpl in E. lia. }
  assert (Ha : PlainText (pieceOf rt (substringFrom (PlainText rt) (k - pos))) <> []).
  { rewrite PlainText_pieceOf. unfold substringFrom. intros E.
    apply (f_equal length) in E. rewrite length_drop in E. simpl in E. lia. }
  destruct (0 <? k - pos), (k - pos <? length (PlainText rt)); simpl;
    intros H; repeat (destruct H as [H|H]; try subst s); auto.
Qed.

Lemma splitAtMarker_nonempty rts m s :
  (forall o, In o rts -> PlainText o <> []) ->
  In s (splitAtMarker rts m) -> PlainText s <> [].
Proof.
  intros Hne. rewrite splitAtMarker_eq.
  assert (H1 : forall x,
            In x (fst (splitRichTextsAtCharPosition rts (CharStart (Location m))))
            \/ In x (snd (splitRichTextsAtCharPosition rts (CharStart (Location m)))) ->
            PlainText x <> []).
  { intros x. apply splitLoop_nonempty, Hne. }
  assert (H2 : forall x,
            In x (fst (splitRichTextsAtCharPosition
                         (snd (splitRichTextsAtCharPosition rts (CharStart (Location m))))
                         (length (FullMarker m))))
            \/ In x (snd (splitRichTextsAtCharPosition
                            (snd (splitRichTextsAtCharPosition rts
                                    (CharStart (Location m))))
                            (length (FullMarker m)))) ->
            PlainText x <> []).
  { intros x. apply splitLoop_nonempty. intros o Ho. apply H1. now right. }
  rewrite !in_app_iff. intros [H|[H|H]].
  - apply H1. now left.
  - apply updateFirst_In in H as (o & Ho & [->| ->]); [|simpl]; apply H2; now left.
  - apply H2. now right.
Qed.

Lemma fold_splitAtMarker_nonempty ms rts s :
  (forall o, In o rts -> PlainText o <> []) ->
  In s (fold_left splitAtMarker ms rts) -> PlainText s <> [].
Proof.
  revert rts. induction ms as [|m ms IH]; intros rts Hne; simpl; [apply Hne|].
  apply IH. intros o. now apply splitAtMarker_nonempty.
Qed.

(** Invariant of the right-to-left loop. *)
Lemma fold_splitAtMarker_inv ms rts :
  (forall m, In m ms -> wfMarker (joinPlainText rts) m) ->
  StronglySorted (fun a b => markerBefore b a) ms ->
  let out := fold_left splitAtMarker ms rts in
  (forall m, In m ms -> flaggedAt out m)
  /\ (forall m0, flaggedAt rts m0 ->
        (forall m, In m ms -> markerBefore m m0) -> flaggedAt out m0).
Proof.
  revert rts. induction ms as [|m ms IH]; intros rts Hwf Hs; cbn [fold_left]; cbv zeta.
  - split; [easy|]. intros m0 H _. exact H.
  - inversion Hs as [|? ? Hs' Hall]; subst.
    rewrite List.Forall_forall in Hall.
    destruct (IH (splitAtMarker rts m)) as (I2 & I3); [|exact Hs'|].
    { intros m' Hm'. eapply wfMarker_join; [|apply Hwf; now right].
      symmetry. apply splitAtMarker_join. }
    split.
    + intros m' [<-|Hm']; [|now apply I2].
      apply I3; [|intros m' Hm'; now apply Hall].
      apply splitAtMarker_places, Hwf. now left.
    + intros m0 Hp Hb. apply I3; [|intros m' Hm'; apply Hb; now right].
      apply splitAtMarker_keeps; [apply Hwf; now left | apply Hb; now left | easy].
Qed.

Lemma StronglySorted_weaken {A} (R Q : A -> A -> Prop) l :
  (forall a b, R a b -> Q a b) -> StronglySorted R l -> StronglySorted Q l.
Proof.
  intros HRQ. induction 1 as [|x l Hs IH Hf]; constructor; [exact IH|].
  rewrite List.Forall_forall in *. intros y Hy. now apply HRQ, Hf.
Qed.

(** X9. After [splitRichTextWithMarkers] over all the markers of a block,
    each marker of the location has its reference span: a span that begins at
    the marker's [CharStart], is flagged [IsFootnoteMarker] with [FootnoteRef]
    the marker's key, and holds the beginning of the marker text. When the
    location has no empty span, the reference span is not empty. (The prefix
    is taken without regular-expression metacharacters.) *)
Theorem inline_markers_are_flagged
  (block : Block) (markerPrefix : jsstring) (l : RichTextLocation) (m : FootnoteMarkerInfo) :
  regexLiteral markerPrefix = true ->
  In l (getAllRichTextLocations block) ->
  In m (findAllFootnoteMarkers (getAllRichTextLocations block) markerPrefix) ->
  BlockProperty (Location m) = property l ->
  exists pre s post,
    splitRichTextWithMarkers l
      (findAllFootnoteMarkers (getAllRichTextLocations block) markerPrefix)
    = pre ++ s :: post
    /\ length (joinPlainText pre) = CharStart (Location m)
    /\ IsFootnoteMarker s = Some true
    /\ FootnoteRef s = Some (Marker m)
    /\ (exists rest, FullMarker m = PlainText s ++ rest)
    /\ ((forall o, In o (richTexts l) -> PlainText o <> []) -> PlainText s <> []).
Proof.
  intros _ Hl Hm Hp.
  pose proof (location_properties_NoDup block) as Hnd.
  assert (Hml : In m (findMarkersInLocation markerPrefix l)).
  { rewrite <- (markers_of_location markerPrefix _ l Hnd Hl).
    apply List.filter_In. split; [exact Hm|].
    unfold jsstring_eqb. now apply bool_decide_eq_true. }
  rewrite splitRichTextWithMarkers_fold, (markers_of_location _ _ _ Hnd Hl),
    (Array_sort_descending _ (findMarkersInLocation_sorted markerPrefix l)).
  destruct (fold_splitAtMarker_inv (rev (findMarkersInLocation markerPrefix l))
              (richTexts l)) as [Hflag _].
  - intros m' Hm'. apply List.in_rev in Hm'.
    now apply findMarkersInLocation_wf in Hm' as [_ Hwf].
  - apply StronglySorted_rev.
    eapply StronglySorted_weaken; [|apply findMarkersInLocation_sorted].
    now intros a b [_ H].
  - destruct (Hflag m) as (pre & s & post & E & Hpre & Hf & Hr & Hrest).
    { now apply List.in_rev in Hml. }
    exists pre, s, post. repeat split; try assumption.
    intros Hne.
    apply (fold_splitAtMarker_nonempty (rev (findMarkersInLocation markerPrefix l))
             (richTexts l) s Hne).
    rewrite E. apply in_app_iff. right. now left.
Qed.

Lemma inline_markers_are_flagged_witness :
  regexLiteral (js "ft_") = true
  /\ In twoMarkersLocation (getAllRichTextLocations twoMarkersBlock)
  /\ In markerA (findAllFootnoteMarkers (getAllRichTextLocations twoMarkersBlock) (js "ft_"))
  /\ BlockProperty (Location markerA) = property twoMarkersLocation
  /\ exists pre s post,
       splitRichTextWithMarkers twoMarkersLocation
         (findAllFootnoteMarkers (getAllRichTextLocations twoMarkersBlock) (js "ft_"))
       = pre ++ s :: post
       /\ length (joinPlainText pre) = CharStart (Location markerA)
       /\ IsFootnoteMarker s = Some true
       /\ FootnoteRef s = Some (Marker markerA)
       /\ (exists rest, FullMarker markerA = PlainText s ++ rest)
       /\ ((forall o, In o (richTexts twoMarkersLocation) -> PlainText o <> []) ->
           PlainText s <> []).
Proof.
  assert (Hl : In twoMarkersLocation (getAllRichTextLocations twoMarkersBlock))
    by (vm_compute; left; reflexivity).
  assert (Hm : In markerA (findAllFootnoteMarkers (getAllRichTextLocations twoMarkersBlock)
                             (js "ft_")))
    by (vm_compute; left; reflexivity).
  split; [reflexivity|]. split; [exact Hl|]. split; [exact Hm|]. split; [reflexivity|].
  exact (inline_markers_are_flagged twoMarkersBlock (js "ft_") twoMarkersLocation markerA
           eq_refl Hl Hm eq_refl).
Defined.

(** ** Footnote definitions in the text *)

Lemma startsWith_app needle a b :
  startsWith needle a = true -> startsWith needle (a ++ b) = true.
Proof.
  revert a. induction needle as [|n needle IH]; intros [|c a]; simpl; try easy.
  intros H. apply andb_prop in H as [H1 H2]. rewrite H1. simpl. now apply IH.
Qed.

Lemma indexOfFrom_Some needle hay pos i :
  indexOfFrom needle hay pos = Some i ->
  pos <= i
  /\ startsWith needle (drop (i - pos) hay) = true
  /\ forall j, j < i - pos -> startsWith needle (drop j hay) = false.
Proof.
  revert pos. induction hay as [|c hay IH]; intros pos; simpl.
  - destruct (startsWith needle []) eqn:E; [|easy].
    intros [= <-]. rewrite Nat.sub_diag. repeat split; [lia | exact E | lia].
  - destruct (startsWith needle (c :: hay)) eqn:E.
    + intros [= <-]. rewrite Nat.sub_diag. repeat split; [lia | exact E | lia].
    + intros H. apply IH in H as (H1 & H2 & H3).
      replace (i - pos) with (S (i - S pos)) by lia. simpl.
      repeat split; [lia | exact H2 |].
      intros [|j] Hj; [exact E|]. simpl. apply H3. lia.
Qed.

Lemma indexOfFrom_None_iff needle hay pos :
  indexOfFrom needle hay pos = None <->
  forall j, startsWith needle (drop j hay) = false.
Proof.
  revert pos. induction hay as [|c hay IH]; intros pos; simpl.
  - destruct (startsWith needle []) eqn:E.
    + split; [easy|]. intros H. specialize (H 0). simpl in H. congruence.
    + split; [|easy]. intros _ j. now rewrite drop_nil.
  - destruct (startsWith needle (c :: hay)) eqn:E.
    + split; [easy|]. intros H. specialize (H 0). simpl in H. congruence.
    + rewrite IH. split.
      * intros H [|j]; [exact E | apply H].
      * intros H j. apply (H (S j)).
Qed.

Lemma indexOfFrom_take needle hay i :
  needle <> [] ->
  indexOfFrom needle hay 0 = Some i ->
  indexOfFrom needle (take i hay) 0 = None.
Proof.
  intros Hne H. apply indexOfFrom_Some in H as (_ & _ & Hfirst).
  rewrite Nat.sub_0_r in Hfirst.
  apply indexOfFrom_None_iff. intros j.
  destruct (Nat.lt_ge_cases j i) as [Hj|Hj].
  - destruct (startsWith needle (drop j (take i hay))) eqn:E; [|reflexivity].
    rewrite <- (Hfirst j Hj), <- (drop_take_drop hay j i) by lia.
    symmetry. now apply startsWith_app.
  - rewrite drop_ge by (rewrite length_take; lia). now destruct needle.
Qed.

Lemma firstDefinitionIndex_take T i :
  firstDefinitionIndex T = Some i -> firstDefinitionIndex (take i T) = None.
Proof. apply indexOfFrom_take. easy. Qed.

Lemma extractFootnoteDefinitions_uncached richTexts markerPrefix :
  extractFootnoteDefinitionsFromRichText richTexts markerPrefix None
  = extractFootnoteDefinitionsFromRichText richTexts markerPrefix
      (Some (joinPlainText richTexts)).
Proof.
  unfold extractFootnoteDefinitionsFromRichText.
  now destruct (joinPlainText richTexts).
Qed.

(** X10. [extractFootnoteDefinitionsFromRichText] cuts the text at the
    first blank line followed by ["[^"]: the cleaned rich texts hold exactly
    the text before it and no such delimiter is left in them; without a
    delimiter the input is returned as it is, with no definition. Passing
    the joined text as the cached text gives what passing none gives, and
    the cleaned spans keep the formatting of the input spans. (The prefix is
    taken without regular-expression metacharacters.) *)
Theorem cleaned_text_ends_before_first_definition
  (richTexts : list RichText) (markerPrefix : jsstring) :
  regexLiteral markerPrefix = true ->
  let T := joinPlainText richTexts in
  let result := extractFootnoteDefinitionsFromRichText richTexts markerPrefix (Some T) in
  extractFootnoteDefinitionsFromRichText richTexts markerPrefix None = result
  /\ firstDefinitionIndex (joinPlainText (fst result)) = None
  /\ match firstDefinitionIndex T with
     | None => result = (richTexts, [])
     | Some i =>
         joinPlainText (fst result) = take i T
         /\ startsWith definitionsDelimiter (drop i T) = true
         /\ (forall j, j < i -> startsWith definitionsDelimiter (drop j T) = false)
     end
  /\ (forall s, In s (fst result) -> exists o, In o richTexts /\ sameFormatting o s).
Proof.
  intros _. cbv zeta. split; [apply extractFootnoteDefinitions_uncached|].
  rewrite extractFootnoteDefinitions_cached.
  destruct (firstDefinitionIndex (joinPlainText richTexts)) as [i|] eqn:E.
  - cbn [fst]. rewrite split_join_take.
    split; [now apply firstDefinitionIndex_take|].
    split.
    + apply indexOfFrom_Some in E as (_ & H2 & H3). rewrite Nat.sub_0_r in H2, H3.
      split; [reflexivity|]. split; [exact H2 | exact H3].
    + intros s Hs.
      destruct (split_fragments richTexts i s (or_introl Hs)) as (o & Ho & Hf).
      exists o. split; [exact Ho | now apply fragmentOf_sameFormatting].
  - cbn [fst]. split; [exact E|]. split; [reflexivity|].
    intros s Hs. exists s. split; [exact Hs | apply sameFormatting_refl].
Qed.

Lemma cleaned_text_ends_before_first_definition_witness :
  let richTexts := [textSpan boldAnnotation endOfBlockText] in
  regexLiteral (js "ft_") = true
  /\ firstDefinitionIndex
       (joinPlainText
          (fst (extractFootnoteDefinitionsFromRichText richTexts (js "ft_")
                  (Some (joinPlainText richTexts))))) = None.
Proof.
  cbv zeta. split; [reflexivity|].
  exact (proj1 (proj2 (cleaned_text_ends_before_first_definition
                         [textSpan boldAnnotation endOfBlockText] (js "ft_") eq_refl))).
Defined.

(** ** The definitions map *)

Lemma mapSet_keys {V} k (v : V) m k' :
  In k' (List.map fst (mapSet k v m)) <-> k' = k \/ In k' (List.map fst m).
Proof.
  induction m as [|[k0 v0] m IH]; simpl.
  - split; [intros [<-|[]]; now left | intros [->|[]]; now left].
  - unfold jsstring_eqb. case_bool_decide as E; simpl.
    + subst k0. intuition congruence.
    + rewrite IH. intuition congruence.
Qed.

Lemma mapSet_NoDup {V} k (v : V) m :
  NoDup (List.map fst m) -> NoDup (List.map fst (mapSet k v m)).
Proof.
  induction m as [|[k0 v0] m IH]; simpl; intros H.
  - apply NoDup_singleton.
  - apply NoDup_cons in H as [Hnot Hnd].
    unfold jsstring_eqb. case_bool_decide as E; simpl.
    + subst k0. apply NoDup_cons. easy.
    + apply NoDup_cons. split; [|now apply IH].
      rewrite list_elem_of_In, mapSet_keys. rewrite list_elem_of_In in Hnot.
      intros [->|H]; easy.
Qed.

Lemma setEnds_inv ms n d :
  In d (setEnds ms n) ->
  exists r, In r ms /\ def_marker d = match1 r
            /\ def_start d = index r + length (match0 r).
Proof.
  induction ms as [|m ms IH]; simpl; [easy|].
  intros [<-|H].
  - exists m. simpl. auto.
  - apply IH in H as (r & Hr & H). exists r. auto.
Qed.

Lemma startsWith_self_app a b : startsWith a (a ++ b) = true.
Proof. induction a as [|c a IH]; simpl; [reflexivity|]. now rewrite N.eqb_refl, IH. Qed.

Lemma definitionPattern_key markerPrefix prev s key len :
  definitionPattern markerPrefix prev s = Some (key, len) ->
  key <> [] /\ forallb isWordChar key = true
  /\ startsWith (definitionsDelimiter ++ markerPrefix ++ key ++ js "]:") s = true.
Proof.
  unfold definitionPattern.
  destruct (matchToken _ _ _ s) as [[k rest]|] eqn:E; [|easy].
  apply matchToken_spec in E as (-> & Hk & Hw). intros [= <- <-].
  repeat split; try easy.
  replace ((10%N :: 10%N :: js "[^" ++ markerPrefix) ++ k ++ js "]:" ++ rest)
    with ((definitionsDelimiter ++ markerPrefix ++ k ++ js "]:") ++ rest).
  - apply startsWith_self_app.
  - unfold definitionsDelimiter. now rewrite <- !app_assoc.
Qed.

Lemma definition_match_key markerPrefix T r :
  In r (execAll (definitionPattern markerPrefix) T) ->
  match1 r <> [] /\ forallb isWordChar (match1 r) = true
  /\ startsWith (definitionsDelimiter ++ markerPrefix ++ match1 r ++ js "]:")
       (drop (index r) T) = true.
Proof.
  intros Hr.
  pose proof (execLoop_matched _ _ _ _ _ _ Hr) as (prev & len & Hp & _ & _).
  rewrite Nat.sub_0_r in Hp. now apply definitionPattern_key in Hp.
Qed.

(** X11. The definitions returned by
    [extractFootnoteDefinitionsFromRichText] have pairwise distinct keys (a
    repeated key keeps one entry); each key is a non-empty string of word
    characters and each content is non-empty, also after trimming, with the
    formatting of the input spans. (The prefix is taken without
    regular-expression metacharacters.) *)
Theorem footnote_definitions_are_keyed
  (richTexts : list RichText) (markerPrefix : jsstring) (cached : option jsstring) :
  regexLiteral markerPrefix = true ->
  let defs := snd (extractFootnoteDefinitionsFromRichText richTexts markerPrefix cached) in
  NoDup (List.map fst defs)
  /\ (forall k c, In (k, c) defs ->
        k <> [] /\ forallb isWordChar k = true
        /\ c <> [] /\ trim (joinPlainText c) <> []
        /\ (forall s, In s c -> exists o, In o richTexts /\ sameFormatting o s)).
Proof.
  intros _. cbv zeta. unfold extractFootnoteDefinitionsFromRichText.
  destruct (firstDefinitionIndex _) as [splitPoint|]; [|split; [constructor | easy]].
  pose proof (split_fragments richTexts splitPoint) as Hfr.
  destruct (splitRichTextsAtCharPosition richTexts splitPoint) as [main section].
  cbn [snd fst] in *.
  unfold parseFootnoteDefinitionsFromRichText.
  set (text := substringFrom _ splitPoint).
  set (step := fun definitions m => _).
  set (ok := fun (k : jsstring) (c : list RichText) =>
               k <> [] /\ forallb isWordChar k = true
               /\ c <> [] /\ trim (joinPlainText c) <> []
               /\ (forall s, In s c -> exists o, In o richTexts /\ sameFormatting o s)).
  assert (Hfold : forall ms acc,
            (forall d, In d ms ->
               def_marker d <> [] /\ forallb isWordChar (def_marker d) = true) ->
            NoDup (List.map fst acc) -> (forall k c, In (k, c) acc -> ok k c) ->
            NoDup (List.map fst (fold_left step ms acc))
            /\ (forall k c, In (k, c) (fold_left step ms acc) -> ok k c)).
  { induction ms as [|d ms IH]; intros acc Hms Hnd Hacc; cbn [fold_left]; [easy|].
    apply IH; [intros d' Hd'; apply Hms; now right | |]; subst step; cbv beta zeta.
    - destruct (_ || _); [exact Hnd | now apply mapSet_NoDup].
    - destruct (Nat.eqb_spec
                  (length (extractRichTextRange section (def_start d) (def_end d))) 0)
        as [Hl|Hl]; cbn [orb]; [exact Hacc|].
      unfold jsstring_eqb. case_bool_decide as Ht; [exact Hacc|].
      intros k c Hin. apply mapSet_In in Hin as [[= -> ->]|Hin]; [|now apply Hacc].
      destruct (Hms d (or_introl eq_refl)) as [Hk Hw].
      repeat split; try assumption.
      + intros E. now rewrite E in Hl.
      + intros s Hs. apply extractRichTextRange_formatting in Hs as (o & Ho & Hf).
        destruct (Hfr o (or_intror Ho)) as (o' & Ho' & Hf').
        exists o'. split; [exact Ho'|].
        eapply sameFormatting_trans; [apply fragmentOf_sameFormatting|]; eassumption. }
  apply Hfold; [|constructor|easy].
  intros d Hd. apply setEnds_inv in Hd as (r & Hr & -> & _).
  apply definition_match_key in Hr as (Hk & Hw & _). easy.
Qed.

Lemma footnote_definitions_are_keyed_witness :
  regexLiteral (js "ft_") = true
  /\ NoDup (List.map fst
              (snd (extractFootnoteDefinitionsFromRichText
                      [textSpan boldAnnotation endOfBlockText] (js "ft_") None))).
Proof.
  split; [reflexivity|].
  exact (proj1 (footnote_definitions_are_keyed [textSpan boldAnnotation endOfBlockText]
                  (js "ft_") None eq_refl)).
Defined.

(** ** The child scan of start-of-child-blocks extraction *)

Lemma scanChild_projections markerPrefix st child :
  scannedChildren (scanChild markerPrefix st child)
  = scannedChildren st ++ [strippedChild markerPrefix child]
  /\ scanFootnotes (scanChild markerPrefix st child)
     = scanFootnotes st ++ footnoteOfChild markerPrefix child
  /\ remainingChildren (scanChild markerPrefix st child)
     = remainingChildren st
       ++ (if isDefinitionChild markerPrefix child then [] else [child]).
Proof.
  unfold scanChild, strippedChild, footnoteOfChild, isDefinitionChild, strippedChild,
    definitionOfChild.
  destruct (getAllRichTextLocations child) as [|location0 rest]; simpl.
  - now rewrite app_nil_r.
  - destruct (fst (exec _ _ 0)) as [m|]; simpl; now rewrite ?app_nil_r.
Qed.

Lemma scan_fold markerPrefix children st :
  scannedChildren (fold_left (scanChild markerPrefix) children st)
  = scannedChildren st ++ List.map (strippedChild markerPrefix) children
  /\ scanFootnotes (fold_left (scanChild markerPrefix) children st)
     = scanFootnotes st ++ List.flat_map (footnoteOfChild markerPrefix) children
  /\ remainingChildren (fold_left (scanChild markerPrefix) children st)
     = remainingChildren st
       ++ List.filter (fun c => negb (isDefinitionChild markerPrefix c)) children.
Proof.
  revert st. induction children as [|child children IH]; intros st; simpl.
  - now rewrite !app_nil_r.
  - destruct (IH (scanChild markerPrefix st child)) as (-> & -> & ->).
    destruct (scanChild_projections markerPrefix st child) as (-> & -> & ->).
    rewrite <- !app_assoc.
    now destruct (isDefinitionChild markerPrefix child).
Qed.

Lemma getChildren_runSetter p v b :
  getChildrenFromBlock (runSetter p v b) = getChildrenFromBlock b.
Proof.
  destruct b as [id pa h1 h2 h3 bl nl td qu ca tg bc im vd au fl em bm lp tb sb].
  destruct p as [q|r c]; [|reflexivity].
  destruct q; simpl;
    repeat match goal with
           | |- context [setRichTexts _ ?x] => is_var x; destruct x as [[]|]; simpl
           end; reflexivity.
Qed.

Lemma getChildren_fold_setters (g : RichTextLocation -> list RichText) locs b :
  getChildrenFromBlock (fold_left (fun b l => runSetter (setter l) (g l) b) locs b)
  = getChildrenFromBlock b.
Proof.
  revert b. induction locs as [|l locs IH]; intros b; simpl; [reflexivity|].
  now rewrite IH, getChildren_runSetter.
Qed.

Lemma getChildren_setChildren block children old :
  getChildrenFromBlock block = Some old ->
  getChildrenFromBlock (setChildrenInBlock block children) = Some children.
Proof.
  destruct block as [id p h1 h2 h3 bl nl td q c tg bc im vd au fl em bm lp tb sb].
  unfold setChildrenInBlock, getChildrenFromBlock; simpl.
  destruct p as [?|]; [reflexivity|].
  destruct h1 as [?|]; [reflexivity|].
  destruct h2 as [?|]; [reflexivity|].
  destruct h3 as [?|]; [reflexivity|].
  destruct q as [?|]; [reflexivity|].
  destruct c as [?|]; [reflexivity|].
  destruct tg as [?|]; [reflexivity|].
  destruct bl as [?|]; [reflexivity|].
  destruct nl as [?|]; [reflexivity|].
  destruct td as [?|]; [reflexivity|].
  destruct sb as [?|]; [reflexivity|]. easy.
Qed.

(** X12. With at least one inline marker, [extractStartOfChildBlocksFootnotes]
    scans every child, not only the first [markerCount]: each child whose
    first location has a definition prefix becomes one footnote, in order.
    The children left are the non-definition children followed, when there
    are more children than markers, by all children from index [markerCount]
    on, so a child past that index is listed a second time, or is listed
    although it became a footnote. (The prefix is taken without
    regular-expression metacharacters.) *)
Theorem start_of_child_blocks_scans_every_child
  (block : Block) (config : FootnotesConfig) (children : list Block) :
  let markerPrefix := marker_prefix config in
  let markerCount :=
    length (findAllFootnoteMarkers (getAllRichTextLocations block) markerPrefix) in
  regexLiteral markerPrefix = true ->
  0 < markerCount ->
  getChildrenFromBlock block = Some children ->
  let result := extractStartOfChildBlocksFootnotes block config in
  footnotes (snd result) = List.flat_map (footnoteOfChild markerPrefix) children
  /\ getChildrenFromBlock (fst result)
     = Some (List.filter (fun c => negb (isDefinitionChild markerPrefix c)) children
             ++ (if markerCount <? length children
                 then drop markerCount (List.map (strippedChild markerPrefix) children)
                 else []))
  /\ hasProcessedRichTexts (snd result) = true
  /\ hasProcessedChildren (snd result) = true.
Proof.
  cbv zeta. intros _ Hn Hc. unfold extractStartOfChildBlocksFootnotes.
  set (markers := findAllFootnoteMarkers _ _) in *.
  destruct (Nat.eqb_spec (length markers) 0) as [E|_]; [lia|].
  rewrite Hc. cbn [fst snd footnotes hasProcessedRichTexts hasProcessedChildren].
  rewrite (take_ge children) by lia.
  destruct (scan_fold (marker_prefix config) children (mkChildScan [] [] [] []))
    as (Hs & Hf & Hr).
  cbn [scannedChildren scanFootnotes remainingChildren app] in Hs, Hf, Hr.
  rewrite Hf, Hr, Hs. split; [reflexivity|]. split; [|easy].
  rewrite getChildren_fold_setters.
  rewrite (getChildren_setChildren _ _ children Hc).
  rewrite drop_all, app_nil_r.
  destruct (length markers <? length children); [reflexivity|].
  now rewrite app_nil_r.
Qed.

Lemma start_of_child_blocks_scans_every_child_witness :
  let config := footnotesConfig start_of_child_blocks in
  regexLiteral (marker_prefix config) = true
  /\ 0 < length (findAllFootnoteMarkers (getAllRichTextLocations twoMarkersBlock)
                (marker_prefix config))
  /\ getChildrenFromBlock twoMarkersBlock = Some [noteChildA; plainChild; noteChildB]
  /\ footnotes (snd (extractStartOfChildBlocksFootnotes twoMarkersBlock config))
     = List.flat_map (footnoteOfChild (marker_prefix config))
         [noteChildA; plainChild; noteChildB].
Proof.
  cbv zeta.
  assert (H : 0 < length (findAllFootnoteMarkers (getAllRichTextLocations twoMarkersBlock)
                            (marker_prefix (footnotesConfig start_of_child_blocks))))
    by (vm_compute; lia).
  split; [reflexivity|]. split; [exact H|]. split; [reflexivity|].
  exact (proj1 (start_of_child_blocks_scans_every_child twoMarkersBlock
                  (footnotesConfig start_of_child_blocks)
                  [noteChildA; plainChild; noteChildB] eq_refl H eq_refl)).
Defined.

(** ** Text and requests of the extraction strategies *)

Lemma whenReturns_bind {A B} (P : B -> Prop) (m : Eff A) (f : A -> Eff B) :
  (forall a, whenReturns P (f a)) -> whenReturns P (bind m f).
Proof. intros H. induction m; simpl; auto. Qed.

Lemma always_catch {A} (P : A -> Prop) (m : Eff A) h :
  whenReturns P m -> (forall e, always P (h e)) -> always P (catch m h).
Proof. intros Hm Hh. induction m; simpl in *; auto. Qed.

Lemma always_weaken {A} (P Q : A -> Prop) (m : Eff A) :
  (forall a, P a -> Q a) -> always P m -> always Q m.
Proof. intros H. induction m; simpl; auto. Qed.

Lemma whenReturns_bind_strong {A B} (Q : A -> Prop) (P : B -> Prop) (m : Eff A)
  (f : A -> Eff B) :
  whenReturns Q m -> (forall a, Q a -> whenReturns P (f a)) -> whenReturns P (bind m f).
Proof. intros Hm H. induction m; simpl in *; auto. Qed.

Lemma location_nonempty b l : In l (getAllRichTextLocations b) -> richTexts l <> [].
Proof.
  unfold getAllRichTextLocations. rewrite in_app_iff. intros [H|H].
  - apply in_concat in H as (ls & Hls & Hl).
    apply List.in_map_iff in Hls as (q & <- & _).
    now apply scalarLocation_inv in Hl as (rts & _ & Hne & ->).
  - unfold tableLocations in H. destruct (Table b ≫= Rows) as [rows|]; [|easy].
    apply in_concat in H as (ls & Hls & Hl).
    apply list_elem_of_In, elem_of_lookup_imap in Hls as (r & row & -> & _).
    unfold rowLocations in Hl.
    apply in_concat in Hl as (ls & Hls & Hl).
    apply list_elem_of_In, elem_of_lookup_imap in Hls as (c & cell & -> & _).
    now apply addLocation_inv in Hl as [-> Hne].
Qed.

Lemma fold_left_ext_in {A B} (f g : A -> B -> A) l a :
  (forall a x, In x l -> f a x = g a x) -> fold_left f l a = fold_left g l a.
Proof.
  revert a. induction l as [|x l IH]; intros a H; simpl; [reflexivity|].
  rewrite H by now left. apply IH. intros a' y Hy. apply H. now right.
Qed.

Lemma splitRichTextWithMarkers_nonempty location markers :
  richTexts location <> [] -> splitRichTextWithMarkers location markers <> [].
Proof.
  intros Hne E. rewrite splitRichTextWithMarkers_fold in E.
  pose proof (fold_splitAtMarker_length
                (Array_sort (fun a b => Z.of_nat (CharStart (Location b))
                                        - Z.of_nat (CharStart (Location a)))%Z
                   (List.filter (fun m => jsstring_eqb (BlockProperty (Location m))
                                            (property location)) markers))
                (richTexts location)) as Hl.
  rewrite E in Hl. destruct (richTexts location); [easy|simpl in Hl; lia].
Qed.

Lemma splitRichTextWithMarkers_join location markers :
  joinPlainText (splitRichTextWithMarkers location markers)
  = joinPlainText (richTexts location).
Proof. rewrite splitRichTextWithMarkers_fold. apply fold_splitAtMarker_join. Qed.

(** The flagging pass rewrites every location by [splitRichTextWithMarkers]. *)
Lemma flagMarkers_locations markers b b1 :
  getAllRichTextLocations b1 = getAllRichTextLocations b ->
  getAllRichTextLocations (flagMarkers markers (getAllRichTextLocations b) b1)
  = List.map (fun l => mkLocation (property l) (splitRichTextWithMarkers l markers)
                         (setter l))
      (getAllRichTextLocations b).
Proof.
  intros Hb. unfold flagMarkers. rewrite <- Hb.
  set (g := fun l : RichTextLocation =>
              match richTexts l with
              | [] => None
              | _ => Some (splitRichTextWithMarkers l markers)
              end).
  rewrite (fold_left_ext_in _ (writeBack g)).
  - rewrite writeBack_all.
    + apply List.map_ext_in. intros l Hl. unfold rewritten, g.
      apply location_nonempty in Hl. now destruct (richTexts l).
    + intros l v. unfold g. destruct (richTexts l) eqn:E; [easy|].
      intros [= <-]. apply splitRichTextWithMarkers_nonempty. now rewrite E.
  - intros a l Hl. unfold writeBack, g.
    apply location_nonempty in Hl. now destruct (richTexts l).
Qed.

Lemma flagMarkers_text markers b b1 :
  getAllRichTextLocations b1 = getAllRichTextLocations b ->
  List.map locationText
    (getAllRichTextLocations (flagMarkers markers (getAllRichTextLocations b) b1))
  = List.map locationText (getAllRichTextLocations b).
Proof.
  intros Hb. rewrite (flagMarkers_locations _ _ _ Hb), List.map_map.
  apply List.map_ext. intros l. unfold locationText. simpl.
  now rewrite splitRichTextWithMarkers_join.
Qed.

Lemma getAll_setChildren block children :
  getAllRichTextLocations (setChildrenInBlock block children)
  = getAllRichTextLocations block.
Proof.
  destruct block as [id p h1 h2 h3 bl nl td q c tg bc im vd au fl em bm lp tb sb].
  unfold setChildrenInBlock; simpl.
  destruct p as [?|]; [reflexivity|].
  destruct h1 as [?|]; [reflexivity|].
  destruct h2 as [?|]; [reflexivity|].
  destruct h3 as [?|]; [reflexivity|].
  destruct q as [?|]; [reflexivity|].
  destruct c as [?|]; [reflexivity|].
  destruct tg as [?|]; [reflexivity|].
  destruct bl as [?|]; [reflexivity|].
  destruct nl as [?|]; [reflexivity|].
  destruct td as [?|]; [reflexivity|].
  destruct sb as [?|]; reflexivity.
Qed.

(** X13. [extractStartOfChildBlocksFootnotes] never changes the joined
    text of a location of the block itself: flagging the markers only splits
    spans, and the definition prefixes are removed in the children. (The
    prefix is taken without regular-expression metacharacters.) *)
Theorem start_of_child_blocks_preserves_text (block : Block) (config : FootnotesConfig) :
  regexLiteral (marker_prefix config) = true ->
  let block' := fst (extractStartOfChildBlocksFootnotes block config) in
  List.map locationText (getAllRichTextLocations block')
  = List.map locationText (getAllRichTextLocations block).
Proof.
  intros _. cbv zeta. unfold extractStartOfChildBlocksFootnotes.
  destruct (length _ =? 0); [easy|]. cbn [fst].
  match goal with
  | |- context [setChildrenInBlock block ?r] => set (remaining := r)
  end.
  apply (flagMarkers_text _ block (setChildrenInBlock block remaining)).
  apply getAll_setChildren.
Qed.

Lemma start_of_child_blocks_preserves_text_witness :
  let config := footnotesConfig start_of_child_blocks in
  regexLiteral (marker_prefix config) = true
  /\ List.map locationText
       (getAllRichTextLocations
          (fst (extractStartOfChildBlocksFootnotes twoMarkersBlock config)))
     = List.map locationText (getAllRichTextLocations twoMarkersBlock).
Proof.
  cbv zeta. split; [reflexivity|].
  exact (start_of_child_blocks_preserves_text twoMarkersBlock
           (footnotesConfig start_of_child_blocks) eq_refl).
Defined.

(** ** Block comments: the runs of the request tree *)

Section BlockCommentsRuns.

Variable urlPathname : jsstring -> option jsstring.
Variable isConvImageType : jsstring -> bool.
Variable OPTIMIZE_IMAGES : bool.

Lemma noCommentsRequest_bind {A B} (m : Eff A) (f : A -> Eff B) :
  noCommentsRequest m -> (forall a, noCommentsRequest (f a)) ->
  noCommentsRequest (bind m f).
Proof. intros Hm Hf. induction m; simpl in *; try easy; auto. Qed.

Lemma noCommentsRequest_catch {A} (m : Eff A) h :
  noCommentsRequest m -> (forall e, noCommentsRequest (h e)) ->
  noCommentsRequest (catch m h).
Proof. intros Hm Hh. induction m; simpl in *; try easy; auto. Qed.

Lemma noCommentsRequest_count {A} answer downloaded (m : Eff A) :
  noCommentsRequest m -> commentsRequests answer downloaded m = 0.
Proof. induction m; simpl; try easy; auto. Qed.

Lemma collectAttachments_noComments atts acc :
  noCommentsRequest
    (collectAttachments urlPathname isConvImageType OPTIMIZE_IMAGES atts acc).
Proof.
  revert acc. induction atts as [|a atts IH]; intros acc; simpl; [easy|].
  destruct (truthyString (file_url a)) as [url|]; [|apply IH].
  destruct (urlPathname url) as [pathname|]; [|easy].
  simpl. intros [[]|e]; simpl; [apply IH | easy].
Qed.

Lemma processComments_noComments markerPrefix comments lastIndex footnotes :
  noCommentsRequest
    (processComments urlPathname isConvImageType OPTIMIZE_IMAGES markerPrefix comments
       lastIndex footnotes).
Proof.
  revert lastIndex footnotes.
  induction comments as [|c comments IH]; intros lastIndex footnotes; simpl; [easy|].
  destruct (default [] (rich_text_ c)) as [|first others]; [apply IH|].
  destruct (exec _ _ lastIndex) as [[m|] lastIndex']; [|apply IH].
  apply noCommentsRequest_bind; [apply collectAttachments_noComments|].
  intros atts. apply IH.
Qed.

Lemma processComments_sources markerPrefix comments lastIndex footnotes :
  (forall f, In f footnotes ->
     SourceLocation f = comment_source
     /\ exists richTexts attachments, Footnote_Content f = comment richTexts attachments) ->
  whenReturns
    (fun fs => forall f, In f fs ->
       SourceLocation f = comment_source
       /\ exists richTexts attachments, Footnote_Content f = comment richTexts attachments)
    (processComments urlPathname isConvImageType OPTIMIZE_IMAGES markerPrefix comments
       lastIndex footnotes).
Proof.
  revert lastIndex footnotes.
  induction comments as [|c comments IH]; intros lastIndex footnotes H; simpl; [exact H|].
  destruct (default [] (rich_text_ c)) as [|first others]; [now apply IH|].
  destruct (exec _ _ lastIndex) as [[m|] lastIndex']; [|now apply IH].
  apply whenReturns_bind. intros atts. apply IH.
  intros f Hf. apply in_app_iff in Hf as [Hf|[<-|[]]]; [now apply H|].
  simpl. eauto.
Qed.

(** X14. [extractFootnotesFromBlock] never throws, whatever the comments
    provider and the downloads do. When the result says no rich text was
    processed, the block is returned as it was with no footnote; and children
    are only ever processed by the start-of-child-blocks source. (The prefix
    is taken without regular-expression metacharacters.) *)
Theorem extractFootnotesFromBlock_always_returns
  (block : Block) (config : FootnotesConfig) (hasCommentsClient : bool) :
  regexLiteral (marker_prefix config) = true ->
  always
    (fun '(block', result) =>
       (hasProcessedRichTexts result = false ->
        block' = block /\ result = mkFootnoteResult [] false false)
       /\ (hasProcessedChildren result = true ->
           getActiveSource config = Some start_of_child_blocks))
    (extractFootnotesFromBlock urlPathname isConvImageType OPTIMIZE_IMAGES
       block config hasCommentsClient).
Proof.
  intros _. unfold extractFootnotesFromBlock.
  destruct (getActiveSource config) as [[]|] eqn:Es; simpl.
  - unfold extractEndOfBlockFootnotes.
    destruct (length _ =? 0); [easy|].
    destruct (fold_left _ _ _) as [b' fs]. simpl. easy.
  - unfold extractStartOfChildBlocksFootnotes.
    destruct (length _ =? 0); simpl; easy.
  - unfold extractBlockCommentsFootnotes.
    destruct (length _ =? 0); [easy|].
    destruct hasCommentsClient; [|easy]. cbn [negb].
    apply always_catch; [|easy].
    simpl. intros [response|e]; simpl; [|easy].
    apply whenReturns_bind. intros fs. simpl. easy.
  - easy.
Qed.

(** X15. [extractBlockCommentsFootnotes] never throws (a failing request
    is caught) and never changes the joined text of a location or the
    children flag; every footnote it returns has a comment as its content and
    [comment] as its source location. (The prefix is taken without
    regular-expression metacharacters.) *)
Theorem block_comments_keep_text
  (block : Block) (config : FootnotesConfig) (hasCommentsClient : bool) :
  regexLiteral (marker_prefix config) = true ->
  always
    (fun '(block', result) =>
       List.map locationText (getAllRichTextLocations block')
       = List.map locationText (getAllRichTextLocations block)
       /\ hasProcessedChildren result = false
       /\ (forall f, In f (footnotes result) ->
             SourceLocation f = comment_source
             /\ exists richTexts attachments,
                  Footnote_Content f = comment richTexts attachments))
    (extractBlockCommentsFootnotes urlPathname isConvImageType OPTIMIZE_IMAGES
       block config hasCommentsClient).
Proof.
  intros _. unfold extractBlockCommentsFootnotes.
  destruct (length _ =? 0); [easy|].
  destruct hasCommentsClient; [|easy]. cbn [negb].
  apply always_catch; [|easy].
  simpl. intros [response|e]; simpl; [|easy].
  eapply whenReturns_bind_strong; [apply processComments_sources; easy|].
  intros fs Hfs. simpl. split; [|split; [reflexivity | exact Hfs]].
  now apply (flagMarkers_text _ block block).
Qed.

(** X16. [extractFootnotesFromBlock] asks the comments provider at most
    once per block, and exactly once when the active source is block comments,
    the block has at least one inline marker and a comments client is
    configured; the downloads of attachments never lead to a second
    request. (The prefix is taken without regular-expression
    metacharacters.) *)
Theorem one_comments_request_per_block
  (block : Block) (config : FootnotesConfig) (hasCommentsClient : bool)
  (answer : jsstring -> Outcome CommentsResponse) (downloaded : jsstring -> Outcome unit) :
  regexLiteral (marker_prefix config) = true ->
  commentsRequests answer downloaded
    (extractFootnotesFromBlock urlPathname isConvImageType OPTIMIZE_IMAGES
       block config hasCommentsClient)
  = if bool_decide (getActiveSource config = Some block_comments)
       && negb (length (findAllFootnoteMarkers (getAllRichTextLocations block)
                          (marker_prefix config)) =? 0)
       && hasCommentsClient
    then 1 else 0.
Proof.
  intros _. unfold extractFootnotesFromBlock.
  destruct (getActiveSource config) as [[]|]; try reflexivity.
  rewrite bool_decide_eq_true_2 by reflexivity. cbn [andb].
  unfold extractBlockCommentsFootnotes.
  destruct (length _ =? 0); [reflexivity|].
  destruct hasCommentsClient; [|reflexivity]. cbn [negb andb].
  simpl. f_equal. apply noCommentsRequest_count.
  apply noCommentsRequest_catch; [|easy].
  destruct (answer (Id block)) as [response|e]; simpl; [|easy].
  apply noCommentsRequest_bind; [apply processComments_noComments | easy].
Qed.

Lemma spanClass_length cls s : length (snd (spanClass cls s)) <= length s.
Proof.
  induction s as [|c s IH]; simpl; [lia|].
  destruct (cls c); [|simpl; lia].
  destruct (spanClass cls s); simpl in *. lia.
Qed.

Lemma execSearch_no_line_start markerPrefix prev pos s :
  match prev with Some c => isLineTerminator c = false | None => False end ->
  (forall c, In c s -> isLineTerminator c = false) ->
  execSearch (createContentPattern markerPrefix) prev pos s = None.
Proof.
  revert prev pos. induction s as [|c s IH]; intros prev pos Hp Hs; [reflexivity|].
  simpl. unfold createContentPattern at 1.
  destruct prev as [p|]; [|easy]. rewrite Hp.
  apply IH; [apply Hs; now left | intros c' Hc'; apply Hs; now right].
Qed.

Lemma exec_stale markerPrefix text lastIndex :
  0 < lastIndex ->
  (forall c, In c text -> isLineTerminator c = false) ->
  exec (createContentPattern markerPrefix) text lastIndex = (None, 0).
Proof.
  intros Hpos Hs. unfold exec.
  destruct lastIndex as [|i]; [lia|].
  destruct (text !! i) as [p|] eqn:Ei.
  - rewrite execSearch_no_line_start; [reflexivity | |].
    + apply Hs. apply list_elem_of_In. eapply list_elem_of_lookup_2. exact Ei.
    + intros c Hc. apply Hs. rewrite <- (take_drop (S i) text).
      apply in_app_iff. now right.
  - apply lookup_ge_None in Ei.
    rewrite drop_ge by lia. reflexivity.
Qed.

(** X17. The comments loop shares one global pattern and does not reset
    its [lastIndex]: a comment that is processed while [lastIndex] is not 0
    (that is, right after a comment that was recognised as a footnote) and
    whose first text has a single line is skipped, whatever it says, and the
    loop goes on with [lastIndex] 0. *)
Theorem comment_after_footnote_comment_is_skipped
  (markerPrefix : jsstring) (comment_ : NotionComment) (rest : list NotionComment)
  (lastIndex : nat) (footnotes : list Footnote)
  (first : NotionRichText) (others : list NotionRichText) :
  0 < lastIndex ->
  rich_text_ comment_ = Some (first :: others) ->
  (forall c, In c (orString [] (plain_text first)) -> isLineTerminator c = false) ->
  processComments urlPathname isConvImageType OPTIMIZE_IMAGES markerPrefix
    (comment_ :: rest) lastIndex footnotes
  = processComments urlPathname isConvImageType OPTIMIZE_IMAGES markerPrefix
      rest 0 footnotes.
Proof.
  intros Hpos Hrt Hline. simpl. rewrite Hrt. simpl.
  now rewrite exec_stale.
Qed.

End BlockCommentsRuns.

Lemma extractFootnotesFromBlock_always_returns_witness :
  let config := footnotesConfig block_comments in
  regexLiteral (marker_prefix config) = true
  /\ always
       (fun '(block', result) =>
          (hasProcessedRichTexts result = false ->
           block' = twoMarkersBlock /\ result = mkFootnoteResult [] false false)
          /\ (hasProcessedChildren result = true ->
              getActiveSource config = Some start_of_child_blocks))
       (extractFootnotesFromBlock (fun _ => None) (fun _ => false) false
          twoMarkersBlock config true).
Proof.
  cbv zeta. split; [reflexivity|].
  exact (extractFootnotesFromBlock_always_returns (fun _ => None) (fun _ => false) false
           twoMarkersBlock (footnotesConfig block_comments) true eq_refl).
Defined.

Lemma block_comments_keep_text_witness :
  let config := footnotesConfig block_comments in
  regexLiteral (marker_prefix config) = true
  /\ always
       (fun '(block', result) =>
          List.map locationText (getAllRichTextLocations block')
          = List.map locationText (getAllRichTextLocations twoMarkersBlock)
          /\ hasProcessedChildren result = false
          /\ (forall f, In f (footnotes result) ->
                SourceLocation f = comment_source
                /\ exists richTexts attachments,
                     Footnote_Content f = comment richTexts attachments))
       (extractBlockCommentsFootnotes (fun _ => None) (fun _ => false) false
          twoMarkersBlock config true).
Proof.
  cbv zeta. split; [reflexivity|].
  exact (block_comments_keep_text (fun _ => None) (fun _ => false) false
           twoMarkersBlock (footnotesConfig block_comments) true eq_refl).
Defined.

Lemma one_comments_request_per_block_witness :
  let config := footnotesConfig block_comments in
  regexLiteral (marker_prefix config) = true
  /\ commentsRequests
       (fun _ => Resolved (mkCommentsResponse (Some [noteComment (js "[^ft_a]: one")])))
       (fun _ => Resolved tt)
       (extractFootnotesFromBlock (fun _ => None) (fun _ => false) false
          twoMarkersBlock config true)
     = 1.
Proof.
  cbv zeta. split; [reflexivity|].
  exact (one_comments_request_per_block (fun _ => None) (fun _ => false) false
           twoMarkersBlock (footnotesConfig block_comments) true
           (fun _ => Resolved (mkCommentsResponse (Some [noteComment (js "[^ft_a]: one")])))
           (fun _ => Resolved tt) eq_refl).
Defined.

Lemma comment_after_footnote_comment_is_skipped_witness :
  let second := noteComment (js "[^ft_b]: two") in
  let third := noteComment (js "[^ft_c]: three") in
  0 < 9
  /\ processComments (fun _ => None) (fun _ => false) false (js "ft_")
       [second; third] 9 []
     = processComments (fun _ => None) (fun _ => false) false (js "ft_") [third] 0 [].
Proof.
  cbv zeta. split; [lia|].
  refine (comment_after_footnote_comment_is_skipped (fun _ => None) (fun _ => false) false
            (js "ft_") (noteComment (js "[^ft_b]: two"))
            [noteComment (js "[^ft_c]: three")] 9 [] _ [] _ eq_refl _); [lia|].
  intros c Hc. simpl in Hc.
  repeat (destruct Hc as [<-|Hc]; [reflexivity|]). contradiction.
Defined.

(** Three single-line footnote comments in a row: the second one is lost. *)
Example every_second_footnote_comment_is_lost :
  let comments := [noteComment (js "[^ft_a]: one"); noteComment (js "[^ft_b]: two");
                   noteComment (js "[^ft_c]: three")] in
  exists fa fc,
    processComments (fun _ => None) (fun _ => false) false (js "ft_") comments 0 []
    = Ret [fa; fc]
    /\ Footnote_Marker fa = js "a" /\ Footnote_Marker fc = js "c".
Proof. cbv zeta. eexists _, _. vm_compute. repeat split. Qed.

(** ** What end-of-block extraction leaves in a location *)

Lemma endOfBlockStep_block markerPrefix markers block fs location :
  fst (endOfBlockStep markerPrefix markers (block, fs) location)
  = runSetter (setter location) (endOfBlockRichTexts markerPrefix markers location)
      (runSetter (setter location)
         (fst (extractFootnoteDefinitionsFromRichText (richTexts location) markerPrefix
                 (Some (joinPlainText (richTexts location)))))
         block).
Proof.
  unfold endOfBlockStep, endOfBlockRichTexts.
  now destruct (extractFootnoteDefinitionsFromRichText _ _ _).
Qed.

Lemma endOfBlockStep_pair markerPrefix markers block fs location :
  endOfBlockStep markerPrefix markers (block, fs) location
  = (fst (endOfBlockStep markerPrefix markers (block, fs) location),
     snd (endOfBlockStep markerPrefix markers (block, fs) location)).
Proof. apply surjective_pairing. Qed.

Lemma endOfBlock_fold_other markerPrefix markers locs b fs q :
  (forall l, In l locs -> setter l <> q) ->
  readPath q (fst (fold_left (endOfBlockStep markerPrefix markers) locs (b, fs)))
  = readPath q b.
Proof.
  revert b fs. induction locs as [|l0 locs IH]; intros b fs Hq; [reflexivity|].
  cbn [fold_left]. rewrite endOfBlockStep_pair, IH by (intros l Hl; apply Hq; now right).
  rewrite endOfBlockStep_block.
  rewrite !readPath_runSetter_other by (apply Hq; now left). reflexivity.
Qed.

Lemma endOfBlock_fold_read markerPrefix markers locs b fs l :
  NoDup (List.map setter locs) ->
  (forall l', In l' locs -> is_Some (readPath (setter l') b)) ->
  In l locs ->
  readPath (setter l)
    (fst (fold_left (endOfBlockStep markerPrefix markers) locs (b, fs)))
  = Some (endOfBlockRichTexts markerPrefix markers l).
Proof.
  revert b fs. induction locs as [|l0 locs IH]; intros b fs Hnd Hsome Hl; [easy|].
  cbn [List.map] in Hnd. apply NoDup_cons in Hnd as [Hnot Hnd].
  cbn [fold_left]. rewrite endOfBlockStep_pair.
  assert (Hother : forall l', In l' locs -> setter l' <> setter l0).
  { intros l' Hl' E. apply Hnot. apply list_elem_of_In, List.in_map_iff. eauto. }
  destruct Hl as [->|Hl].
  - rewrite endOfBlock_fold_other by exact Hother.
    rewrite endOfBlockStep_block.
    apply readPath_runSetter_same. rewrite readPath_runSetter_same; [easy|].
    apply Hsome. now left.
  - apply IH; [exact Hnd | | exact Hl].
    intros l' Hl'. rewrite endOfBlockStep_block.
    rewrite !readPath_runSetter_other by (apply not_eq_sym, Hother, Hl').
    apply Hsome. now right.
Qed.

(** X18. After [extractEndOfBlockFootnotes] on a block with at least one
    inline marker, every location of the block holds the text it had before
    its first definitions delimiter, and nothing else: no delimiter is left,
    and each span has the formatting of a span of the location, as it was or
    flagged as a marker reference. (The prefix is taken without
    regular-expression metacharacters.) *)
Theorem end_of_block_removes_definitions
  (block : Block) (config : FootnotesConfig) (l : RichTextLocation) :
  let markerPrefix := marker_prefix config in
  let markers := findAllFootnoteMarkers (getAllRichTextLocations block) markerPrefix in
  let T := joinPlainText (richTexts l) in
  regexLiteral markerPrefix = true ->
  0 < length markers ->
  In l (getAllRichTextLocations block) ->
  exists v,
    readPath (setter l) (fst (extractEndOfBlockFootnotes block config)) = Some v
    /\ joinPlainText v
       = match firstDefinitionIndex T with
         | Some i => take i T
         | None => T
         end
    /\ firstDefinitionIndex (joinPlainText v) = None
    /\ (forall s, In s v ->
          exists o, In o (richTexts l)
            /\ (sameFormatting o s
                \/ exists m, In m markers
                     /\ sameFormatting (setFootnoteMarker (Marker m) o) s)).
Proof.
  cbv zeta. intros _ Hn Hl.
  exists (endOfBlockRichTexts (marker_prefix config)
            (findAllFootnoteMarkers (getAllRichTextLocations block) (marker_prefix config))
            l).
  split.
  - unfold extractEndOfBlockFootnotes.
    destruct (Nat.eqb_spec (length (findAllFootnoteMarkers (getAllRichTextLocations block)
                                      (marker_prefix config))) 0) as [E|_]; [lia|].
    set (st := fold_left _ _ _).
    replace (fst (let '(block', footnotes) := st in
                  (block', mkFootnoteResult footnotes true false)))
      with (fst st) by now destruct st.
    subst st. apply endOfBlock_fold_read; [apply getAll_setters_NoDup | | exact Hl].
    intros l' Hl'. now rewrite (readPath_location block l' Hl').
  - unfold endOfBlockRichTexts.
    set (cleaned := fst (extractFootnoteDefinitionsFromRichText _ _ _)).
    assert (Hj : joinPlainText cleaned
                 = match firstDefinitionIndex (joinPlainText (richTexts l)) with
                   | Some i => take i (joinPlainText (richTexts l))
                   | None => joinPlainText (richTexts l)
                   end).
    { subst cleaned. rewrite extractFootnoteDefinitions_cached.
      destruct (firstDefinitionIndex _); [apply split_join_take | reflexivity]. }
    assert (Hfr : forall s, In s cleaned ->
                    exists o, In o (richTexts l) /\ sameFormatting o s).
    { subst cleaned. rewrite extractFootnoteDefinitions_cached.
      destruct (firstDefinitionIndex _) as [i|]; cbn [fst]; intros s Hs.
      - destruct (split_fragments (richTexts l) i s (or_introl Hs)) as (o & Ho & Hf).
        exists o. split; [exact Ho | now apply fragmentOf_sameFormatting].
      - exists s. split; [exact Hs | apply sameFormatting_refl]. }
    rewrite splitRichTextWithMarkers_join. cbn [richTexts].
    split; [exact Hj|]. split.
    + rewrite Hj. destruct (firstDefinitionIndex _) as [i|] eqn:E; [|exact E].
      now apply firstDefinitionIndex_take.
    + intros s Hs. rewrite splitRichTextWithMarkers_fold in Hs. cbn [richTexts property] in Hs.
      set (ms := Array_sort _ _) in Hs.
      destruct (fold_splitAtMarker_formatting ms ms _ s (fun m H => H) Hs) as (o' & Ho' & Hlike).
      destruct (Hfr o' Ho') as (o & Ho & Hf).
      exists o. split; [exact Ho|].
      assert (Hms : forall m, In m ms ->
                In m (findAllFootnoteMarkers (getAllRichTextLocations block)
                        (marker_prefix config))).
      { intros m Hm. subst ms.
        apply (Permutation_in _ (Array_sort_Permutation _ _)) in Hm.
        now apply List.filter_In in Hm as [Hm _]. }
      destruct Hlike as [Hlike|(m & Hm & Hlike)].
      * left. eapply sameFormatting_trans; eassumption.
      * right. exists m. split; [now apply Hms|].
        eapply sameFormatting_trans; [|exact Hlike].
        apply sameFormatting_flag. now left.
Qed.

Lemma end_of_block_removes_definitions_witness :
  let config := footnotesConfig end_of_block in
  regexLiteral (marker_prefix config) = true
  /\ 0 < length (findAllFootnoteMarkers (getAllRichTextLocations endOfBlockExample)
                   (marker_prefix config))
  /\ In endOfBlockLocation (getAllRichTextLocations endOfBlockExample)
  /\ exists v,
       readPath (setter endOfBlockLocation)
         (fst (extractEndOfBlockFootnotes endOfBlockExample config)) = Some v
       /\ joinPlainText v
          = match firstDefinitionIndex (joinPlainText (richTexts endOfBlockLocation)) with
            | Some i => take i (joinPlainText (richTexts endOfBlockLocation))
            | None => joinPlainText (richTexts endOfBlockLocation)
            end.
Proof.
  cbv zeta.
  assert (Hn : 0 < length (findAllFootnoteMarkers
                             (getAllRichTextLocations endOfBlockExample)
                             (marker_prefix (footnotesConfig end_of_block))))
    by (vm_compute; lia).
  assert (Hl : In endOfBlockLocation (getAllRichTextLocations endOfBlockExample))
    by (vm_compute; left; reflexivity).
  split; [reflexivity|]. split; [exact Hn|]. split; [exact Hl|].
  destruct (end_of_block_removes_definitions endOfBlockExample
              (footnotesConfig end_of_block) endOfBlockLocation eq_refl Hn Hl)
    as (v & Hv & Hj & _).
  exists v. split; [exact Hv | exact Hj].
Defined.

(** ** The citations of a block *)

Lemma resolvedCitations_keys bibEntries style ms :
  List.map Citations.Key (resolvedCitations bibEntries style ms)
  = List.filter (fun k => bool_decide (is_Some (bibEntries !! k)))
      (List.map Citations.match_key ms).
Proof.
  induction ms as [|m ms IH]; [reflexivity|].
  unfold resolvedCitations in *. cbn [List.flat_map List.map List.filter].
  rewrite List.map_app, IH.
  destruct (bibEntries !! Citations.match_key m) as [entry|] eqn:E.
  - rewrite bool_decide_eq_true_2 by eauto. reflexivity.
  - rewrite bool_decide_eq_false_2 by (intros [? ?]; congruence). reflexivity.
Qed.

Lemma map_flat_map {A B C} (f : B -> C) (g : A -> list B) l :
  List.map f (List.flat_map g l) = List.flat_map (fun x => List.map f (g x)) l.
Proof.
  induction l as [|x l IH]; [reflexivity|].
  cbn [List.flat_map]. now rewrite List.map_app, IH.
Qed.

(** X19. [extractCitationsFromBlock] records one citation per occurrence of
    a resolved key (a key cited twice is recorded twice), location by location
    and, within a location, from the last occurrence to the first. Each
    record takes its authors, year and formatted entry (in the configured
    style) from the bibliography entry of its key, and leaves [Index] unset
    and [SourceBlockIds] empty. *)
Theorem citations_one_per_resolved_occurrence
  (block : Block) (config : Citations.CitationsConfig)
  (bibEntries : gmap jsstring Citations.ParsedCitationEntry) (pattern : Matcher) :
  Citations.citationPatternOf (Citations.in_text_citation_format config) = Some pattern ->
  let result := Citations.extractCitationsFromBlock block config bibEntries in
  List.map Citations.Key (Citations.citations (snd result))
  = List.flat_map
      (fun l => List.filter (fun k => bool_decide (is_Some (bibEntries !! k)))
                  (rev (List.map Citations.match_key
                          (Citations.findCitationMatches pattern (richTexts l)))))
      (getAllRichTextLocations block)
  /\ (forall c, In c (Citations.citations (snd result)) ->
        exists entry,
          bibEntries !! Citations.Key c = Some entry
          /\ Citations.Authors c = Citations.authors entry
          /\ Citations.Year c = Citations.year entry
          /\ Citations.FormattedEntry c
             = (if Citations.bibliography_format_simplified_ieee config
                then Citations.ieee_formatted entry
                else Citations.apa_formatted entry)
          /\ Citations.Index c = None
          /\ Citations.SourceBlockIds c = []).
Proof.
  intros Hp. cbv zeta.
  destruct (extractCitations_spec block config bibEntries pattern Hp) as [_ Hc].
  cbv zeta in Hc. rewrite Hc. split.
  - rewrite map_flat_map. apply List.flat_map_ext. intros l.
    now rewrite resolvedCitations_keys, List.map_rev.
  - intros c Hin. apply List.in_flat_map in Hin as (l & _ & Hin).
    apply resolvedCitations_In in Hin as (m & entry & _ & He & ->).
    exists entry. unfold Citations.newCitation, Citations.formatCitation, styleOf. simpl.
    repeat split; try easy.
    now destruct (Citations.bibliography_format_simplified_ieee config).
Qed.

Lemma citations_one_per_resolved_occurrence_witness :
  Citations.citationPatternOf (Citations.in_text_citation_format pandocConfig)
  = Some pandocPattern
  /\ List.map Citations.Key
       (Citations.citations
          (snd (Citations.extractCitationsFromBlock citingBlock pandocConfig
                  exampleBibliography)))
     = List.flat_map
         (fun l => List.filter (fun k => bool_decide (is_Some (exampleBibliography !! k)))
                     (rev (List.map Citations.match_key
                             (Citations.findCitationMatches pandocPattern (richTexts l)))))
         (getAllRichTextLocations citingBlock).
Proof.
  split; [reflexivity|].
  exact (proj1 (citations_one_per_resolved_occurrence citingBlock pandocConfig
                  exampleBibliography pandocPattern eq_refl)).
Defined.

Lemma fold_left_fixed {A B} (f : A -> B -> A) l a :
  (forall x, In x l -> f a x = a) -> fold_left f l a = a.
Proof.
  induction l as [|x l IH]; intros H; simpl; [reflexivity|].
  rewrite H by now left. apply IH. intros y Hy. apply H. now right.
Qed.

(** X20. When none of the keys cited in a block is in the bibliography,
    [extractCitationsFromBlock] returns the block as it was and no citation,
    and yet reports [processedRichTexts] as soon as some location has a
    citation token outside code. *)
Theorem unresolved_keys_leave_block_unchanged
  (block : Block) (config : Citations.CitationsConfig)
  (bibEntries : gmap jsstring Citations.ParsedCitationEntry) (pattern : Matcher) :
  Citations.citationPatternOf (Citations.in_text_citation_format config) = Some pattern ->
  (forall l m, In l (getAllRichTextLocations block) ->
     In m (Citations.findCitationMatches pattern (richTexts l)) ->
     bibEntries !! Citations.match_key m = None) ->
  let result := Citations.extractCitationsFromBlock block config bibEntries in
  fst result = block
  /\ Citations.citations (snd result) = []
  /\ (Citations.processedRichTexts (snd result) = true <->
      exists l, In l (getAllRichTextLocations block)
                /\ Citations.findCitationMatches pattern (richTexts l) <> []).
Proof.
  intros Hp Hnone. cbv zeta. unfold Citations.extractCitationsFromBlock.
  rewrite Hp.
  destruct (Nat.eqb_spec (length (getAllRichTextLocations block)) 0) as [E|_].
  { destruct (getAllRichTextLocations block); [|easy]. simpl.
    repeat split; try easy. now intros (l & [] & _). }
  set (style := if Citations.bibliography_format_simplified_ieee config
                then Citations.simplified_ieee else Citations.apa).
  assert (Hstep : forall pa l, In l (getAllRichTextLocations block) ->
            Citations.citationStep pattern bibEntries style (block, [], pa) l
            = (block, [],
               match Citations.findCitationMatches pattern (richTexts l) with
               | [] => pa
               | _ => true
               end)).
  { intros pa l Hl. unfold Citations.citationStep.
    destruct (Citations.findCitationMatches pattern (richTexts l)) as [|m ms] eqn:Em;
      [reflexivity|].
    assert (Hrep : Citations.replaceMatches bibEntries style (m :: ms) (richTexts l) []
                   = (richTexts l, [])).
    { unfold Citations.replaceMatches. apply fold_left_fixed.
      intros m' Hm'. apply List.in_rev in Hm'.
      apply replaceMatch_unresolved. apply (Hnone l); [exact Hl | now rewrite Em]. }
    rewrite Hrep. f_equal. f_equal.
    apply runSetter_own. now apply readPath_location. }
  assert (Hfold : forall locs pa,
            (forall l, In l locs -> In l (getAllRichTextLocations block)) ->
            fold_left (Citations.citationStep pattern bibEntries style) locs (block, [], pa)
            = (block, [],
               pa || existsb (fun l => match Citations.findCitationMatches pattern
                                               (richTexts l) with
                                       | [] => false
                                       | _ => true
                                       end) locs)).
  { induction locs as [|l locs IH]; intros pa Hin; cbn [fold_left existsb].
    - now rewrite orb_false_r.
    - rewrite Hstep by (apply Hin; now left).
      rewrite IH by (intros l' Hl'; apply Hin; now right).
      destruct (Citations.findCitationMatches pattern (richTexts l)), pa; reflexivity. }
  rewrite Hfold by easy. cbn [fst snd Citations.citations Citations.processedRichTexts orb].
  repeat split.
  - intros H. apply List.existsb_exists in H as (l & Hl & Hm).
    exists l. split; [exact Hl|]. now destruct (Citations.findCitationMatches _ _).
  - intros (l & Hl & Hm). apply List.existsb_exists. exists l. split; [exact Hl|].
    now destruct (Citations.findCitationMatches _ _).
Qed.

Lemma unresolved_keys_leave_block_unchanged_witness :
  Citations.citationPatternOf (Citations.in_text_citation_format pandocConfig)
  = Some pandocPattern
  /\ (forall l m, In l (getAllRichTextLocations citingBlock) ->
        In m (Citations.findCitationMatches pandocPattern (richTexts l)) ->
        (∅ : gmap jsstring Citations.ParsedCitationEntry) !! Citations.match_key m = None)
  /\ fst (Citations.extractCitationsFromBlock citingBlock pandocConfig ∅) = citingBlock.
Proof.
  assert (H : forall l m, In l (getAllRichTextLocations citingBlock) ->
            In m (Citations.findCitationMatches pandocPattern (richTexts l)) ->
            (∅ : gmap jsstring Citations.ParsedCitationEntry) !! Citations.match_key m
            = None)
    by (intros; apply lookup_empty).
  split; [reflexivity|]. split; [exact H|].
  exact (proj1 (unresolved_keys_leave_block_unchanged citingBlock pandocConfig ∅
                  pandocPattern eq_refl H)).
Defined.

(** ** Bibliography source links *)

Lemma stripLiteral_app lit r : stripLiteral lit (lit ++ r) = Some r.
Proof.
  induction lit as [|c lit IH]; simpl; [now destruct r|]. now rewrite N.eqb_refl.
Qed.

Lemma spanClass_app cls a b :
  forallb cls a = true ->
  match b with c :: _ => cls c = false | [] => True end ->
  spanClass cls (a ++ b) = (a, b).
Proof.
  intros Ha Hb. induction a as [|c a IH]; simpl in *.
  - destruct b as [|c b]; [reflexivity|]. simpl. now rewrite Hb.
  - apply andb_prop in Ha as [Hc Ha]. now rewrite Hc, IH.
Qed.

Lemma matchToken_app open cls close key rest :
  key <> [] -> forallb cls key = true ->
  match close ++ rest with c :: _ => cls c = false | [] => True end ->
  matchToken open cls close (open ++ key ++ close ++ rest) = Some (key, rest).
Proof.
  intros Hk Hcls Hnext. unfold matchToken.
  rewrite stripLiteral_app, (spanClass_app cls key (close ++ rest) Hcls Hnext).
  destruct key; [easy|]. now rewrite stripLiteral_app.
Qed.

Lemma matchFirst_skip {A} (p : jsstring -> option A) P R :
  (forall k, k < length P -> p (drop k P ++ R) = None) ->
  Bib.matchFirst p (P ++ R) = Bib.matchFirst p R.
Proof.
  induction P as [|c P IH]; intros H; [reflexivity|].
  simpl. specialize (H 0 ltac:(simpl; lia)) as H0. simpl in H0. rewrite H0.
  apply IH. intros k Hk. apply (H (S k)). simpl. lia.
Qed.

Lemma matchFirst_head {A} (p : jsstring -> option A) s a :
  p s = Some a -> Bib.matchFirst p s = Some a.
Proof. intros H. destruct s; simpl; now rewrite H. Qed.

Lemma matchFirst_None {A} (p : jsstring -> option A) s :
  (forall j, p (drop j s) = None) -> Bib.matchFirst p s = None.
Proof.
  induction s as [|c s IH]; intros H.
  - simpl. specialize (H 0) as H0. simpl in H0. now rewrite H0.
  - simpl. specialize (H 0) as H0. simpl in H0. rewrite H0.
    apply IH. intros j. apply (H (S j)).
Qed.

Lemma matchToken_startsWith open cls close s r :
  matchToken open cls close s = Some r -> startsWith open s = true.
Proof.
  unfold matchToken.
  destruct (stripLiteral open s) as [s1|] eqn:E; [|easy].
  apply stripLiteral_Some in E as ->. intros _. apply startsWith_self_app.
Qed.

Lemma includes_false needle hay :
  includes needle hay = false -> forall j, startsWith needle (drop j hay) = false.
Proof.
  induction hay as [|c hay IH]; simpl; intros H j.
  - rewrite drop_nil. now apply orb_false_elim in H as [H _].
  - apply orb_false_elim in H as [H1 H2].
    destruct j as [|j]; [exact H1 | now apply IH].
Qed.

Lemma https_not_gist R k :
  k < 8 -> Bib.gistPattern (drop k (js "https://") ++ R) = None.
Proof. intros Hk. do 8 (destruct k as [|k]; [reflexivity|]). lia. Qed.

Lemma https_not_repo R k :
  k < 8 -> Bib.repoPattern (drop k (js "https://") ++ R) = None.
Proof. intros Hk. do 8 (destruct k as [|k]; [reflexivity|]). lia. Qed.

(** X21. [get_bib_source_info] turns a gist link
    [https://gist.github.com/<user>/<id>...] into the raw download address of
    that gist and the API address that tells when it was updated; what follows
    the hexadecimal id is ignored. *)
Theorem gist_link_is_normalised (username gistId tail : jsstring) :
  username <> [] -> forallb Bib.notSlash username = true ->
  gistId <> [] -> forallb Bib.isLowerHex gistId = true ->
  match tail with c :: _ => Bib.isLowerHex c = false | [] => True end ->
  Bib.get_bib_source_info
    (js "https://gist.github.com/" ++ username ++ js "/" ++ gistId ++ tail)
  = Bib.mkBibSourceInfo (js "github-gist")
      (js "https://gist.githubusercontent.com/" ++ username ++ js "/" ++ gistId
         ++ js "/raw")
      (Some (js "https://api.github.com/gists/" ++ gistId))
      (Some (js "curl -s <updated_url> | jq '.updated_at'")).
Proof.
  intros Hu Hus Hg Hgh Htail. unfold Bib.get_bib_source_info.
  change (js "https://gist.github.com/") with (js "https://" ++ js "gist.github.com/").
  rewrite <- app_assoc.
  rewrite matchFirst_skip by (intros k Hk; now apply https_not_gist).
  rewrite (matchFirst_head _ _ (username, gistId)); [reflexivity|].
  unfold Bib.gistPattern.
  rewrite (matchToken_app _ _ _ username (gistId ++ tail) Hu Hus) by reflexivity.
  rewrite (spanClass_app _ gistId tail Hgh Htail).
  now destruct gistId.
Qed.

Lemma gist_link_is_normalised_witness :
  js "user" <> [] /\ forallb Bib.notSlash (js "user") = true
  /\ js "abc123" <> [] /\ forallb Bib.isLowerHex (js "abc123") = true
  /\ Bib.get_bib_source_info
       (js "https://gist.github.com/" ++ js "user" ++ js "/" ++ js "abc123" ++ [])
     = Bib.mkBibSourceInfo (js "github-gist")
         (js "https://gist.githubusercontent.com/" ++ js "user" ++ js "/" ++ js "abc123"
            ++ js "/raw")
         (Some (js "https://api.github.com/gists/" ++ js "abc123"))
         (Some (js "curl -s <updated_url> | jq '.updated_at'")).
Proof.
  split; [easy|]. split; [reflexivity|]. split; [easy|]. split; [reflexivity|].
  refine (gist_link_is_normalised (js "user") (js "abc123") [] _ eq_refl _ eq_refl I);
    easy.
Defined.

Lemma gistPattern_literal s :
  startsWith (js "gist.github.com/") s = false -> Bib.gistPattern s = None.
Proof.
  intros H. unfold Bib.gistPattern.
  destruct (matchToken _ _ _ s) as [r|] eqn:E; [|reflexivity].
  apply matchToken_startsWith in E. congruence.
Qed.

Lemma repoPattern_literal s :
  startsWith (js "github.com/") s = false -> Bib.repoPattern s = None.
Proof.
  intros H. unfold Bib.repoPattern.
  destruct (matchToken _ _ _ s) as [r|] eqn:E; [|reflexivity].
  apply matchToken_startsWith in E. congruence.
Qed.

Lemma drivePattern_literal s :
  startsWith (js "drive.google.com/file/d/") s = false -> Bib.drivePattern s = None.
Proof.
  intros H. unfold Bib.drivePattern.
  destruct (matchToken _ _ _ s) as [r|] eqn:E; [|reflexivity].
  apply matchToken_startsWith in E. congruence.
Qed.

Lemma startsWith_drop a b s :
  startsWith (a ++ b) s = true -> startsWith b (drop (length a) s) = true.
Proof.
  revert s. induction a as [|c a IH]; intros s; simpl; [now rewrite drop_0|].
  destruct s as [|d s]; [easy|]. intros H. apply andb_prop in H as [_ H]. now apply IH.
Qed.

(** X22. [get_bib_source_info] turns a repository file link
    [https://github.com/<owner>/<repo>/blob/<branch>/<path>] into the raw
    download address of the file and the commits query for its path, the
    path being taken to the end of the line. *)
Theorem repo_link_is_normalised (owner repo branch filePath : jsstring) :
  let url := js "https://github.com/" ++ owner ++ js "/" ++ repo ++ js "/blob/"
               ++ branch ++ js "/" ++ filePath in
  owner <> [] -> forallb Bib.notSlash owner = true ->
  repo <> [] -> forallb Bib.notSlash repo = true ->
  branch <> [] -> forallb Bib.notSlash branch = true ->
  filePath <> [] -> forallb Bib.notLineTerminator filePath = true ->
  includes (js "gist.github.com/") url = false ->
  Bib.get_bib_source_info url
  = Bib.mkBibSourceInfo (js "github-repo")
      (js "https://raw.githubusercontent.com/" ++ owner ++ js "/" ++ repo
         ++ js "/" ++ branch ++ js "/" ++ filePath)
      (Some (js "https://api.github.com/repos/" ++ owner ++ js "/" ++ repo
               ++ js "/commits?path=" ++ filePath))
      (Some (js "curl -s <updated_url> | jq '.[0].commit.committer.date'")).
Proof.
  cbv zeta. intros Ho Hos Hr Hrs Hb Hbs Hf Hfs Hgist.
  unfold Bib.get_bib_source_info.
  rewrite matchFirst_None
    by (intros j; apply gistPattern_literal; now apply includes_false).
  change (js "https://github.com/") with (js "https://" ++ js "github.com/").
  rewrite <- app_assoc.
  rewrite matchFirst_skip by (intros k Hk; now apply https_not_repo).
  rewrite (matchFirst_head _ _ (owner, repo, branch, filePath)); [reflexivity|].
  unfold Bib.repoPattern.
  rewrite (matchToken_app (js "github.com/") Bib.notSlash (js "/") owner
             (repo ++ js "/blob/" ++ branch ++ js "/" ++ filePath) Ho Hos)
    by reflexivity.
  pose proof (matchToken_app [] Bib.notSlash (js "/blob/") repo
                (branch ++ js "/" ++ filePath) Hr Hrs eq_refl) as H2.
  cbn [app] in H2. rewrite H2.
  pose proof (matchToken_app [] Bib.notSlash (js "/") branch filePath Hb Hbs eq_refl)
    as H3.
  cbn [app] in H3. rewrite H3.
  rewrite <- (app_nil_r filePath) at 1.
  rewrite (spanClass_app _ filePath [] Hfs I).
  now destruct filePath.
Qed.

Lemma repo_link_is_normalised_witness :
  let url := js "https://github.com/" ++ js "o" ++ js "/" ++ js "r" ++ js "/blob/"
               ++ js "main" ++ js "/" ++ js "dir/refs.bib" in
  includes (js "gist.github.com/") url = false
  /\ Bib.source (Bib.get_bib_source_info url) = js "github-repo"
  /\ Bib.download_url (Bib.get_bib_source_info url)
     = js "https://raw.githubusercontent.com/o/r/main/dir/refs.bib".
Proof.
  cbv zeta. split; [reflexivity|].
  rewrite (repo_link_is_normalised (js "o") (js "r") (js "main") (js "dir/refs.bib")
             ltac:(easy) eq_refl ltac:(easy) eq_refl ltac:(easy) eq_refl ltac:(easy)
             eq_refl eq_refl).
  split; reflexivity.
Defined.

(** X23. [get_bib_source_info] leaves a link that mentions neither GitHub,
    Dropbox nor a Google Drive file as it is: source [unknown], the
    address unchanged, no way to ask for an update time. *)
Theorem other_links_pass_through (url : jsstring) :
  includes (js "github.com/") url = false ->
  includes (js "dropbox.com") url = false ->
  includes (js "drive.google.com/file/d/") url = false ->
  Bib.get_bib_source_info url = Bib.mkBibSourceInfo (js "unknown") url None None.
Proof.
  intros Hgh Hdb Hgd. unfold Bib.get_bib_source_info.
  rewrite matchFirst_None.
  2:{ intros j. apply gistPattern_literal.
      destruct (startsWith (js "gist.github.com/") (drop j url)) eqn:E; [|reflexivity].
      change (js "gist.github.com/") with (js "gist." ++ js "github.com/") in E.
      apply startsWith_drop in E. rewrite drop_drop in E.
      now rewrite (includes_false _ _ Hgh) in E. }
  rewrite matchFirst_None
    by (intros j; apply repoPattern_literal; now apply includes_false).
  rewrite Hdb.
  rewrite matchFirst_None
    by (intros j; apply drivePattern_literal; now apply includes_false).
  reflexivity.
Qed.

Lemma other_links_pass_through_witness :
  let url := js "https://example.org/refs.bib" in
  includes (js "github.com/") url = false
  /\ includes (js "dropbox.com") url = false
  /\ includes (js "drive.google.com/file/d/") url = false
  /\ Bib.get_bib_source_info url = Bib.mkBibSourceInfo (js "unknown") url None None.
Proof.
  cbv zeta. split; [reflexivity|]. split; [reflexivity|]. split; [reflexivity|].
  exact (other_links_pass_through (js "https://example.org/refs.bib")
           eq_refl eq_refl eq_refl).
Defined.

(** ** Completeness of the marker finder *)

(** The global loop reports every position where the pattern matches. *)
Lemma execLoop_complete p prev pos skip s j key len :
  selfAvoiding p -> unanchored p ->
  (forall prev s key len, p prev s = Some (key, len) -> 0 < len) ->
  skip <= j -> j < length s ->
  p None (drop j s) = Some (key, len) ->
  In (mkMatch (pos + j) (take len (drop j s)) key) (execLoop p prev pos skip s).
Proof.
  intros Hsa Hun Hpos. revert prev pos skip j.
  induction s as [|c s IH]; intros prev pos skip j Hskip Hj Hm; [simpl in Hj; lia|].
  simpl.
  destruct skip as [|k].
  - destruct (p prev (c :: s)) as [[key0 len0]|] eqn:E.
    + destruct j as [|j].
      * left. simpl in Hm. rewrite (Hun prev None) in E. rewrite Hm in E.
        injection E as <- <-. now rewrite Nat.add_0_r.
      * right. replace (pos + S j) with (S pos + j) by lia.
        apply IH; [|simpl in Hj; lia|exact Hm].
        destruct (Nat.lt_ge_cases (S j) len0) as [Hlt|Hge]; [|lia].
        rewrite (Hsa prev None (c :: s) key0 len0 (S j) E ltac:(lia) Hlt) in Hm.
        discriminate Hm.
    + destruct j as [|j].
      * simpl in Hm. rewrite (Hun prev None) in E. congruence.
      * replace (pos + S j) with (S pos + j) by lia.
        apply IH; [lia|simpl in Hj; lia|exact Hm].
  - destruct j as [|j]; [lia|].
    replace (pos + S j) with (S pos + j) by lia.
    apply IH; [lia|simpl in Hj; lia|exact Hm].
Qed.

Lemma matchToken_length open cls close s key rest :
  matchToken open cls close s = Some (key, rest) ->
  length s - length rest = length (open ++ key ++ close).
Proof.
  intros H. apply matchToken_spec in H as (-> & _ & _).
  rewrite !length_app. lia.
Qed.

Lemma In_drop {A} (x : A) n l : In x (drop n l) -> In x l.
Proof. intros H. rewrite <- (take_drop n l). apply in_app_iff. now right. Qed.

Lemma matchToken_inside open cls close s key rest k c0 :
  matchToken open cls close s = Some (key, rest) ->
  0 < k -> k < length (open ++ key ++ close) ->
  (forall c, In c (drop 1 open ++ key ++ close) -> c <> c0) ->
  match drop k s with c :: _ => c <> c0 | [] => True end.
Proof.
  intros H Hk Hlt Hne. apply matchToken_spec in H as (-> & _ & _).
  replace (open ++ key ++ close ++ rest) with ((open ++ key ++ close) ++ rest)
    by now rewrite <- !app_assoc.
  rewrite drop_app_le by lia.
  destruct (drop k (open ++ key ++ close)) as [|c t] eqn:E.
  - apply (f_equal length) in E. rewrite length_drop in E. simpl in E. lia.
  - simpl. apply Hne.
    assert (Hin : In c (drop k (open ++ key ++ close))) by (rewrite E; now left).
    destruct k as [|k]; [lia|].
    destruct open as [|o open]; simpl in Hin |- *.
    + now apply In_drop in Hin.
    + rewrite drop_0. now apply In_drop in Hin.
Qed.

Lemma stripLiteral_head lit c0 s :
  lit !! 0 = Some c0 ->
  match s with c :: _ => c <> c0 | [] => True end ->
  stripLiteral lit s = None.
Proof.
  destruct lit as [|l lit]; [easy|]. intros [= ->].
  destruct s as [|c s]; [reflexivity|]. simpl. intros Hc.
  destruct (N.eqb_spec c0 c); [congruence|reflexivity].
Qed.

Lemma isWordChar_not_bracket c : isWordChar c = true -> c <> 91%N.
Proof. intros H ->. discriminate H. Qed.

Lemma regexLiteral_not_bracket markerPrefix c :
  regexLiteral markerPrefix = true -> In c markerPrefix -> c <> 91%N.
Proof.
  unfold regexLiteral. rewrite forallb_forall. intros H Hc ->.
  specialize (H _ Hc). discriminate H.
Qed.

Lemma inlineMarkerPattern_selfAvoiding markerPrefix :
  regexLiteral markerPrefix = true -> selfAvoiding (inlineMarkerPattern markerPrefix).
Proof.
  intros Hlit prev prev' s key len k Hm Hk Hlt.
  unfold inlineMarkerPattern in Hm.
  destruct (matchToken _ _ _ s) as [[key0 rest]|] eqn:E; [|easy].
  assert (Hlen : len = length ((js "[^" ++ markerPrefix) ++ key0 ++ js "]")).
  { rewrite <- (matchToken_length _ _ _ _ _ _ E).
    destruct rest as [|c rest']; [now injection Hm|].
    destruct c as [|q]; [now injection Hm|].
    repeat (destruct q as [q|q|]; try (now injection Hm)). discriminate Hm. }
  pose proof (matchToken_spec _ _ _ _ _ _ E) as (_ & _ & Hw).
  assert (Hhead : match drop k s with c :: _ => c <> 91%N | [] => True end).
  { apply (matchToken_inside _ _ _ _ _ _ _ _ E Hk); [lia|].
    intros c Hc. simpl in Hc. destruct Hc as [<-|Hc]; [easy|].
    rewrite !in_app_iff in Hc. destruct Hc as [Hc|[Hc|Hc]].
    - now apply (regexLiteral_not_bracket markerPrefix).
    - apply isWordChar_not_bracket. rewrite forallb_forall in Hw. now apply Hw.
    - destruct Hc as [<-|[]]. easy. }
  unfold inlineMarkerPattern, matchToken.
  now rewrite (stripLiteral_head (js "[^" ++ markerPrefix) 91%N (drop k s) eq_refl Hhead).
Qed.

Lemma inlineMarkerPattern_unanchored markerPrefix :
  unanchored (inlineMarkerPattern markerPrefix).
Proof. easy. Qed.

Lemma inlineMarkerPattern_positive markerPrefix prev s key len :
  inlineMarkerPattern markerPrefix prev s = Some (key, len) -> 0 < len.
Proof.
  intros H. apply inlineMarkerPattern_spec in H as (_ & -> & _). simpl. lia.
Qed.

Lemma inlineMarkerPattern_app markerPrefix prev key rest :
  key <> [] -> forallb isWordChar key = true ->
  match rest with c :: _ => c <> 58%N | [] => True end ->
  inlineMarkerPattern markerPrefix prev
    ((js "[^" ++ markerPrefix ++ key ++ js "]") ++ rest)
  = Some (key, length (js "[^" ++ markerPrefix ++ key ++ js "]")).
Proof.
  intros Hk Hw Hr. unfold inlineMarkerPattern.
  replace ((js "[^" ++ markerPrefix ++ key ++ js "]") ++ rest)
    with ((js "[^" ++ markerPrefix) ++ key ++ js "]" ++ rest)
    by now rewrite <- !app_assoc.
  rewrite (matchToken_app _ _ _ key rest Hk Hw) by reflexivity.
  assert (Hlen : length ((js "[^" ++ markerPrefix) ++ key ++ js "]" ++ rest) - length rest
                 = length (js "[^" ++ markerPrefix ++ key ++ js "]")).
  { rewrite !length_app. simpl. lia. }
  rewrite Hlen.
  destruct rest as [|c rest']; [reflexivity|].
  destruct c as [|q]; [reflexivity|].
  repeat (destruct q as [q|q|]; try reflexivity). now contradiction Hr.
Qed.

(** X24. [findAllFootnoteMarkers] misses no marker: wherever the text of a
    location reads ["[^" + prefix + key + "]"] with a non-empty key of word
    characters, not followed by a colon, in a run that is not code, a marker
    with that key is reported at that position. (The prefix is taken without
    regular-expression metacharacters.) *)
Theorem every_inline_marker_is_found
  (locations : list RichTextLocation) (markerPrefix : jsstring)
  (location : RichTextLocation) (j : nat) (key rest : jsstring) (rt : RichText) :
  regexLiteral markerPrefix = true ->
  In location locations ->
  drop j (joinPlainText (richTexts location))
  = (js "[^" ++ markerPrefix ++ key ++ js "]") ++ rest ->
  key <> [] -> forallb isWordChar key = true ->
  match rest with c :: _ => c <> 58%N | [] => True end ->
  runAt (richTexts location) j rt -> Code (Annotation_ rt) = false ->
  exists m,
    In m (findAllFootnoteMarkers locations markerPrefix)
    /\ Marker m = key
    /\ FullMarker m = js "[^" ++ markerPrefix ++ key ++ js "]"
    /\ BlockProperty (Location m) = property location
    /\ CharStart (Location m) = j.
Proof.
  intros Hlit Hloc Hdrop Hk Hw Hrest Hrun Hcode.
  set (T := joinPlainText (richTexts location)) in *.
  set (F := js "[^" ++ markerPrefix ++ key ++ js "]") in *.
  assert (Hj : j < length T).
  { destruct Hrun as (pre & post & Hs & H1 & H2). subst T. rewrite Hs.
    rewrite joinPlainText_app, joinPlainText_cons, !length_app. lia. }
  assert (Hm : inlineMarkerPattern markerPrefix None (drop j T) = Some (key, length F)).
  { rewrite Hdrop. now apply inlineMarkerPattern_app. }
  pose proof (execLoop_complete (inlineMarkerPattern markerPrefix) None 0 0 T j key
                (length F) (inlineMarkerPattern_selfAvoiding _ Hlit)
                (inlineMarkerPattern_unanchored _)
                (inlineMarkerPattern_positive markerPrefix)
                ltac:(lia) Hj Hm) as Hin.
  rewrite Hdrop, take_app_length in Hin. simpl in Hin.
  destruct (findRun_runAt _ _ _ Hrun) as [i Hfind].
  exists (mkMarkerInfo key F (mkMarkerLocation (property location) i j (j + length F))).
  split; [|easy].
  unfold findAllFootnoteMarkers. apply in_concat.
  exists (findMarkersInLocation markerPrefix location).
  split; [now apply List.in_map|].
  unfold findMarkersInLocation. apply in_concat.
  exists (markerOfMatch location (mkMatch j F key)).
  split; [now apply List.in_map|].
  unfold markerOfMatch. simpl. rewrite Hfind, Hcode. now left.
Qed.

Lemma every_inline_marker_is_found_witness :
  let rt := textSpan plainAnnotation (js "One[^ft_a] and two[^ft_b].") in
  regexLiteral (js "ft_") = true
  /\ In twoMarkersLocation (getAllRichTextLocations twoMarkersBlock)
  /\ runAt (richTexts twoMarkersLocation) 3 rt
  /\ exists m,
       In m (findAllFootnoteMarkers (getAllRichTextLocations twoMarkersBlock) (js "ft_"))
       /\ Marker m = js "a"
       /\ FullMarker m = js "[^" ++ js "ft_" ++ js "a" ++ js "]"
       /\ BlockProperty (Location m) = property twoMarkersLocation
       /\ CharStart (Location m) = 3.
Proof.
  cbv zeta.
  assert (Hl : In twoMarkersLocation (getAllRichTextLocations twoMarkersBlock))
    by (vm_compute; left; reflexivity).
  assert (Hrun : runAt (richTexts twoMarkersLocation) 3
                   (textSpan plainAnnotation (js "One[^ft_a] and two[^ft_b].")))
    by (exists [], []; repeat split; simpl; lia).
  split; [reflexivity|]. split; [exact Hl|]. split; [exact Hrun|].
  refine (every_inline_marker_is_found (getAllRichTextLocations twoMarkersBlock) (js "ft_")
            twoMarkersLocation 3 (js "a") (js " and two[^ft_b].") _ eq_refl Hl eq_refl
            _ eq_refl _ Hrun eq_refl); easy.
Defined.

(** ** Completeness of the citation matcher *)

Lemma citationPatternOf_delimiters citationFormat :
  Citations.citationPatternOf citationFormat
  = (fun d => citationPattern (fst d) (snd d)) <$> citationDelimiters citationFormat.
Proof.
  unfold Citations.citationPatternOf, citationDelimiters.
  repeat (destruct (jsstring_eqb _ _); [reflexivity|]). reflexivity.
Qed.

Lemma citationPattern_spec open close prev s key len :
  citationPattern open close prev s = Some (key, len) ->
  exists rest, matchToken open isCiteKeyChar close s = Some (key, rest)
               /\ len = length (open ++ key ++ close).
Proof.
  unfold citationPattern.
  destruct (matchToken _ _ _ s) as [[k rest]|] eqn:E; [|easy].
  intros [= <- <-]. exists rest. split; [reflexivity|].
  now apply matchToken_length in E.
Qed.

Lemma citationPattern_selfAvoiding open close c0 :
  open !! 0 = Some c0 ->
  (forall c, In c (drop 1 open ++ close) -> c <> c0) ->
  isCiteKeyChar c0 = false ->
  selfAvoiding (citationPattern open close).
Proof.
  intros Hopen Hlit Hkey prev prev' s key len k Hm Hk Hlt.
  apply citationPattern_spec in Hm as (rest & E & ->).
  pose proof (matchToken_spec _ _ _ _ _ _ E) as (_ & _ & Hw).
  assert (Hhead : match drop k s with c :: _ => c <> c0 | [] => True end).
  { apply (matchToken_inside _ _ _ _ _ _ _ _ E Hk Hlt).
    intros c Hc. rewrite !in_app_iff in Hc. destruct Hc as [Hc|[Hc|Hc]].
    - apply Hlit. apply in_app_iff. now left.
    - rewrite forallb_forall in Hw. specialize (Hw c Hc). congruence.
    - apply Hlit. apply in_app_iff. now right. }
  unfold citationPattern, matchToken.
  now rewrite (stripLiteral_head open c0 (drop k s) Hopen Hhead).
Qed.

Lemma delimiters_selfAvoiding citationFormat open close :
  citationDelimiters citationFormat = Some (open, close) ->
  selfAvoiding (citationPattern open close)
  /\ match close with c :: _ => isCiteKeyChar c = false | [] => False end.
Proof.
  unfold citationDelimiters.
  destruct (jsstring_eqb _ _).
  { intros [= <- <-]. split; [|reflexivity].
    apply (citationPattern_selfAvoiding _ _ 91%N); [reflexivity| |reflexivity].
    intros c Hc. simpl in Hc. intuition (subst; easy). }
  destruct (jsstring_eqb _ _).
  { intros [= <- <-]. split; [|reflexivity].
    apply (citationPattern_selfAvoiding _ _ 92%N); [reflexivity| |reflexivity].
    intros c Hc. simpl in Hc. intuition (subst; easy). }
  destruct (jsstring_eqb _ _); [|easy].
  intros [= <- <-]. split; [|reflexivity].
  apply (citationPattern_selfAvoiding _ _ 35%N); [reflexivity| |reflexivity].
  intros c Hc. simpl in Hc. intuition (subst; easy).
Qed.

(** X25. For each of the three supported token formats, wherever the text
    reads opening + key + closing with a non-empty key of key characters, in
    a run that is not code, the matcher of [extractCitationsFromBlock]
    reports that token with that key and those positions. *)
Theorem every_citation_token_is_matched
  (config : Citations.CitationsConfig) (open close : jsstring)
  (richTexts : list RichText) (j : nat) (key rest : jsstring) (rt : RichText) :
  citationDelimiters (Citations.in_text_citation_format config) = Some (open, close) ->
  drop j (joinPlainText richTexts) = (open ++ key ++ close) ++ rest ->
  key <> [] -> forallb isCiteKeyChar key = true ->
  runAt richTexts j rt -> Code (Annotation_ rt) = false ->
  Citations.citationPatternOf (Citations.in_text_citation_format config)
  = Some (citationPattern open close)
  /\ In (Citations.mkCitationMatch key j (j + length (open ++ key ++ close))
          (open ++ key ++ close))
       (Citations.findCitationMatches (citationPattern open close) richTexts).
Proof.
  intros Hd Hdrop Hk Hw Hrun Hcode.
  split; [now rewrite citationPatternOf_delimiters, Hd|].
  destruct (delimiters_selfAvoiding _ _ _ Hd) as [Hsa Hclose].
  set (T := joinPlainText richTexts) in *.
  set (F := open ++ key ++ close) in *.
  assert (Hj : j < length T).
  { destruct Hrun as (pre & post & Hs & H1 & H2). subst T. rewrite Hs.
    rewrite joinPlainText_app, joinPlainText_cons, !length_app. lia. }
  assert (Hm : citationPattern open close None (drop j T) = Some (key, length F)).
  { rewrite Hdrop. unfold citationPattern. subst F.
    replace ((open ++ key ++ close) ++ rest) with (open ++ key ++ close ++ rest)
      by now rewrite <- !app_assoc.
    rewrite (matchToken_app _ _ _ key rest Hk Hw).
    - f_equal. f_equal. rewrite !length_app. lia.
    - destruct close as [|c close]; [easy|exact Hclose]. }
  assert (Hpos : forall prev s key len,
            citationPattern open close prev s = Some (key, len) -> 0 < len).
  { intros prev s k len H. apply citationPattern_spec in H as (r & E & ->).
    apply matchToken_spec in E as (_ & Hne & _).
    rewrite !length_app. destruct k; [easy|simpl; lia]. }
  pose proof (execLoop_complete (citationPattern open close) None 0 0 T j key
                (length F) Hsa (fun _ _ _ => eq_refl) Hpos ltac:(lia) Hj Hm) as Hin.
  rewrite Hdrop, take_app_length in Hin. simpl in Hin.
  unfold Citations.findCitationMatches.
  apply List.in_map_iff. exists (mkMatch j F key). split; [reflexivity|].
  apply List.filter_In. split; [exact Hin|].
  simpl. now rewrite (inCodeRun_runAt _ _ _ Hrun), Hcode.
Qed.

Lemma every_citation_token_is_matched_witness :
  let rt := textSpan boldAnnotation (js "[@smith2020]") in
  citationDelimiters (Citations.in_text_citation_format pandocConfig)
  = Some (js "[@", js "]")
  /\ runAt (richTexts citingLocation) 11 rt
  /\ In (Citations.mkCitationMatch (js "smith2020") 11
           (11 + length (js "[@" ++ js "smith2020" ++ js "]"))
           (js "[@" ++ js "smith2020" ++ js "]"))
       (Citations.findCitationMatches (citationPattern (js "[@") (js "]"))
          (richTexts citingLocation)).
Proof.
  cbv zeta.
  assert (Hrun : runAt (richTexts citingLocation) 11
                   (textSpan boldAnnotation (js "[@smith2020]"))).
  { exists [textSpan plainAnnotation (js "Prior work ")],
           [textSpan plainAnnotation (js " shows [@doe2019] and ");
            textSpan codeAnnotation (js "[@smith2020]")].
    repeat split; simpl; lia. }
  split; [reflexivity|]. split; [exact Hrun|].
  refine (proj2 (every_citation_token_is_matched pandocConfig (js "[@") (js "]")
                   (richTexts citingLocation) 11 (js "smith2020")
                   (js " shows [@doe2019] and [@smith2020]") _ eq_refl eq_refl _ eq_refl
                   Hrun eq_refl)).
  easy.
Defined.

(** ** A definition prefix at the start of a text *)

Lemma removeMarkerPrefix_join l n :
  joinPlainText (removeMarkerPrefix l n) = drop n (joinPlainText l).
Proof.
  unfold removeMarkerPrefix.
  destruct l as [|rt l]; [now destruct n|].
  destruct n as [|n]; [reflexivity|].
  apply removeMarkerPrefixLoop_join.
Qed.

Lemma removeMarkerPrefix_formatting l n s :
  In s (removeMarkerPrefix l n) -> exists o, In o l /\ sameFormatting o s.
Proof.
  unfold removeMarkerPrefix.
  destruct ((length l =? 0) || (n =? 0)).
  - intros H. exists s. split; [exact H | apply sameFormatting_refl].
  - apply removeMarkerPrefixLoop_formatting.
Qed.

Lemma createContentPattern_head markerPrefix key ws rest :
  key <> [] -> forallb isWordChar key = true ->
  forallb isWhiteSpace ws = true ->
  match rest with c :: _ => isWhiteSpace c = false | [] => True end ->
  exec (createContentPattern markerPrefix)
    ((js "[^" ++ markerPrefix ++ key ++ js "]:" ++ ws) ++ rest) 0
  = (Some (mkMatch 0 (js "[^" ++ markerPrefix ++ key ++ js "]:" ++ ws) key),
     length (js "[^" ++ markerPrefix ++ key ++ js "]:" ++ ws)).
Proof.
  intros Hk Hw Hws Hrest. unfold exec. rewrite drop_0.
  set (P := js "[^" ++ markerPrefix ++ key ++ js "]:" ++ ws).
  assert (HT : P ++ rest = (js "[^" ++ markerPrefix) ++ key ++ js "]:" ++ (ws ++ rest))
    by (subst P; now rewrite <- !app_assoc).
  assert (Hm : createContentPattern markerPrefix None (P ++ rest)
               = Some (key, length P)).
  { unfold createContentPattern. rewrite HT.
    rewrite (matchToken_app _ _ _ key (ws ++ rest) Hk Hw) by reflexivity.
    rewrite (spanClass_app _ ws rest Hws Hrest). cbn [snd].
    rewrite <- HT, length_app. f_equal. f_equal. lia. }
  destruct (P ++ rest) as [|c s] eqn:E.
  { subst P. discriminate E. }
  cbn [execSearch]. rewrite Hm. cbn [index match0].
  rewrite <- E, take_app_length. reflexivity.
Qed.

(** X26. A child whose first location starts with a definition prefix
    (["[^" + prefix + key + "]:"] and white space) is recognised by the scan of
    [extractStartOfChildBlocksFootnotes]: it becomes the footnote of that
    key, with the child itself as content, and the child loses exactly the
    prefix and the white space after it in its first location, the rest of
    the text keeping its formatting. *)
Theorem definition_child_becomes_footnote
  (markerPrefix key ws rest : jsstring) (child : Block)
  (location0 : RichTextLocation) (others : list RichTextLocation) :
  getAllRichTextLocations child = location0 :: others ->
  joinPlainText (richTexts location0)
  = (js "[^" ++ markerPrefix ++ key ++ js "]:" ++ ws) ++ rest ->
  key <> [] -> forallb isWordChar key = true ->
  forallb isWhiteSpace ws = true ->
  match rest with c :: _ => isWhiteSpace c = false | [] => True end ->
  isDefinitionChild markerPrefix child = true
  /\ footnoteOfChild markerPrefix child
     = [mkFootnote key (js "[^" ++ markerPrefix ++ key ++ js "]")
          (blocks [strippedChild markerPrefix child]) content]
  /\ exists v,
       readPath (setter location0) (strippedChild markerPrefix child) = Some v
       /\ joinPlainText v = rest
       /\ (forall s, In s v ->
             exists o, In o (richTexts location0) /\ sameFormatting o s).
Proof.
  intros Hl HT Hk Hw Hws Hrest.
  pose proof (createContentPattern_head markerPrefix key ws rest Hk Hw Hws Hrest) as He.
  rewrite <- HT in He.
  assert (Hd : definitionOfChild markerPrefix child
               = Some (location0,
                       mkMatch 0 (js "[^" ++ markerPrefix ++ key ++ js "]:" ++ ws) key)).
  { unfold definitionOfChild. now rewrite Hl, He. }
  unfold isDefinitionChild, footnoteOfChild, strippedChild. rewrite Hd. cbn [match0 match1].
  split; [now apply bool_decide_eq_true|]. split; [reflexivity|].
  eexists. split; [|split].
  - apply readPath_runSetter_same.
    rewrite (readPath_location child location0); [easy|]. rewrite Hl. now left.
  - rewrite removeMarkerPrefix_join, HT. apply drop_app_length.
  - intros s. apply removeMarkerPrefix_formatting.
Qed.

Lemma definition_child_becomes_footnote_witness :
  getAllRichTextLocations noteChildA = [noteChildALocation]
  /\ joinPlainText (richTexts noteChildALocation)
     = (js "[^" ++ js "ft_" ++ js "a" ++ js "]:" ++ js " ") ++ js "first note"
  /\ isDefinitionChild (js "ft_") noteChildA = true
  /\ footnoteOfChild (js "ft_") noteChildA
     = [mkFootnote (js "a") (js "[^" ++ js "ft_" ++ js "a" ++ js "]")
          (blocks [strippedChild (js "ft_") noteChildA]) content].
Proof.
  split; [reflexivity|]. split; [reflexivity|].
  destruct (definition_child_becomes_footnote (js "ft_") (js "a") (js " ")
              (js "first note") noteChildA noteChildALocation []
              eq_refl eq_refl ltac:(easy) eq_refl eq_refl eq_refl) as (H1 & H2 & _).
  split; [exact H1 | exact H2].
Defined.

Lemma orString_nil_Some s : orString [] (Some s) = s.
Proof. now destruct s. Qed.

Section CommentFootnote.

Variable urlPathname : jsstring -> option jsstring.
Variable isConvImageType : jsstring -> bool.
Variable OPTIMIZE_IMAGES : bool.

(** X27. A comment without attachments whose first text starts with a
    definition prefix, met while [lastIndex] is 0, becomes the footnote of
    that key: its content is the text of the comment after the prefix and the
    white space that follows it, in the formatting of the comment. The loop
    goes on with [lastIndex] at the end of the prefix. *)
Theorem footnote_comment_becomes_footnote
  (markerPrefix key ws body : jsstring) (comment_ : NotionComment)
  (rest : list NotionComment) (footnotes : list Footnote)
  (first : NotionRichText) (others : list NotionRichText) :
  rich_text_ comment_ = Some (first :: others) ->
  plain_text first = Some ((js "[^" ++ markerPrefix ++ key ++ js "]:" ++ ws) ++ body) ->
  attachments comment_ = None ->
  key <> [] -> forallb isWordChar key = true ->
  forallb isWhiteSpace ws = true ->
  match body with c :: _ => isWhiteSpace c = false | [] => True end ->
  exists cleaned,
    processComments urlPathname isConvImageType OPTIMIZE_IMAGES markerPrefix
      (comment_ :: rest) 0 footnotes
    = processComments urlPathname isConvImageType OPTIMIZE_IMAGES markerPrefix rest
        (length (js "[^" ++ markerPrefix ++ key ++ js "]:" ++ ws))
        (footnotes
           ++ [mkFootnote key (js "[^" ++ markerPrefix ++ key ++ js "]")
                 (comment cleaned None) comment_source])
    /\ joinPlainText cleaned
       = body ++ joinPlainText (convertNotionRichTextToOurFormat others)
    /\ (forall s, In s cleaned ->
          exists o, In o (convertNotionRichTextToOurFormat (first :: others))
                    /\ sameFormatting o s).
Proof.
  intros Hrt Hpt Hat Hk Hw Hws Hbody.
  pose proof (createContentPattern_head markerPrefix key ws body Hk Hw Hws Hbody) as He.
  eexists. split; [|split].
  - cbn [processComments]. rewrite Hrt. cbn [default id]. rewrite Hpt, orString_nil_Some.
    rewrite He, Hat. cbn [default id collectAttachments bind match0 match1]. reflexivity.
  - rewrite removeMarkerPrefix_join.
    unfold convertNotionRichTextToOurFormat. cbn [List.map].
    rewrite joinPlainText_cons. cbn [convertOne PlainText].
    rewrite Hpt, orString_nil_Some, <- app_assoc.
    apply drop_app_length.
  - intros s. apply removeMarkerPrefix_formatting.
Qed.

End CommentFootnote.

Lemma footnote_comment_becomes_footnote_witness :
  let text := (js "[^" ++ js "ft_" ++ js "a" ++ js "]:" ++ js " ") ++ js "one" in
  attachments (noteComment text) = None
  /\ exists cleaned,
       processComments (fun _ => None) (fun _ => false) false (js "ft_")
         [noteComment text] 0 []
       = Ret [mkFootnote (js "a") (js "[^" ++ js "ft_" ++ js "a" ++ js "]")
                (comment cleaned None) comment_source]
       /\ joinPlainText cleaned = js "one".
Proof.
  cbv zeta. split; [reflexivity|].
  destruct (footnote_comment_becomes_footnote (fun _ => None) (fun _ => false) false
              (js "ft_") (js "a") (js " ") (js "one")
              (noteComment ((js "[^" ++ js "ft_" ++ js "a" ++ js "]:" ++ js " ") ++ js "one"))
              [] [] _ [] eq_refl eq_refl eq_refl ltac:(easy) eq_refl eq_refl eq_refl)
    as (cleaned & H1 & H2 & _).
  exists cleaned. split; [exact H1 | exact H2].
Defined.

(** ** The run that owns a position, through the splits *)

Lemma runAt_nil i s : ~ runAt [] i s.
Proof. intros (pre & post & E & _). now destruct pre. Qed.

Lemma runAt_lt l i s : runAt l i s -> i < length (joinPlainText l).
Proof.
  intros (pre & post & -> & _ & H).
  rewrite joinPlainText_app, joinPlainText_cons, !length_app. lia.
Qed.

Lemma runAt_here x l i : i < length (PlainText x) -> runAt (x :: l) i x.
Proof. intros H. exists [], l. simpl. split; [reflexivity|lia]. Qed.

Lemma runAt_later x l i s : runAt l i s -> runAt (x :: l) (length (PlainText x) + i) s.
Proof.
  intros (pre & post & -> & H1 & H2). exists (x :: pre), post.
  rewrite joinPlainText_cons, length_app. split; [reflexivity|lia].
Qed.

Lemma runAt_cons_inv x l i s :
  runAt (x :: l) i s ->
  (s = x /\ i < length (PlainText x))
  \/ (length (PlainText x) <= i /\ runAt l (i - length (PlainText x)) s).
Proof.
  intros (pre & post & E & H1 & H2). destruct pre as [|y pre].
  - injection E as -> _. left. simpl in *. split; [reflexivity|lia].
  - injection E as -> ->. right.
    rewrite joinPlainText_cons, length_app in H1, H2.
    split; [lia|]. exists pre, post. split; [reflexivity|lia].
Qed.

Lemma runAt_app_inv a b i s :
  runAt (a ++ b) i s ->
  runAt a i s
  \/ (length (joinPlainText a) <= i /\ runAt b (i - length (joinPlainText a)) s).
Proof.
  revert i. induction a as [|x a IH]; intros i H.
  - right. simpl. rewrite Nat.sub_0_r. split; [lia|exact H].
  - simpl in H. apply runAt_cons_inv in H as [[-> Hi]|[Hi H]].
    + left. now apply runAt_here.
    + apply IH in H as [H|[Hle H]].
      * left. replace i with (length (PlainText x) + (i - length (PlainText x))) by lia.
        now apply runAt_later.
      * right. rewrite joinPlainText_cons, length_app. split; [lia|].
        now replace (i - (length (PlainText x) + length (joinPlainText a)))
          with (i - length (PlainText x) - length (joinPlainText a)) by lia.
Qed.

(** The two halves of a split hold, position by position, fragments of the
    runs that held those positions. *)
Lemma splitLoop_runAt l k pos :
  (forall i s, runAt (fst (splitLoop l k pos)) i s ->
     exists o, runAt l i o /\ fragmentOf o s)
  /\ (forall i s, runAt (snd (splitLoop l k pos)) i s ->
        exists o, runAt l (length (joinPlainText (fst (splitLoop l k pos))) + i) o
                  /\ fragmentOf o s).
Proof.
  revert pos. induction l as [|rt rest IH]; intros pos.
  - simpl. split; intros i s H; now apply runAt_nil in H.
  - cbn [splitLoop]. cbv zeta.
    destruct (Nat.leb_spec k pos) as [Hk|Hk].
    { rewrite splitLoop_all_after by lia. cbn [fst snd]. split; intros i s H.
      - now apply runAt_nil in H.
      - exists s. split; [exact H | apply fragmentOf_refl]. }
    destruct (Nat.leb_spec (pos + length (PlainText rt)) k) as [Hk'|Hk'].
    { destruct (IH (pos + length (PlainText rt))) as [IH1 IH2].
      destruct (splitLoop rest k (pos + length (PlainText rt))) as [b a].
      cbn [fst snd] in *. split; intros i s H.
      - apply runAt_cons_inv in H as [[-> Hi]|[Hi H]].
        + exists rt. split; [now apply runAt_here | apply fragmentOf_refl].
        + destruct (IH1 _ _ H) as (o & Ho & Hf). exists o. split; [|exact Hf].
          replace i with (length (PlainText rt) + (i - length (PlainText rt))) by lia.
          now apply runAt_later.
      - destruct (IH2 _ _ H) as (o & Ho & Hf). exists o. split; [|exact Hf].
        rewrite joinPlainText_cons, length_app, <- Nat.add_assoc.
        now apply runAt_later. }
    rewrite splitLoop_all_after by lia.
    destruct (Nat.ltb_spec 0 (k - pos)) as [H0|H0]; [|lia].
    destruct (Nat.ltb_spec (k - pos) (length (PlainText rt))) as [H1|H1]; [|lia].
    cbn [fst snd]. split; intros i s H.
    + apply runAt_cons_inv in H as [[-> Hi]|[_ H]]; [|now apply runAt_nil in H].
      rewrite PlainText_pieceOf in Hi. unfold substring in Hi.
      rewrite length_take, length_drop in Hi.
      exists rt. split; [apply runAt_here; lia | right; eauto].
    + rewrite joinPlainText_cons, PlainText_pieceOf. unfold substring at 1.
      change (joinPlainText []) with (@nil N). rewrite app_nil_r, length_take, length_drop.
      replace (Nat.min (Nat.max 0 (k - pos) - Nat.min 0 (k - pos))
                 (length (PlainText rt) - Nat.min 0 (k - pos))) with (k - pos) by lia.
      apply runAt_cons_inv in H as [[-> Hi]|[Hi H]].
      * rewrite PlainText_pieceOf in Hi. unfold substringFrom in Hi.
        rewrite length_drop in Hi.
        exists rt. split; [apply runAt_here; lia | right; eauto].
      * rewrite PlainText_pieceOf in Hi, H. unfold substringFrom in Hi, H.
        rewrite length_drop in Hi, H.
        exists s. split; [|apply fragmentOf_refl].
        replace (k - pos + i)
          with (length (PlainText rt) + (i - (length (PlainText rt) - (k - pos)))) by lia.
        now apply runAt_later.
Qed.

Lemma split_runAt_before l k i s :
  runAt (fst (splitRichTextsAtCharPosition l k)) i s ->
  exists o, runAt l i o /\ fragmentOf o s.
Proof. apply splitLoop_runAt. Qed.

Lemma split_runAt_after l k i s :
  runAt (snd (splitRichTextsAtCharPosition l k)) i s ->
  exists o, runAt l (Nat.min k (length (joinPlainText l)) + i) o /\ fragmentOf o s.
Proof.
  intros H. apply splitLoop_runAt in H.
  fold (splitRichTextsAtCharPosition l k) in H.
  now rewrite split_join_take, length_take in H.
Qed.

(** ** Positions outside the markers, through the marker loop *)

Lemma splitAtMarker_runAt result m i s :
  i < CharStart (Location m) \/ CharStart (Location m) + length (FullMarker m) <= i ->
  runAt (splitAtMarker result m) i s ->
  exists o, runAt result i o /\ fragmentOf o s.
Proof.
  intros Hout. unfold splitAtMarker.
  pose proof (split_join_take result (CharStart (Location m))) as Hb.
  pose proof (split_runAt_before result (CharStart (Location m))) as Rb.
  pose proof (split_runAt_after result (CharStart (Location m))) as Ra.
  pose proof (split_join_drop result (CharStart (Location m))) as Ha.
  destruct (splitRichTextsAtCharPosition result (CharStart (Location m)))
    as [before after]. cbn [fst snd] in *.
  pose proof (split_join_take after (length (FullMarker m))) as Hmp.
  pose proof (split_runAt_after after (length (FullMarker m))) as Ram.
  destruct (splitRichTextsAtCharPosition after (length (FullMarker m)))
    as [markerPart afterMarker]. cbn [fst snd] in *.
  assert (Hlb : length (joinPlainText before)
                = Nat.min (CharStart (Location m)) (length (joinPlainText result)))
    by (rewrite Hb; apply length_take).
  assert (Hla : length (joinPlainText after)
                = length (joinPlainText result) - CharStart (Location m))
    by (rewrite Ha; apply length_drop).
  assert (Hlm : length (joinPlainText
                          (updateFirst (setFootnoteMarker (Marker m)) markerPart))
                = Nat.min (length (FullMarker m)) (length (joinPlainText after))).
  { replace (joinPlainText (updateFirst (setFootnoteMarker (Marker m)) markerPart))
      with (joinPlainText markerPart) by now destruct markerPart.
    rewrite Hmp. apply length_take. }
  intros H. apply runAt_app_inv in H as [H|[Hi H]]; [now apply Rb|].
  apply runAt_app_inv in H as [H|[Hj H]].
  - apply runAt_lt in H. lia.
  - pose proof (runAt_lt _ _ _ H) as Hlt.
    apply Ram in H as (o1 & H & Hf1).
    pose proof (runAt_lt _ _ _ H) as Hlt1.
    apply Ra in H as (o & H & Hf).
    exists o. split; [|eapply fragmentOf_trans; eassumption].
    replace i with
      (Nat.min (CharStart (Location m)) (length (joinPlainText result))
       + (Nat.min (length (FullMarker m)) (length (joinPlainText after))
          + (i - length (joinPlainText before)
             - length (joinPlainText
                         (updateFirst (setFootnoteMarker (Marker m)) markerPart)))))
      by lia.
    exact H.
Qed.

Lemma fold_splitAtMarker_runAt ms result i s :
  (forall m, In m ms ->
     i < CharStart (Location m) \/ CharStart (Location m) + length (FullMarker m) <= i) ->
  runAt (fold_left splitAtMarker ms result) i s ->
  exists o, runAt result i o /\ fragmentOf o s.
Proof.
  revert result. induction ms as [|m ms IH]; intros result Hout H; cbn [fold_left] in H.
  - exists s. split; [exact H | apply fragmentOf_refl].
  - apply IH in H as (o1 & H & Hf1); [|intros m' Hm'; apply Hout; now right].
    apply splitAtMarker_runAt in H as (o & H & Hf); [|apply Hout; now left].
    exists o. split; [exact H | eapply fragmentOf_trans; eassumption].
Qed.

Lemma splitRichTextWithMarkers_runAt location markers i s :
  (forall m, In m markers -> BlockProperty (Location m) = property location ->
     i < CharStart (Location m) \/ CharStart (Location m) + length (FullMarker m) <= i) ->
  runAt (splitRichTextWithMarkers location markers) i s ->
  exists o, runAt (richTexts location) i o /\ fragmentOf o s.
Proof.
  intros Hout. rewrite splitRichTextWithMarkers_fold.
  apply fold_splitAtMarker_runAt. intros m Hm.
  apply (Permutation_in _ (Array_sort_Permutation _ _)) in Hm.
  apply List.filter_In in Hm as [Hm Hp].
  apply Hout; [exact Hm|]. unfold jsstring_eqb in Hp. now apply bool_decide_eq_true in Hp.
Qed.

(** ** Matches of one pattern do not overlap *)

Lemma StronglySorted_cases {A} (R : A -> A -> Prop) l a b :
  StronglySorted R l -> In a l -> In b l -> a = b \/ R a b \/ R b a.
Proof.
  induction 1 as [|x l Hs IH Hf]; [easy|].
  rewrite List.Forall_forall in Hf.
  intros [<-|Ha] [<-|Hb]; auto.
Qed.

Lemma execAll_apart p text r r' :
  In r (execAll p text) -> In r' (execAll p text) ->
  r = r' \/ matchBefore r r' \/ matchBefore r' r.
Proof. apply StronglySorted_cases, execLoop_sorted. Qed.

(** A match that starts in a code run lies apart from every reported
    marker of its location. *)
Lemma code_match_apart_from_markers block markerPrefix location r rt m i :
  In location (getAllRichTextLocations block) ->
  In r (execAll (inlineMarkerPattern markerPrefix) (joinPlainText (richTexts location))) ->
  runAt (richTexts location) (index r) rt -> Code (Annotation_ rt) = true ->
  In m (findAllFootnoteMarkers (getAllRichTextLocations block) markerPrefix) ->
  BlockProperty (Location m) = property location ->
  index r <= i < index r + length (match0 r) ->
  i < CharStart (Location m) \/ CharStart (Location m) + length (FullMarker m) <= i.
Proof.
  intros Hl Hr Hrun Hcode Hm Hp Hi.
  assert (Hml : In m (findMarkersInLocation markerPrefix location)).
  { rewrite <- (markers_of_location markerPrefix _ location
                  (location_properties_NoDup block) Hl).
    apply List.filter_In. split; [exact Hm|].
    unfold jsstring_eqb. now apply bool_decide_eq_true. }
  unfold findMarkersInLocation in Hml.
  apply in_concat in Hml as (ms & Hms & Hm').
  apply List.in_map_iff in Hms as (r' & <- & Hr').
  apply markerOfMatch_inv in Hm' as (j & rt' & Hrun' & Hc' & ->). cbn.
  destruct (execAll_apart _ _ _ _ Hr Hr') as [->|[H|H]].
  - rewrite (runAt_unique _ _ _ _ Hrun Hrun') in Hcode. congruence.
  - unfold matchBefore in H. lia.
  - unfold matchBefore in H. lia.
Qed.

(** ** Reading a location back after the strategies *)

Lemma readPath_flagMarkers markers b b1 l :
  getAllRichTextLocations b1 = getAllRichTextLocations b ->
  In l (getAllRichTextLocations b) ->
  readPath (setter l) (flagMarkers markers (getAllRichTextLocations b) b1)
  = Some (splitRichTextWithMarkers l markers).
Proof.
  intros Hb Hl.
  pose proof (flagMarkers_locations markers b b1 Hb) as HL.
  set (l' := mkLocation (property l) (splitRichTextWithMarkers l markers) (setter l)).
  assert (Hl' : In l' (getAllRichTextLocations
                         (flagMarkers markers (getAllRichTextLocations b) b1))).
  { rewrite HL. apply List.in_map_iff. now exists l. }
  exact (readPath_location _ _ Hl').
Qed.

Lemma endOfBlockRichTexts_runAt markerPrefix markers location i s :
  (forall m, In m markers -> BlockProperty (Location m) = property location ->
     i < CharStart (Location m) \/ CharStart (Location m) + length (FullMarker m) <= i) ->
  runAt (endOfBlockRichTexts markerPrefix markers location) i s ->
  exists o, runAt (richTexts location) i o /\ fragmentOf o s.
Proof.
  intros Hout H. unfold endOfBlockRichTexts in H.
  apply splitRichTextWithMarkers_runAt in H as (o1 & H & Hf1); [|exact Hout].
  cbn [richTexts] in H. rewrite extractFootnoteDefinitions_cached in H.
  destruct (firstDefinitionIndex (joinPlainText (richTexts location))) as [k|].
  - cbn [fst] in H. apply split_runAt_before in H as (o & H & Hf).
    exists o. split; [exact H | eapply fragmentOf_trans; eassumption].
  - exists o1. split; [exact H | exact Hf1].
Qed.

Section FootnoteStrategies.

Variable urlPathname : jsstring -> option jsstring.
Variable isConvImageType : jsstring -> bool.
Variable OPTIMIZE_IMAGES : bool.

(** Whatever the source, a position that lies apart from every reported
    marker of a location is still held, after the extraction, by a fragment
    of the run that held it. *)
Lemma extractFootnotes_runAt block config hasCommentsClient location i :
  In location (getAllRichTextLocations block) ->
  (forall m, In m (findAllFootnoteMarkers (getAllRichTextLocations block)
                     (marker_prefix config)) ->
     BlockProperty (Location m) = property location ->
     i < CharStart (Location m) \/ CharStart (Location m) + length (FullMarker m) <= i) ->
  always
    (fun '(block', _) =>
       exists v, readPath (setter location) block' = Some v
         /\ forall s, runAt v i s ->
              exists o, runAt (richTexts location) i o /\ fragmentOf o s)
    (extractFootnotesFromBlock urlPathname isConvImageType OPTIMIZE_IMAGES
       block config hasCommentsClient).
Proof.
  intros Hl Hout.
  assert (Hsame : exists v, readPath (setter location) block = Some v
            /\ forall s, runAt v i s ->
                 exists o, runAt (richTexts location) i o /\ fragmentOf o s).
  { exists (richTexts location). split; [now apply readPath_location|].
    intros s H. exists s. split; [exact H | apply fragmentOf_refl]. }
  assert (Hflag : forall b1, getAllRichTextLocations b1 = getAllRichTextLocations block ->
            exists v,
              readPath (setter location)
                (fold_left (fun b location0 =>
                              runSetter (setter location0)
                                (splitRichTextWithMarkers location0
                                   (findAllFootnoteMarkers (getAllRichTextLocations block)
                                      (marker_prefix config))) b)
                   (getAllRichTextLocations block) b1) = Some v
              /\ forall s, runAt v i s ->
                   exists o, runAt (richTexts location) i o /\ fragmentOf o s).
  { intros b1 Hb1. eexists. split; [exact (readPath_flagMarkers _ block b1 _ Hb1 Hl)|].
    intros s. now apply splitRichTextWithMarkers_runAt. }
  unfold extractFootnotesFromBlock.
  destruct (getActiveSource config) as [[]|]; cbn [always].
  - unfold extractEndOfBlockFootnotes.
    destruct (length _ =? 0); [exact Hsame|].
    pose proof (endOfBlock_fold_read (marker_prefix config)
                  (findAllFootnoteMarkers (getAllRichTextLocations block)
                     (marker_prefix config))
                  (getAllRichTextLocations block) block [] location
                  (getAll_setters_NoDup block)) as Hread.
    destruct (fold_left _ _ _) as [b' fs]. cbn [fst] in Hread.
    eexists. split.
    + apply Hread; [|exact Hl]. intros l' Hl'.
      rewrite (readPath_location block l' Hl'). easy.
    + intros s. now apply endOfBlockRichTexts_runAt.
  - unfold extractStartOfChildBlocksFootnotes.
    destruct (length _ =? 0); [exact Hsame|].
    apply Hflag, getAll_setChildren.
  - unfold extractBlockCommentsFootnotes.
    destruct (length _ =? 0); [exact Hsame|].
    destruct hasCommentsClient; [|exact Hsame]. cbn [negb].
    apply always_catch; [|intros e; exact Hsame].
    simpl. intros [response|e]; simpl; [|easy].
    apply whenReturns_bind. intros fs. simpl. now apply Hflag.
  - exact Hsame.
Qed.

End FootnoteStrategies.

(** ** Positions outside the replaced tokens, through the citation loop *)

Section ReplaceRunAt.

Variable bibEntries : gmap jsstring Citations.ParsedCitationEntry.
Variable style : Citations.BibliographyStyle.

Lemma replaceMatch_runAt rts cits m i s :
  wfMatch (joinPlainText rts) m ->
  i < Citations.match_start m \/ Citations.match_end m <= i ->
  runAt (fst (Citations.replaceMatch bibEntries style (rts, cits) m)) i s ->
  exists o, runAt rts i o /\ fragmentOf o s.
Proof.
  intros (He & Hle & Hm) Hout.
  destruct (bibEntries !! Citations.match_key m) as [entry|] eqn:E.
  2:{ rewrite replaceMatch_unresolved by exact E. cbn [fst]. intros H.
      exists s. split; [exact H | apply fragmentOf_refl]. }
  rewrite (replaceMatch_resolved _ _ _ _ _ _ E). cbn [fst].
  set (k := Citations.match_start m) in *.
  set (n := Citations.match_end m - k).
  pose proof (split_join_take rts k) as Hb.
  pose proof (split_runAt_before rts k) as Rb.
  pose proof (split_runAt_after rts k) as Ra.
  pose proof (split_join_drop rts k) as Ha.
  pose proof (split_runAt_after (snd (splitRichTextsAtCharPosition rts k)) n) as Ram.
  set (before := fst (splitRichTextsAtCharPosition rts k)) in *.
  set (after := snd (splitRichTextsAtCharPosition rts k)) in *.
  assert (Hlb : length (joinPlainText before) = k)
    by (rewrite Hb, length_take; lia).
  assert (Hla : length (joinPlainText after) = length (joinPlainText rts) - k)
    by (rewrite Ha; apply length_drop).
  intros H. apply runAt_app_inv in H as [H|[Hi H]]; [now apply Rb|].
  cbn [app] in H. apply runAt_cons_inv in H as [[-> Hj]|[Hj H]].
  - cbn [PlainText Citations.markerText] in Hj. lia.
  - cbn [PlainText Citations.markerText] in Hj, H.
    apply Ram in H as (o1 & H & Hf1).
    apply Ra in H as (o & H & Hf).
    exists o. split; [|eapply fragmentOf_trans; eassumption].
    replace i with
      (Nat.min k (length (joinPlainText rts))
       + (Nat.min n (length (joinPlainText after))
          + (i - length (joinPlainText before) - length (Citations.fullMatch m))))
      by (subst n; lia).
    exact H.
Qed.

Lemma fold_replace_runAt ms rts cits i s :
  (forall m, In m ms -> wfMatch (joinPlainText rts) m) ->
  (forall m, In m ms -> i < Citations.match_start m \/ Citations.match_end m <= i) ->
  runAt (fst (fold_left (Citations.replaceMatch bibEntries style) ms (rts, cits))) i s ->
  exists o, runAt rts i o /\ fragmentOf o s.
Proof.
  revert rts cits. induction ms as [|m ms IH]; intros rts cits Hwf Hout H;
    cbn [fold_left] in H.
  - exists s. split; [exact H | apply fragmentOf_refl].
  - destruct (Citations.replaceMatch bibEntries style (rts, cits) m)
      as [rts1 cits1] eqn:E.
    assert (Hj : joinPlainText rts1 = joinPlainText rts).
    { change rts1 with (fst (rts1, cits1)). rewrite <- E.
      apply replaceMatch_join, Hwf. now left. }
    apply IH in H as (o1 & H & Hf1).
    + change rts1 with (fst (rts1, cits1)) in H. rewrite <- E in H.
      apply replaceMatch_runAt in H as (o & H & Hf);
        [|apply Hwf; now left | apply Hout; now left].
      exists o. split; [exact H | eapply fragmentOf_trans; eassumption].
    + intros m' Hm'. rewrite Hj. apply Hwf. now right.
    + intros m' Hm'. apply Hout. now right.
Qed.

End ReplaceRunAt.

(** A match that starts in a code run lies apart from every match the
    citation loop keeps. *)
Lemma code_match_apart_from_citations pattern richTexts r rt m i :
  In r (execAll pattern (joinPlainText richTexts)) ->
  runAt richTexts (index r) rt -> Code (Annotation_ rt) = true ->
  In m (Citations.findCitationMatches pattern richTexts) ->
  index r <= i < index r + length (match0 r) ->
  i < Citations.match_start m \/ Citations.match_end m <= i.
Proof.
  intros Hr Hrun Hcode Hm Hi.
  apply findCitationMatches_inv in Hm as (r' & Hr' & Hc' & ->). cbn.
  destruct (execAll_apart _ _ _ _ Hr Hr') as [->|[H|H]].
  - rewrite (inCodeRun_runAt _ _ _ Hrun) in Hc'. congruence.
  - unfold matchBefore in H. lia.
  - unfold matchBefore in H. lia.
Qed.

Lemma citations_runAt block config bibEntries pattern location r rt i :
  Citations.citationPatternOf (Citations.in_text_citation_format config) = Some pattern ->
  In location (getAllRichTextLocations block) ->
  In r (execAll pattern (joinPlainText (richTexts location))) ->
  runAt (richTexts location) (index r) rt -> Code (Annotation_ rt) = true ->
  index r <= i < index r + length (match0 r) ->
  exists v,
    readPath (setter location)
      (fst (Citations.extractCitationsFromBlock block config bibEntries)) = Some v
    /\ joinPlainText v = joinPlainText (richTexts location)
    /\ forall s, runAt v i s ->
         exists o, runAt (richTexts location) i o /\ fragmentOf o s.
Proof.
  intros Hp Hl Hr Hrun Hcode Hi.
  destruct (extractCitations_spec block config bibEntries pattern Hp) as [HL _].
  set (l' := rewritten (citationRewrite pattern bibEntries (styleOf config)) location).
  assert (Hl' : In l' (getAllRichTextLocations
                         (fst (Citations.extractCitationsFromBlock block config
                                 bibEntries)))).
  { rewrite HL. apply List.in_map_iff. now exists location. }
  assert (Hs : setter l' = setter location).
  { subst l'. unfold rewritten. now destruct (citationRewrite _ _ _ _). }
  exists (richTexts l'). split; [|split].
  - rewrite <- Hs. now apply readPath_location.
  - subst l'. rewrite rewritten_richTexts.
    apply (replaceMatches_inv pattern bibEntries (styleOf config) (richTexts location) []).
  - subst l'. rewrite rewritten_richTexts. unfold Citations.replaceMatches.
    intros s. apply fold_replace_runAt.
    + intros m Hm. apply List.in_rev in Hm.
      now apply findCitationMatches_wf with pattern.
    + intros m Hm. apply List.in_rev in Hm.
      now apply (code_match_apart_from_citations pattern (richTexts location) r rt).
Qed.

(** ** Matches in code runs *)

(** C5. A match that starts inside a code-annotated run is discarded, for
    the footnote pattern and for the citation patterns alike. Let position
    [p] of a location lie in a run whose Code annotation is true. Then
    - the footnote marker finder returns no marker that starts at [p], and
      the citation matcher keeps no match that starts at [p];
    - a block all of whose matches start in code runs has no footnote marker
      at all and comes out of citation extraction unchanged, with no
      citation recorded;
    - in a location that also has matches outside code, a footnote match
      that starts at [p] is never split into a marker span: after
      [splitRichTextWithMarkers] with the markers of the block, and after
      [extractFootnotesFromBlock] under any source and any answer of the
      comments provider, every character of the match is held by a fragment
      of the run that held it, with the flags that run had; and a footnote
      is only ever recorded for the key of a marker that starts outside
      code;
    - likewise a citation match that starts at [p] is never replaced: after
      [extractCitationsFromBlock] the location has the same text and every
      character of the match is held by a fragment of the run that held it;
      and it is never recorded: the citations are those of the kept matches,
      one each, and no other.
    The marker prefix is taken without regular expression metacharacters. *)
Theorem code_run_matches_are_discarded markerPrefix pattern location p rt :
  regexLiteral markerPrefix = true ->
  runAt (richTexts location) p rt ->
  Code (Annotation_ rt) = true ->
  (forall r, index r = p -> markerOfMatch location r = [])
  /\ (forall m, In m (findMarkersInLocation markerPrefix location) ->
        CharStart (Location m) <> p)
  /\ (forall m, In m (Citations.findCitationMatches pattern (richTexts location)) ->
        Citations.match_start m <> p)
  /\ (forall block,
        (forall l r, In l (getAllRichTextLocations block) ->
           In r (execAll (inlineMarkerPattern markerPrefix)
                   (joinPlainText (richTexts l))) ->
           exists rt', runAt (richTexts l) (index r) rt'
                       /\ Code (Annotation_ rt') = true) ->
        findAllFootnoteMarkers (getAllRichTextLocations block) markerPrefix = [])
  /\ (forall block config bibEntries,
        Citations.citationPatternOf (Citations.in_text_citation_format config)
        = Some pattern ->
        (forall l r, In l (getAllRichTextLocations block) ->
           In r (execAll pattern (joinPlainText (richTexts l))) ->
           exists rt', runAt (richTexts l) (index r) rt'
                       /\ Code (Annotation_ rt') = true) ->
        Citations.extractCitationsFromBlock block config bibEntries
        = (block, Citations.mkCitationResult [] false))
  /\ (forall block r i,
        In location (getAllRichTextLocations block) ->
        In r (execAll (inlineMarkerPattern markerPrefix)
                (joinPlainText (richTexts location))) ->
        index r = p -> p <= i < p + length (match0 r) ->
        let out :=
          splitRichTextWithMarkers location
            (findAllFootnoteMarkers (getAllRichTextLocations block) markerPrefix) in
        joinPlainText out = joinPlainText (richTexts location)
        /\ heldByFragment (richTexts location) out i)
  /\ (forall (urlPathname : jsstring -> option jsstring)
             (isConvImageType : jsstring -> bool) (OPTIMIZE_IMAGES : bool)
             block config hasCommentsClient r i,
        marker_prefix config = markerPrefix ->
        In location (getAllRichTextLocations block) ->
        In r (execAll (inlineMarkerPattern markerPrefix)
                (joinPlainText (richTexts location))) ->
        index r = p -> p <= i < p + length (match0 r) ->
        always
          (fun '(block', _) =>
             exists v, readPath (setter location) block' = Some v
                       /\ heldByFragment (richTexts location) v i)
          (extractFootnotesFromBlock urlPathname isConvImageType OPTIMIZE_IMAGES
             block config hasCommentsClient))
  /\ (forall block config bibEntries r i,
        Citations.citationPatternOf (Citations.in_text_citation_format config)
        = Some pattern ->
        In location (getAllRichTextLocations block) ->
        In r (execAll pattern (joinPlainText (richTexts location))) ->
        index r = p -> p <= i < p + length (match0 r) ->
        let result := Citations.extractCitationsFromBlock block config bibEntries in
        (exists v, readPath (setter location) (fst result) = Some v
                   /\ joinPlainText v = joinPlainText (richTexts location)
                   /\ heldByFragment (richTexts location) v i)
        /\ Citations.citations (snd result)
           = List.flat_map
               (fun l => resolvedCitations bibEntries (styleOf config)
                           (rev (Citations.findCitationMatches pattern (richTexts l))))
               (getAllRichTextLocations block))
  /\ (forall block config f,
        marker_prefix config = markerPrefix ->
        In f (footnotes (snd (extractEndOfBlockFootnotes block config))) ->
        exists m l rt',
          In m (findAllFootnoteMarkers (getAllRichTextLocations block) markerPrefix)
          /\ Marker m = Footnote_Marker f
          /\ In l (getAllRichTextLocations block)
          /\ runAt (richTexts l) (CharStart (Location m)) rt'
          /\ Code (Annotation_ rt') = false).
Proof.
  intros _ Hrun Hcode.
  split; [|split; [|split; [|split; [|split; [|split; [|split; [|split]]]]]]].
  - intros r <-. unfold markerOfMatch.
    destruct (findRun_runAt _ _ _ Hrun) as [i ->]. now rewrite Hcode.
  - intros m Hm Hp. unfold findMarkersInLocation in Hm.
    apply in_concat in Hm as (ms & Hms & Hm).
    apply List.in_map_iff in Hms as (r & <- & _).
    apply markerOfMatch_inv in Hm as (i & rt' & Hrun' & Hc & ->). simpl in Hp.
    subst p. rewrite (runAt_unique _ _ _ _ Hrun Hrun') in Hcode. congruence.
  - intros m Hm Hp. apply findCitationMatches_not_code in Hm as (rt' & Hrun' & Hc).
    subst p. rewrite (runAt_unique _ _ _ _ Hrun Hrun') in Hcode. congruence.
  - intros block H. now apply all_in_code_no_markers.
  - intros block config bibEntries Hp H.
    unfold Citations.extractCitationsFromBlock. rewrite Hp.
    destruct (length (getAllRichTextLocations block) =? 0); [reflexivity|].
    rewrite citationStep_no_matches; [reflexivity|].
    intros l Hl. apply all_in_code_no_citation_matches. intros r Hr. now apply (H l).
  - intros block r i Hl Hr <- Hi. cbv zeta. split.
    + rewrite splitRichTextWithMarkers_fold. apply fold_splitAtMarker_join.
    + intros s. apply splitRichTextWithMarkers_runAt. intros m Hm Hp.
      now apply (code_match_apart_from_markers block markerPrefix location r rt).
  - intros urlPathname isConvImageType OPTIMIZE_IMAGES block config hasCommentsClient
      r i <- Hl Hr <- Hi.
    apply extractFootnotes_runAt; [exact Hl|]. intros m Hm Hp.
    now apply (code_match_apart_from_markers block (marker_prefix config) location r rt).
  - intros block config bibEntries r i Hp Hl Hr <- Hi. cbv zeta. split.
    + destruct (citations_runAt block config bibEntries pattern location r rt i
                  Hp Hl Hr Hrun Hcode Hi) as (v & Hv & Hj & Hheld).
      exists v. split; [exact Hv|]. split; [exact Hj | exact Hheld].
    + now destruct (extractCitations_spec block config bibEntries pattern Hp).
  - intros block config f <- Hf.
    apply extractEndOfBlock_footnotes_inv in Hf as [(m & Hm & Hk) _].
    destruct (findAllFootnoteMarkers_not_code _ _ _ Hm) as (l & rt' & Hl & _ & Hr & Hc).
    now exists m, l, rt'.
Qed.

Lemma code_run_matches_are_discarded_witness :
  let rt := textSpan codeAnnotation (js "[@smith2020]") in
  regexLiteral (js "ft_") = true
  /\ runAt (richTexts citingLocation) 45 rt
  /\ Code (Annotation_ rt) = true
  /\ (forall m,
        In m (Citations.findCitationMatches pandocPattern (richTexts citingLocation)) ->
        Citations.match_start m <> 45)
  /\ In codeTokenMatch (execAll pandocPattern (joinPlainText (richTexts citingLocation)))
  /\ exists v,
       readPath (setter citingLocation)
         (fst (Citations.extractCitationsFromBlock citingBlock pandocConfig
                 exampleBibliography)) = Some v
       /\ joinPlainText v = joinPlainText (richTexts citingLocation)
       /\ heldByFragment (richTexts citingLocation) v 45.
Proof.
  intros rt.
  assert (Hrun : runAt (richTexts citingLocation) 45 rt).
  { exists [ textSpan plainAnnotation (js "Prior work ");
             textSpan boldAnnotation (js "[@smith2020]");
             textSpan plainAnnotation (js " shows [@doe2019] and ") ], [].
    split; [reflexivity|]. vm_compute. lia. }
  assert (Hl : In citingLocation (getAllRichTextLocations citingBlock))
    by (vm_compute; left; reflexivity).
  assert (Hr : In codeTokenMatch
                 (execAll pandocPattern (joinPlainText (richTexts citingLocation))))
    by (vm_compute; right; right; left; reflexivity).
  destruct (code_run_matches_are_discarded (js "ft_") pandocPattern citingLocation 45 rt
              eq_refl Hrun eq_refl) as (_ & _ & H3 & _ & _ & _ & _ & H8 & _).
  split; [reflexivity|]. split; [exact Hrun|]. split; [reflexivity|].
  split; [exact H3|]. split; [exact Hr|].
  refine (proj1 (H8 citingBlock pandocConfig exampleBibliography codeTokenMatch 45
                   eq_refl Hl Hr eq_refl _)).
  vm_compute. lia.
Defined.
